(* ===== verification/_CoqProject ===== *)
-Q . S2P
Prelude.v
Loops.v
Js.v
Dict.v
JsonText.v
JsonParse.v
Storage.v
ExpiredStorage.v
TestStorage.v
WebStorage.v
TestSuite.v
Expiry.v
Sweep.v
JsonItems.v
Spec.v
Machine.v
Guarantees.v
JsonMachine.v
Raw.v
Observe.v
Readme.v
Steps.v
Cost.v
Throwing.v
Caught.v
Tabs.v
Shared.v
Walk.v
Serial.v
Apart.v
Wrapper.v
