(* ===== verification/Prelude.v ===== *)
(** * ExpiredStorage: a verification development

    The program (src/dist/expired_storage.js) is one JavaScript class,
    [ExpiredStorage], that adds time-to-live semantics to any key-value
    store with the localStorage API.  For a logical key [k] it keeps the
    value under [k] and, when a time to live was given, the absolute expiry
    instant (epoch seconds) under the derived key
    ["__expired_storage_ts__" + k] of the same store.  Reads evict lazily,
    [clearExpired] sweeps actively.

    ** The parts of the program and the files that model them

    - [Prelude] (this file): the state monad in which the methods are
      written, its notations (scope [es_scope]), the tactics and the hint
      database [es] of the development, the loop [for_each] with its
      invariant rule, and the lemmas on strings and lists that the
      components share.
    - [Loops]: the two counting loops of [_iterKeys],
      [for (i = 0; i < keys.length; ++i) callback(keys[i])] ([for_loop])
      and the loop that collects [key(0)], ..., [key(len - 1)]
      ([collect_keys]), by well-founded recursion on what is left of the
      array (Equations).  [for_loop_for_each]: the loop is the fold
      [for_each]; [for_loop_calls]: it stops after [keys.length - i]
      calls, whatever the callback does to the store.
    - [Js]: the JavaScript the class relies on, from ECMAScript: values
      ([JSValue], [JSNumber]), truthiness, [ToString], [parseInt],
      [isNaN], [+] with a number on the left ([add_to_timestamp]),
      [indexOf] and [substr], and the interface [Json] of the global
      [JSON] with its laws [JsonLaws].  Its main result is that
      [parseInt] reads back the decimal text of any integer
      ([parseInt_string_pretty]).
    - [JsonText]: [JSON.stringify] and [JSON.parse], from ECMAScript.
      [JsonValue] has strings, arrays and objects, and [undefined], [NaN]
      and functions, which have no text; [stringify] is the printer with
      the escapes of QuoteJSONString; [parse_value], [parse_elements] and
      [parse_members] are the readers of the JSON grammar, with fuel;
      [JSON_parse_text] runs them with the length of the text for fuel.
      [parse_stringify_text]: the text of a value parses to [revive] of
      the value, which has the same text; [parse_stringify_plain]: a value
      without [undefined], [NaN] and functions comes back as it is.  The
      instance [JsonValue_JsonLaws] discharges the laws of [Js].
    - [JsonParse]: the parser on any text.  [JSON_parse_text_complete]:
      what is read with any fuel is read with the length of the text, so
      an error is an error of the text; [parse_value_progress]: a reader
      leaves less than it was given; [JSON_parse_text_wf]: no object read
      has the same name twice.
    - [Storage]: the backing store.  [StorageObject] is a candidate for the
      constructor's argument, whose members may be missing; [Storage] is
      the method table of a validated one ([this._storage]); [StorageLaws]
      is the interface the wrapper is proved against: an abstraction
      function [st_model] to a finite map, under which [setItem],
      [removeItem] and [clear] are insert, delete and the empty map, and
      under which [parseInt] sees in a stored value what it saw in the
      value written.
    - [ExpiredStorage]: the class.  The constructor is [ExpiredStorage_new]
      (an error or a method table); each method of the prototype is one
      definition of the same name, a computation over the [World]: the
      state of the store, the clock in milliseconds that [getTimestamp]
      divides by 1000, and whether the environment has [Object.keys].
      [_iterKeys] has its four branches; the callbacks that [keys] and
      [clearExpired] hand to it are [keys_callback] and
      [clearExpired_callback].  For each method a lemma [<method>_run]
      gives the value returned and the world left, with no assumption on
      the store, in terms of two views: [expiry key w], the instant the
      expiry record of [key] stands for, and [expired key w].
      [setJson] and [getJson] are written against the interface [Js.Json]
      of [JSON.stringify] and [JSON.parse]; what they throw is a value of
      [JsonError].
    - [Dict]: a JavaScript object used as a dictionary, an association
      list in creation order ([obj_get], [obj_set], [obj_delete],
      [obj_for_in]), and the finite map it stands for.
    - [TestStorage]: the custom storage class of the test suite
      (src/unnamed/part_000, [testStorage]) over a [Dict], the store of
      the README and of src/tests/tests.js ([ReadmeStore], whose
      [getItem] answers [undefined] for a key it does not hold), and a
      store without any way to list its keys ([BareStore]), on which
      [Object.keys] lists the members of the object; each with the proof
      that it satisfies [StorageLaws].  [OwnStore] is the storage the
      last branch of [_iterKeys] is written for, which none of the
      repository is: an object that keeps each entry as a property of
      its own.
    - [WebStorage]: [localStorage] and [sessionStorage], which the
      browser provides, from the Web Storage standard: keys and values
      are text, [setItem] converts what it is given ([localStorage_laws]).
    - [TestSuite]: the test file src/unnamed/part_000.  "Creation"
      ([test_creation]) and the four tests the file registers for each
      storage, "Basic set, get, clear and remove", "JSON get / set" on
      the object of the test, "Basic API on items with expiration" and
      "Clear expired", as computations over any store that return the
      values their assertions look at; [run_tests] runs the four one
      after the other over the same storage, as the loop over
      [storageTypes] has them run.  [test_suite_passes]: they give the
      values the assertions expect over web storage and over the custom
      store, whatever the storage holds when they start, with and without
      [Object.keys]; it is a run of the model on the inputs of the
      tests, evidence that the model is the class, and not one of the
      properties.  Their worlds ([browser], [web_browser],
      [before_sweep], [web_before_sweep]) are the concrete inputs at which
      the general theorems are instantiated.
    - [Expiry]: the life of one entry, over any store with [StorageLaws]:
      what [setItem], [updateExpiration], [getTimeLeft], [isExpired],
      [getItem], [peek], [removeItem] and [clear] do to an entry and its
      expiry record as time passes, and the inputs on which the code parts
      from its documentation (a time to live that is negative, is text, or
      lands the expiry on 0; a write without time to live over an expired
      entry; user keys that start with the prefix).
    - [Sweep]: [_iterKeys], [keys] and [clearExpired].  [key_snapshot] is
      the array [_iterKeys] walks on its first three branches, and
      [iterated w l] says that it walks [l] on whichever branch: on the
      last, [for ... in], the names that are properties of the storage
      object, for a store whose keys all are ([in_reflects_model]); the
      loop then skips the names the sweep has deleted, and sweeps as the
      array loops do ([for_in_sweep]).  [keys] is a filter of [l]
      ([keys_filter], [keys_spec]); [clearExpired] is the recursive
      [sweep] of it ([clearExpired_sweep]), after which no key is expired
      ([clearExpired_complete]), which returns only keys that were expired
      ([clearExpired_sound]) and, when no user key starts with the prefix,
      all of them ([clearExpired_exact]), and which deletes the values and
      records of the keys returned and nothing else
      ([clearExpired_model]).  On a store without a way to list its keys
      the sweep sees the members of the object and clears nothing
      ([clearExpired_blind]).  Where a user key starts with the prefix,
      the sweep of the entry stored under the record key of [key] takes
      the expiry of [key] away: whatever else the store holds, [key] is
      not returned, keeps its value and never expires again
      ([sweep_loses_expiry]).
    - [JsonItems]: [setJson] and [getJson] over any store with
      [StorageLaws] and any [JSON] with [Js.JsonLaws]: the guard, the
      round trip ([getJson_setJson]), absent and expired keys
      ([getJson_absent], [getJson_absent_undefined], [getJson_expired]),
      and the values the guard lets through ([setJson_unserializable]),
      each instantiated with the [JSON] of [JsonText].
    - [Spec]: the contract.  The abstract store [Spec] is two finite
      maps on the keys of the user: [spec_values], the value a key
      holds, and [spec_expiries], the instant at which it expires.  They
      are two maps because the class keeps them apart: a key may have an
      instant and no value, which is what [updateExpiration] leaves on a
      key that was never set.  Each method has a specification on the
      abstract store ([spec_setItem], [spec_updateExpiration],
      [spec_getItem], [spec_peek], ...).  [abs] reads the abstract store
      off the backing store: the entries whose key is not a record, and
      the instants [parseInt] reads in those that are; [inv] is the
      representation invariant (no key with an expiry record looks like
      a record itself).  A write of the class [touches] one key, and
      [abs_touches] gives the abstract store after it; the lemmas
      [refines_*] show that each method does to [abs] what its
      specification says.
    - [Machine]: the class as a state machine.  A [Call] is a call of one
      method (all but [setJson] and [getJson]) or the passing of time;
      [trace] runs a sequence of calls; [spec_steps] is the set of traces
      the specification allows.
      [trace_refinement]: every trace of the class, over a store whose
      keys [_iterKeys] walks ([ListableStorage], which the custom store,
      web storage and [OwnStore] without [Object.keys] are), of calls
      whose keys do not start with the prefix and whose times to live
      are covered at the instant of the call ([calls_ok_at]: any
      number, negative ones included, but 0 in [setItem] and those that
      land the expiry on the instant 0),
      is a trace of the specification, and [good] worlds stay [good]
      ([trace_invariant]).  Positive times to live are covered at every
      instant ([call_ok]), and the files below ask for them.  Through
      the specification: after a sweep [keys(true)] and [keys()] agree
      ([keys_after_clearExpired]) and a second sweep finds nothing
      ([clearExpired_twice]).
    - [Guarantees]: the guarantees of the library
      over any such sequence of calls, proved on the abstract machine
      ([holds], [vacant], [spec_run_keeps], [spec_run_fades]) and
      carried to the class by the refinement ([holds_served]): an entry
      set with a time to live is served until its instant unless it is
      written again ([served_until_expiry]), and is never served from
      that instant on unless it is set again ([never_served_expired]);
      [updateExpiration] gives the same to the value a key holds
      ([updateExpiration_served]) and, on a key that holds none, to the
      value set next without a time to live
      ([updateExpiration_inherited]); an entry set without a time to
      live under a key that has no record [lasts], and is served after
      any sequence of calls that do not write it, however long it takes
      ([served_for_ever]).
    - [JsonMachine]: [setJson] and [getJson] in sequences of calls.  A
      [JsonCall] is a call of the class or of one of the two; [lower]
      gives the call of the class it makes, none for [setJson] of
      [undefined].  The layer adds no state
      ([json_trace_lower]): a sequence of its calls is a trace of the
      abstract machine with the results of the layer
      ([json_trace_refinement]), and a value stored with a time to live
      is read back until its instant and is [null] from then on,
      whatever is called in between ([getJson_served], and
      [getJson_served_value] with the [JSON] of [JsonText]).
    - [Raw]: the calls a page makes to the store directly, beside the
      class, which keeps nothing of its own between calls.  A [RawCall]
      is a call of the class or of [setItem], [removeItem] or [getItem]
      of the store, on a [proper] key: one that does not start with the
      prefix, or the expiry record of one.  [spec_raw_setItem] and
      [spec_raw_removeItem] say what such a write is on the abstract
      store (a value written or removed with the expiry left as it was;
      a record written sets the expiry to what [parseInt] reads in it)
      and [raw_trace_refinement] that every mixed sequence is a trace of
      the abstract machine and keeps the world [good].  The persisted
      layout is thereby an interface: [record_removed_lives] (an entry
      whose record is removed by hand is served for ever).
    - [Observe]: what the class lets one observe of the store.  Worlds
      over one kind of store form a setoid: [w1 ≡ w2] when the stores
      stand for the same map and the clocks agree, whatever the order of
      a dictionary and whether there is [Object.keys]; the methods are
      morphisms ([Proper] instances), [keys] and [clearExpired] up to
      the order of the keys returned ([keys_alike],
      [clearExpired_alike]).  Across kinds of store,
      [store_independence]: web storage and a dictionary that stand for
      the same abstract store answer a sequence of calls alike, by the
      refinement of [Machine] and the determinism of the specification;
      [representation_independence] is the same for equivalent worlds.
    - [Readme]: the examples of src/README.md as computations
      ([readme_set], [readme_get], [readme_extended], [readme_update],
      [readme_clear], and [readme_usage] which runs them in turn), and
      the sentences that come with them as theorems: the item set for 60
      seconds is served until then ([readme_test_lives]), the item set
      without expiration for ever, if its key had no record
      ([readme_no_expire_lives]), [updateExpiration] gives 100 seconds
      from the current time ([readme_update_expiration]).
    - [Steps]: the execution of a method, call by call.  A [Request] is
      a call a method makes of its environment ([this._storage.getItem],
      [setItem], [removeItem], [clear], the ways [_iterKeys] lists the
      keys, the clock); a [Script] is a method body as the requests it
      makes, each with what is done with the answer.  Every method of
      the class is given again as a script ([setItem_script],
      [getItem_script], ..., [clearExpired_script]), with the text of
      the method of [ExpiredStorage] but for the calls, which are
      requests.  [run] runs a script to its end, [step] makes one
      request.  [script_run]: each script run to its end is the method
      of [ExpiredStorage], so that the files below are about the
      same methods as the rest (a link between the two forms of the
      model, not a property of the class); [requests] counts the requests of a
      script and [step_enough] shows that as many steps finish it.
      [asks_only] bounds the requests of a
      script: the methods that read make no request that writes
      ([reads_only_keys], ...), and no method but [setItem],
      [updateExpiration] and [setJson] asks the store to set anything
      ([never_sets_clearExpired], ...).
    - [Cost]: how many requests a method makes.  The methods of one
      entry make four at most ([entry_requests]); [keys] and
      [clearExpired] are linear in [walk_length], the number of names
      [_iterKeys] walks, on each of its four branches ([keys_requests]:
      4 + 3 n; [clearExpired_requests]: 5 + 5 n), and a sweep made one
      request at a time is finished after that many
      ([clearExpired_finishes]).
    - [Walk]: the keys asked for one by one.  On the branch of
      [_iterKeys] that reads [length] and then [key(i)], a storage area
      answers [null] out of range, which the model, where a key is a
      string, does not have.  [methods_in_range]: a method that runs
      alone never asks out of range, so the difference cannot be seen;
      [pages_in_range]: nor can it between two pages where the keys are
      listed in one request, by [keys()] or [Object.keys];
      [key_out_of_range]: it can where they are asked for one by one.
    - [Throwing]: the scripts over a store whose [setItem] can throw, as
      web storage does when its quota is exceeded ([quota_thrown]).
      [run_throwing] runs a script until a request throws; the class
      catches nothing, and the result is a value or what was thrown,
      with the world at the throw.  [only_setItem_throws]: the methods
      that never call [setItem] never throw;
      [setItem_throwing_returns]: a call of [setItem] that returns is
      the call of [ExpiredStorage.setItem]; [setItem_throwing_throws]:
      a call that throws has written nothing, or the value without its
      expiry record, and [setItem_torn_lives]: such a value is then
      served for ever.
    - [Caught]: sequences of calls over a store that throws, the caller
      catching what a call throws and going on ([trace_caught]).  A
      call that throws has done what another call does when it returns
      ([made]: nothing, or [setItem] without its time to live), so the
      sequence leaves the world of a sequence of calls that all return
      ([trace_caught_effective]).  [caught_refinement]: it is a trace
      of the abstract machine in which [setItem] and [updateExpiration]
      may fail ([spec_throws]); [caught_invariant]: the world stays
      [good]; [served_despite_throws]: an entry is served until its
      instant whatever the calls on other keys throw.
    - [Tabs]: two pages over one storage area.  [interleave] runs the
      scripts of two pages by a schedule that says which page makes the
      next request.  [interleave_reads_only]: a page that only reads
      does not disturb the other; [interleave_alone]: two scripts whose
      requests are on different keys each do what they would alone, by
      any schedule, the frame lemma that [Apart] applies to the
      methods; on one key, a [setItem] between the reads and
      the removes of [getItem] or of [clearExpired] is lost
      ([getItem_setItem_race], [clearExpired_setItem_race]), and two
      [setItem] can leave the value of one with the expiry of the other
      ([setItem_setItem_race]).
    - [Shared]: the invariant under two pages.  A request is [tidy]
      when it writes under a key that is not an expiry record or under
      the record of such a key; the requests of every call on a key
      that does not start with the prefix are ([tidy_call_script]), and
      a tidy request keeps the world [good] ([perform_good]).
      [interleave_good]: whatever two pages call and in whatever order
      their requests reach the store, the world is [good] after each
      request, so that [Machine] applies to the calls that follow a
      race.
    - [Serial]: two pages that make one call at a time.  [serial] is
      the schedule that lets each call make all its requests in turn;
      [serial_refinement]: the pages then get the results of the
      sequence of all their calls, which is a trace of the abstract
      machine.  [continues] follows a script through the requests of
      another without any equation between continuations.
    - [Apart]: two pages on entries of their own.  The methods of one
      entry ([setItem], [getItem], [getTimeLeft], [isExpired],
      [removeItem], [updateExpiration], [peek]) ask the store for the
      value and the expiry record of their key and for nothing else
      ([within_call_script]).  [calls_apart]: when no key of one page is
      a key of the other or the expiry record of one, each page gets,
      by any schedule that lets both finish, the results its calls have
      alone, and its entries are served afterwards as its calls alone
      leave them.
    - [Wrapper]: the end of the source file, which gives the class its
      version strings and hands it to the first module system it finds.
      [Env] is what the script tests and assigns ([define], [module],
      [exports], the root object); [register] is the [if ... else if]
      chain and [load] the script run once.  [load_registers]: the class
      goes to the first system found and the others are untouched;
      [load_exports_lost]: with [exports] alone nothing is exported.

    ** How the files depend on each other

    [Prelude], [Loops], [Js], [Dict], [Storage], [ExpiredStorage] and
    [Wrapper] are the model of the code; [JsonText] implements the
    interface [Js.Json], and [JsonParse] holds the theorems on its
    parser; [TestStorage] and [WebStorage] implement the interface of
    [Storage]; [TestSuite] runs the model; [Expiry], [Sweep] and
    [JsonItems] are the theorems method by method, proved against
    [StorageLaws] and [JsonLaws] alone; [Spec] and [Machine] are the
    contract and the refinement, proved from the lemmas of [Expiry] and
    [Sweep]; [Guarantees], [Observe], [JsonMachine] and [Raw] are proved
    from the refinement, [Readme] from [Expiry].  [Steps] gives the methods a
    second time, as scripts, and proves them equal to those of
    [ExpiredStorage]; [Cost] counts their requests;
    [Throwing] and [Tabs] are two more ways to run the scripts, and use
    the lemmas of [Expiry] for what the store holds afterwards;
    [Caught] and [Shared] carry the refinement and its invariant to
    those two ways of running, sequences of calls that throw and calls
    of two pages; [Serial] carries the refinement itself to two pages
    that make one call at a time, [Apart] shows that pages on
    different entries do not see each other, and [Walk] bounds the
    indices the scripts ask the store for.

    ** Conventions

    - A JavaScript method that mutates [this._storage] is a computation
      [State W A]: a function from the world before the call to the value
      returned and the world after it.  A closure variable that a callback
      updates ([ret] in [keys] and [clearExpired]) is the accumulator of a
      monadic fold.
    - An exception is a value of a sum type ([ExpiredStorage_new],
      [setJson], [getJson]); [setItem] of the store is total but in
      [Throwing], where what it throws leaves through the method with
      the state at the throw.
    - A method runs to its end without interruption, as JavaScript runs
      it, but in [Tabs], where the requests of another page on the same
      storage area come between its own.  A schedule is a list of
      [Page]s; a page that is finished lets its turn pass, so every
      schedule is defined on every pair of scripts and no fuel is
      needed.
    - A theorem that has hypotheses is followed by a lemma
      [<theorem>_witness] that applies it in a world of the test suite.
    - Nothing is assumed: every interface is a [Class] whose laws are
      discharged by the instances of the development.

    ** Bounds

    - Numbers are integers of any size, or [NaN]: a time to live with a
      fraction, [Infinity] and the loss of precision of doubles beyond
      2^53 are outside the model.  A theorem that speaks of a time to
      live of [d] seconds, for every [d : Z], is about the times to
      live that are whole numbers of seconds, which a double holds
      exactly up to 2^53.
    - The argument of [keys] is read by its truthiness, which is all
      the code tests: [includeExpired] is a [bool], and a call with any
      truthy value is the call with [true].
    - Strings are sequences of 8-bit code units.
    - The clock does not move during a call; between calls it moves by
      [advance].  The loops of the class need no fuel: each runs over an
      array read before the loop starts, and the counting loops recurse
      on [keys.length - i]; run one request at a time, a sweep of a
      store of n names needs 5 + 5 n steps
      ([Cost.clearExpired_finishes]).  The parser of JSON takes fuel,
      one unit for each nested call: the length of the text, which
      [JSON_parse_text_complete] shows to be enough for every text.
    - JSON numbers are integers: a text with a fraction or an exponent
      is read as an error.  An object is the list of its properties in
      creation order; [wf_value] says that no name is repeated, which
      [Js.json_wf] asks of the values handed to [setJson].
    - A member of a storage object is a function or is missing; the
      constructor's test, which is on truthiness, is read accordingly.
    - Property lookup on the dictionary of [TestStorage] sees own
      properties only.

    ** What is not modelled

    - Of [JSON]: [toJSON] methods, the [replacer], the [reviver] and the
      indentation, numbers that are not integers, code units above 255.
    - QUnit itself: the registration of the tests and the report.
    - What a module loader does with the factory [define] is handed or
      with the object [exports]: [Wrapper.obtained] states it from the
      module systems, not from the source.  A [module] that is [null],
      for which [typeof module === "object"] holds and [module.exports]
      throws: in [Wrapper.Env] a module is an object or is not there.
    - On the [for ... in] branch, properties that appear during the
      loop (a sweep adds none) and the properties a storage object
      inherits that are enumerable; [Storage.st_for_in] is the list of
      names the loop starts with.
    - The storage events of web storage, and stored keys that shadow a
      method of the storage object.  The quota is modelled in
      [Throwing]; a store whose [getItem], [removeItem] or [clear]
      throws is not.
    - The [null] that [key(i)] answers out of range: a key is a string,
      and [Walk] shows where that can be seen.
    - More than two pages, and the event loop of a page: in [Tabs] a
      page sees the other through the store only.  In [Steps] the test
      [typeof this._storage.keys === "function"] and the call
      [this._storage.keys()] are one request, and so are the test on
      [length] and its read.
*)

From Stdlib Require Export ZArith Lia.
From stdpp Require Export base tactics option list strings pretty gmap.

#[global] Open Scope string_scope.
#[global] Open Scope Z_scope.
#[global] Open Scope list_scope.

(** ** The state monad *)

Definition State (Σ A : Type) : Type := Σ → A * Σ.

#[export] Instance state_ret {Σ} : MRet (State Σ) := λ A a s, (a, s).

#[export] Instance state_bind {Σ} : MBind (State Σ) :=
  λ A B f m s, let '(a, s') := m s in f a s'.

(** The value a computation returns, and the state it leaves. *)
Definition eval {Σ A} (m : State Σ A) (s : Σ) : A := (m s).1.
Definition exec {Σ A} (m : State Σ A) (s : Σ) : Σ := (m s).2.

(** Read a component of the state; replace the state. *)
Definition gets {Σ A} (f : Σ → A) : State Σ A := λ s, (f s, s).
Definition modify {Σ} (f : Σ → Σ) : State Σ unit := λ s, (tt, f s).

(** [for (i = 0; i < keys.length; ++i) callback(keys[i])] over an array
    that the loop does not change, the callback updating its closure
    variable [a]. *)
Fixpoint for_each {Σ A B} (callback : B → A → State Σ A) (keys : list B)
    (a : A) : State Σ A :=
  match keys with
  | [] => mret a
  | k :: keys => a' ← callback k a; for_each callback keys a'
  end.

Declare Scope es_scope.
Delimit Scope es_scope with es.

(** [if (c) { m }] with no [else]. *)
Notation "'when' c 'do' m" := (if c then m ;; mret tt else mret tt)
  (at level 10, c at level 100, m at level 200, only parsing) : es_scope.
#[global] Open Scope es_scope.

(** ** Tactics *)

(** Unfold the monad down to pairs. *)
Ltac unfold_state :=
  unfold eval, exec, gets, modify, mbind, mret, state_bind, state_ret in *.

(** Case analysis on the scrutinee of the first [match] or [if] of the goal,
    keeping the equation. *)
Ltac case_goal :=
  match goal with
  | |- context [match ?x with _ => _ end] =>
      let E := fresh "E" in destruct x eqn:E
  end.

Create HintDb es discriminated.
Create Rewrite HintDb es.

(** ** The monad laws, on [eval] and [exec] *)

Section state_laws.
Context {Σ A B : Type}.
Implicit Types (m : State Σ A) (f : A → State Σ B) (s : Σ).

Lemma run_bind m f s : (m ≫= f) s = f (m s).1 (m s).2.
Proof. unfold_state. by destruct (m s). Qed.

Lemma run_ret (a : A) s : (mret a : State Σ A) s = (a, s).
Proof. done. Qed.

Lemma eval_bind m f s : eval (m ≫= f) s = eval (f (eval m s)) (exec m s).
Proof. unfold eval, exec. by rewrite run_bind. Qed.

Lemma exec_bind m f s : exec (m ≫= f) s = exec (f (eval m s)) (exec m s).
Proof. unfold eval, exec. by rewrite run_bind. Qed.

Lemma run_eval_exec m s : m s = (eval m s, exec m s).
Proof. unfold eval, exec. by destruct (m s). Qed.
End state_laws.

#[export] Hint Rewrite @eval_bind @exec_bind : es.

(** ** Loops *)

Section for_each.
Context {Σ A B : Type}.
Implicit Types (cb : B → A → State Σ A) (l : list B) (a : A) (s : Σ).

Lemma for_each_app cb l1 l2 a s :
  for_each cb (l1 ++ l2) a s =
  for_each cb l2 (for_each cb l1 a s).1 (for_each cb l1 a s).2.
Proof.
  revert a s. induction l1 as [|k l1 IH]; intros a s; [done|].
  simpl. rewrite !run_bind. apply IH.
Qed.

(** A loop invariant: what holds of the accumulator and the state before
    the loop and is kept by every call of the callback on a key of the
    array holds after the loop. *)
Lemma for_each_invariant (I : A → Σ → Prop) cb l a s :
  I a s →
  (∀ k a s, k ∈ l → I a s → I (cb k a s).1 (cb k a s).2) →
  I (for_each cb l a s).1 (for_each cb l a s).2.
Proof.
  revert a s. induction l as [|k l IH]; intros a s Ha Hstep; [done|].
  simpl. rewrite run_bind. apply IH.
  - apply Hstep; [left|done].
  - intros k' a' s' Hk'. apply Hstep. by right.
Qed.

(** A loop whose callback only reads the state is a fold. *)
Lemma for_each_pure (g : Σ → B → A → A) cb l a s :
  (∀ k a s, cb k a s = (g s k a, s)) →
  for_each cb l a s = (foldl (λ a k, g s k a) a l, s).
Proof.
  intros Hcb. revert a. induction l as [|k l IH]; intros a; [done|].
  simpl. rewrite run_bind, Hcb. apply IH.
Qed.
End for_each.

(** ** Strings *)

Section strings.
Implicit Types (p s k : string) (c : Ascii.ascii).

Lemma string_app_cons c s k : String c s +:+ k = String c (s +:+ k).
Proof. done. Qed.

Lemma string_app_nil_l k : "" +:+ k = k.
Proof. done. Qed.

Lemma string_app_length p k :
  String.length (p +:+ k) = (String.length p + String.length k)%nat.
Proof.
  induction p as [|c p IH]; [done|].
  rewrite string_app_cons. simpl. by rewrite IH.
Qed.

Lemma string_app_nil_r s : s +:+ "" = s.
Proof.
  induction s as [|c s IH]; [done|]. by rewrite string_app_cons, IH.
Qed.

Lemma string_app_assoc p s k : p +:+ (s +:+ k) = (p +:+ s) +:+ k.
Proof.
  induction p as [|c p IH]; [done|]. by rewrite !string_app_cons, IH.
Qed.

(** [String.prefix p s] holds exactly of the strings [p +:+ k]. *)
Lemma prefix_app p k : String.prefix p (p +:+ k) = true.
Proof.
  induction p as [|c p IH]; [by destruct k|].
  rewrite string_app_cons. simpl. by destruct (Ascii.ascii_dec c c).
Qed.

Lemma prefix_inv p s : String.prefix p s = true → ∃ k, s = p +:+ k.
Proof.
  revert s. induction p as [|c p IH]; intros s; [by exists s|].
  destruct s as [|c' s]; simpl; [done|].
  destruct (Ascii.ascii_dec c c') as [->|]; [|done].
  intros [k ->]%IH. by exists k.
Qed.

Lemma prefix_iff p s : String.prefix p s = true ↔ ∃ k, s = p +:+ k.
Proof.
  split; [apply prefix_inv|]. intros [k ->]. apply prefix_app.
Qed.

(** The first occurrence is at index 0 exactly when [p] is a prefix. *)
Lemma index_0_prefix p s :
  String.index 0 p s = Some 0%nat ↔ String.prefix p s = true.
Proof.
  destruct s as [|c s].
  - destruct p; simpl; naive_solver.
  - cbn [String.index]. destruct (String.prefix p (String c s)); [done|].
    destruct (String.index 0 p s); naive_solver.
Qed.

Lemma substring_all s : String.substring 0 (String.length s) s = s.
Proof. induction s as [|c s IH]; simpl; [done|by rewrite IH]. Qed.

(** Dropping the prefix gives back the suffix. *)
Lemma substring_drop_app p k :
  String.substring (String.length p)
    (String.length (p +:+ k) - String.length p) (p +:+ k) = k.
Proof.
  induction p as [|c p IH].
  - rewrite string_app_nil_l. simpl. rewrite Nat.sub_0_r.
    apply substring_all.
  - rewrite string_app_cons. apply IH.
Qed.
End strings.

(** ** Integers *)

Lemma Z_leb_decide (a b : Z) : (a <=? b) = bool_decide (a ≤ b).
Proof.
  destruct (Z.leb_spec a b); symmetry;
    [by apply bool_decide_eq_true|apply bool_decide_eq_false; lia].
Qed.

(** ** Lists *)

Section lists.
Context {A : Type}.
Context (P : A → Prop) `{!∀ x, Decision (P x)}.
Implicit Types (l : list A).

(** [ret.push(k)] on the elements that pass a test is [filter]. *)
Lemma foldl_snoc_filter l acc :
  foldl (λ a k, if decide (P k) then a ++ [k] else a) acc l =
  acc ++ filter P l.
Proof.
  revert acc. induction l as [|x l IH]; intros acc; csimpl.
  - by rewrite app_nil_r.
  - rewrite IH, filter_cons. case_decide; [|done]. by rewrite <- app_assoc.
Qed.

Lemma filter_all l : Forall P l → filter P l = l.
Proof.
  induction 1 as [|x l Hx Hl IH]; [done|]. by rewrite filter_cons_True, IH.
Qed.
End lists.

Lemma forallb_Forall {A} (f : A → bool) (l : list A) :
  forallb f l = true ↔ Forall (λ x, f x = true) l.
Proof.
  induction l as [|x l IH]; cbn; [done|].
  by rewrite andb_true_iff, Forall_cons, IH.
Qed.
