(* ===== verification/Loops.v ===== *)
(** * Loops: the counting loops of [_iterKeys]

    [_iterKeys] walks an array with [for (var i = 0; i < keys.length; ++i)
    callback(keys[i])], and builds the array of the keys of a web storage
    with [for (var i = 0, len = storage.length; i < len; ++i)
    keys.push(storage.key(i))].  Both are written here as they are in the
    source, with the counter [i]: they recurse on [i + 1], which is not a
    subterm of [i], and terminate because [keys.length - i] (or
    [len - i]) decreases at each turn.  [for_loop] is then shown to be
    [Prelude.for_each], the fold over the array the theorems of the
    development reason with, and [collect_keys] to be the map of [key]
    over [0, ..., len - 1]: whatever the callback does to the store, the
    loop calls it once on each element of the array, in order, and
    stops. *)

From Equations Require Import Equations.
From S2P Require Import Prelude.

(** The equations of the loops are proved from the extensionality of
    their bodies, not from the axiom of functional extensionality. *)
#[local] Unset Equations With Funext.

(** A value with the equation that it is what was inspected: the
    obligations of a recursive call under a [match] need it. *)
Definition inspect {A} (a : A) : {b | a = b} := exist _ a eq_refl.

Section loops.
Context {Σ A B : Type}.
Implicit Types (callback : B → A → State Σ A) (keys : list B) (i : nat).

(** [for (; i < keys.length; ++i) callback(keys[i])], the callback
    updating its closure variable [a]; a computation [State Σ A], written
    with the state [s] passed by hand so that the recursive call is not
    under a binder. *)
Equations? for_loop callback keys i (a : A) (s : Σ) : A * Σ
    by wf (length keys - i)%nat lt :=
  for_loop callback keys i a s with inspect (keys !! i) := {
    | exist _ (Some k) Hk =>
        let r := callback k a s in for_loop callback keys (S i) r.1 r.2
    | exist _ None _ => (a, s) }.
Proof. apply lookup_lt_Some in Hk. lia. Qed.

(** The callback with a counter of its calls beside its variable. *)
Definition counting callback (k : B) (na : nat * A) : State Σ (nat * A) :=
  a' ← callback k na.2; mret (S na.1, a').
End loops.

(** [for (; i < len; ++i) keys.push(key(i))] *)
Equations? collect_keys (key : nat → string) (len i : nat)
    (keys : list string) : list string by wf (len - i)%nat lt :=
  collect_keys key len i keys with decide (i < len)%nat := {
    | left _ => collect_keys key len (S i) (keys ++ [key i])
    | right _ => keys }.
Proof. lia. Qed.

(** * The loops are folds *)

Section for_loop.
Context {Σ A B : Type}.
Implicit Types (callback : B → A → State Σ A) (keys : list B) (i : nat).

Lemma for_loop_drop callback keys i a s :
  for_loop callback keys i a s = for_each callback (drop i keys) a s.
Proof.
  funelim (for_loop callback keys i a s).
  - by rewrite (drop_S _ _ _ Hk); cbn [for_each]; rewrite !run_bind.
  - by rewrite drop_ge by by apply lookup_ge_None.
Qed.

Lemma for_loop_run callback keys a s :
  for_loop callback keys 0 a s = for_each callback keys a s.
Proof. apply for_loop_drop. Qed.

(** The loop with its counter at [i] calls the callback on the elements
    of the array from index [i] on, in order, as the fold [for_each]
    does. *)
Theorem for_loop_for_each callback keys i a s :
  for_loop callback keys i a s = for_each callback (drop i keys) a s.
Proof. apply for_loop_drop. Qed.

Lemma counting_run callback k (na : nat * A) s :
  counting callback k na s =
  ((S na.1, (callback k na.2 s).1), (callback k na.2 s).2).
Proof. unfold counting. by rewrite run_bind, run_ret. Qed.

Lemma for_each_counting callback keys n a s :
  for_each (counting callback) keys (n, a) s =
  let r := for_each callback keys a s in (((n + length keys)%nat, r.1), r.2).
Proof.
  revert n a s.
  induction keys as [|k keys IH]; intros n a s; cbn [for_each length].
  { by rewrite !run_ret, Nat.add_0_r. }
  rewrite !run_bind, counting_run. cbn [fst snd]. rewrite IH. cbn zeta.
  by rewrite Nat.add_succ_r.
Qed.
End for_loop.

(** The loop stops: from the counter [i] it makes [keys.length - i] calls
    of the callback, whatever the callback does to the state, and what
    it returns is what the callback made of [a] on the way. *)
Theorem for_loop_calls {Σ A B} (callback : B → A → State Σ A) keys i n a s :
  for_loop (counting callback) keys i (n, a) s =
  let r := for_loop callback keys i a s in
  (((n + (length keys - i))%nat, r.1), r.2).
Proof.
  rewrite !for_loop_drop, for_each_counting. by rewrite length_drop.
Qed.

Lemma collect_keys_from key len i keys :
  collect_keys key len i keys = keys ++ (key <$> seq i (len - i)).
Proof.
  funelim (collect_keys key len i keys).
  - match goal with IH : _ = _ ++ _ |- _ => rewrite IH end.
    replace (len - i)%nat with (S (len - S i)) by lia.
    by rewrite <- app_assoc.
  - replace (len - i)%nat with 0%nat by lia. by rewrite app_nil_r.
Qed.

Lemma collect_keys_run key len :
  collect_keys key len 0 [] = key <$> seq 0 len.
Proof. by rewrite collect_keys_from, Nat.sub_0_r. Qed.

(** The loop that builds the array pushes [key(i)], ..., [key(len - 1)],
    in this order, and nothing when the counter is past [len]; from 0 and
    the empty array, the array built holds the [len] keys. *)
Theorem collect_keys_seq key len i keys :
  collect_keys key len i keys = keys ++ (key <$> seq i (len - i)) ∧
  collect_keys key len 0 [] = key <$> seq 0 len ∧
  length (collect_keys key len 0 []) = len.
Proof.
  split_and!; [apply collect_keys_from|apply collect_keys_run|].
  by rewrite collect_keys_run, length_fmap, length_seq.
Qed.
