(* ===== verification/Js.v ===== *)
(** * Js: the JavaScript values and built-ins the library depends on

    [ExpiredStorage] is written against a handful of language primitives:
    truthiness ([if (expiration)], [expireTime && ...]), [parseInt],
    [isNaN], the [+] operator applied to a timestamp, [String.prototype.indexOf]
    and [substr].  This file gives them as executable functions on a small
    universe of primitive values, following ECMAScript, and proves the facts
    the wrapper needs: an expiry instant written as a number or as its
    decimal text parses back to itself, an absent entry parses to [NaN], and
    [indexOf(prefix) === 0] / [substr(prefix.length)] recognise and undo the
    derived key.

    Bounds of the model: numbers are the integers (no fractions, no
    infinities, no negative zero) and [NaN]; they print in plain decimal,
    as JavaScript prints an integer of magnitude below 10^21.  Strings are
    sequences of 8-bit code units. *)

From Stdlib Require Import Ascii.
From S2P Require Import Prelude.

(** ** Values *)

Inductive JSNumber : Type :=
  | Num (n : Z)
  | NaN.

Inductive JSValue : Type :=
  | JUndefined
  | JNull
  | JBool (b : bool)
  | JNumber (x : JSNumber)
  | JString (s : string).

#[export] Instance JSNumber_eq_dec : EqDecision JSNumber.
Proof. solve_decision. Defined.

#[export] Instance JSValue_eq_dec : EqDecision JSValue.
Proof. solve_decision. Defined.

#[export] Instance JSValue_inhabited : Inhabited JSValue := populate JUndefined.

Coercion JNumber : JSNumber >-> JSValue.

(** ** Truthiness (ToBoolean) *)

Definition number_truthy (x : JSNumber) : bool :=
  match x with
  | Num n => negb (n =? 0)
  | NaN => false
  end.

Definition truthy (v : JSValue) : bool :=
  match v with
  | JUndefined | JNull => false
  | JBool b => b
  | JNumber x => number_truthy x
  | JString s => negb (String.eqb s "")
  end.

(** ** ToString *)

Definition number_to_string (x : JSNumber) : string :=
  match x with
  | Num n => pretty n
  | NaN => "NaN"
  end.

Definition ToString (v : JSValue) : string :=
  match v with
  | JUndefined => "undefined"
  | JNull => "null"
  | JBool true => "true"
  | JBool false => "false"
  | JNumber x => number_to_string x
  | JString s => s
  end.

(** ** parseInt (radix left undefined) and isNaN *)

(** StrWhiteSpaceChar, among the 8-bit code units: TAB, LF, VT, FF, CR,
    SP and NBSP. *)
Definition is_white (c : ascii) : bool :=
  bool_decide (N_of_ascii c ∈ [9; 10; 11; 12; 13; 32; 160]%N).

Definition digit_of_char (c : ascii) : option N :=
  let n := Ascii.N_of_ascii c in
  if decide (48 ≤ n ≤ 57)%N then Some (n - 48)%N
  else if decide (97 ≤ n ≤ 122)%N then Some (n - 87)%N
  else if decide (65 ≤ n ≤ 90)%N then Some (n - 55)%N
  else None.

Definition digit_val (radix : N) (c : ascii) : option N :=
  match digit_of_char c with
  | Some d => if decide (d < radix)%N then Some d else None
  | None => None
  end.

(** The longest run of digits at the head of [s]; [acc] is [None] until a
    digit was read. *)
Fixpoint parse_digits (radix : N) (s : string) (acc : option N) : option N :=
  match s with
  | String c s' =>
      match digit_val radix c with
      | Some d => parse_digits radix s' (Some (default 0 acc * radix + d)%N)
      | None => acc
      end
  | "" => acc
  end.

Fixpoint skip_white (s : string) : string :=
  match s with
  | String c s' => if is_white c then skip_white s' else s
  | "" => ""
  end.

Definition strip_sign (s : string) : bool * string :=
  match s with
  | String c s' =>
      if (c =? "-")%char then (true, s')
      else if (c =? "+")%char then (false, s')
      else (false, s)
  | "" => (false, s)
  end.

Definition strip_hex_prefix (s : string) : N * string :=
  match s with
  | String c0 (String c1 s') =>
      if (c0 =? "0")%char && ((c1 =? "x")%char || (c1 =? "X")%char)
      then (16%N, s') else (10%N, s)
  | _ => (10%N, s)
  end.

Definition parseInt_string (s : string) : JSNumber :=
  let '(negative, s) := strip_sign (skip_white s) in
  let '(radix, s) := strip_hex_prefix s in
  match parse_digits radix s None with
  | Some m => Num (if negative then - Z.of_N m else Z.of_N m)
  | None => NaN
  end.

Definition parseInt (v : JSValue) : JSNumber := parseInt_string (ToString v).

Definition isNaN (x : JSNumber) : bool :=
  match x with
  | NaN => true
  | Num _ => false
  end.

(** ** [timestamp + expiration]

    The left operand is the number [getTimestamp()] returns; the right one
    is whatever the caller passed as time to live.  A string operand makes
    [+] concatenate. *)
Definition add_to_timestamp (ts : Z) (expiration : JSValue) : JSValue :=
  match expiration with
  | JNumber (Num e) => Num (ts + e)
  | JNumber NaN => NaN
  | JString s => JString (pretty ts +:+ s)
  | JBool b => Num (ts + bool_to_Z b)
  | JNull => Num ts
  | JUndefined => NaN
  end.

(** ** String methods *)

(** [s.indexOf(search)]: the index of the first occurrence, or -1. *)
Definition indexOf (s search : string) : Z :=
  match String.index 0 search s with
  | Some i => Z.of_nat i
  | None => -1
  end.

(** [s.substr(start)]: the code units from [start] to the end. *)
Definition substr (s : string) (start : nat) : string :=
  String.substring start (String.length s - start) s.

(** ** JSON

    The global [JSON] object, over a type [V] of the values a program may
    hand to [JSON.stringify]. *)

Class Json (V : Type) : Type := {
  (** [undefined] *)
  json_undefined : V;
  (** [null] *)
  json_null : V;
  (** [val === undefined] *)
  is_undefined : V → bool;
  (** [JSON.stringify(val)]: a text, or [undefined] *)
  JSON_stringify : V → option string;
  (** [JSON.parse(text)]: a value, or a [SyntaxError] *)
  JSON_parse : string → option V;
  (** the values of JavaScript among those of [V], where [V] has more
      (an object written with the same name twice) *)
  json_wf : V → Prop;
}.

#[global] Hint Mode Json ! : typeclass_instances.

(** What [JSON] promises: [undefined] has no text; [null] is written
    "null"; a text that [stringify] produced for a value of JavaScript
    parses, to a value of JavaScript that is written the same; the text
    "undefined" is not JSON. *)
Class JsonLaws (V : Type) `{Json V} : Prop := {
  is_undefined_spec (v : V) : is_undefined v = true ↔ v = json_undefined;
  stringify_undefined : JSON_stringify (json_undefined : V) = None;
  stringify_null : JSON_stringify (json_null : V) = Some "null";
  parse_null : JSON_parse "null" = Some (json_null : V);
  parse_stringify (v : V) text :
    json_wf v → JSON_stringify v = Some text →
    ∃ v' : V,
      JSON_parse text = Some v' ∧ json_wf v' ∧ JSON_stringify v' = Some text;
  parse_undefined : JSON_parse "undefined" = (None : option V);
}.

#[global] Hint Mode JsonLaws ! - : typeclass_instances.

(** What [setItem] is handed for [JSON.stringify(val)]. *)
Definition stringified `{Json V} (val : V) : JSValue :=
  from_option JString JUndefined (JSON_stringify val).

(** * Properties *)

(** ** Strings *)

Lemma indexOf_0_prefix s p : indexOf s p = 0 ↔ String.prefix p s = true.
Proof.
  unfold indexOf. rewrite <- index_0_prefix.
  destruct (String.index 0 p s) as [i|]; [|done].
  split; [intros ?; f_equal; lia|by intros [= ->]].
Qed.

Lemma indexOf_app p k : indexOf (p +:+ k) p = 0.
Proof. apply indexOf_0_prefix, prefix_app. Qed.

Lemma substr_app p k : substr (p +:+ k) (String.length p) = k.
Proof. apply substring_drop_app. Qed.

(** ** Digits *)

Definition is_digit (c : ascii) : bool :=
  bool_decide (48 ≤ N_of_ascii c ≤ 57)%N.

Fixpoint all_digits (s : string) : bool :=
  match s with
  | String c s' => is_digit c && all_digits s'
  | "" => true
  end.

Lemma digit_val_pretty d :
  (d < 10)%N → digit_val 10 (pretty_N_char d) = Some d.
Proof.
  intros Hd.
  assert (d = 0 ∨ d = 1 ∨ d = 2 ∨ d = 3 ∨ d = 4 ∨ d = 5 ∨ d = 6 ∨ d = 7
    ∨ d = 8 ∨ d = 9)%N by lia.
  by destruct_or!; subst.
Qed.

Lemma is_digit_pretty d : is_digit (pretty_N_char d) = true.
Proof. unfold pretty_N_char. by repeat case_match. Qed.

Lemma is_digit_not_white c : is_digit c = true → is_white c = false.
Proof.
  unfold is_digit, is_white. intros ?%bool_decide_eq_true.
  apply bool_decide_eq_false. set_unfold. lia.
Qed.

Lemma is_digit_neq c c' : is_digit c = true → is_digit c' = false → (c =? c')%char = false.
Proof. intros ??. destruct (Ascii.eqb_spec c c'); congruence. Qed.

Lemma pretty_N_go_app x s : pretty_N_go x s = pretty_N_go x "" +:+ s.
Proof.
  revert s. induction (N.lt_wf_0 x) as [x _ IH]; intros s.
  destruct (decide (x = 0)%N) as [->|]; [by rewrite !pretty_N_go_0|].
  assert (x `div` 10 < x)%N as Hlt by (apply N.div_lt; lia).
  rewrite !(pretty_N_go_step x) by lia.
  rewrite (IH _ Hlt (String _ s)), (IH _ Hlt (String _ "")).
  by rewrite <- string_app_assoc.
Qed.

Lemma all_digits_app s1 s2 :
  all_digits (s1 +:+ s2) = all_digits s1 && all_digits s2.
Proof.
  induction s1 as [|c s1 IH]; [done|].
  rewrite string_app_cons. simpl. by rewrite IH, andb_assoc.
Qed.

Lemma all_digits_pretty_N_go x : all_digits (pretty_N_go x "") = true.
Proof.
  induction (N.lt_wf_0 x) as [x _ IH].
  destruct (decide (x = 0)%N) as [->|]; [done|].
  assert (x `div` 10 < x)%N as Hlt by (apply N.div_lt; lia).
  rewrite pretty_N_go_step, pretty_N_go_app, all_digits_app by lia.
  rewrite (IH _ Hlt). simpl.
  by rewrite is_digit_pretty.
Qed.

(** Reading back the digits that [pretty] wrote. *)
Lemma parse_digits_pretty_N_go x s :
  parse_digits 10 (pretty_N_go x "" +:+ s) None =
  parse_digits 10 s (if decide (x = 0)%N then None else Some x).
Proof.
  revert s. induction (N.lt_wf_0 x) as [x _ IH]; intros s.
  destruct (decide (x = 0)%N) as [->|Hx]; [done|].
  rewrite pretty_N_go_step, pretty_N_go_app by lia.
  assert (x `div` 10 < x)%N as Hlt by (apply N.div_lt; lia).
  rewrite <- string_app_assoc, string_app_cons, string_app_nil_l.
  rewrite (IH _ Hlt). simpl.
  rewrite digit_val_pretty by (apply N.mod_lt; lia).
  f_equal. f_equal. pose proof (N.div_mod x 10).
  case_decide as Hq; simpl; [rewrite Hq in *|]; lia.
Qed.

Lemma strip_hex_prefix_digits s :
  all_digits s = true → strip_hex_prefix s = (10%N, s).
Proof.
  destruct s as [|c0 [|c1 s]]; [done..|]. simpl.
  intros [_ [Hc1 _]%andb_true_iff]%andb_true_iff.
  by rewrite !(is_digit_neq c1), andb_false_r.
Qed.

Lemma parse_digits_pretty (x : N) :
  x ≠ 0%N → parse_digits 10 (pretty x) None = Some x.
Proof.
  intros Hx. unfold pretty, pretty_N. rewrite decide_False by done.
  rewrite <- (string_app_nil_r (pretty_N_go x "")).
  rewrite parse_digits_pretty_N_go. by rewrite decide_False.
Qed.

Lemma all_digits_pretty (x : N) : all_digits (pretty x) = true.
Proof.
  unfold pretty, pretty_N. case_decide; [done|apply all_digits_pretty_N_go].
Qed.

(** On a string of digits the sign, the hexadecimal prefix and the leading
    white space play no part. *)
Lemma parseInt_string_digits s :
  all_digits s = true →
  parseInt_string s =
    match parse_digits 10 s None with
    | Some m => Num (Z.of_N m)
    | None => NaN
    end.
Proof.
  intros Hs. unfold parseInt_string. destruct s as [|c0 s]; [done|].
  assert (is_digit c0 = true) as Hc0.
  { simpl in Hs. by apply andb_true_iff in Hs as [? _]. }
  simpl.
  rewrite (is_digit_not_white c0) by done. simpl.
  rewrite !(is_digit_neq c0) by done.
  by rewrite strip_hex_prefix_digits.
Qed.

(** The decimal text of an integer parses back to that integer: an
    expiry instant survives a store that keeps text. *)
Lemma parseInt_string_pretty (n : Z) : parseInt_string (pretty n) = Num n.
Proof.
  destruct n as [|p|p]; [done|..].
  - change (pretty (Z.pos p)) with (pretty (N.pos p)).
    rewrite parseInt_string_digits by apply all_digits_pretty.
    by rewrite parse_digits_pretty.
  - change (pretty (Z.neg p)) with ("-" +:+ pretty (N.pos p)).
    unfold parseInt_string. rewrite string_app_cons, string_app_nil_l.
    simpl. rewrite strip_hex_prefix_digits by apply all_digits_pretty.
    by rewrite parse_digits_pretty.
Qed.

(** A number, or its text, given to [parseInt] comes back unchanged. *)
Lemma parseInt_number (n : Z) : parseInt (Num n) = Num n.
Proof. apply parseInt_string_pretty. Qed.

Lemma parseInt_number_text (n : Z) : parseInt (JString (pretty n)) = Num n.
Proof. apply parseInt_string_pretty. Qed.

(** [parseInt] reads its argument through [ToString]. *)
Lemma parseInt_ToString v : parseInt (JString (ToString v)) = parseInt v.
Proof. done. Qed.

(** What a store answers for an absent key, [null] or [undefined], is not
    a number. *)
Lemma parseInt_null : parseInt JNull = NaN.
Proof. done. Qed.

Lemma parseInt_undefined : parseInt JUndefined = NaN.
Proof. done. Qed.

(** [parseInt] on inputs that are not the text of an integer. *)
Example parseInt_examples :
  parseInt_string "  42px" = Num 42 ∧ parseInt_string "0x1F" = Num 31 ∧
  parseInt_string "-7" = Num (-7) ∧ parseInt_string "+7" = Num 7 ∧
  parseInt_string "" = NaN ∧ parseInt_string "abc" = NaN ∧
  parseInt_string "-" = NaN ∧ parseInt_string "0x" = NaN ∧
  parseInt_string "010" = Num 10 ∧ parseInt_string "1e3" = Num 1.
Proof. by vm_compute. Qed.

#[export] Hint Rewrite parseInt_number parseInt_number_text parseInt_null
  parseInt_undefined indexOf_app substr_app : es.
