(* ===== verification/Dict.v ===== *)
(** * Dict: a JavaScript object used as a dictionary

    The stores of the test suite and of the README keep their entries in
    a plain object, [this._storage], and web storage keeps an ordered list
    of key and value pairs.  Both are association lists here, in the order
    in which the keys were created, which is the order [for ... in],
    [Object.keys] and [key(i)] follow.  The lemmas relate the list to the
    finite map it stands for.

    Bounds: property lookup sees own properties only (what a dictionary
    inherits from [Object.prototype] is not modelled), and integer-like
    keys are listed in creation order like the others. *)

From S2P Require Import Prelude.

Section dict.
Context {V : Type}.
Implicit Types (o : list (string * V)) (k key : string) (v val : V).

(** [o[key]]: [None] is [undefined]. *)
Fixpoint obj_get o key : option V :=
  match o with
  | [] => None
  | (k, v) :: o' => if decide (k = key) then Some v else obj_get o' key
  end.

(** [o[key] = val]: an existing property keeps its place. *)
Fixpoint obj_set o key val : list (string * V) :=
  match o with
  | [] => [(key, val)]
  | (k, v) :: o' =>
      if decide (k = key) then (k, val) :: o' else (k, v) :: obj_set o' key val
  end.

(** [delete o[key]] *)
Definition obj_delete o key : list (string * V) :=
  filter (λ kv, kv.1 ≠ key) o.

(** [o.hasOwnProperty(key)] *)
Definition obj_hasOwnProperty o key : Prop := key ∈ o.*1.

#[export] Instance obj_hasOwnProperty_dec o key :
  Decision (obj_hasOwnProperty o key).
Proof. unfold obj_hasOwnProperty. apply _. Defined.
#[global] Typeclasses Opaque obj_hasOwnProperty.

(** The property names [for (key in o)] visits. *)
Definition obj_for_in o : list string := o.*1.

(** * The dictionary is a finite map *)

Lemma obj_get_lookup o key :
  obj_get o key = (list_to_map o : gmap string V) !! key.
Proof.
  induction o as [|[k v] o IH]; [done|]. csimpl.
  case_decide as Hk; [subst; by rewrite lookup_insert_eq|].
  by rewrite lookup_insert_ne.
Qed.

Lemma obj_set_to_map o key val :
  (list_to_map (obj_set o key val) : gmap string V) =
  <[key := val]> (list_to_map o).
Proof.
  induction o as [|[k v] o IH]; [done|]. csimpl.
  case_decide as Hk; csimpl.
  - subst. by rewrite insert_insert_eq.
  - by rewrite IH, insert_insert_ne.
Qed.

Lemma obj_delete_to_map o key :
  (list_to_map (obj_delete o key) : gmap string V) =
  delete key (list_to_map o).
Proof.
  unfold obj_delete.
  induction o as [|[k v] o IH]; [cbn; symmetry; apply delete_empty|].
  rewrite filter_cons. csimpl. case_decide as Hk; csimpl.
  - by rewrite IH, delete_insert_ne.
  - subst. by rewrite IH, delete_insert_eq.
Qed.

(** A new key goes to the end; an old one stays where it is. *)
Lemma obj_set_keys o key val :
  (obj_set o key val).*1 = if decide (key ∈ o.*1) then o.*1 else o.*1 ++ [key].
Proof.
  induction o as [|[k v] o IH]; [done|]. csimpl.
  destruct (decide (k = key)) as [->|Hk]; csimpl.
  - by rewrite decide_True by set_solver.
  - rewrite IH. destruct (decide (key ∈ o.*1)) as [Hin|Hin].
    + by rewrite decide_True by set_solver.
    + by rewrite decide_False by set_solver.
Qed.

Lemma obj_delete_keys o key :
  (obj_delete o key).*1 = filter (λ k, k ≠ key) o.*1.
Proof.
  unfold obj_delete. induction o as [|[k v] o IH]; [done|].
  rewrite filter_cons. csimpl. rewrite filter_cons.
  case_decide; csimpl; by rewrite IH.
Qed.

Lemma obj_set_NoDup o key val : NoDup o.*1 → NoDup (obj_set o key val).*1.
Proof.
  intros Ho. rewrite obj_set_keys. case_decide; [done|].
  apply NoDup_app. split_and!; [done|set_solver|apply NoDup_singleton].
Qed.

Lemma obj_delete_NoDup o key : NoDup o.*1 → NoDup (obj_delete o key).*1.
Proof. intros Ho. rewrite obj_delete_keys. by apply NoDup_filter. Qed.

(** A new property goes to the end. *)
Lemma obj_set_fresh o key val :
  key ∉ o.*1 → obj_set o key val = o ++ [(key, val)].
Proof.
  induction o as [|[k v] o IH]; [done|]. csimpl. intros Hk.
  rewrite decide_False by set_solver. f_equal. apply IH. set_solver.
Qed.

(** What holds of the values of an object holds of them after a value of
    which it holds is set. *)
Lemma obj_set_Forall (P : V → Prop) o key val :
  Forall (λ kv, P kv.2) o → P val → Forall (λ kv, P kv.2) (obj_set o key val).
Proof.
  intros Ho Hval. induction Ho as [|[k v] o Hv Ho IH]; cbn.
  { by repeat constructor. }
  case_decide; constructor; done.
Qed.

(** Properties of distinct names, set one after the other, make the list
    of them. *)
Lemma foldl_obj_set_fresh o l :
  NoDup (o.*1 ++ l.*1) → foldl (λ o kv, obj_set o kv.1 kv.2) o l = o ++ l.
Proof.
  revert o. induction l as [|[k v] l IH]; intros o Hnd.
  { by rewrite app_nil_r. }
  csimpl in *. rewrite obj_set_fresh, IH, <- app_assoc; [done|..].
  - rewrite fmap_app, <- app_assoc. done.
  - apply NoDup_app in Hnd as (_ & Hnd & _). set_solver.
Qed.

(** The keys of the list are the domain of the map. *)
Lemma obj_keys_lookup o key :
  key ∈ o.*1 ↔ is_Some ((list_to_map o : gmap string V) !! key).
Proof.
  split.
  - intros Hk. apply not_eq_None_Some. intros Hn.
    by apply not_elem_of_list_to_map in Hn.
  - intros [v Hv]. apply elem_of_list_to_map_2 in Hv.
    apply list_elem_of_fmap. by exists (key, v).
Qed.

(** Every name [for ... in] visits is an own property. *)
Lemma obj_for_in_own o :
  filter (obj_hasOwnProperty o) (obj_for_in o) = o.*1.
Proof. by apply filter_all, Forall_forall. Qed.
End dict.
