(* ===== verification/JsonText.v ===== *)
(** * JsonText: [JSON.stringify] and [JSON.parse]

    The values a program may hand to [JSON.stringify], the text it gives
    for them and the reading of a text by [JSON.parse], from ECMAScript
    (SerializeJSONProperty, QuoteJSONString and the JSON grammar), and the
    proof that they satisfy [Js.JsonLaws]: the text of a value parses, to
    a value that has the same text.  The value that comes back is
    [revive]: the value itself, less what JSON has no text for ([NaN]
    becomes [null], [undefined] and functions become [null] in an array
    and are left out of an object).

    Bounds of the model: numbers are the integers and [NaN], as in [Js];
    a text in which a number has a fraction or an exponent, or in which a
    [\u] escape denotes a code unit above 255, is outside the model and
    read as an error.  An object is the list of its properties in
    creation order, without repetition of a name ([wf_value]); [toJSON]
    methods, the [replacer], the [reviver] and the indentation are not
    modelled.  The parser recurses on what is left of the text, which is
    not a subterm of it: it takes fuel, which [JSON_parse_text] sets to
    the length of the text, and that is enough for the text of a value
    ([parse_stringify_text]) and for any other text ([JsonParse]). *)

From Stdlib Require Import Ascii.
From S2P Require Import Prelude Js Dict.

#[local] Set Warnings "-register-all".

(** * Values *)

Inductive JsonValue : Type :=
  | JVUndefined
  | JVFunction
  | JVNull
  | JVBool (b : bool)
  | JVNumber (x : JSNumber)
  | JVString (s : string)
  | JVArray (items : list JsonValue)
  | JVObject (props : list (string * JsonValue)).

(** Induction with a hypothesis on each element of an array and on each
    property of an object. *)
Section JsonValue_ind.
Context (P : JsonValue → Prop).
Hypotheses (Hundefined : P JVUndefined) (Hfunction : P JVFunction).
Hypotheses (Hnull : P JVNull) (Hbool : ∀ b, P (JVBool b)).
Hypotheses (Hnumber : ∀ x, P (JVNumber x)) (Hstring : ∀ s, P (JVString s)).
Hypothesis Harray : ∀ items, Forall P items → P (JVArray items).
Hypothesis Hobject : ∀ props, Forall (λ kv, P kv.2) props → P (JVObject props).

Fixpoint JsonValue_nested_ind (v : JsonValue) : P v :=
  match v with
  | JVUndefined => Hundefined
  | JVFunction => Hfunction
  | JVNull => Hnull
  | JVBool b => Hbool b
  | JVNumber x => Hnumber x
  | JVString s => Hstring s
  | JVArray items =>
      Harray items
        ((fix go l : Forall P l :=
            match l with
            | [] => Forall_nil_2 P
            | v :: l => Forall_cons_2 P v l (JsonValue_nested_ind v) (go l)
            end) items)
  | JVObject props =>
      Hobject props
        ((fix go l : Forall (λ kv, P kv.2) l :=
            match l with
            | [] => Forall_nil_2 _
            | kv :: l =>
                Forall_cons_2 (λ kv, P kv.2) kv l
                  (JsonValue_nested_ind kv.2) (go l)
            end) props)
  end.
End JsonValue_ind.

(** * [JSON.stringify] *)

(** The quotation mark and the reverse solidus. *)
Definition dquote : ascii := "034"%char.
Definition backslash : ascii := "092"%char.

Definition hex_digit (n : N) : ascii :=
  ascii_of_N (if decide (n < 10)%N then 48 + n else 87 + n).

(** The escape of one code unit (QuoteJSONString): the quotation mark,
    the reverse solidus, the control characters by their short name or by
    their code in lower-case hexadecimal; any other code unit stands for
    itself. *)
Definition escape_char (c : ascii) : string :=
  let n := N_of_ascii c in
  if decide (n = 8)%N then String backslash "b"
  else if decide (n = 9)%N then String backslash "t"
  else if decide (n = 10)%N then String backslash "n"
  else if decide (n = 12)%N then String backslash "f"
  else if decide (n = 13)%N then String backslash "r"
  else if decide (n = 34)%N then String backslash (String dquote "")
  else if decide (n = 92)%N then String backslash (String backslash "")
  else if decide (n < 32)%N then
    String backslash
      (String "u" (String "0" (String "0"
         (String (hex_digit (n `div` 16)) (String (hex_digit (n `mod` 16)) "")))))
  else String c "".

Fixpoint escape (s : string) : string :=
  match s with
  | "" => ""
  | String c s => escape_char c +:+ escape s
  end.

Definition quote (s : string) : string :=
  String dquote (escape s +:+ String dquote "").

(** The texts of the elements, with a comma between two of them. *)
Fixpoint join_comma (texts : list string) : string :=
  match texts with
  | [] => ""
  | [text] => text
  | text :: texts => text +:+ "," +:+ join_comma texts
  end.

(** The text of a property: its name quoted, a colon, the text of its
    value. *)
Definition member_text (key text : string) : string :=
  quote key +:+ ":" +:+ text.

(** [JSON.stringify(v)]: [None] is [undefined]. *)
Fixpoint stringify (v : JsonValue) : option string :=
  match v with
  | JVUndefined | JVFunction => None
  | JVNull | JVNumber NaN => Some "null"
  | JVBool true => Some "true"
  | JVBool false => Some "false"
  | JVNumber (Num n) => Some (pretty n)
  | JVString s => Some (quote s)
  | JVArray items =>
      Some ("[" +:+
            join_comma ((λ v, default "null" (stringify v)) <$> items) +:+
            "]")
  | JVObject props =>
      Some ("{" +:+
            join_comma
              (omap (λ kv, member_text kv.1 <$> stringify kv.2) props) +:+
            "}")
  end.

(** The object of the test "JSON get / set":
    [{a: 5, b: 5*"a", c: null, d: undefined, e: "aa"}]. *)
Definition test_object : JsonValue :=
  JVObject [("a", JVNumber (Num 5)); ("b", JVNumber NaN); ("c", JVNull);
            ("d", JVUndefined); ("e", JVString "aa")].

(** * [JSON.parse] *)

(** JSON white space: tab, line feed, carriage return, space. *)
Definition is_json_ws (c : ascii) : bool :=
  bool_decide (N_of_ascii c ∈ [9; 10; 13; 32]%N).

Fixpoint skip_ws (s : string) : string :=
  match s with
  | String c s' => if is_json_ws c then skip_ws s' else s
  | "" => ""
  end.

(** What follows the character [c] at the head of [s]. *)
Definition after (c : ascii) (s : string) : option string :=
  match s with
  | String c' s' => if Ascii.eqb c c' then Some s' else None
  | "" => None
  end.

(** What follows the word [word] at the head of [s]. *)
Fixpoint after_word (word s : string) : option string :=
  match word with
  | "" => Some s
  | String c word => s' ← after c s; after_word word s'
  end.

(** ** Strings *)

(** The character an escape of one letter stands for. *)
Definition unescape (e : ascii) : option ascii :=
  if Ascii.eqb e dquote then Some dquote
  else if Ascii.eqb e backslash then Some backslash
  else if Ascii.eqb e "/" then Some "/"%char
  else if Ascii.eqb e "b" then Some "008"%char
  else if Ascii.eqb e "f" then Some "012"%char
  else if Ascii.eqb e "n" then Some "010"%char
  else if Ascii.eqb e "r" then Some "013"%char
  else if Ascii.eqb e "t" then Some "009"%char
  else None.

(** The code unit four hexadecimal digits denote. *)
Definition hex4 (a b c d : ascii) : option N :=
  a ← digit_val 16 a; b ← digit_val 16 b;
  c ← digit_val 16 c; d ← digit_val 16 d;
  Some (((a * 16 + b) * 16 + c) * 16 + d)%N.

(** The characters of a string up to its closing quotation mark, and what
    follows it. *)
Fixpoint parse_chars (s : string) : option (string * string) :=
  match s with
  | "" => None
  | String c s1 =>
      if Ascii.eqb c dquote then Some ("", s1)
      else if Ascii.eqb c backslash then
        match s1 with
        | String e s2 =>
            if Ascii.eqb e "u" then
              match s2 with
              | String a (String b (String c' (String d s3))) =>
                  n ← hex4 a b c' d;
                  if decide (n < 256)%N then
                    '(str, rest) ← parse_chars s3;
                    Some (String (ascii_of_N n) str, rest)
                  else None
              | _ => None
              end
            else
              c' ← unescape e;
              '(str, rest) ← parse_chars s2;
              Some (String c' str, rest)
        | "" => None
        end
      else if decide (N_of_ascii c < 32)%N then None
      else '(str, rest) ← parse_chars s1; Some (String c str, rest)
  end.

(** ** Numbers *)

(** The digits at the head of [s], and what follows them. *)
Fixpoint take_digits (s : string) : string :=
  match s with
  | String c s' => if is_digit c then String c (take_digits s') else ""
  | "" => ""
  end.

Fixpoint drop_digits (s : string) : string :=
  match s with
  | String c s' => if is_digit c then drop_digits s' else s
  | "" => ""
  end.

(** The text goes on with a fraction or an exponent. *)
Definition goes_on (s : string) : bool :=
  match s with
  | String c _ => bool_decide (c ∈ ["."; "e"; "E"]%char)
  | "" => false
  end.

(** An integer without sign: its digits are those [pretty] writes, which
    is to say that it has no leading zero. *)
Definition parse_unsigned (s : string) : option (N * string) :=
  m ← parse_digits 10 (take_digits s) None;
  if decide (pretty m = take_digits s) then
    if goes_on (drop_digits s) then None else Some (m, drop_digits s)
  else None.

Definition parse_number (s : string) : option (JSNumber * string) :=
  match after "-" s with
  | Some s' => '(m, rest) ← parse_unsigned s'; Some (Num (- Z.of_N m), rest)
  | None => '(m, rest) ← parse_unsigned s; Some (Num (Z.of_N m), rest)
  end.

(** ** Values *)

(** The object built from the members in the order of the text: a key
    given twice keeps its place and takes the later value. *)
Definition build (members : list (string * JsonValue))
    : list (string * JsonValue) :=
  foldl (λ o kv, obj_set o kv.1 kv.2) [] members.

(** What comes after a value in an array or an object: a comma, and
    then more ([true]), or the closing character [close]. *)
Definition separator (close : ascii) (s : string) : option (bool * string) :=
  match skip_ws s with
  | String c s' =>
      if Ascii.eqb c "," then Some (true, s')
      else if Ascii.eqb c close then Some (false, s')
      else None
  | "" => None
  end.

Section steps.
Context (value : string → option (JsonValue * string)).
Context (elements : string → option (list JsonValue * string)).
Context (members : string → option (list (string * JsonValue) * string)).

(** The value whose first character is [c], [s1] being what follows
    [c], and what follows the value. *)
Definition value_at (c : ascii) (s1 : string) : option (JsonValue * string) :=
  if is_digit c || Ascii.eqb c "-" then
    '(x, rest) ← parse_number (String c s1); Some (JVNumber x, rest)
  else if Ascii.eqb c dquote then
    '(str, rest) ← parse_chars s1; Some (JVString str, rest)
  else if Ascii.eqb c "[" then
    match after "]" (skip_ws s1) with
    | Some rest => Some (JVArray [], rest)
    | None => '(items, rest) ← elements s1; Some (JVArray items, rest)
    end
  else if Ascii.eqb c "{" then
    match after "}" (skip_ws s1) with
    | Some rest => Some (JVObject [], rest)
    | None => '(ms, rest) ← members s1; Some (JVObject (build ms), rest)
    end
  else if Ascii.eqb c "n" then
    rest ← after_word "ull" s1; Some (JVNull, rest)
  else if Ascii.eqb c "t" then
    rest ← after_word "rue" s1; Some (JVBool true, rest)
  else if Ascii.eqb c "f" then
    rest ← after_word "alse" s1; Some (JVBool false, rest)
  else None.

(** A value at the head of [s], after white space, and what follows
    it. *)
Definition value_step (s : string) : option (JsonValue * string) :=
  match skip_ws s with
  | "" => None
  | String c s1 => value_at c s1
  end.

(** The elements of an array, up to its closing bracket. *)
Definition elements_step (s : string) : option (list JsonValue * string) :=
  '(v, s1) ← value s;
  '(more, s2) ← separator "]" s1;
  if more : bool then '(vs, rest) ← elements s2; Some (v :: vs, rest)
  else Some ([v], s2).

(** The members of an object, up to its closing brace. *)
Definition members_step (s : string)
    : option (list (string * JsonValue) * string) :=
  s1 ← after dquote (skip_ws s);
  '(key, s2) ← parse_chars s1;
  s3 ← after ":" (skip_ws s2);
  '(v, s4) ← value s3;
  '(more, s5) ← separator "}" s4;
  if more : bool then '(ms, rest) ← members s5; Some ((key, v) :: ms, rest)
  else Some ([(key, v)], s5).
End steps.

(** The three readers call each other on what is left of the text:
    [fuel] bounds the depth of the calls. *)
Fixpoint parse_value (fuel : nat) (s : string) {struct fuel}
    : option (JsonValue * string) :=
  match fuel with
  | 0%nat => None
  | S fuel => value_step (parse_elements fuel) (parse_members fuel) s
  end
with parse_elements (fuel : nat) (s : string) {struct fuel}
    : option (list JsonValue * string) :=
  match fuel with
  | 0%nat => None
  | S fuel => elements_step (parse_value fuel) (parse_elements fuel) s
  end
with parse_members (fuel : nat) (s : string) {struct fuel}
    : option (list (string * JsonValue) * string) :=
  match fuel with
  | 0%nat => None
  | S fuel => members_step (parse_value fuel) (parse_members fuel) s
  end.

(** [JSON.parse(text)]: [None] is a [SyntaxError].  The fuel is the
    length of the text. *)
Definition JSON_parse_text (text : string) : option JsonValue :=
  '(v, rest) ← parse_value (String.length text) text;
  if decide (skip_ws rest = "") then Some v else None.

(** * What comes back *)

(** The text of a value as an element of an array: [null] for a value
    that has no text. *)
Definition item_text (v : JsonValue) : string := default "null" (stringify v).

(** What [JSON.parse] makes of the text of [v]. *)
Fixpoint revive (v : JsonValue) : JsonValue :=
  match v with
  | JVUndefined | JVFunction | JVNull | JVNumber NaN => JVNull
  | JVBool _ | JVNumber (Num _) | JVString _ => v
  | JVArray items => JVArray (revive <$> items)
  | JVObject props =>
      JVObject
        (omap (λ kv,
           match stringify kv.2 with
           | Some _ => Some (kv.1, revive kv.2)
           | None => None
           end) props)
  end.

(** The values of JavaScript: no object has two properties of the same
    name. *)
Fixpoint wf_value (v : JsonValue) : bool :=
  match v with
  | JVArray items => forallb wf_value items
  | JVObject props =>
      bool_decide (NoDup props.*1) && forallb (λ kv, wf_value kv.2) props
  | _ => true
  end.

(** A text after which a number ends: it does not go on with a digit, a
    fraction or an exponent. *)
Definition delimited (rest : string) : Prop :=
  take_digits rest = "" ∧ goes_on rest = false.

#[export] Instance delimited_dec rest : Decision (delimited rest).
Proof. unfold delimited. apply _. Defined.

(** * Reading back what was written *)

(** ** Strings *)

Lemma after_head c s : after c (String c s) = Some s.
Proof. cbn. by rewrite Ascii.eqb_refl. Qed.

Lemma quote_app s rest :
  quote s +:+ rest = String dquote (escape s +:+ String dquote rest).
Proof.
  unfold quote. by rewrite string_app_cons, <- string_app_assoc.
Qed.

(** An escape reads back as the character it was written for. *)
Lemma parse_chars_escape_char c tail :
  parse_chars (escape_char c +:+ tail) =
  '(str, rest) ← parse_chars tail; Some (String c str, rest).
Proof. by destruct c as [[] [] [] [] [] [] [] []]. Qed.

Lemma parse_chars_escape s rest :
  parse_chars (escape s +:+ String dquote rest) = Some (s, rest).
Proof.
  induction s as [|c s IH]; [done|]. cbn [escape].
  by rewrite <- string_app_assoc, parse_chars_escape_char, IH.
Qed.

(** The text of a string reads back as the string. *)
Lemma parse_chars_quote s rest :
  after dquote (quote s +:+ rest) ≫= parse_chars = Some (s, rest).
Proof. rewrite quote_app, after_head. apply parse_chars_escape. Qed.

(** ** Numbers *)

Lemma take_digits_app ds rest :
  all_digits ds = true → take_digits rest = "" →
  take_digits (ds +:+ rest) = ds.
Proof.
  intros Hds Hrest. induction ds as [|c ds IH]; [done|].
  cbn in Hds. apply andb_true_iff in Hds as [Hc Hds].
  rewrite string_app_cons. cbn. by rewrite Hc, IH.
Qed.

Lemma drop_digits_rest rest : take_digits rest = "" → drop_digits rest = rest.
Proof. destruct rest as [|c rest]; [done|]. cbn. by destruct (is_digit c). Qed.

Lemma drop_digits_app ds rest :
  all_digits ds = true → take_digits rest = "" →
  drop_digits (ds +:+ rest) = rest.
Proof.
  intros Hds Hrest. induction ds as [|c ds IH]; [by apply drop_digits_rest|].
  cbn in Hds. apply andb_true_iff in Hds as [Hc Hds].
  rewrite string_app_cons. cbn. by rewrite Hc, IH.
Qed.

Lemma parse_digits_pretty_N (m : N) : parse_digits 10 (pretty m) None = Some m.
Proof.
  destruct (decide (m = 0%N)) as [->|Hm]; [done|by apply parse_digits_pretty].
Qed.

(** The text of a natural number starts with a digit. *)
Lemma pretty_N_head (m : N) :
  ∃ c s, pretty m = String c s ∧ is_digit c = true.
Proof.
  pose proof (parse_digits_pretty_N m) as Hm.
  pose proof (all_digits_pretty m) as Hds.
  destruct (pretty m) as [|c s]; [done|]. exists c, s. split; [done|].
  cbn in Hds. by apply andb_true_iff in Hds as [? _].
Qed.

Lemma parse_unsigned_pretty (m : N) rest :
  delimited rest → parse_unsigned (pretty m +:+ rest) = Some (m, rest).
Proof.
  intros [Hrest Hgo]. unfold parse_unsigned.
  rewrite take_digits_app, drop_digits_app by (done || apply all_digits_pretty).
  rewrite parse_digits_pretty_N. cbn. by rewrite decide_True, Hgo.
Qed.

Lemma after_minus_digit c s : is_digit c = true → after "-" (String c s) = None.
Proof.
  intros Hc. unfold after. by rewrite Ascii.eqb_sym, (is_digit_neq c).
Qed.

Lemma parse_number_pretty_N (m : N) rest :
  delimited rest →
  parse_number (pretty m +:+ rest) = Some (Num (Z.of_N m), rest).
Proof.
  intros Hrest. unfold parse_number.
  destruct (pretty_N_head m) as (c & s & Hp & Hc).
  rewrite Hp, string_app_cons, after_minus_digit by done.
  by rewrite <- string_app_cons, <- Hp, parse_unsigned_pretty.
Qed.

(** The text of an integer reads back as the integer. *)
Lemma parse_number_pretty (n : Z) rest :
  delimited rest → parse_number (pretty n +:+ rest) = Some (Num n, rest).
Proof.
  intros Hrest. destruct n as [|p|p].
  - by apply (parse_number_pretty_N 0).
  - by apply (parse_number_pretty_N (N.pos p)).
  - change (pretty (Z.neg p)) with ("-" +:+ pretty (N.pos p)).
    unfold parse_number. rewrite <- string_app_assoc, string_app_cons.
    by rewrite after_head, string_app_nil_l, parse_unsigned_pretty.
Qed.

(** The text of an integer starts with a digit or a minus sign. *)
Lemma pretty_Z_head (n : Z) :
  ∃ c s, pretty n = String c s ∧ is_digit c || Ascii.eqb c "-" = true.
Proof.
  destruct n as [|p|p]; [by eexists _, _|..].
  - destruct (pretty_N_head (N.pos p)) as (c & s & Hp & Hc).
    exists c, s. by rewrite Hc.
  - by eexists _, _.
Qed.

(** ** Values *)

(** What the text of a value starts with: a character that is not white
    space and does not close an array. *)
Definition value_head (c : ascii) : Prop :=
  is_json_ws c = false ∧ Ascii.eqb "]" c = false.

Lemma number_head c : is_digit c || Ascii.eqb c "-" = true → value_head c.
Proof.
  intros [Hc| ->%Ascii.eqb_eq]%orb_true_iff; [|done]. split.
  - unfold is_digit, is_json_ws in *. apply bool_decide_eq_true in Hc.
    apply bool_decide_eq_false. set_unfold. lia.
  - rewrite Ascii.eqb_sym. by apply is_digit_neq.
Qed.

Lemma item_text_head v : ∃ c s, item_text v = String c s ∧ value_head c.
Proof.
  destruct v as [| | |[]|[n|]|s|items|props]; try by eexists _, _.
  destruct (pretty_Z_head n) as (c & s & Hp & Hc).
  exists c, s. split; [done|by apply number_head].
Qed.

Lemma item_text_length v : (0 < String.length (item_text v))%nat.
Proof. destruct (item_text_head v) as (c & s & -> & _). cbn. lia. Qed.

Lemma skip_ws_head c s : is_json_ws c = false → skip_ws (String c s) = String c s.
Proof. intros Hc. cbn. by rewrite Hc. Qed.

Section value_step.
Context (elements : string → option (list JsonValue * string)).
Context (members : string → option (list (string * JsonValue) * string)).

Lemma value_step_head c s :
  is_json_ws c = false →
  value_step elements members (String c s) = value_at elements members c s.
Proof. intros Hc. unfold value_step. by rewrite skip_ws_head. Qed.

Lemma value_step_number n rest :
  delimited rest →
  value_step elements members (pretty n +:+ rest) = Some (JVNumber (Num n), rest).
Proof.
  intros Hrest. destruct (pretty_Z_head n) as (c & s & Hp & Hc).
  rewrite Hp, string_app_cons, value_step_head by by apply number_head.
  unfold value_at. rewrite Hc, <- string_app_cons, <- Hp.
  by rewrite parse_number_pretty.
Qed.

Lemma value_step_string s rest :
  value_step elements members (quote s +:+ rest) = Some (JVString s, rest).
Proof.
  rewrite quote_app, value_step_head by done. unfold value_at. cbn.
  by rewrite parse_chars_escape.
Qed.

(** An array or an object whose text starts with [open] and goes on
    with something that does not close it at once. *)
Lemma value_step_array c s :
  value_head c →
  value_step elements members (String "[" (String c s)) =
  '(items, rest) ← elements (String c s); Some (JVArray items, rest).
Proof.
  intros [Hws Hc]. rewrite value_step_head by done.
  change (value_at elements members "[" (String c s)) with
    (match after "]" (skip_ws (String c s)) with
     | Some rest => Some (JVArray [], rest)
     | None => '(items, rest) ← elements (String c s); Some (JVArray items, rest)
     end).
  rewrite skip_ws_head by done. unfold after. by rewrite Hc.
Qed.

Lemma value_step_object s :
  value_step elements members (String "{" (String dquote s)) =
  '(ms, rest) ← members (String dquote s); Some (JVObject (build ms), rest).
Proof. done. Qed.
End value_step.

(** The text of [v], in front of anything a number may end at, reads
    back as [revive v] given fuel for its length. *)
Definition reads_back (v : JsonValue) : Prop :=
  wf_value v = true → ∀ fuel rest,
    (String.length (item_text v) ≤ fuel)%nat → delimited rest →
    parse_value fuel (item_text v +:+ rest) = Some (revive v, rest).

Lemma reads_back_literal v :
  v ∈ [JVUndefined; JVFunction; JVNull; JVBool true; JVBool false;
       JVNumber NaN] →
  reads_back v.
Proof.
  intros Hv _ [|fuel] rest Hlen _;
    [pose proof (item_text_length v); lia|].
  set_unfold. by destruct Hv as [->|[->|[->|[->|[->|[->|[]]]]]]].
Qed.

Lemma reads_back_number n : reads_back (JVNumber (Num n)).
Proof.
  intros _ [|fuel] rest Hlen Hrest;
    [pose proof (item_text_length (JVNumber (Num n))); lia|].
  by apply value_step_number.
Qed.

Lemma reads_back_string s : reads_back (JVString s).
Proof.
  intros _ [|fuel] rest Hlen Hrest;
    [pose proof (item_text_length (JVString s)); lia|].
  by apply value_step_string.
Qed.

(** ** Arrays *)

Lemma join_comma_cons text text' texts :
  join_comma (text :: text' :: texts) =
  text +:+ String "," (join_comma (text' :: texts)).
Proof. done. Qed.

Lemma join_comma_head v items :
  ∃ c s, join_comma (item_text <$> v :: items) = String c s ∧ value_head c.
Proof.
  destruct (item_text_head v) as (c & s & Hv & Hc).
  destruct items as [|v' items]; [by exists c, s|].
  rewrite !fmap_cons, join_comma_cons, Hv, string_app_cons. by eexists _, _.
Qed.

Section elements_step.
Context (value : string → option (JsonValue * string)).
Context (elements : string → option (list JsonValue * string)).

Lemma elements_step_last text v rest :
  value (text +:+ String "]" rest) = Some (v, String "]" rest) →
  elements_step value elements (text +:+ String "]" rest) = Some ([v], rest).
Proof. intros Hv. unfold elements_step. by rewrite Hv. Qed.

Lemma elements_step_more text v tail :
  value (text +:+ String "," tail) = Some (v, String "," tail) →
  elements_step value elements (text +:+ String "," tail) =
  '(vs, rest) ← elements tail; Some (v :: vs, rest).
Proof. intros Hv. unfold elements_step. by rewrite Hv. Qed.
End elements_step.

(** The texts of the elements read back, each as what it revives to. *)
Lemma parse_elements_join items :
  Forall reads_back items → forallb wf_value items = true → items ≠ [] →
  ∀ fuel rest,
    (String.length (join_comma (item_text <$> items)) < fuel)%nat →
    parse_elements fuel (join_comma (item_text <$> items) +:+ String "]" rest) =
    Some (revive <$> items, rest).
Proof.
  induction 1 as [|v items Hv _ IH]; [done|].
  intros [Hwf Hwfs]%andb_true_iff _ [|fuel] rest Hlen; [lia|].
  cbn [parse_elements]. destruct items as [|v' items].
  - cbn in Hlen. apply elements_step_last, Hv; [done|lia|done].
  - rewrite !fmap_cons, join_comma_cons, <- !fmap_cons in Hlen |- *.
    rewrite string_app_length in Hlen. cbn [String.length] in Hlen.
    rewrite <- string_app_assoc, string_app_cons.
    rewrite (elements_step_more _ _ _ (revive v)) by (apply Hv; [done|lia|done]).
    rewrite IH by (done || lia). by rewrite !fmap_cons.
Qed.

Lemma item_text_array items :
  item_text (JVArray items) =
  String "[" (join_comma (item_text <$> items) +:+ "]").
Proof. done. Qed.

Lemma reads_back_array items :
  Forall reads_back items → reads_back (JVArray items).
Proof.
  intros Hitems Hwf [|fuel] rest Hlen Hrest;
    [pose proof (item_text_length (JVArray items)); lia|].
  destruct items as [|v items]; [done|].
  destruct (join_comma_head v items) as (c & s & Hj & Hc).
  pose proof (parse_elements_join (v :: items) Hitems Hwf) as Hread.
  rewrite item_text_array, Hj in *. cbn [parse_value revive].
  cbn [String.length] in Hlen. rewrite string_app_length in Hlen.
  rewrite !string_app_cons, <- string_app_assoc, string_app_cons.
  rewrite string_app_nil_l, value_step_array by done.
  rewrite <- string_app_cons, Hread
    by (done || (cbn [String.length] in *; lia)).
  done.
Qed.

(** ** Objects *)

(** The texts of the properties that have one, and what comes back for
    them. *)
Definition member_texts (props : list (string * JsonValue)) : list string :=
  omap (λ kv, member_text kv.1 <$> stringify kv.2) props.

Definition revived (props : list (string * JsonValue))
    : list (string * JsonValue) :=
  omap (λ kv,
    match stringify kv.2 with
    | Some _ => Some (kv.1, revive kv.2)
    | None => None
    end) props.

Lemma item_text_object props :
  item_text (JVObject props) =
  String "{" (join_comma (member_texts props) +:+ "}").
Proof. done. Qed.

Lemma members_cons_Some k v props text :
  stringify v = Some text →
  member_texts ((k, v) :: props) = member_text k text :: member_texts props ∧
  revived ((k, v) :: props) = (k, revive v) :: revived props.
Proof. intros Hv. unfold member_texts, revived. cbn. by rewrite Hv. Qed.

Lemma members_cons_None k v props :
  stringify v = None →
  member_texts ((k, v) :: props) = member_texts props ∧
  revived ((k, v) :: props) = revived props.
Proof. intros Hv. unfold member_texts, revived. cbn. by rewrite Hv. Qed.

(** A property for each text, and a text that starts with a quotation
    mark when there is one. *)
Lemma member_texts_revived props :
  match member_texts props with
  | [] => revived props = []
  | text :: texts => ∃ s, join_comma (text :: texts) = String dquote s
  end.
Proof.
  induction props as [|[k v] props IH]; [done|].
  destruct (stringify v) as [text|] eqn:Hv.
  - destruct (members_cons_Some k v props text Hv) as [-> _].
    destruct (member_texts props); by eexists.
  - by destruct (members_cons_None k v props Hv) as [-> ->].
Qed.

Lemma revived_NoDup props : NoDup props.*1 → NoDup (revived props).*1.
Proof.
  intros Hnd. eapply sublist_NoDup; [done|].
  clear Hnd. induction props as [|[k v] props IH]; [done|].
  destruct (stringify v) as [text|] eqn:Hv.
  - destruct (members_cons_Some k v props text Hv) as [_ ->].
    by apply sublist_skip.
  - destruct (members_cons_None k v props Hv) as [_ ->].
    by apply sublist_cons.
Qed.

Lemma build_NoDup ms : NoDup ms.*1 → build ms = ms.
Proof. intros Hnd. unfold build. by rewrite foldl_obj_set_fresh. Qed.

Lemma member_text_app key text tail :
  member_text key text +:+ tail =
  String dquote (escape key +:+ String dquote (String ":" (text +:+ tail))).
Proof. unfold member_text. by rewrite <- string_app_assoc, quote_app. Qed.

Lemma member_text_length key text :
  (String.length text < String.length (member_text key text))%nat.
Proof.
  unfold member_text, quote. rewrite !string_app_length.
  cbn [String.length]. lia.
Qed.

Section members_step.
Context (value : string → option (JsonValue * string)).
Context (members : string → option (list (string * JsonValue) * string)).

Lemma members_step_member key text tail :
  members_step value members (member_text key text +:+ tail) =
  '(v, s4) ← value (text +:+ tail);
  '(more, s5) ← separator "}" s4;
  if more : bool then '(ms, rest) ← members s5; Some ((key, v) :: ms, rest)
  else Some ([(key, v)], s5).
Proof.
  unfold members_step. rewrite member_text_app, skip_ws_head by done.
  rewrite after_head. cbn. by rewrite parse_chars_escape.
Qed.

Lemma members_step_last key text v rest :
  value (text +:+ String "}" rest) = Some (v, String "}" rest) →
  members_step value members (member_text key text +:+ String "}" rest) =
  Some ([(key, v)], rest).
Proof. intros Hv. by rewrite members_step_member, Hv. Qed.

Lemma members_step_more key text v tail :
  value (text +:+ String "," tail) = Some (v, String "," tail) →
  members_step value members (member_text key text +:+ String "," tail) =
  '(ms, rest) ← members tail; Some ((key, v) :: ms, rest).
Proof. intros Hv. by rewrite members_step_member, Hv. Qed.
End members_step.

(** The texts of the properties read back, each as the property it
    revives to. *)
Lemma parse_members_join props :
  Forall (λ kv, reads_back kv.2) props →
  forallb (λ kv, wf_value kv.2) props = true → member_texts props ≠ [] →
  ∀ fuel rest,
    (String.length (join_comma (member_texts props)) < fuel)%nat →
    parse_members fuel (join_comma (member_texts props) +:+ String "}" rest) =
    Some (revived props, rest).
Proof.
  induction 1 as [|[k v] props Hv _ IH]; [done|].
  intros [Hwf Hwfs]%andb_true_iff. pose proof (member_texts_revived props) as Hr.
  destruct (stringify v) as [text|] eqn:Htext; cbn [snd] in *.
  2: { destruct (members_cons_None k v props Htext) as [-> ->]. by apply IH. }
  destruct (members_cons_Some k v props text Htext) as [-> ->].
  assert (item_text v = text) as Hitem by (unfold item_text; by rewrite Htext).
  pose proof (member_text_length k text). rewrite <- Hitem in *.
  intros _ [|fuel] rest Hlen; [lia|]. cbn [parse_members].
  destruct (member_texts props) as [|text' texts].
  - rewrite Hr. cbn [join_comma] in *.
    apply members_step_last, Hv; [done|lia|done].
  - rewrite join_comma_cons in *. rewrite string_app_length in Hlen.
    cbn [String.length] in Hlen. rewrite <- string_app_assoc, string_app_cons.
    rewrite (members_step_more _ _ _ _ (revive v))
      by (apply Hv; [done|lia|done]).
    by rewrite IH by (done || lia).
Qed.

Lemma reads_back_object props :
  Forall (λ kv, reads_back kv.2) props → reads_back (JVObject props).
Proof.
  intros Hprops [Hnd%bool_decide_eq_true Hwf]%andb_true_iff [|fuel] rest Hlen _;
    [pose proof (item_text_length (JVObject props)); lia|].
  pose proof (parse_members_join props Hprops Hwf) as Hread.
  pose proof (member_texts_revived props) as Hr.
  rewrite item_text_object in *. cbn [parse_value].
  change (revive (JVObject props)) with (JVObject (revived props)).
  destruct (member_texts props) as [|text texts]; [by rewrite Hr|].
  destruct Hr as [s Hs]. rewrite Hs in *.
  cbn [String.length] in Hlen. rewrite string_app_length in Hlen.
  rewrite !string_app_cons, <- string_app_assoc, string_app_cons.
  rewrite string_app_nil_l, value_step_object, <- string_app_cons.
  rewrite Hread by (done || (cbn [String.length] in *; lia)).
  cbn. by rewrite build_NoDup by by apply revived_NoDup.
Qed.

(** Every value reads back. *)
Lemma reads_back_all v : reads_back v.
Proof.
  induction v as [| | |[]|[n|]|s|items IH|props IH] using JsonValue_nested_ind;
    try (apply reads_back_literal; set_solver).
  - apply reads_back_number.
  - apply reads_back_string.
  - by apply reads_back_array.
  - by apply reads_back_object.
Qed.

(** ** What comes back has the same text *)

Lemma item_text_revive v :
  stringify (revive v) = Some (item_text v) → item_text (revive v) = item_text v.
Proof. unfold item_text at 2. by intros ->. Qed.

Lemma member_texts_revive props :
  Forall (λ kv, stringify (revive kv.2) = Some (item_text kv.2)) props →
  member_texts (revived props) = member_texts props.
Proof.
  induction 1 as [|[k v] props Hv _ IH]; [done|]. cbn [snd] in Hv.
  destruct (stringify v) as [text|] eqn:Htext.
  - destruct (members_cons_Some k v props text Htext) as [-> ->].
    destruct (members_cons_Some k (revive v) (revived props) _ Hv) as [-> _].
    unfold item_text. by rewrite Htext, IH.
  - by destruct (members_cons_None k v props Htext) as [-> ->].
Qed.

Lemma stringify_revive v : stringify (revive v) = Some (item_text v).
Proof.
  induction v as [| | |[]|[n|]|s|items IH|props IH] using JsonValue_nested_ind;
    try done.
  - change (Some (item_text (JVArray (revive <$> items))) =
            Some (item_text (JVArray items))).
    rewrite !item_text_array, <- list_fmap_compose. do 4 f_equal.
    apply Forall_fmap_ext. eapply Forall_impl; [done|]. apply item_text_revive.
  - change (Some (item_text (JVObject (revived props))) =
            Some (item_text (JVObject props))).
    by rewrite !item_text_object, member_texts_revive.
Qed.

(** What comes back is a value of JavaScript. *)
Lemma wf_value_revive v : wf_value v = true → wf_value (revive v) = true.
Proof.
  induction v as [| | |[]|[n|]|s|items IH|props IH] using JsonValue_nested_ind;
    try done.
  - cbn [wf_value revive]. rewrite !forallb_forall.
    setoid_rewrite <- list_elem_of_In. rewrite Forall_forall in IH.
    intros Hwf v' (v & -> & Hv)%list_elem_of_fmap. auto.
  - intros [Hnd%bool_decide_eq_true Hwf]%andb_true_iff.
    change (bool_decide (NoDup (revived props).*1) &&
            forallb (λ kv, wf_value kv.2) (revived props) = true).
    rewrite bool_decide_eq_true_2 by by apply revived_NoDup. cbn [andb].
    clear Hnd. induction IH as [|[k v] props Hv _ IH']; [done|].
    apply andb_true_iff in Hwf as [Hwfv Hwf]. cbn [snd] in *.
    destruct (stringify v) as [text|] eqn:Htext.
    + destruct (members_cons_Some k v props text Htext) as [_ ->].
      cbn. by rewrite Hv, IH'.
    + destruct (members_cons_None k v props Htext) as [_ ->]. auto.
Qed.

(** * [JSON.parse] after [JSON.stringify] *)

Lemma JSON_parse_text_stringify v text :
  wf_value v = true → stringify v = Some text →
  JSON_parse_text text = Some (revive v).
Proof.
  intros Hwf Htext. unfold JSON_parse_text.
  assert (item_text v = text) as <- by (unfold item_text; by rewrite Htext).
  pose proof (reads_back_all v Hwf (String.length (item_text v)) "") as Hread.
  rewrite string_app_nil_r in Hread. by rewrite Hread.
Qed.

Lemma stringify_revive_text v text :
  stringify v = Some text → stringify (revive v) = Some text.
Proof.
  intros Htext. rewrite stringify_revive. unfold item_text. by rewrite Htext.
Qed.

(** The text [JSON.stringify] gives for a value parses, with the length
    of the text for fuel, to the value less what JSON has no text for,
    and that one is a value of JavaScript with the same text. *)
Theorem parse_stringify_text v text :
  wf_value v = true → stringify v = Some text →
  JSON_parse_text text = Some (revive v) ∧
  wf_value (revive v) = true ∧ stringify (revive v) = Some text.
Proof.
  intros Hwf Htext.
  auto using JSON_parse_text_stringify, wf_value_revive, stringify_revive_text.
Qed.

(** The global [JSON] object over these values. *)
#[export] Instance JsonValue_Json : Json JsonValue := {|
  json_undefined := JVUndefined;
  json_null := JVNull;
  is_undefined v := match v with JVUndefined => true | _ => false end;
  JSON_stringify := stringify;
  JSON_parse := JSON_parse_text;
  json_wf v := wf_value v = true;
|}.

#[export] Instance JsonValue_JsonLaws : JsonLaws JsonValue.
Proof.
  split; [|done..| |done].
  - by intros [].
  - intros v text Hwf Htext. exists (revive v). cbn.
    auto using JSON_parse_text_stringify, wf_value_revive, stringify_revive_text.
Qed.

(** The text of the object of the test, and what it parses to. *)
Example test_object_text :
  stringify test_object =
    Some ("{" +:+ quote "a" +:+ ":5," +:+ quote "b" +:+ ":null," +:+
          quote "c" +:+ ":null," +:+ quote "e" +:+ ":" +:+ quote "aa" +:+ "}") ∧
  stringify test_object ≫= JSON_parse_text =
    Some (JVObject [("a", JVNumber (Num 5)); ("b", JVNull); ("c", JVNull);
                    ("e", JVString "aa")]).
Proof. split; by vm_compute. Qed.

Lemma parse_stringify_text_witness :
  (wf_value test_object = true ∧
   stringify test_object = Some (item_text test_object)) ∧
  JSON_parse_text (item_text test_object) = Some (revive test_object) ∧
  wf_value (revive test_object) = true ∧
  stringify (revive test_object) = Some (item_text test_object).
Proof. split; [done|]. by apply parse_stringify_text. Defined.

(** ** Values that come back as they are *)

(** The values JSON has a text for all the way down: no [undefined], no
    function, no [NaN]. *)
Fixpoint plain (v : JsonValue) : bool :=
  match v with
  | JVUndefined | JVFunction | JVNumber NaN => false
  | JVNull | JVBool _ | JVNumber (Num _) | JVString _ => true
  | JVArray items => forallb plain items
  | JVObject props => forallb (λ kv, plain kv.2) props
  end.

Lemma plain_stringify v : plain v = true → is_Some (stringify v).
Proof. by destruct v as [| | |[]|[n|]|s|items|props]. Qed.

Lemma revived_plain props :
  Forall (λ kv, plain kv.2 = true → revive kv.2 = kv.2) props →
  forallb (λ kv, plain kv.2) props = true → revived props = props.
Proof.
  induction 1 as [|[k v] props Hv _ IH]; [done|].
  intros [Hp Hps]%andb_true_iff. cbn [snd] in *.
  destruct (plain_stringify v Hp) as [text Htext].
  destruct (members_cons_Some k v props text Htext) as [_ ->].
  by rewrite Hv, IH.
Qed.

Lemma revive_plain v : plain v = true → revive v = v.
Proof.
  induction v as [| | |[]|[n|]|s|items IH|props IH] using JsonValue_nested_ind;
    try done.
  - intros Hp%forallb_Forall. cbn [revive]. f_equal.
    rewrite <- (list_fmap_id items) at 2. apply Forall_fmap_ext.
    rewrite Forall_forall in *. intros v Hv. by apply IH, Hp.
  - intros Hp. change (JVObject (revived props) = JVObject props).
    by rewrite revived_plain.
Qed.

(** A plain value of JavaScript has a text, and the text parses to the
    value. *)
Theorem parse_stringify_plain v :
  wf_value v = true → plain v = true →
  ∃ text, stringify v = Some text ∧ JSON_parse_text text = Some v.
Proof.
  intros Hwf Hp. destruct (plain_stringify v Hp) as [text Htext].
  exists text. split; [done|].
  by rewrite (JSON_parse_text_stringify v text), revive_plain.
Qed.

Lemma parse_stringify_plain_witness :
  (wf_value (revive test_object) = true ∧ plain (revive test_object) = true) ∧
  ∃ text, stringify (revive test_object) = Some text ∧
          JSON_parse_text text = Some (revive test_object).
Proof. split; [done|]. by apply parse_stringify_plain. Defined.

(** ** Texts that are not JSON *)

(** The empty text, [undefined], a word cut short, a number with a
    leading zero or without digits, a comma before the closing bracket,
    two values, a name without quotation marks. *)
Example JSON_parse_text_errors :
  Forall (λ text, JSON_parse_text text = None)
    [""; "undefined"; "nul"; "01"; "-"; "[1,]"; "1 2"; "{a:1}"; "[1"; "]"].
Proof. repeat constructor. Qed.

