(* ===== verification/JsonParse.v ===== *)
(** * JsonParse: [JSON.parse] on any text

    The readers of [JsonText] take fuel, and [JSON_parse_text] gives them
    the length of the text.  Here: each reader leaves less than it was
    given, a reading that succeeds with some fuel succeeds with any fuel
    that is at least the number of characters it consumes, and so the
    length of the text is enough for every text: when [JSON_parse_text]
    answers with an error, no amount of fuel reads the text.  What is
    read is a value of JavaScript ([wf_value]): no object in it has the
    same name twice, whatever the text repeats. *)

From Stdlib Require Import Ascii.
From S2P Require Import Prelude Js Dict JsonText.

(** A step of the option monad that succeeded, taken apart. *)
Ltac bind_inv H :=
  repeat (apply bind_Some in H as ([? ?] & ? & H) ||
          apply bind_Some in H as (? & ? & H));
  cbn beta iota in H.

(** * What the readers of characters leave *)

Lemma skip_ws_length s : (String.length (skip_ws s) ≤ String.length s)%nat.
Proof.
  induction s as [|c s IH]; [done|]. cbn. destruct (is_json_ws c); cbn; lia.
Qed.

Lemma after_length c s rest :
  after c s = Some rest → String.length s = S (String.length rest).
Proof.
  destruct s as [|c' s]; [done|]. cbn. by destruct (Ascii.eqb c c'); intros [= ->].
Qed.

Lemma after_word_length word s rest :
  after_word word s = Some rest → (String.length rest ≤ String.length s)%nat.
Proof.
  revert s. induction word as [|c word IH]; intros s Hs; cbn in Hs.
  { injection Hs as ->. lia. }
  bind_inv Hs. apply IH in Hs.
  match goal with H : after _ _ = _ |- _ => apply after_length in H end. lia.
Qed.

Lemma parse_chars_length_le n s str rest :
  (String.length s ≤ n)%nat → parse_chars s = Some (str, rest) →
  (String.length rest < String.length s)%nat.
Proof.
  revert s str rest. induction n as [|n IH]; intros [|c s1] str rest Hn Hs;
    try done; cbn in Hn; [lia|]. cbn in Hs.
  destruct (Ascii.eqb c dquote); [injection Hs as <- <-; cbn; lia|].
  destruct (Ascii.eqb c backslash).
  - destruct s1 as [|e s2]; [done|]. destruct (Ascii.eqb e "u").
    + destruct s2 as [|a [|b [|c' [|d s3]]]]; try done.
      bind_inv Hs. case_decide; [|done]. bind_inv Hs.
      match goal with H : parse_chars _ = _ |- _ => apply IH in H end;
        cbn in *; [injection Hs as <- <-|]; lia.
    + bind_inv Hs.
      match goal with H : parse_chars _ = _ |- _ => apply IH in H end;
        cbn in *; [injection Hs as <- <-|]; lia.
  - case_decide; [done|]. bind_inv Hs.
    match goal with H : parse_chars _ = _ |- _ => apply IH in H end;
      cbn in *; [injection Hs as <- <-|]; lia.
Qed.

Lemma parse_chars_length s str rest :
  parse_chars s = Some (str, rest) →
  (String.length rest < String.length s)%nat.
Proof. by apply (parse_chars_length_le (String.length s)). Qed.

Lemma drop_digits_length s :
  (String.length (drop_digits s) ≤ String.length s)%nat.
Proof.
  induction s as [|c s IH]; [done|]. cbn. destruct (is_digit c); cbn; lia.
Qed.

Lemma parse_unsigned_length s m rest :
  parse_unsigned s = Some (m, rest) →
  (String.length rest < String.length s)%nat.
Proof.
  unfold parse_unsigned. intros Hs. bind_inv Hs. case_decide; [|done].
  destruct (goes_on _); [done|]. injection Hs as <- <-.
  destruct s as [|c s]; [done|]. cbn in *.
  destruct (is_digit c); [|done]. pose proof (drop_digits_length s). lia.
Qed.

Lemma parse_number_length s x rest :
  parse_number s = Some (x, rest) →
  (String.length rest < String.length s)%nat.
Proof.
  unfold parse_number. destruct (after "-" s) as [s'|] eqn:Hminus;
    intros Hs; bind_inv Hs; injection Hs as <- <-;
    match goal with H : parse_unsigned _ = _ |- _ =>
      apply parse_unsigned_length in H end; [|done].
  apply after_length in Hminus. lia.
Qed.

Lemma separator_length close s more rest :
  separator close s = Some (more, rest) →
  (String.length rest < String.length s)%nat.
Proof.
  unfold separator. pose proof (skip_ws_length s).
  destruct (skip_ws s) as [|c s']; [done|]. cbn in *.
  destruct (Ascii.eqb c ","); [intros [= <- <-]; lia|].
  destruct (Ascii.eqb c close); [intros [= <- <-]; lia|done].
Qed.

(** The length facts above, applied to the hypotheses they fit. *)
Ltac lengths :=
  repeat match goal with
  | H : parse_number _ = Some _ |- _ => apply parse_number_length in H
  | H : parse_chars _ = Some _ |- _ => apply parse_chars_length in H
  | H : after_word _ _ = Some _ |- _ => apply after_word_length in H
  | H : after _ _ = Some _ |- _ => apply after_length in H
  end;
  cbn [String.length] in *.

(** * Fuel *)

(** [f] leaves less than it was given, and [f'] reads what [f] reads
    when what is consumed is at most [n]. *)
Definition covers {A} (f f' : string → option (A * string)) (n : nat) : Prop :=
  ∀ s a rest, f s = Some (a, rest) →
    (String.length rest < String.length s)%nat ∧
    ((String.length s - String.length rest ≤ n)%nat → f' s = Some (a, rest)).

Lemma covers_0 {A} (f f' g : string → option (A * string)) n :
  covers f f' n → covers f g 0.
Proof.
  intros Hf s a rest Hs. destruct (Hf s a rest Hs) as [Hlt _].
  split; [done|lia].
Qed.

Section steps.
Context (value value' : string → option (JsonValue * string)).
Context (elements elements' : string → option (list JsonValue * string)).
Context (members members'
  : string → option (list (string * JsonValue) * string)).
Context (n : nat).
Context (Hvalue : covers value value' n).
Context (Helements : covers elements elements' n).
Context (Hmembers : covers members members' n).

Lemma value_at_covers c s1 v rest :
  value_at elements members c s1 = Some (v, rest) →
  (String.length rest ≤ String.length s1)%nat ∧
  ((String.length s1 - String.length rest ≤ n)%nat →
   value_at elements' members' c s1 = Some (v, rest)).
Proof.
  unfold value_at. pose proof (skip_ws_length s1).
  destruct (is_digit c || Ascii.eqb c "-");
    [intros Hs; split; [|done]; bind_inv Hs; simplify_eq; lengths; lia|].
  destruct (Ascii.eqb c dquote);
    [intros Hs; split; [|done]; bind_inv Hs; simplify_eq; lengths; lia|].
  destruct (Ascii.eqb c "[").
  { destruct (after "]" (skip_ws s1)) as [rest0|] eqn:Hclose.
    - intros [= <- <-]. lengths. split; [lia|done].
    - intros Hs. destruct (elements s1) as [[items rest']|] eqn:He; [|done].
      injection Hs as <- <-. destruct (Helements _ _ _ He) as [Hlt Hn].
      split; [lia|]. intros Hle. by rewrite Hn by lia. }
  destruct (Ascii.eqb c "{").
  { destruct (after "}" (skip_ws s1)) as [rest0|] eqn:Hclose.
    - intros [= <- <-]. lengths. split; [lia|done].
    - intros Hs. destruct (members s1) as [[ms rest']|] eqn:Hm; [|done].
      injection Hs as <- <-. destruct (Hmembers _ _ _ Hm) as [Hlt Hn].
      split; [lia|]. intros Hle. by rewrite Hn by lia. }
  repeat (destruct (Ascii.eqb c _);
    [intros Hs; split; [|done]; bind_inv Hs; simplify_eq; lengths; lia|]).
  done.
Qed.

Lemma value_step_covers :
  covers (value_step elements members) (value_step elements' members') (S n).
Proof.
  intros s v rest Hs. unfold value_step in *. pose proof (skip_ws_length s).
  destruct (skip_ws s) as [|c s1]; [done|].
  destruct (value_at_covers _ _ _ _ Hs) as [Hle Hn]. cbn in *.
  split; [lia|]. intros ?. apply Hn. lia.
Qed.

Lemma elements_step_covers :
  covers (elements_step value elements) (elements_step value' elements') (S n).
Proof.
  intros s vs rest Hs. unfold elements_step in *.
  destruct (value s) as [[v s1]|] eqn:Hv; [|done]. cbn in Hs.
  destruct (separator "]" s1) as [[more s2]|] eqn:Hsep; [|done]. cbn in Hs.
  destruct (Hvalue _ _ _ Hv) as [Hlt1 Hn1].
  pose proof (separator_length _ _ _ _ Hsep). destruct more.
  - destruct (elements s2) as [[vs' rest']|] eqn:He; [|done].
    injection Hs as <- <-. destruct (Helements _ _ _ He) as [Hlt2 Hn2].
    split; [lia|]. intros ?. rewrite Hn1 by lia. cbn. rewrite Hsep. cbn.
    by rewrite Hn2 by lia.
  - injection Hs as <- <-. split; [lia|]. intros ?. rewrite Hn1 by lia.
    cbn. by rewrite Hsep.
Qed.

Lemma members_step_covers :
  covers (members_step value members) (members_step value' members') (S n).
Proof.
  intros s ms rest Hs. unfold members_step in *.
  pose proof (skip_ws_length s).
  destruct (after dquote (skip_ws s)) as [s1|] eqn:Hs1; [|done]. cbn in Hs |- *.
  destruct (parse_chars s1) as [[key s2]|] eqn:Hs2; [|done]. cbn in Hs |- *.
  pose proof (skip_ws_length s2).
  destruct (after ":" (skip_ws s2)) as [s3|] eqn:Hs3; [|done]. cbn in Hs |- *.
  destruct (value s3) as [[v s4]|] eqn:Hv; [|done]. cbn in Hs |- *.
  destruct (separator "}" s4) as [[more s5]|] eqn:Hsep; [|done]. cbn in Hs |- *.
  destruct (Hvalue _ _ _ Hv) as [Hlt1 Hn1].
  pose proof (separator_length _ _ _ _ Hsep). lengths. destruct more.
  - destruct (members s5) as [[ms' rest']|] eqn:Hm; [|done].
    injection Hs as <- <-. destruct (Hmembers _ _ _ Hm) as [Hlt2 Hn2].
    split; [lia|]. intros ?. rewrite Hn1 by lia. cbn. rewrite Hsep. cbn.
    by rewrite Hn2 by lia.
  - injection Hs as <- <-. split; [lia|]. intros ?. rewrite Hn1 by lia.
    cbn. by rewrite Hsep.
Qed.
End steps.

(** The three readers with fuel [fuel'] read what they read with fuel
    [fuel], when what is consumed is at most [fuel']. *)
Lemma parse_covers fuel fuel' :
  covers (parse_value fuel) (parse_value fuel') fuel' ∧
  covers (parse_elements fuel) (parse_elements fuel') fuel' ∧
  covers (parse_members fuel) (parse_members fuel') fuel'.
Proof.
  revert fuel'. induction fuel as [|fuel IH]; intros fuel'; [by split_and!|].
  destruct fuel' as [|fuel'].
  - destruct (IH 0%nat) as (Hv & He & Hm).
    split_and!; eapply covers_0;
      [by apply value_step_covers|by apply elements_step_covers|
       by apply members_step_covers].
  - destruct (IH fuel') as (Hv & He & Hm).
    split_and!;
      [by apply value_step_covers|by apply elements_step_covers|
       by apply members_step_covers].
Qed.

Lemma parse_value_enough fuel fuel' s v rest :
  parse_value fuel s = Some (v, rest) → (String.length s ≤ fuel')%nat →
  parse_value fuel' s = Some (v, rest).
Proof.
  intros Hs Hlen. destruct (parse_covers fuel fuel') as (Hv & _).
  destruct (Hv s v rest Hs) as [_ Hn]. apply Hn. lia.
Qed.

(** * The length of the text is enough *)

(** The reader of values makes progress: what it leaves is shorter than
    what it was given, whatever the fuel. *)
Theorem parse_value_progress fuel s v rest :
  parse_value fuel s = Some (v, rest) →
  (String.length rest < String.length s)%nat.
Proof.
  intros Hs. destruct (parse_covers fuel 0) as (Hv & _).
  by destruct (Hv s v rest Hs) as [Hlt _].
Qed.

(** A value read with some fuel, with nothing but white space after it,
    is what [JSON_parse_text] answers: the length of the text is fuel
    enough for every text, and an error is an error of the text. *)
Theorem JSON_parse_text_complete fuel text v rest :
  parse_value fuel text = Some (v, rest) → skip_ws rest = "" →
  JSON_parse_text text = Some v.
Proof.
  intros Hs Hrest. unfold JSON_parse_text.
  rewrite (parse_value_enough fuel _ text v rest) by done. cbn.
  by rewrite decide_True.
Qed.

(** More fuel than the length of the text changes nothing. *)
Theorem JSON_parse_text_fuel fuel text :
  (String.length text ≤ fuel)%nat →
  JSON_parse_text text =
  '(v, rest) ← parse_value fuel text;
  if decide (skip_ws rest = "") then Some v else None.
Proof.
  intros Hlen. unfold JSON_parse_text.
  destruct (parse_value fuel text) as [[v rest]|] eqn:Hs.
  { by rewrite (parse_value_enough fuel _ text v rest). }
  destruct (parse_value (String.length text) text) as [[v rest]|] eqn:Hs';
    [|done].
  by rewrite (parse_value_enough _ fuel text v rest Hs') in Hs.
Qed.

(** ** On texts *)

Lemma JSON_parse_text_complete_witness :
  (parse_value 100 " [1, [true, null]] " =
     Some (JVArray [JVNumber (Num 1); JVArray [JVBool true; JVNull]], " ") ∧
   skip_ws " " = "") ∧
  JSON_parse_text " [1, [true, null]] " =
    Some (JVArray [JVNumber (Num 1); JVArray [JVBool true; JVNull]]).
Proof.
  split; [by vm_compute|]. by apply (JSON_parse_text_complete 100 _ _ " ").
Defined.

Lemma parse_value_progress_witness :
  parse_value 4 "[-12,0] x" =
    Some (JVArray [JVNumber (Num (-12)); JVNumber (Num 0)], " x") ∧
  (String.length " x" < String.length "[-12,0] x")%nat.
Proof.
  split; [by vm_compute|].
  by apply (parse_value_progress 4 _
              (JVArray [JVNumber (Num (-12)); JVNumber (Num 0)])).
Defined.

Lemma JSON_parse_text_fuel_witness :
  (String.length "[1,]" ≤ 7)%nat ∧
  JSON_parse_text "[1,]" =
  '(v, rest) ← parse_value 7 "[1,]";
  if decide (skip_ws rest = "") then Some v else None.
Proof. split; [cbn; lia|]. apply JSON_parse_text_fuel. cbn. lia. Defined.

(** * What is read is a value of JavaScript *)

(** The object built from members whose values are well formed is well
    formed, whatever names the members repeat. *)
Lemma foldl_obj_set_wf (o ms : list (string * JsonValue)) :
  NoDup o.*1 → Forall (λ kv, wf_value kv.2 = true) o →
  Forall (λ kv, wf_value kv.2 = true) ms →
  let o' := foldl (λ o kv, obj_set o kv.1 kv.2) o ms in
  NoDup o'.*1 ∧ Forall (λ kv, wf_value kv.2 = true) o'.
Proof.
  intros Hnd Ho Hms. revert o Hnd Ho.
  induction Hms as [|[k v] ms Hv _ IH]; intros o Hnd Ho; [done|].
  apply IH; [by apply obj_set_NoDup|].
  by apply (obj_set_Forall (λ v, wf_value v = true)).
Qed.

Lemma build_wf ms :
  forallb (λ kv, wf_value kv.2) ms = true → wf_value (JVObject (build ms)) = true.
Proof.
  intros Hms%forallb_Forall.
  destruct (foldl_obj_set_wf [] ms) as [Hnd Hwf]; [constructor|done..|].
  cbn [wf_value]. apply andb_true_iff. split.
  - by apply bool_decide_eq_true.
  - by apply forallb_Forall.
Qed.

(** Every value [f] reads has the property [P]. *)
Definition yields {A} (P : A → bool) (f : string → option (A * string)) : Prop :=
  ∀ s a rest, f s = Some (a, rest) → P a = true.

Section wf_steps.
Context (value : string → option (JsonValue * string)).
Context (elements : string → option (list JsonValue * string)).
Context (members : string → option (list (string * JsonValue) * string)).
Context (Hvalue : yields wf_value value).
Context (Helements : yields (forallb wf_value) elements).
Context (Hmembers : yields (forallb (λ kv, wf_value kv.2)) members).

Lemma value_step_wf : yields wf_value (value_step elements members).
Proof.
  intros s v rest. unfold value_step. destruct (skip_ws s) as [|c s1]; [done|].
  unfold value_at.
  repeat (destruct (_ : bool);
    [intros Hs; repeat case_match; bind_inv Hs; simplify_eq; try done|]);
    [..|done].
  - by eapply Helements.
  - by eapply build_wf, Hmembers.
Qed.

Lemma elements_step_wf :
  yields (forallb wf_value) (elements_step value elements).
Proof.
  intros s vs rest Hs. unfold elements_step in Hs. bind_inv Hs.
  case_match; bind_inv Hs; simplify_eq; cbn; apply andb_true_iff;
    eauto using Hvalue, Helements.
Qed.

Lemma members_step_wf :
  yields (forallb (λ kv, wf_value kv.2)) (members_step value members).
Proof.
  intros s ms rest Hs. unfold members_step in Hs. bind_inv Hs.
  case_match; bind_inv Hs; simplify_eq; cbn; apply andb_true_iff;
    eauto using Hvalue, Hmembers.
Qed.
End wf_steps.

Lemma parse_wf fuel :
  yields wf_value (parse_value fuel) ∧
  yields (forallb wf_value) (parse_elements fuel) ∧
  yields (forallb (λ kv, wf_value kv.2)) (parse_members fuel).
Proof.
  induction fuel as [|fuel (Hv & He & Hm)]; [by split_and!|].
  split_and!;
    [by apply value_step_wf|by apply elements_step_wf|
     by apply members_step_wf].
Qed.

(** What [JSON.parse] answers is a value of JavaScript, on any text. *)
Theorem JSON_parse_text_wf text v :
  JSON_parse_text text = Some v → wf_value v = true.
Proof.
  unfold JSON_parse_text. intros Hs. bind_inv Hs. case_decide; [|done].
  injection Hs as <-. by eapply (proj1 (parse_wf _)).
Qed.

(** A text that gives the name [a] twice. *)
Definition repeated_text : string :=
  "{" +:+ quote "a" +:+ ":1," +:+ quote "a" +:+ ":[2]}".

Lemma JSON_parse_text_wf_witness :
  JSON_parse_text repeated_text =
    Some (JVObject [("a", JVArray [JVNumber (Num 2)])]) ∧
  wf_value (JVObject [("a", JVArray [JVNumber (Num 2)])]) = true.
Proof.
  split; [by vm_compute|].
  apply (JSON_parse_text_wf repeated_text). by vm_compute.
Defined.
