(* ===== verification/Storage.v ===== *)
(** * Storage: the backing store [ExpiredStorage] wraps

    The constructor of [ExpiredStorage] accepts any object that has
    [getItem], [setItem], [removeItem] and [clear]; [_iterKeys] then probes
    it for a way to list keys ([keys()], [Object.keys], [length] with
    [key(i)], [for ... in]).  [StorageObject] is such a candidate, any
    member of which may be missing; [Storage] is a validated one, a table
    of methods over a state type [St]; [StorageLaws] is what the wrapper's
    theorems ask of it: the store behaves as a finite map, through an
    abstraction function [st_model], and stays well formed.  The
    implementations (the test suite's dictionary store, web storage)
    discharge the laws in their own files; the wrapper is proved against
    the laws only. *)

From S2P Require Import Prelude Js Dict.

(** ** The method table *)

Class Storage (St : Type) : Type := {
  (** [storage.getItem(key)] *)
  st_getItem : string → St → JSValue;
  (** [storage.setItem(key, value)], with the value it returns *)
  st_setItem : string → JSValue → State St JSValue;
  (** [storage.removeItem(key)], with the value it returns *)
  st_removeItem : string → State St JSValue;
  (** [storage.clear()] *)
  st_clear : St → St;
  (** [storage.keys], when it is a function *)
  st_keys : option (St → list string);
  (** [Object.keys(storage)] *)
  st_object_keys : St → list string;
  (** [storage.length], when it is defined *)
  st_length : option (St → nat);
  (** [storage.key], when it is a function *)
  st_key : option (St → nat → string);
  (** the property names [for (k in storage)] starts out with *)
  st_for_in : St → list string;
  (** [k in storage] *)
  st_in : string → St → bool;
}.

#[global] Hint Mode Storage ! : typeclass_instances.

(** ** The object handed to the constructor *)

(** A candidate for [this._storage]: any member may be missing. *)
Record StorageObject (St : Type) : Type := mkStorageObject {
  so_getItem : option (string → St → JSValue);
  so_setItem : option (string → JSValue → State St JSValue);
  so_removeItem : option (string → State St JSValue);
  so_clear : option (St → St);
  so_keys : option (St → list string);
  so_object_keys : St → list string;
  so_length : option (St → nat);
  so_key : option (St → nat → string);
  so_for_in : St → list string;
  so_in : string → St → bool;
}.
Arguments mkStorageObject {St}.
Arguments so_getItem {St}.
Arguments so_setItem {St}.
Arguments so_removeItem {St}.
Arguments so_clear {St}.
Arguments so_keys {St}.
Arguments so_object_keys {St}.
Arguments so_length {St}.
Arguments so_key {St}.
Arguments so_for_in {St}.
Arguments so_in {St}.

(** ** What the wrapper relies on *)

(** A list of keys enumerates a map when it lists its domain once. *)
Definition enumerates (l : list string) (m : gmap string JSValue) : Prop :=
  NoDup l ∧ ∀ k, k ∈ l ↔ is_Some (m !! k).

Class StorageLaws (St : Type) `{Storage St} : Type := {
  (** the finite map a state stands for: key to the value a read gives *)
  st_model : St → gmap string JSValue;
  (** the invariant of the representation *)
  st_wf : St → Prop;
  (** what a read of an absent key gives: [null] or [undefined] *)
  st_absent : JSValue;
  (** what a read gives after [v] was written *)
  st_stored : JSValue → JSValue;

  st_getItem_model k s :
    st_getItem k s = default st_absent (st_model s !! k);
  st_setItem_model k v s :
    st_model (st_setItem k v s).2 = <[k := st_stored v]> (st_model s);
  st_removeItem_model k s :
    st_model (st_removeItem k s).2 = delete k (st_model s);
  st_clear_model s : st_model (st_clear s) = ∅;

  st_setItem_wf k v s : st_wf s → st_wf (st_setItem k v s).2;
  st_removeItem_wf k s : st_wf s → st_wf (st_removeItem k s).2;
  st_clear_wf s : st_wf (st_clear s);

  (** an absent entry never reads as a number, and a write keeps the
      number [parseInt] sees *)
  st_absent_parseInt : parseInt st_absent = NaN;
  st_stored_parseInt v : parseInt (st_stored v) = parseInt v;
}.

#[global] Hint Mode StorageLaws ! - : typeclass_instances.
Arguments st_model {St _ _} s.
Arguments st_wf {St _ _} s.
Arguments st_absent St {_ _}.
Arguments st_stored St {_ _} v.

(** * Consequences of the laws *)

Section laws.
Context {St : Type} `{StorageLaws St}.
Implicit Types (s : St) (k : string) (v : JSValue).

Lemma st_getItem_setItem k v s :
  st_getItem k (st_setItem k v s).2 = st_stored St v.
Proof.
  by rewrite st_getItem_model, st_setItem_model, lookup_insert_eq.
Qed.

Lemma st_getItem_setItem_ne k k' v s :
  k ≠ k' → st_getItem k' (st_setItem k v s).2 = st_getItem k' s.
Proof.
  intros. by rewrite !st_getItem_model, st_setItem_model, lookup_insert_ne.
Qed.

Lemma st_getItem_removeItem k s :
  st_getItem k (st_removeItem k s).2 = st_absent St.
Proof.
  by rewrite st_getItem_model, st_removeItem_model, lookup_delete_eq.
Qed.

Lemma st_getItem_removeItem_ne k k' s :
  k ≠ k' → st_getItem k' (st_removeItem k s).2 = st_getItem k' s.
Proof.
  intros.
  by rewrite !st_getItem_model, st_removeItem_model, lookup_delete_ne.
Qed.

Lemma st_getItem_clear k s : st_getItem k (st_clear s) = st_absent St.
Proof. by rewrite st_getItem_model, st_clear_model, lookup_empty. Qed.

(** A key the model does not hold reads as absent. *)
Lemma st_getItem_None k s :
  st_model s !! k = None → st_getItem k s = st_absent St.
Proof. intros Hk. by rewrite st_getItem_model, Hk. Qed.

(** Removing twice is removing once. *)
Lemma st_removeItem_idemp k s :
  st_model (st_removeItem k (st_removeItem k s).2).2 =
  st_model (st_removeItem k s).2.
Proof. rewrite !st_removeItem_model. apply delete_delete_eq. Qed.

Lemma enumerates_elem_of l s k :
  enumerates l (st_model s) → k ∉ l → st_getItem k s = st_absent St.
Proof.
  intros [_ Hl] Hk. apply st_getItem_None, eq_None_not_Some.
  by rewrite <- Hl.
Qed.
End laws.

(** The keys of a dictionary enumerate the map it stands for, whatever
    the store makes of the values when it reads them. *)
Lemma enumerates_dict {V} (read : V → JSValue) (o : list (string * V)) :
  NoDup o.*1 → enumerates o.*1 (read <$> list_to_map o).
Proof.
  intros Ho. split; [done|]. intros k.
  by rewrite lookup_fmap, fmap_is_Some, obj_keys_lookup.
Qed.

#[export] Hint Rewrite @st_getItem_setItem @st_getItem_removeItem
  @st_getItem_clear @st_setItem_model @st_removeItem_model
  @st_clear_model : es.
#[export] Hint Resolve st_setItem_wf st_removeItem_wf st_clear_wf : es.
