(* ===== verification/ExpiredStorage.v ===== *)
(** * ExpiredStorage: the wrapper, method by method

    The class of src/dist/expired_storage.js.  The constructor turns a
    candidate object into a validated method table ([Storage]) or an error;
    every method is a computation over the [World]: the state of the
    backing store, the clock that [getTimestamp] reads, and whether the
    environment has [Object.keys].  A method keeps the name it has in the
    source.

    The definitions come first, then what each method does, branch by
    branch, against the laws of [Storage.StorageLaws]. *)

From S2P Require Import Prelude Loops Js Storage.

(** ** The world a method runs in *)

Record World (St : Type) : Type := mkWorld {
  (** the state of [this._storage] *)
  storage : St;
  (** [(new Date).getTime()], in milliseconds *)
  date : Z;
  (** [typeof Object === "function" && Object.keys] *)
  has_Object_keys : bool;
}.
Arguments mkWorld {St}.
Arguments storage {St}.
Arguments date {St}.
Arguments has_Object_keys {St}.

Definition set_storage {St} (s : St) (w : World St) : World St :=
  mkWorld s (date w) (has_Object_keys w).

(** The clock moves between calls, never during one. *)
Definition advance {St} (ms : Z) (w : World St) : World St :=
  mkWorld (storage w) (date w + ms) (has_Object_keys w).

(** ** The constructor *)

Inductive ConstructionError : Type :=
  | NoStorage
  | MissingApi.

Definition error_message (e : ConstructionError) : string :=
  match e with
  | NoStorage =>
      "ExpiredStorage: No storage base class provided and 'localStorage' is undefined! Please provide a valid base storage class."
  | MissingApi =>
      "ExpiredStorage: Storage class  don't support one or more of the required API functions: getItem, setItem, removeItem or clear."
  end.

(** [new ExpiredStorage(storage)], in an environment whose global
    [localStorage] is [localStorage] ([None]: undefined). *)
Definition ExpiredStorage_new {St} (storage localStorage : option (StorageObject St))
    : ConstructionError + Storage St :=
  let storage := match storage with Some o => Some o | None => localStorage end in
  match storage with
  | None => inl NoStorage
  | Some o =>
      match so_setItem o, so_getItem o, so_removeItem o, so_clear o with
      | Some set, Some get, Some remove, Some clear =>
          inr {| st_getItem := get; st_setItem := set;
                 st_removeItem := remove; st_clear := clear;
                 st_keys := so_keys o; st_object_keys := so_object_keys o;
                 st_length := so_length o; st_key := so_key o;
                 st_for_in := so_for_in o; st_in := so_in o |}
      | _, _, _, _ => inl MissingApi
      end
  end.

(** ** The prototype *)

Definition _expiration_key_prefix : string := "__expired_storage_ts__".

(** What [timeLeft <= 0] gives for the [null] or number that [getTimeLeft]
    returns: [null] converts to 0. *)
Definition le_zero (timeLeft : option JSNumber) : bool :=
  match timeLeft with
  | None => true
  | Some (Num n) => n <=? 0
  | Some NaN => false
  end.

Definition number_sub (x : JSNumber) (t : Z) : JSNumber :=
  match x with
  | Num n => Num (n - t)
  | NaN => NaN
  end.

(** What [peek] returns. *)
Record PeekResult : Type := mkPeek {
  peek_value : JSValue;
  peek_timeLeft : option JSNumber;
  peek_isExpired : bool;
}.

#[export] Instance PeekResult_eq_dec : EqDecision PeekResult.
Proof. solve_decision. Defined.

(** What [setJson] and [getJson] throw: the error of [setJson] itself, and
    the [SyntaxError] of [JSON.parse]. *)
Inductive JsonError : Type :=
  | CannotSetUndefined
  | SyntaxError.

Definition json_error_message (e : JsonError) : string :=
  match e with
  | CannotSetUndefined => "Cannot set undefined value as JSON!"
  | SyntaxError => "SyntaxError"
  end.

Section prototype.
Context {St : Type} `{!Storage St}.

Abbreviation M := (State (World St)).

(** Calls into [this._storage]. *)
Definition on_storage {A} (m : State St A) : M A :=
  λ w, let '(a, s) := m (storage w) in (a, set_storage s w).

Definition storage_getItem (key : string) : M JSValue :=
  gets (λ w, st_getItem key (storage w)).

Definition storage_setItem (key : string) (value : JSValue) : M JSValue :=
  on_storage (st_setItem key value).

Definition storage_removeItem (key : string) : M JSValue :=
  on_storage (st_removeItem key).

Definition storage_clear : M unit :=
  modify (λ w, set_storage (st_clear (storage w)) w).

Definition getTimestamp : M Z := gets (λ w, date w `div` 1000).

Definition updateExpiration (key : string) (expiration : JSValue)
    : M JSValue :=
  ts ← getTimestamp;
  storage_setItem (_expiration_key_prefix +:+ key)
    (add_to_timestamp ts expiration).

Definition setItem (key : string) (value expiration : JSValue)
    : M JSValue :=
  ret ← storage_setItem key value;
  (when truthy expiration do updateExpiration key expiration);;
  mret ret.

Definition getTimeLeft (key : string) : M (option JSNumber) :=
  raw ← storage_getItem (_expiration_key_prefix +:+ key);
  let expireTime := parseInt raw in
  if number_truthy expireTime && negb (isNaN expireTime) then
    ts ← getTimestamp; mret (Some (number_sub expireTime ts))
  else mret None.

Definition isExpired (key : string) : M bool :=
  timeLeft ← getTimeLeft key;
  mret (bool_decide (timeLeft ≠ None) && le_zero timeLeft).

Definition removeItem (key : string) : M JSValue :=
  ret ← storage_removeItem key;
  storage_removeItem (_expiration_key_prefix +:+ key);;
  mret ret.

Definition getItem (key : string) : M JSValue :=
  expired ← isExpired key;
  if expired : bool then removeItem key;; mret JNull
  else storage_getItem key.

Definition peek (key : string) : M PeekResult :=
  value ← storage_getItem key;
  timeLeft ← getTimeLeft key;
  mret (mkPeek value timeLeft
          (bool_decide (timeLeft ≠ None) && le_zero timeLeft)).

(** [for (var storageKey in this._storage) callback(storageKey)]: the
    loop starts from the property names present at its start and skips
    one that was deleted before its turn. *)
Definition for_in {A} (callback : string → A → M A) (a : A) : M A :=
  names ← gets (λ w, st_for_in (storage w));
  for_each (λ k a,
    present ← gets (λ w, st_in k (storage w));
    if present : bool then callback k a else mret a) names a.

(** The callback's closure variable is the accumulator [a]; the loops
    are those of [Loops], with their counter. *)
Definition _iterKeys {A} (callback : string → A → M A) (a : A) : M A :=
  match st_keys with
  | Some keys_fn =>
      keys ← gets (λ w, keys_fn (storage w));
      for_loop callback keys 0 a
  | None =>
      object_keys ← gets has_Object_keys;
      if object_keys : bool then
        keys ← gets (λ w, st_object_keys (storage w));
        for_loop callback keys 0 a
      else
        match st_length, st_key with
        | Some length_fn, Some key_fn =>
            keys ← gets (λ w,
              collect_keys (key_fn (storage w)) (length_fn (storage w)) 0 []);
            for_loop callback keys 0 a
        | _, _ => for_in callback a
        end
  end.

(** The function [keys] hands to [_iterKeys]; [ret] is the array it
    pushes to. *)
Definition keys_callback (includeExpired : bool) (storageKey : string)
    (ret : list string) : M (list string) :=
  if bool_decide (indexOf storageKey _expiration_key_prefix ≠ 0) then
    if includeExpired then mret (ret ++ [storageKey])
    else
      expired ← isExpired storageKey;
      if negb expired then mret (ret ++ [storageKey]) else mret ret
  else mret ret.

Definition keys (includeExpired : bool) : M (list string) :=
  _iterKeys (keys_callback includeExpired) [].

Definition clear : M unit := storage_clear.

(** The function [clearExpired] hands to [_iterKeys]. *)
Definition clearExpired_callback (storageKey : string) (ret : list string)
    : M (list string) :=
  if bool_decide (indexOf storageKey _expiration_key_prefix = 0) then
    let itemKey :=
      substr storageKey (String.length _expiration_key_prefix) in
    expired ← isExpired itemKey;
    if expired : bool then removeItem itemKey;; mret (ret ++ [itemKey])
    else mret ret
  else mret ret.

Definition clearExpired : M (list string) :=
  timestamp ← getTimestamp;
  _iterKeys clearExpired_callback [].

(** [setJson] throws on [undefined] and else hands the text of the value
    to [setItem]. *)
Definition setJson `{!Json V} (key : string) (val : V) (expiration : JSValue)
    : M (JsonError + JSValue) :=
  if is_undefined val then mret (inl CannotSetUndefined)
  else
    ret ← setItem key (stringified val) expiration;
    mret (inr ret).

(** [getJson] answers [null] for [null] and else parses what [getItem]
    returned; [JSON.parse] converts its argument to a string first. *)
Definition getJson `{!Json V} (key : string) : M (JsonError + V) :=
  val ← getItem key;
  if decide (val = JNull) then mret (inr json_null)
  else mret (from_option inr (inl SyntaxError) (JSON_parse (ToString val))).
End prototype.

(** * What each method does *)

(** ** Views of the world *)

Section views.
Context {St : Type} `{!Storage St}.
Implicit Types (w : World St) (key : string).

(** What [getTimestamp] reads. *)
Definition now w : Z := date w `div` 1000.

(** The key of the expiry record of [key]. *)
Definition expiry_key key : string := _expiration_key_prefix +:+ key.

(** The instant at which the entry under [key] expires, [None] when it
    never does: the expiry record, when it parses to a number other
    than 0. *)
Definition expiry key w : option Z :=
  match parseInt (st_getItem (expiry_key key) (storage w)) with
  | Num e => if decide (e = 0) then None else Some e
  | NaN => None
  end.

(** Whether the entry under [key] is past its expiry instant. *)
Definition expired key w : bool :=
  match expiry key w with
  | Some e => bool_decide (e ≤ now w)
  | None => false
  end.
End views.

(** ** One equation per method

    Each method run from a world [w], as a value and a world, with no
    assumption on the store. *)

Section run.
Context {St : Type} `{!Storage St}.
Implicit Types (w : World St) (s : St) (key : string).
Implicit Types (value expiration : JSValue).

Lemma set_storage_storage s w : storage (set_storage s w) = s.
Proof. done. Qed.

Lemma set_storage_date s w : date (set_storage s w) = date w.
Proof. done. Qed.

Lemma set_storage_now s w : now (set_storage s w) = now w.
Proof. done. Qed.

Lemma set_storage_twice s s' w :
  set_storage s (set_storage s' w) = set_storage s w.
Proof. done. Qed.

Lemma set_storage_same w : set_storage (storage w) w = w.
Proof. by destruct w. Qed.

Lemma on_storage_run {A} (m : State St A) w :
  on_storage m w = ((m (storage w)).1, set_storage (m (storage w)).2 w).
Proof. unfold on_storage. by destruct (m (storage w)). Qed.

Lemma getTimestamp_run w : getTimestamp w = (now w, w).
Proof. done. Qed.

Lemma storage_getItem_run key w :
  storage_getItem key w = (st_getItem key (storage w), w).
Proof. done. Qed.

Lemma updateExpiration_run key expiration w :
  updateExpiration key expiration w =
  on_storage
    (st_setItem (expiry_key key) (add_to_timestamp (now w) expiration)) w.
Proof. done. Qed.

Lemma setItem_run key value expiration w :
  setItem key value expiration w =
  let r := st_setItem key value (storage w) in
  (r.1,
   if truthy expiration
   then exec (updateExpiration key expiration) (set_storage r.2 w)
   else set_storage r.2 w).
Proof.
  unfold setItem, storage_setItem. rewrite run_bind, on_storage_run.
  cbn [fst snd]. rewrite run_bind.
  destruct (truthy expiration); [|done].
  rewrite run_bind. unfold exec.
  by destruct (updateExpiration _ _ _).
Qed.

Lemma getTimeLeft_run key w :
  getTimeLeft key w = ((λ e, Num (e - now w)) <$> expiry key w, w).
Proof.
  unfold getTimeLeft, expiry. rewrite run_bind, storage_getItem_run.
  cbn [fst snd]. fold (expiry_key key).
  destruct (parseInt _) as [e|]; [|done]. cbn.
  case_decide as He; [subst; done|].
  by rewrite (proj2 (Z.eqb_neq e 0)).
Qed.

Lemma isExpired_run key w : isExpired key w = (expired key w, w).
Proof.
  unfold isExpired, expired. rewrite run_bind, getTimeLeft_run.
  cbn [fst snd]. rewrite run_ret. f_equal.
  destruct (expiry key w) as [e|]; [|done]. cbn.
  rewrite Z_leb_decide. apply bool_decide_ext. lia.
Qed.

Lemma removeItem_run key w :
  removeItem key w =
  let r := st_removeItem key (storage w) in
  (r.1, set_storage (st_removeItem (expiry_key key) r.2).2 w).
Proof.
  unfold removeItem, storage_removeItem.
  by rewrite !run_bind, !on_storage_run.
Qed.

Lemma getItem_run key w :
  getItem key w =
  if expired key w then (JNull, exec (removeItem key) w)
  else (st_getItem key (storage w), w).
Proof.
  unfold getItem. rewrite run_bind, isExpired_run. cbn [fst snd].
  destruct (expired key w); [|done].
  rewrite run_bind. unfold exec. by destruct (removeItem key w).
Qed.

Lemma peek_run key w :
  peek key w =
  (mkPeek (st_getItem key (storage w))
     ((λ e, Num (e - now w)) <$> expiry key w) (expired key w), w).
Proof.
  unfold peek. rewrite run_bind, storage_getItem_run. cbn [fst snd].
  rewrite run_bind, getTimeLeft_run. cbn [fst snd]. rewrite run_ret.
  do 2 f_equal. pose proof (isExpired_run key w) as Hexp.
  unfold isExpired in Hexp. rewrite run_bind, getTimeLeft_run in Hexp.
  by injection Hexp.
Qed.

Lemma clear_run w : clear w = (tt, set_storage (st_clear (storage w)) w).
Proof. done. Qed.
End run.

(** ** The constructor *)

Section constructor.
Context {St : Type}.
Implicit Types (o : StorageObject St) (table : Storage St).

(** The object has the four members the constructor asks for. *)
Definition has_api o : Prop :=
  is_Some (so_setItem o) ∧ is_Some (so_getItem o) ∧
  is_Some (so_removeItem o) ∧ is_Some (so_clear o).

(** The methods of the table are the members of the object. *)
Definition table_of o table : Prop :=
  so_getItem o = Some (@st_getItem _ table) ∧
  so_setItem o = Some (@st_setItem _ table) ∧
  so_removeItem o = Some (@st_removeItem _ table) ∧
  so_clear o = Some (@st_clear _ table) ∧
  so_keys o = @st_keys _ table ∧ so_length o = @st_length _ table ∧
  so_key o = @st_key _ table.

Lemma ExpiredStorage_new_Some o localStorage :
  ExpiredStorage_new (Some o) localStorage =
  ExpiredStorage_new None (Some o).
Proof. done. Qed.

Lemma ExpiredStorage_new_object o :
  match ExpiredStorage_new None (Some o) with
  | inl e => e = MissingApi ∧ ¬ has_api o
  | inr table => has_api o ∧ table_of o table
  end.
Proof.
  unfold ExpiredStorage_new, has_api, table_of.
  destruct (so_setItem o), (so_getItem o), (so_removeItem o), (so_clear o);
    cbn; try (split; [done|]; intros (? & ? & ? & ?)); by rewrite <- ?not_eq_None_Some in *.
Qed.

(** C27. The constructor takes its argument, or the global [localStorage] when
    it is given none; it throws the first error when there is neither, the
    second when the object chosen lacks one of [setItem], [getItem],
    [removeItem] and [clear], and else wraps the object as it is. *)
Theorem ExpiredStorage_new_spec (storage localStorage : option (StorageObject St)) :
  match ExpiredStorage_new storage localStorage with
  | inl NoStorage => storage = None ∧ localStorage = None
  | inl MissingApi =>
      ∃ o, (storage = Some o ∨ storage = None ∧ localStorage = Some o) ∧
           ¬ has_api o
  | inr table =>
      ∃ o, (storage = Some o ∨ storage = None ∧ localStorage = Some o) ∧
           has_api o ∧ table_of o table
  end.
Proof.
  destruct storage as [o|]; [|destruct localStorage as [o|]; [|done]];
    [rewrite ExpiredStorage_new_Some|];
    pose proof (ExpiredStorage_new_object o) as Ho;
    destruct (ExpiredStorage_new None (Some o)) as [e|table];
    [destruct Ho as [-> ?]| |destruct Ho as [-> ?]|]; eauto.
Qed.
End constructor.
