(* ===== verification/TestStorage.v ===== *)
(** * TestStorage: the dictionary stores of the test suite and the README

    [testStorage] is the custom storage class that the tests
    (src/unnamed/part_000) hand to [ExpiredStorage]: an object whose
    [_storage] member is a plain object used as a dictionary, and whose
    [getItem] answers [null] for a key it does not hold.  [readmeStorage]
    is the one of the README and of the older tests (src/tests/tests.js),
    which differs in [getItem] alone: it returns [this._storage[key]] as it
    is, [undefined] for a key it does not hold.  [BareStore] is the
    store of the README without the optional [keys()]; [OwnStore] is a
    storage object that keeps its entries as properties of its own, the
    kind the last branch of [_iterKeys] is written for.  All are shown
    to satisfy [Storage.StorageLaws], so every theorem about the wrapper
    applies to them. *)

From S2P Require Import Prelude Js Dict Storage.

(** The state of [this._storage]. *)
Abbreviation JSObject := (list (string * JSValue)).

(** [o[key]], as a JavaScript value. *)
Definition obj_read (o : JSObject) (key : string) : JSValue :=
  default JUndefined (obj_get o key).

(** ** The methods of [testStorage] *)

Definition testStorage_getItem (key : string) (_storage : JSObject) : JSValue :=
  let ret := obj_read _storage key in
  if decide (ret = JUndefined) then JNull else ret.

Definition testStorage_setItem (key : string) (val : JSValue)
    : State JSObject JSValue :=
  λ _storage, (JUndefined, obj_set _storage key val).

Definition testStorage_removeItem (key : string) : State JSObject JSValue :=
  λ _storage, (JUndefined, obj_delete _storage key).

Definition testStorage_clear (_storage : JSObject) : JSObject := [].

Definition testStorage_keys (_storage : JSObject) : list string :=
  filter (obj_hasOwnProperty _storage) (obj_for_in _storage).

(** The members of the [testStorage] object itself, which [Object.keys]
    and [for ... in] list in place of the keys it stores. *)
Definition testStorage_members : list string :=
  ["_storage"; "getItem"; "setItem"; "removeItem"; "clear"; "keys"].

Definition testStorage : StorageObject JSObject := {|
  so_getItem := Some testStorage_getItem;
  so_setItem := Some testStorage_setItem;
  so_removeItem := Some testStorage_removeItem;
  so_clear := Some testStorage_clear;
  so_keys := Some testStorage_keys;
  so_object_keys := λ _, testStorage_members;
  so_length := None;
  so_key := None;
  so_for_in := λ _, testStorage_members;
  so_in := λ k _, bool_decide (k ∈ testStorage_members);
|}.

(** The method table the constructor makes of it. *)
#[export] Instance testStorage_Storage : Storage JSObject := {|
  st_getItem := testStorage_getItem;
  st_setItem := testStorage_setItem;
  st_removeItem := testStorage_removeItem;
  st_clear := testStorage_clear;
  st_keys := Some testStorage_keys;
  st_object_keys := λ _, testStorage_members;
  st_length := None;
  st_key := None;
  st_for_in := λ _, testStorage_members;
  st_in := λ k _, bool_decide (k ∈ testStorage_members);
|}.

(** What [getItem] answers for a stored value. *)
Definition testStorage_read (v : JSValue) : JSValue :=
  if decide (v = JUndefined) then JNull else v.

(** The finite map a dictionary stands for. *)
Definition testStorage_model (o : JSObject) : gmap string JSValue :=
  testStorage_read <$> list_to_map o.

(** ** The store of the README *)

(** Its state is a dictionary too; the record keeps the two stores
    apart. *)
Record ReadmeStore : Type := mkReadmeStore { readme_storage : JSObject }.

Definition readmeStorage_getItem (key : string) (s : ReadmeStore) : JSValue :=
  obj_read (readme_storage s) key.

Definition readmeStorage_setItem (key : string) (val : JSValue)
    : State ReadmeStore JSValue :=
  λ s, (JUndefined, mkReadmeStore (obj_set (readme_storage s) key val)).

Definition readmeStorage_removeItem (key : string)
    : State ReadmeStore JSValue :=
  λ s, (JUndefined, mkReadmeStore (obj_delete (readme_storage s) key)).

Definition readmeStorage_clear (s : ReadmeStore) : ReadmeStore :=
  mkReadmeStore [].

Definition readmeStorage_keys (s : ReadmeStore) : list string :=
  filter (obj_hasOwnProperty (readme_storage s)) (obj_for_in (readme_storage s)).

#[export] Instance readmeStorage_Storage : Storage ReadmeStore := {|
  st_getItem := readmeStorage_getItem;
  st_setItem := readmeStorage_setItem;
  st_removeItem := readmeStorage_removeItem;
  st_clear := readmeStorage_clear;
  st_keys := Some readmeStorage_keys;
  st_object_keys := λ _, testStorage_members;
  st_length := None;
  st_key := None;
  st_for_in := λ _, testStorage_members;
  st_in := λ k _, bool_decide (k ∈ testStorage_members);
|}.

(** ** The store of the README without [keys()]

    The README asks a custom storage class for [getItem], [setItem],
    [removeItem] and [clear], and presents [keys()] as something one can
    add.  This is its store with the four functions only: what
    [Object.keys] and [for ... in] list of it are its five members. *)

Record BareStore : Type := mkBareStore { bare_storage : JSObject }.

Definition bareStorage_members : list string :=
  ["_storage"; "getItem"; "setItem"; "removeItem"; "clear"].

#[export] Instance bareStorage_Storage : Storage BareStore := {|
  st_getItem := λ key s, obj_read (bare_storage s) key;
  st_setItem := λ key val s,
    (JUndefined, mkBareStore (obj_set (bare_storage s) key val));
  st_removeItem := λ key s,
    (JUndefined, mkBareStore (obj_delete (bare_storage s) key));
  st_clear := λ s, mkBareStore [];
  st_keys := None;
  st_object_keys := λ _, bareStorage_members;
  st_length := None;
  st_key := None;
  st_for_in := λ _, bareStorage_members;
  st_in := λ k _, bool_decide (k ∈ bareStorage_members);
|}.

(** ** A store whose entries are its own properties

    [_iterKeys] ends with a loop over the properties of the storage
    object, for a storage that offers no other way to list its keys.
    This is the storage that branch is written for, which none of the
    repository is: an object that keeps each entry as a property of its
    own and inherits its four methods, not enumerable, from a
    prototype.  [getItem] answers [null] for a key it does not hold. *)

Record OwnStore : Type := mkOwnStore { own_properties : JSObject }.

Definition ownStorage_methods : list string :=
  ["getItem"; "setItem"; "removeItem"; "clear"].

#[export] Instance ownStorage_Storage : Storage OwnStore := {|
  st_getItem := λ key s, testStorage_getItem key (own_properties s);
  st_setItem := λ key val s,
    (JUndefined, mkOwnStore (obj_set (own_properties s) key val));
  st_removeItem := λ key s,
    (JUndefined, mkOwnStore (obj_delete (own_properties s) key));
  st_clear := λ s, mkOwnStore [];
  st_keys := None;
  st_object_keys := λ s, (own_properties s).*1;
  st_length := None;
  st_key := None;
  st_for_in := λ s, (own_properties s).*1;
  st_in := λ k s,
    bool_decide (k ∈ (own_properties s).*1 ∨ k ∈ ownStorage_methods);
|}.

(** * The stores satisfy the laws of a backing store *)

Lemma testStorage_keys_eq (o : JSObject) : testStorage_keys o = o.*1.
Proof. apply obj_for_in_own. Qed.

#[export, refine] Instance testStorage_laws : StorageLaws JSObject := {|
  st_model := testStorage_model;
  st_wf := λ o, NoDup o.*1;
  st_absent := JNull;
  st_stored := testStorage_read;
|}.
Proof.
  - intros k o. cbn. unfold testStorage_getItem, testStorage_model, obj_read.
    rewrite obj_get_lookup, lookup_fmap.
    by destruct (list_to_map o !! k).
  - intros k v o. cbn. unfold testStorage_model.
    by rewrite obj_set_to_map, fmap_insert.
  - intros k o. cbn. unfold testStorage_model.
    by rewrite obj_delete_to_map, fmap_delete.
  - intros o. cbn. unfold testStorage_model. by rewrite fmap_empty.
  - intros k v o. apply obj_set_NoDup.
  - intros k o. apply obj_delete_NoDup.
  - intros o. constructor.
  - done.
  - intros v. unfold testStorage_read. by case_decide; subst.
Defined.

#[export, refine] Instance readmeStorage_laws : StorageLaws ReadmeStore := {|
  st_model := λ s, list_to_map (readme_storage s);
  st_wf := λ s, NoDup (readme_storage s).*1;
  st_absent := JUndefined;
  st_stored := id;
|}.
Proof.
  - intros k s. cbn. unfold readmeStorage_getItem, obj_read.
    by rewrite obj_get_lookup.
  - intros k v s. cbn. apply obj_set_to_map.
  - intros k s. cbn. apply obj_delete_to_map.
  - done.
  - intros k v s. apply obj_set_NoDup.
  - intros k s. apply obj_delete_NoDup.
  - intros s. constructor.
  - done.
  - done.
Defined.

#[export, refine] Instance bareStorage_laws : StorageLaws BareStore := {|
  st_model := λ s, list_to_map (bare_storage s);
  st_wf := λ s, NoDup (bare_storage s).*1;
  st_absent := JUndefined;
  st_stored := id;
|}.
Proof.
  - intros k s. cbn. unfold obj_read. by rewrite obj_get_lookup.
  - intros k v s. cbn. apply obj_set_to_map.
  - intros k s. cbn. apply obj_delete_to_map.
  - done.
  - intros k v s. apply obj_set_NoDup.
  - intros k s. apply obj_delete_NoDup.
  - intros s. constructor.
  - done.
  - done.
Defined.

#[export, refine] Instance ownStorage_laws : StorageLaws OwnStore := {|
  st_model := λ s, testStorage_model (own_properties s);
  st_wf := λ s, NoDup (own_properties s).*1;
  st_absent := JNull;
  st_stored := testStorage_read;
|}.
Proof.
  - intros k s. exact (st_getItem_model (St := JSObject) k (own_properties s)).
  - intros k v s.
    exact (st_setItem_model (St := JSObject) k v (own_properties s)).
  - intros k s.
    exact (st_removeItem_model (St := JSObject) k (own_properties s)).
  - intros s. exact (st_clear_model (St := JSObject) []).
  - intros k v s. apply obj_set_NoDup.
  - intros k s. apply obj_delete_NoDup.
  - intros s. constructor.
  - done.
  - exact (st_stored_parseInt (St := JSObject)).
Defined.

(** Every key the store holds is a property of the object. *)
Lemma ownStorage_in_model k (s : OwnStore) :
  is_Some (st_model s !! k) → st_in k s = true.
Proof.
  intros Hk. apply bool_decide_eq_true. left. apply obj_keys_lookup.
  unfold st_model in Hk. cbn in Hk. unfold testStorage_model in Hk.
  by rewrite lookup_fmap, fmap_is_Some in Hk.
Qed.

Lemma testStorage_enumerates (o : JSObject) :
  NoDup o.*1 → enumerates (testStorage_keys o) (testStorage_model o).
Proof. rewrite testStorage_keys_eq. apply enumerates_dict. Qed.

(** [testStorage.keys()] lists each stored key once, in the order the
    keys were first set. *)
Theorem testStorage_keys_enumerates (o : JSObject) :
  st_wf o → enumerates (testStorage_keys o) (st_model o).
Proof. apply testStorage_enumerates. Qed.

Lemma testStorage_keys_enumerates_witness :
  st_wf [("a", JString "x"); ("b", JNull)] ∧
  enumerates (testStorage_keys [("a", JString "x"); ("b", JNull)])
    (st_model [("a", JString "x"); ("b", JNull)]).
Proof.
  assert (st_wf [("a", JString "x"); ("b", JNull)]) as Hwf.
  { apply (bool_decide_unpack _). by vm_compute. }
  split; [done|]. by apply testStorage_keys_enumerates.
Defined.
