(* ===== verification/WebStorage.v ===== *)
(** * WebStorage: [localStorage] and [sessionStorage]

    The store [ExpiredStorage] wraps when it is given none, and the two
    others the test suite runs on.  The browser provides them; they are
    modelled from the Web Storage standard: an ordered list of pairs of a
    key and a value, both strings.  [setItem] converts the value to a
    string; [getItem] answers [null] for a key that is not there;
    [length] and [key(n)] index the list; [Object.keys] lists the keys.
    The store is shown to satisfy [Storage.StorageLaws]: this is where
    the expiry instant goes through text, and where [parseInt] reading
    back the decimal text of an integer is needed.

    [setItem] never throws here; the quota is in [Throwing].  Not
    modelled: storage events, and stored keys that shadow a method of
    the object. *)

From S2P Require Import Prelude Js Dict Storage.

(** The state of a storage area. *)
Record WebStore : Type := mkWebStore { web_items : list (string * string) }.

Definition localStorage_getItem (key : string) (s : WebStore) : JSValue :=
  from_option JString JNull (obj_get (web_items s) key).

Definition localStorage_setItem (key : string) (value : JSValue)
    : State WebStore JSValue :=
  λ s, (JUndefined, mkWebStore (obj_set (web_items s) key (ToString value))).

Definition localStorage_removeItem (key : string) : State WebStore JSValue :=
  λ s, (JUndefined, mkWebStore (obj_delete (web_items s) key)).

Definition localStorage_clear (s : WebStore) : WebStore := mkWebStore [].

Definition localStorage_length (s : WebStore) : nat := length (web_items s).

(** [key(n)] for [n] below [length]; beyond it the standard gives
    [null], which [_iterKeys] never asks for. *)
Definition localStorage_key (s : WebStore) (n : nat) : string :=
  default "" ((web_items s).*1 !! n).

(** [Object.keys(localStorage)]: the keys stored. *)
Definition localStorage_object_keys (s : WebStore) : list string :=
  (web_items s).*1.

(** The members of the interface, which [for ... in] visits after the
    keys. *)
Definition Storage_members : list string :=
  ["length"; "key"; "getItem"; "setItem"; "removeItem"; "clear"].

Definition localStorage : StorageObject WebStore := {|
  so_getItem := Some localStorage_getItem;
  so_setItem := Some localStorage_setItem;
  so_removeItem := Some localStorage_removeItem;
  so_clear := Some localStorage_clear;
  so_keys := None;
  so_object_keys := localStorage_object_keys;
  so_length := Some localStorage_length;
  so_key := Some localStorage_key;
  so_for_in := λ s, (web_items s).*1 ++ Storage_members;
  so_in := λ k s, bool_decide (k ∈ (web_items s).*1 ++ Storage_members);
|}.

(** [sessionStorage]: a storage area of its own, which lasts for the
    session of the page, with the interface of [localStorage]. *)
Definition sessionStorage : StorageObject WebStore := localStorage.

(** The method table the constructor makes of it. *)
#[export] Instance localStorage_Storage : Storage WebStore := {|
  st_getItem := localStorage_getItem;
  st_setItem := localStorage_setItem;
  st_removeItem := localStorage_removeItem;
  st_clear := localStorage_clear;
  st_keys := None;
  st_object_keys := localStorage_object_keys;
  st_length := Some localStorage_length;
  st_key := Some localStorage_key;
  st_for_in := λ s, (web_items s).*1 ++ Storage_members;
  st_in := λ k s, bool_decide (k ∈ (web_items s).*1 ++ Storage_members);
|}.

(** The finite map a storage area stands for. *)
Definition localStorage_model (s : WebStore) : gmap string JSValue :=
  JString <$> list_to_map (web_items s).

(** * Web storage satisfies the laws of a backing store *)

#[export, refine] Instance localStorage_laws : StorageLaws WebStore := {|
  st_model := localStorage_model;
  st_wf := λ s, NoDup (web_items s).*1;
  st_absent := JNull;
  st_stored := λ v, JString (ToString v);
|}.
Proof.
  - intros k s. cbn. unfold localStorage_getItem, localStorage_model.
    rewrite obj_get_lookup, lookup_fmap.
    by destruct (list_to_map (web_items s) !! k).
  - intros k v s. cbn. unfold localStorage_model. cbn.
    by rewrite obj_set_to_map, fmap_insert.
  - intros k s. cbn. unfold localStorage_model. cbn.
    by rewrite obj_delete_to_map, fmap_delete.
  - intros s. cbn. unfold localStorage_model. cbn. by rewrite fmap_empty.
  - intros k v s. apply obj_set_NoDup.
  - intros k s. apply obj_delete_NoDup.
  - intros s. constructor.
  - done.
  - intros v. apply parseInt_ToString.
Defined.

(** ** The three ways to list its keys agree *)

(** [key(0)], ..., [key(length - 1)] are the keys [Object.keys] lists. *)
Lemma localStorage_key_seq (s : WebStore) :
  (λ i, localStorage_key s i) <$> seq 0 (localStorage_length s) =
  localStorage_object_keys s.
Proof.
  unfold localStorage_key, localStorage_length, localStorage_object_keys.
  rewrite <- (length_fmap fst (web_items s)).
  generalize ((web_items s).*1). intros l. apply list_eq. intros i.
  rewrite list_lookup_fmap. destruct (l !! i) as [k|] eqn:Hi.
  - rewrite lookup_seq_lt by (by eapply lookup_lt_Some). cbn. by rewrite Hi.
  - rewrite lookup_seq_ge; [done|]. by apply lookup_ge_None.
Qed.

Lemma localStorage_enumerates (s : WebStore) :
  NoDup (web_items s).*1 →
  enumerates (localStorage_object_keys s) (localStorage_model s).
Proof. apply enumerates_dict. Qed.
