(* ===== verification/TestSuite.v ===== *)
(** * TestSuite: the QUnit tests, run on the model

    The tests of src/unnamed/part_000, each as a computation that returns
    the values its assertions look at, and an [Example] that those values
    are the ones the assertions expect.  The test file runs every test
    but "Creation" three times, over [localStorage], [sessionStorage] and
    the custom storage class; here a test is a computation over any
    store, [run_tests] is the four tests of one storage in the order in
    which they are registered, and they are run over
    [TestStorage.testStorage] and over web storage ([localStorage] and
    [sessionStorage] have one interface and one model,
    [WebStorage.WebStore]), the latter in a browser with [Object.keys]
    and in one without, where [_iterKeys] goes through [length] and
    [key(i)].  [test_suite_passes] is the whole file, from any state of
    the storage: it is a run of the model on the inputs of the tests,
    evidence that the model is the class, and no more.  The worlds of
    the tests are the concrete inputs on which the general theorems of
    the other files are instantiated.

    The test file replaces [getTimestamp] by a function that returns
    [window._timestamp]; on the model, whose [getTimestamp] divides the
    date by 1000, setting [window._timestamp] to [t] is setting the date to
    [1000 * t] milliseconds. *)

From S2P Require Import Prelude Js Dict JsonText Storage ExpiredStorage.
From S2P Require Import TestStorage WebStorage.

(** The worlds before any test: an empty store, the clock at 0, in a
    browser that has [Object.keys], or in one that has not. *)
Definition browser : World JSObject := mkWorld [] 0 true.
Definition web_browser : World WebStore := mkWorld (mkWebStore []) 0 true.
Definition old_web_browser : World WebStore := mkWorld (mkWebStore []) 0 false.
Definition readme_browser : World ReadmeStore := mkWorld (mkReadmeStore []) 0 true.

(** ** "Creation" *)

(** An object with the four functions and nothing else. *)
Definition minimal_storage : StorageObject unit := {|
  so_getItem := Some (λ _ _, JUndefined);
  so_setItem := Some (λ _ _ s, (JUndefined, s));
  so_removeItem := Some (λ _ s, (JUndefined, s));
  so_clear := Some (λ s, s);
  so_keys := None;
  so_object_keys := λ _, ["getItem"; "setItem"; "removeItem"; "clear"];
  so_length := None;
  so_key := None;
  so_for_in := λ _, ["getItem"; "setItem"; "removeItem"; "clear"];
  so_in := λ k _,
    bool_decide (k ∈ ["getItem"; "setItem"; "removeItem"; "clear"]);
|}.

(** [{}] *)
Definition empty_object : StorageObject unit := {|
  so_getItem := None;
  so_setItem := None;
  so_removeItem := None;
  so_clear := None;
  so_keys := None;
  so_object_keys := λ _, [];
  so_length := None;
  so_key := None;
  so_for_in := λ _, [];
  so_in := λ _ _, false;
|}.

(** Whether [new ExpiredStorage(...)] threw. *)
Definition throws {St} (r : ConstructionError + Storage St) : bool :=
  match r with inl _ => true | inr _ => false end.

(** ** The tests run over each storage *)

(** The sanity check at the head of the file: whether it alerts. *)
Definition sanity_check {St} (localStorage : option (StorageObject St)) : bool :=
  match localStorage with None => true | Some _ => false end.

(** The three storages, by name, and the prefix of the names of their
    tests. *)
Definition storageTypes : list string :=
  ["localStorage"; "sessionStorage"; "customStorage"].

Definition testsPrefix (storageTypeKey : string) : string :=
  "ExpiredStorage[" +:+ storageTypeKey +:+ "]: ".

Section tests.
Context {St : Type} `{!Storage St}.

Abbreviation Test := (State (World St)).

(** [window._timestamp = t] *)
Definition set_timestamp (t : Z) : Test unit :=
  modify (λ w, mkWorld (storage w) (1000 * t) (has_Object_keys w)).

(** [initTest()]: clear the storage and zero the timestamp. *)
Definition initTest : Test unit :=
  modify (λ w, set_storage (st_clear (storage w)) w);;
  set_timestamp 0.

(** ** "Basic set, get, clear and remove" *)

Definition test_basic : Test _ :=
  initTest;;
  setItem "test" (JString "foo") JUndefined;;
  a1 ← getItem "test";
  removeItem "test";;
  a2 ← getItem "test";
  setItem "test1" (JString "foo") JUndefined;;
  setItem "test2" (JString "bar") JUndefined;;
  a3 ← keys false;
  clear;;
  a4 ← keys false;
  setItem "test1" (JString "foo") JUndefined;;
  setItem "test2" (JString "bar") JUndefined;;
  clear;;
  a5 ← getItem "test1";
  a6 ← keys false;
  setItem "__noex" (JString "bar") JUndefined;;
  a7 ← getItem "__noex";
  a8 ← getTimeLeft "__noex";
  a9 ← isExpired "__noex";
  clear;;
  a10 ← keys false;
  mret (a1, a2, a3, a4, a5, a6, a7, a8, a9, a10).

(** ** "JSON get / set" *)

(** What the test expects to read: [JSON.parse(JSON.stringify(val))]. *)
Definition test_json_expected {V} `{!Json V} (val : V) : JsonError + V :=
  from_option inr (inl SyntaxError)
    (JSON_parse (ToString (stringified val))).

Definition test_json {V} `{!Json V} (val : V) : Test _ :=
  initTest;;
  setJson "test" val JUndefined;;
  a1 ← getJson (V := V) "test";
  removeItem "test";;
  a2 ← getItem "test";
  setJson "test" (json_null : V) JUndefined;;
  a3 ← getJson (V := V) "test";
  a4 ← setJson "test" (json_undefined : V) JUndefined;
  clear;;
  a5 ← keys false;
  mret (a1, a2, a3, a4, a5).

(** ** "Basic API on items with expiration" *)

Definition test_expiration : Test _ :=
  initTest;;
  setItem "test" (JString "foo") (Num 10);;
  a1 ← getItem "test";
  a2 ← getTimeLeft "test";
  a3 ← isExpired "test";
  a4 ← peek "test";
  a5 ← keys false;
  set_timestamp 15;;
  a6 ← getTimeLeft "test";
  a7 ← isExpired "test";
  a8 ← peek "test";
  a9 ← peek "test";
  a10 ← getItem "test";
  a11 ← storage_getItem "test";
  a12 ← peek "test";
  a13 ← keys false;
  mret (a1, a2, a3, a4, a5, a6, a7, a8, a9, a10, a11, a12, a13).

(** ** "Clear expired" *)

Definition test_clear_expired : Test _ :=
  initTest;;
  set_timestamp 0;;
  setItem "test" (JString "foo") (Num 10);;
  setItem "test2" (JString "bar") (Num 15);;
  setItem "stay" (JString "woo") (Num 25);;
  setItem "stay2" (JString "woo2") JUndefined;;
  a1 ← keys false;
  set_timestamp 19;;
  a2 ← keys true;
  a3 ← keys false;
  cleared ← clearExpired;
  a4 ← keys true;
  mret (a1, a2, a3, cleared, a4).

(** The first half of "Clear expired": the world in which the sweep
    starts. *)
Definition clear_expired_setup : Test unit :=
  initTest;;
  set_timestamp 0;;
  setItem "test" (JString "foo") (Num 10);;
  setItem "test2" (JString "bar") (Num 15);;
  setItem "stay" (JString "woo") (Num 25);;
  setItem "stay2" (JString "woo2") JUndefined;;
  set_timestamp 19.

(** ** The four tests of a storage

    The body of the loop over the storages: the tests it registers, run
    one after the other over the same storage, each starting with
    [initTest]. *)
Definition run_tests : Test _ :=
  r1 ← test_basic;
  r2 ← test_json test_object;
  r3 ← test_expiration;
  r4 ← test_clear_expired;
  mret (r1, r2, r3, r4).
End tests.

(** "Creation": three constructions, with no argument (the class takes
    [localStorage]), with [sessionStorage] and with the minimal object,
    none of which may throw; [getTimestamp] of the object built last,
    called where [window._timestamp] is the 0 the head of the file sets
    it to, beside that 0; the construction with [{}], which must throw.
    It returns what the three assertions look at.  The object built
    last is the method table the constructor returns and the world it
    is called in, over the minimal object, which has no state;
    [getTimestamp] reads the clock of that world. *)
Definition test_creation : bool * option (Z * Z) * bool :=
  let window_timestamp := 0 in
  let expired1 := ExpiredStorage_new None (Some localStorage) in
  let expired2 := ExpiredStorage_new (Some sessionStorage) None in
  let expired3 := ExpiredStorage_new (Some minimal_storage) None in
  (negb (throws expired1 || throws expired2 || throws expired3),
   match expired3 with
   | inr table =>
       let expired : World unit := mkWorld tt 0 true in
       Some (eval (set_timestamp window_timestamp;; getTimestamp) expired,
             window_timestamp)
   | inl _ => None
   end,
   throws (ExpiredStorage_new (Some empty_object) None)).

(** The world in the middle of "Clear expired", over each store. *)
Definition before_sweep : World JSObject := exec clear_expired_setup browser.
Definition web_before_sweep : World WebStore :=
  exec clear_expired_setup web_browser.

(** What the assertions of the three tests expect; the tests sort the
    arrays of keys before they compare them, the model gives them in this
    very order. *)
Definition basic_expected :=
  (JString "foo", JNull, ["test1"; "test2"], @nil string, JNull, @nil string,
   JString "bar", @None JSNumber, false, @nil string).

Definition expiration_expected :=
  (JString "foo", Some (Num 10), false,
   mkPeek (JString "foo") (Some (Num 10)) false, ["test"],
   Some (Num (-5)), true,
   mkPeek (JString "foo") (Some (Num (-5))) true,
   mkPeek (JString "foo") (Some (Num (-5))) true,
   JNull, JNull, mkPeek JNull None false, @nil string).

Definition clear_expired_expected :=
  (["test"; "test2"; "stay"; "stay2"], ["test"; "test2"; "stay"; "stay2"],
   ["stay"; "stay2"], ["test"; "test2"], ["stay"; "stay2"]).

(** What comes back for the object of the test "JSON get / set". *)
Definition test_object_read : JsonValue :=
  JVObject [("a", JVNumber (Num 5)); ("b", JVNull); ("c", JVNull);
            ("e", JVString "aa")].

Definition json_expected :=
  (test_json_expected test_object, JNull, (inr JVNull : JsonError + JsonValue),
   (inl CannotSetUndefined : JsonError + JSValue), @nil string).

Definition suite_expected :=
  (basic_expected, json_expected, expiration_expected, clear_expired_expected).

(** * The assertions hold *)

(** The constructor accepts the custom storage class, [localStorage] and
    the minimal object, giving their own method tables; it takes
    [localStorage] when given no argument; it refuses [{}], and refuses to
    run with neither an argument nor a [localStorage]. *)
Example test_creation_passes :
  test_creation = (true, Some (0, 0), true) ∧
  ExpiredStorage_new (Some testStorage) None = inr testStorage_Storage ∧
  ExpiredStorage_new None (Some localStorage) = inr localStorage_Storage ∧
  ExpiredStorage_new (Some sessionStorage) None = inr localStorage_Storage ∧
  (∃ table, ExpiredStorage_new (Some minimal_storage) None = inr table) ∧
  ExpiredStorage_new (Some empty_object) None = inl MissingApi ∧
  ExpiredStorage_new (St := unit) None None = inl NoStorage.
Proof. split_and!; [done..|by eexists|done|done]. Qed.

(** "JSON get / set" with the object of the test: what is read is what
    the test expects, which is the object less its [undefined] property
    and with [null] for its [NaN]; [null] is read back as [null];
    [undefined] is refused.  Over the three stores. *)
Example test_json_passes :
  test_json_expected test_object = inr test_object_read ∧
  eval (test_json test_object) browser = json_expected ∧
  eval (test_json test_object) web_browser = json_expected ∧
  eval (test_json test_object) old_web_browser = json_expected.
Proof. split_and!; by vm_compute. Qed.

(** "Basic set, get, clear and remove": the value set is read back;
    after [removeItem] and after [clear] the key reads [null] and [keys]
    is empty; a key set without time to live has no time left and is not
    expired.  Over the three stores. *)
Example test_basic_passes :
  eval test_basic browser = basic_expected ∧
  eval test_basic web_browser = basic_expected ∧
  eval test_basic old_web_browser = basic_expected.
Proof. split_and!; by vm_compute. Qed.

(** "Basic API on items with expiration": set with 10 seconds to live,
    the entry has 10 seconds left; at time 15 it has -5 left, is expired,
    [peek] still shows it, [getItem] answers [null] and removes it.  Over
    the three stores. *)
Example test_expiration_passes :
  eval test_expiration browser = expiration_expected ∧
  eval test_expiration web_browser = expiration_expected ∧
  eval test_expiration old_web_browser = expiration_expected.
Proof. split_and!; by vm_compute. Qed.

(** "Clear expired": at time 19, of entries expiring at 10, 15, 25 and
    never, [keys(true)] lists the four, [keys()] the last two,
    [clearExpired] returns the first two and leaves the last two.  Over
    the three stores. *)
Example test_clear_expired_passes :
  eval test_clear_expired browser = clear_expired_expected ∧
  eval test_clear_expired web_browser = clear_expired_expected ∧
  eval test_clear_expired old_web_browser = clear_expired_expected.
Proof. split_and!; by vm_compute. Qed.

Example before_sweep_eq :
  before_sweep =
  mkWorld
    [("test", JString "foo"); ("__expired_storage_ts__test", JNumber (Num 10));
     ("test2", JString "bar"); ("__expired_storage_ts__test2", JNumber (Num 15));
     ("stay", JString "woo"); ("__expired_storage_ts__stay", JNumber (Num 25));
     ("stay2", JString "woo2")] 19000 true.
Proof. by vm_compute. Qed.

(** Web storage keeps the same entries as text. *)
Example web_before_sweep_eq :
  web_before_sweep =
  mkWorld
    (mkWebStore
       [("test", "foo"); ("__expired_storage_ts__test", "10");
        ("test2", "bar"); ("__expired_storage_ts__test2", "15");
        ("stay", "woo"); ("__expired_storage_ts__stay", "25");
        ("stay2", "woo2")]) 19000 true.
Proof. by vm_compute. Qed.

(** * The suite, from any state of the storage *)

(** [initTest] leaves the storage cleared and the clock at 0, whatever
    they were. *)
Lemma initTest_run {St} `{!Storage St} (w : World St) :
  exec initTest w = mkWorld (st_clear (storage w)) 0 (has_Object_keys w).
Proof. done. Qed.

(** The test file passes: "Creation", and the four tests of each storage
    run one after the other, over web storage ([localStorage] and
    [sessionStorage]) and over the custom storage class, whatever the
    storage holds and whatever the clock shows when the tests start, in
    a browser with [Object.keys] and in one without; and the sanity check
    does not alert in a browser that has [localStorage]. *)
Theorem test_suite_passes :
  test_creation = (true, Some (0, 0), true) ∧
  (∀ w : World WebStore, eval run_tests w = suite_expected) ∧
  (∀ w : World JSObject, eval run_tests w = suite_expected) ∧
  sanity_check (Some localStorage) = false.
Proof.
  split_and!; [done|intros [s d []]; by vm_compute..|done].
Qed.
