(* ===== verification/Expiry.v ===== *)
(** * Expiry: the life of one entry

    What [setItem], [updateExpiration], [getTimeLeft], [isExpired],
    [getItem], [peek] and [removeItem] do to the entry under one key and to
    its expiry record, as time passes, over any store that satisfies
    [Storage.StorageLaws].  The theorems are stated on [expiry] (the
    instant the record stands for) and on the values the methods return.
    Times to live ([ttl], [d] in [Z]) are whole numbers of seconds, as the
    numbers of [Js] are. *)

From S2P Require Import Prelude Js Dict Storage ExpiredStorage.
From S2P Require Import TestStorage WebStorage TestSuite.

Section expiry.
Context {St : Type} `{StorageLaws St}.
Implicit Types (w : World St) (s : St) (key k : string).
Implicit Types (value expiration v : JSValue) (ttl e ms : Z).

(** ** Keys and their expiry records *)

Lemma expiry_key_length key :
  String.length (expiry_key key) = (22 + String.length key)%nat.
Proof. unfold expiry_key. by rewrite string_app_length. Qed.

(** No key is its own expiry record. *)
Lemma expiry_key_ne key : expiry_key key ≠ key.
Proof.
  intros Heq%(f_equal String.length). rewrite expiry_key_length in Heq. lia.
Qed.

#[export] Instance expiry_key_inj : Inj (=) (=) expiry_key.
Proof. intros k1 k2. unfold expiry_key. apply (inj _). Qed.

(** [indexOf] and [substr] recognise an expiry record and give back the
    key it belongs to. *)
Lemma indexOf_expiry_key key :
  indexOf (expiry_key key) _expiration_key_prefix = 0.
Proof. apply indexOf_app. Qed.

Lemma substr_expiry_key key :
  substr (expiry_key key) (String.length _expiration_key_prefix) = key.
Proof. apply substr_app. Qed.

(** ** [expiry] after each write *)

Lemma expiry_set_storage key s w :
  expiry key (set_storage s w) =
  match parseInt (st_getItem (expiry_key key) s) with
  | Num e => if decide (e = 0) then None else Some e
  | NaN => None
  end.
Proof. done. Qed.

(** The clock plays no part in [expiry]. *)
Lemma expiry_advance key ms w : expiry key (advance ms w) = expiry key w.
Proof. done. Qed.

Lemma expiry_absent key w :
  st_model (storage w) !! expiry_key key = None → expiry key w = None.
Proof.
  intros Hk. unfold expiry.
  by rewrite st_getItem_None, st_absent_parseInt.
Qed.

Lemma model_updateExpiration key expiration w :
  st_model (storage (exec (updateExpiration key expiration) w)) =
  <[expiry_key key := st_stored St (add_to_timestamp (now w) expiration)]>
    (st_model (storage w)).
Proof.
  unfold exec. rewrite updateExpiration_run, on_storage_run. cbn.
  apply st_setItem_model.
Qed.

Lemma model_setItem key value expiration w :
  st_model (storage (exec (setItem key value expiration) w)) =
  let m := <[key := st_stored St value]> (st_model (storage w)) in
  if truthy expiration
  then <[expiry_key key :=
          st_stored St (add_to_timestamp (now w) expiration)]> m
  else m.
Proof.
  unfold exec. rewrite setItem_run. cbn.
  destruct (truthy expiration); cbn.
  - fold (exec (updateExpiration key expiration)
            (set_storage (st_setItem key value (storage w)).2 w)).
    rewrite model_updateExpiration. cbn. by rewrite st_setItem_model.
  - apply st_setItem_model.
Qed.

Lemma model_removeItem key w :
  st_model (storage (exec (removeItem key) w)) =
  delete (expiry_key key) (delete key (st_model (storage w))).
Proof.
  unfold exec. rewrite removeItem_run. cbn.
  by rewrite !st_removeItem_model.
Qed.

(** [expiry] reads the model. *)
Lemma expiry_model key w :
  expiry key w =
  match parseInt (default (st_absent St)
                    (st_model (storage w) !! expiry_key key)) with
  | Num e => if decide (e = 0) then None else Some e
  | NaN => None
  end.
Proof. unfold expiry. by rewrite st_getItem_model. Qed.

Lemma expiry_ext key w1 w2 :
  st_model (storage w1) !! expiry_key key =
    st_model (storage w2) !! expiry_key key →
  expiry key w1 = expiry key w2.
Proof. intros Heq. by rewrite !expiry_model, Heq. Qed.

Lemma expired_ext key w1 w2 :
  st_model (storage w1) !! expiry_key key =
    st_model (storage w2) !! expiry_key key →
  now w1 = now w2 → expired key w1 = expired key w2.
Proof.
  intros Heq Hnow. unfold expired. by rewrite (expiry_ext _ _ _ Heq), Hnow.
Qed.

(** ** The clock *)

Lemma now_advance_seconds t w : now (advance (1000 * t) w) = now w + t.
Proof.
  unfold now, advance. cbn.
  by rewrite (Z.mul_comm 1000 t), Z.div_add by lia.
Qed.

Lemma now_advance_mono ms w : 0 ≤ ms → now w ≤ now (advance ms w).
Proof. intros Hms. unfold now, advance. cbn. apply Z.div_le_mono; lia. Qed.

(** Once expired, always expired, as long as the record stays. *)
Lemma expired_advance key ms w :
  0 ≤ ms → expired key w = true → expired key (advance ms w) = true.
Proof.
  unfold expired. rewrite expiry_advance. intros Hms.
  destruct (expiry key w) as [e|]; [|done].
  rewrite !bool_decide_eq_true. pose proof (now_advance_mono ms w Hms). lia.
Qed.

(** ** [setItem] and [updateExpiration] *)

(** The record written for a time to live [expiration] at instant [t]
    reads back as the number [parseInt] sees in [t + expiration]. *)
Lemma expiry_written key t expiration w :
  st_model (storage w) !! expiry_key key =
    Some (st_stored St (add_to_timestamp t expiration)) →
  expiry key w =
  match parseInt (add_to_timestamp t expiration) with
  | Num e => if decide (e = 0) then None else Some e
  | NaN => None
  end.
Proof.
  intros Hw. rewrite expiry_model, Hw. cbn. by rewrite st_stored_parseInt.
Qed.

Lemma expiry_written_Num key t ttl w :
  st_model (storage w) !! expiry_key key =
    Some (st_stored St (add_to_timestamp t (Num ttl))) →
  expiry key w = if decide (t + ttl = 0) then None else Some (t + ttl).
Proof.
  intros Hw. rewrite (expiry_written _ _ _ _ Hw). cbn.
  by rewrite parseInt_number.
Qed.

Lemma truthy_Num ttl : truthy (Num ttl) = bool_decide (ttl ≠ 0).
Proof.
  cbn. destruct (Z.eqb_spec ttl 0); symmetry;
    [by apply bool_decide_eq_false; intros []|by apply bool_decide_eq_true].
Qed.

Lemma lookup_updateExpiration key expiration w :
  st_model (storage (exec (updateExpiration key expiration) w))
    !! expiry_key key =
  Some (st_stored St (add_to_timestamp (now w) expiration)).
Proof. by rewrite model_updateExpiration, lookup_insert_eq. Qed.

Lemma lookup_setItem_ttl key value expiration w :
  truthy expiration = true →
  st_model (storage (exec (setItem key value expiration) w))
    !! expiry_key key =
  Some (st_stored St (add_to_timestamp (now w) expiration)).
Proof.
  intros Ht. rewrite model_setItem, Ht. cbn. apply lookup_insert_eq.
Qed.

(** A write without a time to live leaves the expiry record alone. *)
Lemma lookup_setItem_no_ttl key value expiration w :
  truthy expiration = false →
  st_model (storage (exec (setItem key value expiration) w))
    !! expiry_key key =
  st_model (storage w) !! expiry_key key.
Proof.
  intros Ht. rewrite model_setItem, Ht. cbn.
  apply lookup_insert_ne. symmetry. apply expiry_key_ne.
Qed.

(** The value is written whatever the time to live. *)
Lemma lookup_setItem_value key value expiration w :
  st_model (storage (exec (setItem key value expiration) w)) !! key =
  Some (st_stored St value).
Proof.
  rewrite model_setItem. cbn. destruct (truthy expiration); cbn.
  - rewrite lookup_insert_ne by apply expiry_key_ne. apply lookup_insert_eq.
  - apply lookup_insert_eq.
Qed.

Lemma now_updateExpiration key expiration w :
  now (exec (updateExpiration key expiration) w) = now w.
Proof. unfold exec. by rewrite updateExpiration_run, on_storage_run. Qed.

Lemma now_setItem key value expiration w :
  now (exec (setItem key value expiration) w) = now w.
Proof.
  unfold exec. rewrite setItem_run. cbn.
  destruct (truthy expiration); [|done].
  by rewrite now_updateExpiration.
Qed.

Lemma now_removeItem key w : now (exec (removeItem key) w) = now w.
Proof. unfold exec. by rewrite removeItem_run. Qed.

(** The expiry after [setItem] with a number for time to live. *)
Lemma expiry_setItem_Num key value ttl w :
  ttl ≠ 0 →
  expiry key (exec (setItem key value (Num ttl)) w) =
  if decide (now w + ttl = 0) then None else Some (now w + ttl).
Proof.
  intros Httl. apply expiry_written_Num, lookup_setItem_ttl.
  by rewrite truthy_Num, bool_decide_eq_true_2.
Qed.

(** ** [removeItem] and [getItem] *)

Lemma lookup_removeItem_value key w :
  st_model (storage (exec (removeItem key) w)) !! key = None.
Proof.
  rewrite model_removeItem.
  rewrite lookup_delete_ne by apply expiry_key_ne. apply lookup_delete_eq.
Qed.

Lemma lookup_removeItem_record key w :
  st_model (storage (exec (removeItem key) w)) !! expiry_key key = None.
Proof. rewrite model_removeItem. apply lookup_delete_eq. Qed.

Lemma getItem_expired_run key w :
  expired key w = true → getItem key w = (JNull, exec (removeItem key) w).
Proof. intros He. by rewrite getItem_run, He. Qed.

Lemma getItem_live_run key w :
  expired key w = false → getItem key w = (st_getItem key (storage w), w).
Proof. intros He. by rewrite getItem_run, He. Qed.
End expiry.

(** * The life of an entry *)

Section lifecycle.
Context {St : Type} `{StorageLaws St}.
Implicit Types (w : World St) (key k : string).
Implicit Types (value expiration v : JSValue) (ttl e d ms : Z).

(** ** Writing *)

(** [setItem] with a numeric time to live records the instant
    [getTimestamp() + ttl] for the key. *)
Theorem setItem_sets_expiry key value ttl w :
  ttl ≠ 0 → now w + ttl ≠ 0 →
  expiry key (exec (setItem key value (Num ttl)) w) = Some (now w + ttl).
Proof.
  intros Httl Hsum. by rewrite expiry_setItem_Num, decide_False.
Qed.

(** [setItem] with no time to live (omitted, 0, [null], [NaN], the empty
    string, [false]) leaves the expiry of the key as it was. *)
Theorem setItem_keeps_expiry key value expiration w :
  truthy expiration = false →
  expiry key (exec (setItem key value expiration) w) = expiry key w.
Proof. intros Ht. by apply expiry_ext, lookup_setItem_no_ttl. Qed.

(** [updateExpiration] records [getTimestamp() + ttl] whether or not the
    key holds a value: on a key that holds none, an expiry record with no
    entry is left in the store. *)
Theorem updateExpiration_dangling key ttl w :
  st_model (storage w) !! key = None → now w + ttl ≠ 0 →
  let w' := exec (updateExpiration key (Num ttl)) w in
  st_model (storage w') !! key = None ∧ expiry key w' = Some (now w + ttl).
Proof.
  intros Hkey Hsum w'. split.
  - unfold w'. rewrite model_updateExpiration.
    by rewrite lookup_insert_ne by apply expiry_key_ne.
  - rewrite (expiry_written_Num key (now w) ttl), decide_False; [done..|].
    apply lookup_updateExpiration.
Qed.

(** ** Reading *)

(** [getTimeLeft] answers [null] or an integer, never [NaN]. *)
Theorem getTimeLeft_type key w : eval (getTimeLeft key) w ≠ Some NaN.
Proof.
  unfold eval. rewrite getTimeLeft_run. cbn. by destruct (expiry key w).
Qed.

(** A key with no expiry record never expires, whatever the time. *)
Theorem no_record_never_expires key ms w :
  st_model (storage w) !! expiry_key key = None →
  eval (getTimeLeft key) (advance ms w) = None ∧
  eval (isExpired key) (advance ms w) = false.
Proof.
  intros Hk. unfold eval, expired.
  rewrite getTimeLeft_run, isExpired_run. unfold expired.
  by rewrite expiry_advance, (expiry_absent _ _ Hk).
Qed.

(** C4. [ttl + d] seconds after an entry was set with time to live [ttl],
    [getTimeLeft] answers [-d] and [isExpired] answers whether [0 <= d]:
    an entry is expired from the very second its time is up. *)
Theorem time_left_after key value ttl d w :
  ttl ≠ 0 → now w + ttl ≠ 0 →
  let w' :=
    advance (1000 * (ttl + d)) (exec (setItem key value (Num ttl)) w) in
  eval (getTimeLeft key) w' = Some (Num (- d)) ∧
  eval (isExpired key) w' = bool_decide (0 ≤ d).
Proof.
  intros Httl Hsum w'. unfold eval.
  rewrite getTimeLeft_run, isExpired_run. unfold expired, w'.
  rewrite expiry_advance, expiry_setItem_Num, decide_False by done.
  rewrite now_advance_seconds, now_setItem. cbn. split.
  - do 2 f_equal. lia.
  - apply bool_decide_ext. lia.
Qed.

(** [peek] changes nothing, expired entry or not, and reports the stored
    value, the time left and the expired flag. *)
Theorem peek_pure key w :
  peek key w =
  (mkPeek (st_getItem key (storage w)) (eval (getTimeLeft key) w)
     (eval (isExpired key) w), w).
Proof.
  unfold eval. by rewrite peek_run, getTimeLeft_run, isExpired_run.
Qed.

(** [getItem] on an entry that is not expired returns what the store
    holds and changes nothing. *)
Theorem getItem_live key w :
  expired key w = false → getItem key w = (st_getItem key (storage w), w).
Proof. intros He. by rewrite getItem_run, He. Qed.

(** C5. [getItem] on an expired entry returns [null] and removes both the
    value and the expiry record: lazy eviction. *)
Theorem getItem_expired key w :
  expired key w = true →
  let w' := exec (getItem key) w in
  eval (getItem key) w = JNull ∧
  st_model (storage w') !! key = None ∧
  st_model (storage w') !! expiry_key key = None ∧
  eval (getItem key) w' = st_absent St.
Proof.
  intros He w'. unfold w', eval, exec.
  rewrite (getItem_expired_run _ _ He). cbn.
  pose proof (lookup_removeItem_record key w) as Hrec.
  pose proof (lookup_removeItem_value key w) as Hval.
  split_and!; [done..|].
  rewrite getItem_live_run; [by apply st_getItem_None|].
  unfold expired. by rewrite (expiry_absent _ _ Hrec).
Qed.

(** An entry set with a positive time to live is read back at once: what
    [getItem] returns is what the store gives for the value written. *)
Theorem getItem_setItem key value ttl w :
  0 < ttl →
  eval (getItem key) (exec (setItem key value (Num ttl)) w) =
  st_stored St value.
Proof.
  intros Httl. set (w' := exec (setItem key value (Num ttl)) w).
  assert (expired key w' = false) as He.
  { unfold expired, w'. rewrite expiry_setItem_Num by lia.
    case_decide; [done|]. rewrite now_setItem.
    apply bool_decide_eq_false. lia. }
  unfold eval. rewrite (getItem_live_run _ _ He). cbn. unfold w'.
  by rewrite st_getItem_model, lookup_setItem_value.
Qed.

(** C32. A value written without a time to live over an entry whose time is
    up inherits the old expiry record: the next [getItem] answers [null]
    and deletes the value just written. *)
Theorem setItem_over_expired key value expiration w :
  truthy expiration = false → expired key w = true →
  let w' := exec (setItem key value expiration) w in
  eval (getItem key) w' = JNull ∧
  st_model (storage (exec (getItem key) w')) !! key = None.
Proof.
  intros Ht He w'.
  assert (expired key w' = true) as He'.
  { rewrite <- He. apply expired_ext.
    - by apply lookup_setItem_no_ttl.
    - apply now_setItem. }
  unfold eval, exec. rewrite (getItem_expired_run _ _ He'). cbn.
  split; [done|apply lookup_removeItem_value].
Qed.

(** ** Removing *)

(** [removeItem] removes the value and the expiry record, and removing
    again changes nothing more. *)
Theorem removeItem_removes key w :
  let w' := exec (removeItem key) w in
  st_getItem key (storage w') = st_absent St ∧
  expiry key w' = None ∧
  st_model (storage (exec (removeItem key) w')) = st_model (storage w').
Proof.
  intros w'. unfold w'. split_and!.
  - apply st_getItem_None. rewrite model_removeItem.
    rewrite lookup_delete_ne by apply expiry_key_ne. apply lookup_delete_eq.
  - apply expiry_absent. rewrite model_removeItem. apply lookup_delete_eq.
  - rewrite !model_removeItem. apply map_eq. intros k.
    rewrite !lookup_delete. by repeat case_decide.
Qed.

(** The entries under other keys, and their expiry records, are out of
    the reach of [removeItem]. *)
Theorem removeItem_frame key k w :
  k ≠ key → k ≠ expiry_key key →
  st_getItem k (storage (exec (removeItem key) w)) = st_getItem k (storage w).
Proof.
  intros Hk Hke. rewrite !st_getItem_model, model_removeItem.
  by rewrite !lookup_delete_ne.
Qed.

(** [clear] empties the store, expiry records included: every key then
    reads as never set and none is expired. *)
Theorem clear_clears key w :
  let w' := exec clear w in
  st_model (storage w') = ∅ ∧
  eval (getItem key) w' = st_absent St ∧
  eval (getTimeLeft key) w' = None.
Proof.
  intros w'. assert (st_model (storage w') = ∅) as Hm.
  { apply st_clear_model. }
  assert (expiry key w' = None) as He.
  { apply expiry_absent. by rewrite Hm. }
  unfold eval. rewrite getTimeLeft_run, He, getItem_live_run.
  - split_and!; [done| |done]. apply st_getItem_None. by rewrite Hm.
  - unfold expired. by rewrite He.
Qed.

(** ** Where the code and its documentation part ways *)

(** C34. A time to live that lands the expiry instant on 0 is lost: the record
    holds 0, [expireTime && ...] is falsy, and the entry never expires. *)
Theorem setItem_instant_zero key value ttl ms w :
  ttl ≠ 0 → now w + ttl = 0 →
  let w' := advance ms (exec (setItem key value (Num ttl)) w) in
  eval (getTimeLeft key) w' = None ∧ eval (isExpired key) w' = false.
Proof.
  intros Httl Hsum w'. unfold eval.
  rewrite getTimeLeft_run, isExpired_run. unfold expired, w'.
  rewrite expiry_advance, (expiry_written_Num key (now w) ttl).
  - by rewrite decide_True.
  - apply lookup_setItem_ttl. by rewrite truthy_Num, bool_decide_eq_true_2.
Qed.

(** A negative time to live is taken like any other: the entry is expired
    as soon as it is written. *)
Theorem setItem_negative_ttl key value ttl w :
  ttl < 0 → now w + ttl ≠ 0 →
  eval (isExpired key) (exec (setItem key value (Num ttl)) w) = true.
Proof.
  intros Httl Hsum. unfold eval. rewrite isExpired_run. unfold expired.
  rewrite expiry_setItem_Num, decide_False, now_setItem by lia.
  apply bool_decide_eq_true. lia.
Qed.

(** C36. A time to live given as text is appended to the timestamp, not added
    to it. *)
Theorem setItem_text_ttl key value s w :
  s ≠ "" →
  expiry key (exec (setItem key value (JString s)) w) =
  match parseInt_string (pretty (now w) +:+ s) with
  | Num e => if decide (e = 0) then None else Some e
  | NaN => None
  end.
Proof.
  intros Hs. apply (expiry_written key (now w) (JString s)).
  apply lookup_setItem_ttl. cbn. by destruct (String.eqb_spec s "").
Qed.

(** A value stored under a key that starts with the prefix is the expiry
    record of the rest of the key: nothing keeps logical keys out of the
    namespace of the records. *)
Theorem setItem_forges_expiry key e w :
  e ≠ 0 →
  expiry key (exec (setItem (expiry_key key) (Num e) JUndefined) w) = Some e.
Proof.
  intros He. rewrite expiry_model, model_setItem. cbn.
  rewrite lookup_insert_eq. cbn.
  by rewrite st_stored_parseInt, parseInt_number, decide_False.
Qed.
End lifecycle.

(** * Over web storage

    [localStorage] keeps text: the expiry instant is written as its
    decimal text and [parseInt] reads it back. *)

Section web.
Implicit Types (w : World WebStore) (key : string) (value : JSValue).

(** Over [localStorage], [setItem] with a time to live stores the text
    of the value and the decimal text of the expiry instant, and
    [getTimeLeft] reads the time to live back from that text. *)
Theorem localStorage_expiry_text key value (ttl : Z) w :
  ttl ≠ 0 → now w + ttl ≠ 0 →
  let w' := exec (setItem key value (Num ttl)) w in
  st_getItem key (storage w') = JString (ToString value) ∧
  st_getItem (expiry_key key) (storage w') = JString (pretty (now w + ttl)) ∧
  eval (getTimeLeft key) w' = Some (Num ttl).
Proof.
  intros Httl Hsum w'. unfold w', eval. split_and!.
  - by rewrite st_getItem_model, lookup_setItem_value.
  - rewrite st_getItem_model, lookup_setItem_ttl; [done|].
    by rewrite truthy_Num, bool_decide_eq_true_2.
  - rewrite getTimeLeft_run, expiry_setItem_Num, decide_False by done.
    rewrite now_setItem. cbn. do 2 f_equal. lia.
Qed.
End web.

(** * On the test suite's store

    Each theorem above, at a world of the test suite: its hypotheses hold
    there. *)

Section witnesses.

Lemma localStorage_expiry_text_witness :
  (60 ≠ 0 ∧ now web_before_sweep + 60 ≠ 0) ∧
  let w' := exec (setItem "k" (Num 7) (Num 60)) web_before_sweep in
  st_getItem "k" (storage w') = JString (ToString (Num 7)) ∧
  st_getItem (expiry_key "k") (storage w') =
    JString (pretty (now web_before_sweep + 60)) ∧
  eval (getTimeLeft "k") w' = Some (Num 60).
Proof.
  split; [by vm_compute|]. by apply localStorage_expiry_text.
Defined.

Lemma setItem_sets_expiry_witness :
  (10 ≠ 0 ∧ now browser + 10 ≠ 0) ∧
  expiry "test" (exec (setItem "test" (JString "foo") (Num 10)) browser)
  = Some (now browser + 10).
Proof. split; [done|]. by apply setItem_sets_expiry. Defined.

Lemma setItem_keeps_expiry_witness :
  truthy JUndefined = false ∧
  expiry "test" (exec (setItem "test" (JString "bar") JUndefined) before_sweep)
  = expiry "test" before_sweep.
Proof. split; [done|]. by apply setItem_keeps_expiry. Defined.

Lemma updateExpiration_dangling_witness :
  (st_model (storage browser) !! "ghost" = None ∧ now browser + 100 ≠ 0) ∧
  let w' := exec (updateExpiration "ghost" (Num 100)) browser in
  st_model (storage w') !! "ghost" = None ∧
  expiry "ghost" w' = Some (now browser + 100).
Proof. split; [done|]. by apply updateExpiration_dangling. Defined.

Lemma no_record_never_expires_witness :
  st_model (storage before_sweep) !! expiry_key "stay2" = None ∧
  eval (getTimeLeft "stay2") (advance 1000000 before_sweep) = None ∧
  eval (isExpired "stay2") (advance 1000000 before_sweep) = false.
Proof. split; [by vm_compute|]. by apply no_record_never_expires. Defined.

Lemma time_left_after_witness :
  (10 ≠ 0 ∧ now browser + 10 ≠ 0) ∧
  let w' :=
    advance (1000 * (10 + 5))
      (exec (setItem "test" (JString "foo") (Num 10)) browser) in
  eval (getTimeLeft "test") w' = Some (Num (- 5)) ∧
  eval (isExpired "test") w' = bool_decide (0 ≤ 5).
Proof. split; [done|]. by apply time_left_after. Defined.

Lemma getItem_live_witness :
  expired "stay" before_sweep = false ∧
  getItem "stay" before_sweep = (st_getItem "stay" (storage before_sweep), before_sweep).
Proof. split; [by vm_compute|]. by apply getItem_live. Defined.

Lemma getItem_expired_witness :
  expired "test" before_sweep = true ∧
  let w' := exec (getItem "test") before_sweep in
  eval (getItem "test") before_sweep = JNull ∧
  st_model (storage w') !! "test" = None ∧
  st_model (storage w') !! expiry_key "test" = None ∧
  eval (getItem "test") w' = st_absent JSObject.
Proof. split; [by vm_compute|]. by apply getItem_expired. Defined.

Lemma getItem_setItem_witness :
  0 < 10 ∧
  eval (getItem "test") (exec (setItem "test" (JString "foo") (Num 10)) browser)
  = st_stored JSObject (JString "foo").
Proof. split; [done|]. by apply getItem_setItem. Defined.

Lemma setItem_over_expired_witness :
  (truthy JUndefined = false ∧ expired "test" before_sweep = true) ∧
  let w' := exec (setItem "test" (JString "new") JUndefined) before_sweep in
  eval (getItem "test") w' = JNull ∧
  st_model (storage (exec (getItem "test") w')) !! "test" = None.
Proof.
  split; [by vm_compute|]. by apply setItem_over_expired; vm_compute.
Defined.

Lemma removeItem_frame_witness :
  ("stay" ≠ "test" ∧ "stay" ≠ expiry_key "test") ∧
  st_getItem "stay" (storage (exec (removeItem "test") before_sweep))
  = st_getItem "stay" (storage before_sweep).
Proof. split; [done|]. by apply removeItem_frame. Defined.

Lemma setItem_instant_zero_witness :
  (-19 ≠ 0 ∧ now before_sweep + -19 = 0) ∧
  let w' :=
    advance 60000 (exec (setItem "k" (JString "v") (Num (-19))) before_sweep) in
  eval (getTimeLeft "k") w' = None ∧ eval (isExpired "k") w' = false.
Proof. split; [done|]. by apply setItem_instant_zero. Defined.

Lemma setItem_negative_ttl_witness :
  (-5 < 0 ∧ now before_sweep + -5 ≠ 0) ∧
  eval (isExpired "k") (exec (setItem "k" (JString "v") (Num (-5))) before_sweep)
  = true.
Proof. split; [done|]. by apply setItem_negative_ttl. Defined.

Lemma setItem_text_ttl_witness :
  "60" ≠ "" ∧
  expiry "k" (exec (setItem "k" (JString "v") (JString "60")) before_sweep) =
  match parseInt_string (pretty (now before_sweep) +:+ "60") with
  | Num e => if decide (e = 0) then None else Some e
  | NaN => None
  end.
Proof. split; [done|]. by apply setItem_text_ttl. Defined.

Lemma setItem_forges_expiry_witness :
  5 ≠ 0 ∧
  expiry "stay2" (exec (setItem (expiry_key "stay2") (Num 5) JUndefined) before_sweep)
  = Some 5.
Proof. split; [done|]. by apply setItem_forges_expiry. Defined.

(** What those worlds hold. *)
Example witnesses_values :
  expiry "test" before_sweep = Some 10 ∧ now before_sweep = 19 ∧
  expiry "k" (exec (setItem "k" (JString "v") (JString "60")) before_sweep)
  = Some 1960 ∧
  expiry "k" (exec (setItem "k" (JString "v") (Num 60)) before_sweep) = Some 79.
Proof. by vm_compute. Qed.
End witnesses.
