(* ===== verification/Sweep.v ===== *)
(** * Sweep: listing keys and clearing the expired ones

    [_iterKeys], [keys] and [clearExpired].  [_iterKeys] reads an array of
    keys off the store (in one of three ways) and calls the callback on
    each element; [key_snapshot] is that array.  [keys] is then a filter
    of the snapshot, and [clearExpired] a loop of [removeItem]s whose
    effect on the store and whose result are characterised here, over any
    store that satisfies [Storage.StorageLaws].  On the fourth branch,
    [for ... in], the loop walks the property names of the storage
    object and skips a name that is no longer in the object when its
    turn comes: [keys] is a filter of the names that are in the object
    ([for_in_names]), and [clearExpired], which deletes on the way, is
    the sweep of those names all the same ([for_in_sweep]) when every
    key the store holds is a property of the object
    ([in_reflects_model]).  [iterated w l] says that [_iterKeys] walks [l]
    from [w], on whichever branch; the theorems are stated with it. *)

From Stdlib Require Import FunInd.
From S2P Require Import Prelude Loops Js Storage ExpiredStorage TestStorage.
From S2P Require Import TestSuite Expiry.

(** * The array [_iterKeys] walks *)

Section iteration.
Context {St : Type} `{!Storage St}.
Implicit Types (w : World St) (l : list string) (k sk : string).

(** The array of the first three branches of [_iterKeys]: [keys()] when
    the store has it, else [Object.keys] where the browser has it, else
    [key(0)], ..., [key(length - 1)]; [None] when the fall-back
    [for ... in] is taken. *)
Definition key_snapshot w : option (list string) :=
  match st_keys with
  | Some keys_fn => Some (keys_fn (storage w))
  | None =>
      if has_Object_keys w then Some (st_object_keys (storage w))
      else
        match st_length, st_key with
        | Some length_fn, Some key_fn =>
            Some ((λ i, key_fn (storage w) i) <$> seq 0 (length_fn (storage w)))
        | _, _ => None
        end
  end.

(** What [keys(includeExpired)] lets through. *)
Definition listed (includeExpired : bool) w k : Prop :=
  indexOf k _expiration_key_prefix ≠ 0 ∧
  (includeExpired = true ∨ expired k w = false).

#[export] Instance listed_dec includeExpired w k :
  Decision (listed includeExpired w k).
Proof. unfold listed. apply _. Defined.

(** The item whose expiry record [sk] is, when [sk] is one. *)
Definition record_of sk : option string :=
  if bool_decide (indexOf sk _expiration_key_prefix = 0)
  then Some (substr sk (String.length _expiration_key_prefix))
  else None.

(** An array is flat when no item with a record in it looks like a record
    itself: no key of the user starts with the prefix. *)
Definition flat l : Prop := Forall (λ sk, record_of sk ≫= record_of = None) l.

(** The sweep as a recursive function on the array: the reference
    [clearExpired] is compared with. *)
Fixpoint sweep l w : list string * World St :=
  match l with
  | [] => ([], w)
  | sk :: l =>
      match record_of sk with
      | Some k =>
          if expired k w
          then let r := sweep l (exec (removeItem k) w) in (k :: r.1, r.2)
          else sweep l w
      | None => sweep l w
      end
  end.

Lemma _iterKeys_snapshot {A} (cb : string → A → State (World St) A) a w l :
  key_snapshot w = Some l → _iterKeys cb a w = for_each cb l a w.
Proof.
  unfold key_snapshot, _iterKeys. destruct (@st_keys St _) as [keys_fn|].
  { intros [= <-]. rewrite run_bind. apply for_loop_run. }
  rewrite run_bind. unfold gets at 1. cbn [fst snd].
  destruct (has_Object_keys w);
    [intros [= <-]; rewrite run_bind; apply for_loop_run|].
  destruct (@st_length St _), (@st_key St _); intros [= <-].
  rewrite run_bind, <- collect_keys_run. apply for_loop_run.
Qed.

Lemma _iterKeys_for_in {A} (cb : string → A → State (World St) A) a w :
  key_snapshot w = None → _iterKeys cb a w = for_in cb a w.
Proof.
  unfold key_snapshot, _iterKeys.
  destruct (@st_keys St _) as [keys_fn|]; [done|].
  rewrite run_bind. unfold gets at 1. cbn [fst snd].
  destruct (has_Object_keys w); [done|].
  by destruct (@st_length St _), (@st_key St _).
Qed.

(** A storage key is an expiry record exactly when it is [expiry_key] of
    some item. *)
Lemma record_of_Some sk k : record_of sk = Some k ↔ sk = expiry_key k.
Proof.
  unfold record_of. case_bool_decide as Hsk.
  - apply indexOf_0_prefix, prefix_inv in Hsk as [k' ->].
    fold (expiry_key k'). rewrite substr_expiry_key.
    split; [by intros [= ->]|by intros ->%(inj expiry_key)].
  - split; [done|]. intros ->. by rewrite indexOf_expiry_key in Hsk.
Qed.

Lemma record_of_expiry_key k : record_of (expiry_key k) = Some k.
Proof. by apply record_of_Some. Qed.

Lemma record_of_None sk :
  record_of sk = None ↔ indexOf sk _expiration_key_prefix ≠ 0.
Proof. unfold record_of. by case_bool_decide. Qed.

Lemma flat_record_of l k : flat l → expiry_key k ∈ l → record_of k = None.
Proof.
  intros Hflat Hk. unfold flat in Hflat. rewrite Forall_forall in Hflat.
  specialize (Hflat _ Hk). by rewrite record_of_expiry_key in Hflat.
Qed.

(** ** The callbacks *)

Lemma keys_callback_run includeExpired k ret w :
  keys_callback includeExpired k ret w =
  (if decide (listed includeExpired w k) then ret ++ [k] else ret, w).
Proof.
  unfold keys_callback. case_bool_decide as Hk.
  - destruct includeExpired.
    + by rewrite decide_True by (split; auto).
    + rewrite run_bind, isExpired_run. cbn [fst snd].
      destruct (expired k w) eqn:He; cbn [negb].
      * by rewrite decide_False by (intros [_ [?|?]]; congruence).
      * by rewrite decide_True by (split; auto).
  - by rewrite decide_False by (by intros [? _]).
Qed.

Lemma clearExpired_callback_run sk ret w :
  clearExpired_callback sk ret w =
  match record_of sk with
  | Some k =>
      if expired k w then (ret ++ [k], exec (removeItem k) w) else (ret, w)
  | None => (ret, w)
  end.
Proof.
  unfold clearExpired_callback, record_of. case_bool_decide; [|done].
  rewrite run_bind, isExpired_run. cbn [fst snd].
  destruct (expired _ w); [|done].
  rewrite run_bind. unfold exec. by destruct (removeItem _ w).
Qed.

(** The loop of [clearExpired] is [sweep], its pushes appended to [ret]. *)
Lemma for_each_sweep l ret w :
  for_each clearExpired_callback l ret w =
  (ret ++ (sweep l w).1, (sweep l w).2).
Proof.
  revert ret w. induction l as [|sk l IH]; intros ret w; cbn [for_each sweep].
  { by rewrite run_ret, app_nil_r. }
  rewrite run_bind, clearExpired_callback_run.
  destruct (record_of sk) as [k|]; [|apply IH].
  destruct (expired k w); [|apply IH].
  cbn [fst snd]. by rewrite IH, <- app_assoc.
Qed.

Lemma keys_run includeExpired w l :
  key_snapshot w = Some l →
  keys includeExpired w = (filter (listed includeExpired w) l, w).
Proof.
  intros Hl. unfold keys. rewrite (_iterKeys_snapshot _ _ _ _ Hl).
  rewrite (for_each_pure (λ w k ret,
    if decide (listed includeExpired w k) then ret ++ [k] else ret)).
  - by rewrite foldl_snoc_filter.
  - intros k ret w'. apply keys_callback_run.
Qed.

Lemma clearExpired_run w l :
  key_snapshot w = Some l → clearExpired w = sweep l w.
Proof.
  intros Hl. unfold clearExpired. rewrite run_bind, getTimestamp_run.
  cbn [fst snd]. rewrite (_iterKeys_snapshot _ _ _ _ Hl), for_each_sweep.
  by destruct (sweep l w).
Qed.

(** ** The [for ... in] branch *)

(** The property names the loop calls a callback on, when the callback
    leaves the object alone: those of the start that are in the object. *)
Definition for_in_names w : list string :=
  filter (λ k, st_in k (storage w) = true) (st_for_in (storage w)).

(** The body of the loop: the callback, on a name that is still there. *)
Definition if_in {A} (cb : string → A → State (World St) A) k (a : A)
    : State (World St) A :=
  present ← gets (λ w, st_in k (storage w));
  if present : bool then cb k a else mret a.

Lemma for_in_run {A} (cb : string → A → State (World St) A) a w :
  for_in cb a w = for_each (if_in cb) (st_for_in (storage w)) a w.
Proof. done. Qed.

Lemma if_in_run {A} (cb : string → A → State (World St) A) k a w :
  if_in cb k a w = if st_in k (storage w) then cb k a w else (a, w).
Proof. unfold if_in. rewrite run_bind. cbn. by destruct st_in. Qed.

Lemma for_in_pure {A} (g : World St → string → A → A) cb a w :
  (∀ k a w, cb k a w = (g w k a, w)) →
  for_in cb a w = (foldl (λ a k, g w k a) a (for_in_names w), w).
Proof.
  intros Hcb. rewrite for_in_run.
  rewrite (for_each_pure
    (λ w k a, if st_in k (storage w) then g w k a else a)).
  - f_equal. unfold for_in_names. revert a.
    induction (st_for_in (storage w)) as [|k l IH]; intros a; [done|].
    rewrite filter_cons. cbn [foldl]. rewrite IH.
    by destruct (st_in k (storage w)).
  - intros k a' w'. rewrite if_in_run, Hcb. by destruct st_in.
Qed.

Lemma keys_for_in includeExpired w :
  key_snapshot w = None →
  keys includeExpired w =
  (filter (listed includeExpired w) (for_in_names w), w).
Proof.
  intros Hl. unfold keys. rewrite (_iterKeys_for_in _ _ _ Hl).
  rewrite (for_in_pure (λ w k ret,
    if decide (listed includeExpired w k) then ret ++ [k] else ret)).
  - by rewrite foldl_snoc_filter.
  - intros k ret w'. apply keys_callback_run.
Qed.

(** The sweep finds nothing to clear among names none of which is an
    expiry record. *)
Lemma for_in_blind ret w :
  Forall (λ sk, record_of sk = None) (st_for_in (storage w)) →
  for_in clearExpired_callback ret w = (ret, w).
Proof.
  rewrite for_in_run.
  induction 1 as [|sk names Hsk _ IH]; cbn [for_each]; [done|].
  rewrite run_bind, if_in_run, clearExpired_callback_run, Hsk.
  by destruct st_in.
Qed.
End iteration.

(** * The names [_iterKeys] walks

    On its first three branches [_iterKeys] walks an array read before
    the loop starts.  On the last it walks the property names of the
    storage object, and skips a name that is no longer in the object when
    its turn comes, while the sweep deletes properties on the way.  For
    a store whose entries are properties of the storage object, the walk
    of a sweep is that of an array all the same: the names that are in
    the object when the loop starts. *)

Section iterated.
Context {St : Type} `{StorageLaws St}.
Implicit Types (w : World St) (l : list string) (k : string).

(** [k in storage] holds of every key the store holds. *)
Definition in_reflects_model : Prop :=
  ∀ k (s : St), st_wf s → is_Some (st_model s !! k) → st_in k s = true.

(** [_iterKeys] walks [l] from the world [w]. *)
Definition iterated w l : Prop :=
  key_snapshot w = Some l ∨
  (key_snapshot w = None ∧ l = for_in_names w ∧
   in_reflects_model ∧ st_wf (storage w)).

Lemma keys_iterated includeExpired w l :
  iterated w l →
  keys includeExpired w = (filter (listed includeExpired w) l, w).
Proof.
  intros [Hl|(Hl & -> & _)]; [by apply keys_run|by apply keys_for_in].
Qed.
End iterated.

Arguments in_reflects_model St {_ _}.

(** * [keys] *)

Section keys.
Context {St : Type} `{StorageLaws St}.
Implicit Types (w : World St) (l : list string) (k sk : string).

(** [keys] changes nothing and returns, in the order of the array, the
    keys that are not expiry records and, unless [includeExpired], are not
    expired. *)
Theorem keys_filter includeExpired w l :
  iterated w l →
  eval (keys includeExpired) w = filter (listed includeExpired w) l ∧
  exec (keys includeExpired) w = w.
Proof. intros Hl. unfold eval, exec. by rewrite (keys_iterated _ _ _ Hl). Qed.

(** C20. With [includeExpired], [keys] lists every key of a store whose
    array enumerates it, but the expiry records; without it, those of
    them that are not expired. *)
Theorem keys_spec includeExpired w l k :
  iterated w l → enumerates l (st_model (storage w)) →
  k ∈ eval (keys includeExpired) w ↔
  is_Some (st_model (storage w) !! k) ∧ record_of k = None ∧
  (includeExpired = false → expired k w = false).
Proof.
  intros Hl [_ Hdom]. unfold eval. rewrite (keys_iterated _ _ _ Hl). cbn.
  rewrite list_elem_of_filter, Hdom, record_of_None. unfold listed.
  destruct includeExpired; naive_solver.
Qed.

(** The keys listed without the expired ones are among those listed with
    them, in the same order. *)
Theorem keys_sublist w l :
  iterated w l →
  eval (keys false) w `sublist_of` eval (keys true) w ∧
  eval (keys true) w `sublist_of` l.
Proof.
  intros Hl. unfold eval. rewrite !(keys_iterated _ _ _ Hl). cbn. split.
  - clear Hl. induction l as [|k l' IH]; [done|]. rewrite !filter_cons.
    destruct (decide (listed false w k)) as [[Hk _]|Hk].
    + rewrite decide_True by (split; auto). by apply sublist_skip.
    + case_decide; [by apply sublist_cons|done].
  - apply sublist_filter.
Qed.
End keys.

(** * [clearExpired] *)

Functional Scheme sweep_ind := Induction for sweep Sort Prop.

(** Induction on the run of the sweep over the array [l] from [w]: the
    empty array, a record whose item is expired, a record whose item is
    not, a key that is not a record. *)
Ltac sweep_induction l w :=
  functional induction (sweep l w); cbn [fst snd];
  repeat match goal with
  | H : record_of _ = Some _ |- _ => apply record_of_Some in H; subst
  end.

(** The storage keys that a sweep returning [r] deleted. *)
Definition removed (r : list string) : list string :=
  r ≫= λ k, [expiry_key k; k].

Section sweep.
Context {St : Type} `{StorageLaws St}.
Implicit Types (w : World St) (l r : list string) (k sk : string).

Lemma removeItem_subseteq k w :
  st_model (storage (exec (removeItem k) w)) ⊆ st_model (storage w).
Proof. rewrite model_removeItem. etrans; apply delete_subseteq. Qed.

Lemma expired_removeItem k w : expired k (exec (removeItem k) w) = false.
Proof.
  unfold expired. rewrite expiry_absent; [done|].
  rewrite model_removeItem. apply lookup_delete_eq.
Qed.

(** Removing entries never makes a key expired. *)
Lemma expired_subseteq k w w' :
  st_model (storage w') ⊆ st_model (storage w) → now w' = now w →
  expired k w = false → expired k w' = false.
Proof.
  intros Hsub Hnow He.
  destruct (st_model (storage w') !! expiry_key k) as [v|] eqn:Hv.
  - rewrite <- He. apply expired_ext; [|done].
    rewrite Hv. symmetry. by eapply lookup_weaken.
  - unfold expired. by rewrite (expiry_absent _ _ Hv).
Qed.

Lemma sweep_now l w : now (sweep l w).2 = now w.
Proof. sweep_induction l w; [done| |done..]. by rewrite now_removeItem in *. Qed.

(** The store after the sweep is the store before it less the values and
    the records of the keys returned. *)
Lemma sweep_model l w :
  st_model (storage (sweep l w).2) =
  foldr delete (st_model (storage w)) (removed (sweep l w).1).
Proof.
  sweep_induction l w; [done| |done..].
  rewrite model_removeItem in *. cbn. by rewrite !delete_foldr_delete.
Qed.

Lemma sweep_subseteq l w :
  st_model (storage (sweep l w).2) ⊆ st_model (storage w).
Proof.
  apply map_subseteq_spec. intros k v. rewrite sweep_model.
  rewrite lookup_foldr_delete_Some. by intros [_ ?].
Qed.

(** A key comes back from the sweep only if it was expired and its
    record was in the array. *)
Lemma sweep_sound l w key :
  key ∈ (sweep l w).1 → expired key w = true ∧ expiry_key key ∈ l.
Proof.
  sweep_induction l w; [by intros ?%elem_of_nil| |set_solver..].
  intros [->|Hk]%elem_of_cons; [set_solver|].
  destruct IHp as [He ?]; [done|]. split; [|set_solver].
  destruct (expired key w) eqn:Hf; [done|].
  by rewrite (expired_subseteq key w (exec (removeItem k) w)) in He;
    [|apply removeItem_subseteq|apply now_removeItem|].
Qed.

(** After the sweep, no item whose record was in the array is expired. *)
Lemma sweep_complete l w key :
  expiry_key key ∈ l → expired key (sweep l w).2 = false.
Proof.
  sweep_induction l w; [by intros ?%elem_of_nil|..];
    intros [Hk|Hk]%elem_of_cons; auto.
  - apply (inj expiry_key) in Hk as ->.
    apply (expired_subseteq _ (exec (removeItem k) w));
      [apply sweep_subseteq|apply sweep_now|apply expired_removeItem].
  - apply (inj expiry_key) in Hk as ->.
    by apply (expired_subseteq _ w); [apply sweep_subseteq|apply sweep_now|].
  - subst. by rewrite record_of_expiry_key in *.
Qed.

(** [removeItem] on a key that is not an expiry record leaves the
    expiry of every other item as it was. *)
Lemma expired_removeItem_ne k key w :
  key ≠ k → record_of k = None →
  expired key (exec (removeItem k) w) = expired key w.
Proof.
  intros Hne Hk. apply expired_ext; [|apply now_removeItem].
  rewrite model_removeItem, !lookup_delete_ne; [done|..].
  - intros ->. by rewrite record_of_expiry_key in Hk.
  - by intros ?%(inj expiry_key).
Qed.

(** When the array lists no key twice, and no item that has a record
    looks like a record itself, the sweep returns the items of the records
    of the array that are expired at the start, in the order of their
    records. *)
Lemma sweep_exact l w w0 :
  NoDup l →
  (∀ key, expiry_key key ∈ l → record_of key = None) →
  (∀ key, expiry_key key ∈ l → expired key w = expired key w0) →
  (sweep l w).1 = filter (λ key, expired key w0 = true) (omap record_of l).
Proof.
  sweep_induction l w; [done|..]; intros [Hsk Hl]%NoDup_cons Hflat Hexp;
    csimpl; rewrite ?record_of_expiry_key, ?e0; csimpl.
  - rewrite filter_cons_True by (rewrite <- Hexp; [done|set_solver]).
    f_equal. apply IHp; [done|set_solver|]. intros key Hkey.
    rewrite <- Hexp by set_solver. apply expired_removeItem_ne.
    + by intros ->.
    + apply Hflat. set_solver.
  - rewrite filter_cons_False
      by (rewrite <- Hexp; [by rewrite e1|set_solver]).
    apply IHp; [done|set_solver..].
  - apply IHp; [done|set_solver..].
Qed.

Lemma elem_of_removed r k :
  k ∈ removed r ↔ k ∈ r ∨ ∃ key, key ∈ r ∧ k = expiry_key key.
Proof. unfold removed. rewrite list_elem_of_bind. set_solver. Qed.

(** ** The sweep over [for ... in] *)

Lemma removeItem_wf k w :
  st_wf (storage w) → st_wf (storage (exec (removeItem k) w)).
Proof.
  intros Hw. unfold exec. rewrite removeItem_run.
  by do 2 apply st_removeItem_wf.
Qed.

(** A name the store does not hold is the record of no expired item:
    the sweep and its callback pass it by. *)
Lemma expired_no_record k w :
  st_model (storage w) !! expiry_key k = None → expired k w = false.
Proof. intros Hk. unfold expired. by rewrite expiry_absent. Qed.

Lemma clearExpired_callback_absent sk ret w :
  st_model (storage w) !! sk = None →
  clearExpired_callback sk ret w = (ret, w).
Proof.
  intros Hsk. rewrite clearExpired_callback_run.
  destruct (record_of sk) as [k|] eqn:Hk; [|done].
  apply record_of_Some in Hk as ->. by rewrite expired_no_record.
Qed.

Lemma sweep_absent sk l w :
  st_model (storage w) !! sk = None → sweep (sk :: l) w = sweep l w.
Proof.
  intros Hsk. cbn [sweep]. destruct (record_of sk) as [k|] eqn:Hk; [|done].
  apply record_of_Some in Hk as ->. by rewrite expired_no_record.
Qed.

(** The loop over the names of the object [w0] started with, run from a
    world [w] in which the sweep has deleted entries already, is the
    sweep of the names that were in the object at the start: a name
    deleted before its turn is skipped by the loop, and passed by in the
    sweep. *)
Lemma for_in_sweep w0 names ret w :
  in_reflects_model St → st_wf (storage w0) → st_wf (storage w) →
  st_model (storage w) ⊆ st_model (storage w0) →
  for_each (if_in clearExpired_callback) names ret w =
  let r := sweep (filter (λ k, st_in k (storage w0) = true) names) w in
  (ret ++ r.1, r.2).
Proof.
  intros Hin Hwf0. revert ret w.
  induction names as [|sk names IH]; intros ret w Hwf Hsub; cbn [for_each].
  { cbn. by rewrite app_nil_r. }
  assert (st_in sk (storage w) = false →
          st_model (storage w) !! sk = None) as Hnow.
  { intros Hf. apply eq_None_not_Some. intros Hs. by rewrite Hin in Hf. }
  assert (st_in sk (storage w0) = true ∨
          st_model (storage w) !! sk = None) as [Hthen|Hgone].
  { destruct (st_in sk (storage w0)) eqn:Hf; [by left|right].
    apply eq_None_not_Some. intros [v Hv].
    rewrite Hin in Hf; [done..|]. exists v. by eapply lookup_weaken. }
  all: rewrite run_bind, if_in_run, filter_cons.
  - rewrite decide_True by done.
    destruct (st_in sk (storage w)) eqn:Hf;
      [|rewrite sweep_absent by auto; by apply IH].
    rewrite clearExpired_callback_run. cbn [sweep].
    destruct (record_of sk) as [k|]; [|by apply IH].
    destruct (expired k w); [|by apply IH]. cbn [fst snd].
    rewrite IH; [cbn; by rewrite <- app_assoc|by apply removeItem_wf|].
    etrans; [apply removeItem_subseteq|done].
  - assert ((if st_in sk (storage w) then clearExpired_callback sk ret w
             else (ret, w)) = (ret, w)) as ->
      by (destruct st_in; [by apply clearExpired_callback_absent|done]).
    case_decide; [rewrite sweep_absent by done|]; by apply IH.
Qed.

(** [clearExpired] is the sweep of the names walked, on every branch of
    [_iterKeys]. *)
Lemma clearExpired_iterated w l : iterated w l → clearExpired w = sweep l w.
Proof.
  intros [Hl|(Hl & -> & Hin & Hwf)]; [by apply clearExpired_run|].
  unfold clearExpired. rewrite run_bind, getTimestamp_run. cbn [fst snd].
  rewrite (_iterKeys_for_in _ _ _ Hl), for_in_run, (for_in_sweep w) by done.
  unfold for_in_names. by destruct (sweep _ w).
Qed.

(** ** The theorems on [clearExpired] *)

(** C26. [clearExpired] is the recursive sweep of the array. *)
Theorem clearExpired_sweep w l :
  iterated w l →
  eval clearExpired w = (sweep l w).1 ∧ exec clearExpired w = (sweep l w).2.
Proof. intros Hl. unfold eval, exec. by rewrite (clearExpired_iterated _ _ Hl). Qed.

(** C7. After [clearExpired], over a store whose array lists every key it
    holds, no key at all is expired. *)
Theorem clearExpired_complete w l key :
  iterated w l → enumerates l (st_model (storage w)) →
  expired key (exec clearExpired w) = false.
Proof.
  intros Hl [_ Hdom]. unfold exec. rewrite (clearExpired_iterated _ _ Hl).
  destruct (decide (expiry_key key ∈ l)) as [Hk|Hk].
  { by apply sweep_complete. }
  unfold expired. rewrite expiry_absent; [done|].
  apply eq_None_not_Some. intros Hsome. apply Hk, Hdom.
  destruct Hsome as [v Hv]. exists v.
  by eapply lookup_weaken, sweep_subseteq.
Qed.

(** Every key [clearExpired] returns was expired when it was called. *)
Theorem clearExpired_sound w l key :
  iterated w l → key ∈ eval clearExpired w →
  expired key w = true ∧ expiry_key key ∈ l.
Proof.
  intros Hl. unfold eval. rewrite (clearExpired_iterated _ _ Hl).
  apply sweep_sound.
Qed.

(** [clearExpired] deletes the value and the record of each key it
    returns, and nothing else. *)
Theorem clearExpired_model w l :
  iterated w l →
  st_model (storage (exec clearExpired w)) =
  foldr delete (st_model (storage w)) (removed (eval clearExpired w)).
Proof.
  intros Hl. unfold eval, exec. rewrite (clearExpired_iterated _ _ Hl).
  apply sweep_model.
Qed.

(** The keys [clearExpired] returns are gone: a read of one answers as
    for a key that was never set, and it has no expiry. *)
Theorem clearExpired_evicts w l key :
  iterated w l → key ∈ eval clearExpired w →
  let w' := exec clearExpired w in
  st_getItem key (storage w') = st_absent St ∧ expiry key w' = None.
Proof.
  intros Hl. unfold eval, exec. rewrite (clearExpired_iterated _ _ Hl).
  intros Hk. cbn. split; [apply st_getItem_None|apply expiry_absent];
    rewrite sweep_model; apply lookup_foldr_delete, elem_of_removed; eauto.
Qed.

(** An entry that is not expired survives the sweep with its value and
    its expiry, as long as no key with a record looks like a record. *)
Theorem clearExpired_keeps_live w l key :
  iterated w l → flat l →
  record_of key = None → expired key w = false →
  let w' := exec clearExpired w in
  st_getItem key (storage w') = st_getItem key (storage w) ∧
  expiry key w' = expiry key w.
Proof.
  intros Hl Hflat Hkey He. unfold exec. rewrite (clearExpired_iterated _ _ Hl).
  assert (∀ k, k ∈ (sweep l w).1 → k ≠ key ∧ record_of k = None) as Hr.
  { intros k [Hk ?]%sweep_sound. split; [|by eapply flat_record_of].
    intros ->. by rewrite He in Hk. }
  cbn. split; [rewrite !st_getItem_model; f_equal|apply expiry_ext];
    rewrite sweep_model; apply lookup_foldr_delete_not_elem_of;
    rewrite elem_of_removed; intros [Hk|(k & Hk & Heq)].
  - by destruct (Hr _ Hk).
  - subst. by rewrite record_of_expiry_key in Hkey.
  - destruct (Hr _ Hk) as [_ Hrec]. by rewrite record_of_expiry_key in Hrec.
  - apply (inj expiry_key) in Heq as <-. by destruct (Hr _ Hk).
Qed.

(** C8. Over an array without repetition in which no key with a record looks
    like a record, [clearExpired] returns exactly the keys that were
    expired when it was called, in the order of their records. *)
Theorem clearExpired_exact w l :
  iterated w l → NoDup l → flat l →
  eval clearExpired w =
  filter (λ key, expired key w = true) (omap record_of l).
Proof.
  intros Hl Hnd Hflat. unfold eval. rewrite (clearExpired_iterated _ _ Hl).
  apply sweep_exact; [done| |done]. intros k. by apply flat_record_of.
Qed.

Lemma sweep_blind l w :
  Forall (λ sk, record_of sk = None) l → sweep l w = ([], w).
Proof.
  induction 1 as [|sk l' Hsk _ IH]; [done|]. cbn [sweep]. by rewrite Hsk.
Qed.

(** C29. Over a store whose key array holds no expiry record, as is
    [Object.keys] of a custom storage object that has no [keys()] of its
    own, [clearExpired] removes nothing, whatever is expired, and [keys]
    lists the array as it is: the members of the object, not the keys it
    stores. *)
Theorem clearExpired_blind w l :
  iterated w l → Forall (λ sk, record_of sk = None) l →
  clearExpired w = ([], w) ∧ eval (keys true) w = l.
Proof.
  intros Hl Hrec. rewrite (clearExpired_iterated _ _ Hl), (sweep_blind _ _ Hrec).
  split; [done|]. unfold eval. rewrite (keys_iterated _ _ _ Hl). cbn.
  apply filter_all. eapply Forall_impl; [done|]. intros sk Hsk.
  split; [by apply record_of_None|by left].
Qed.

(** The same on the [for ... in] branch, which a custom storage object
    without [keys()] takes in a browser without [Object.keys]: the loop
    sees the members of the object. *)
Theorem clearExpired_for_in_blind w :
  key_snapshot w = None →
  Forall (λ sk, record_of sk = None) (st_for_in (storage w)) →
  clearExpired w = ([], w) ∧ eval (keys true) w = for_in_names w.
Proof.
  intros Hl Hrec. split.
  - unfold clearExpired. rewrite run_bind, getTimestamp_run. cbn [fst snd].
    by rewrite (_iterKeys_for_in _ _ _ Hl), (for_in_blind _ _ Hrec).
  - unfold eval. rewrite (keys_for_in _ _ Hl). cbn. apply filter_all.
    unfold for_in_names. rewrite Forall_forall in Hrec |- *.
    intros sk [_ Hsk%Hrec]%list_elem_of_filter.
    split; [by apply record_of_None|by left].
Qed.

(** ** A key of the user that starts with the prefix *)

(** The key [expiry_key key] is the expiry record of [key] and, for the
    user who stores a value under it, a key with a record of its own.
    [removeItem] on it takes the expiry of [key] away. *)
Lemma removeItem_record key w :
  record_of key = None →
  let w1 := exec (removeItem (expiry_key key)) w in
  st_model (storage w1) !! expiry_key key = None ∧
  st_model (storage w1) !! key = st_model (storage w) !! key.
Proof.
  intros Hkey w1. unfold w1. rewrite model_removeItem.
  assert (∀ k, key ≠ expiry_key k) as Hne.
  { intros k ->. by rewrite record_of_expiry_key in Hkey. }
  split.
  - rewrite lookup_delete_ne by (intros ?%(inj expiry_key); by eapply Hne).
    apply lookup_delete_eq.
  - by rewrite !lookup_delete_ne by by apply not_eq_sym.
Qed.

(** C35. A sweep that meets the record of the key [expiry_key key] first,
    and finds that key expired, removes it, and the expiry of [key] with
    it: the entry of [key], expired or not, is not among the keys
    returned, keeps its value, and never expires again. *)
Theorem sweep_loses_expiry w l key :
  iterated w (expiry_key (expiry_key key) :: l) →
  record_of key = None →
  expired (expiry_key key) w = true →
  let w' := exec clearExpired w in
  (key ∉ eval clearExpired w) ∧
  st_model (storage w') !! key = st_model (storage w) !! key ∧
  ∀ ms, expired key (advance ms w') = false.
Proof.
  intros Hl Hkey Hx w'. unfold w', eval, exec.
  rewrite (clearExpired_iterated _ _ Hl). cbn [sweep].
  rewrite record_of_expiry_key, Hx. cbn [fst snd].
  destruct (removeItem_record key w Hkey) as [Hrec Hval].
  set (w1 := exec (removeItem (expiry_key key)) w) in *.
  assert (key ∉ (sweep l w1).1) as Hnot.
  { intros [He _]%sweep_sound. by rewrite (expired_no_record _ _ Hrec) in He. }
  split_and!.
  - intros [Heq|?]%elem_of_cons; [|done].
    by rewrite Heq, record_of_expiry_key in Hkey.
  - rewrite sweep_model, lookup_foldr_delete_not_elem_of; [done|].
    intros [?|(k & _ & ->)]%elem_of_removed; [done|].
    by rewrite record_of_expiry_key in Hkey.
  - intros ms. apply expired_no_record.
    by eapply lookup_weaken_None, sweep_subseteq.
Qed.
End sweep.

(** * On the test suite's store

    The theorems above at the world in which the test "Clear expired"
    calls [clearExpired]: the clock at 19, "test" (expiring at 10) and
    "test2" (at 15) expired, "stay" (at 25) and "stay2" (never) not. *)

(** The array [testStorage.keys()] returns there. *)
Definition sweep_array : list string :=
  ["test"; "__expired_storage_ts__test"; "test2";
   "__expired_storage_ts__test2"; "stay"; "__expired_storage_ts__stay";
   "stay2"].

Section witnesses.

Lemma sweep_array_snapshot : iterated before_sweep sweep_array.
Proof. by left. Qed.

Lemma sweep_array_enumerates :
  enumerates sweep_array (st_model (storage before_sweep)).
Proof.
  apply (testStorage_enumerates (storage before_sweep)).
  apply (bool_decide_unpack _). by vm_compute.
Qed.

Lemma sweep_array_NoDup : NoDup sweep_array.
Proof. apply (bool_decide_unpack _). by vm_compute. Qed.

Lemma sweep_array_flat : flat sweep_array.
Proof. apply (bool_decide_unpack _). by vm_compute. Qed.

Lemma keys_filter_witness :
  iterated before_sweep sweep_array ∧
  eval (keys false) before_sweep = filter (listed false before_sweep) sweep_array ∧
  exec (keys false) before_sweep = before_sweep.
Proof.
  split; [apply sweep_array_snapshot|].
  apply keys_filter, sweep_array_snapshot.
Defined.

Lemma keys_spec_witness :
  (iterated before_sweep sweep_array ∧
   enumerates sweep_array (st_model (storage before_sweep))) ∧
  ("stay" ∈ eval (keys false) before_sweep ↔
   is_Some (st_model (storage before_sweep) !! "stay") ∧
   record_of "stay" = None ∧
   (false = false → expired "stay" before_sweep = false)).
Proof.
  split; [split; [apply sweep_array_snapshot|apply sweep_array_enumerates]|].
  apply (keys_spec false before_sweep sweep_array);
    [apply sweep_array_snapshot|apply sweep_array_enumerates].
Defined.

Lemma keys_sublist_witness :
  iterated before_sweep sweep_array ∧
  eval (keys false) before_sweep `sublist_of` eval (keys true) before_sweep ∧
  eval (keys true) before_sweep `sublist_of` sweep_array.
Proof.
  split; [apply sweep_array_snapshot|].
  apply keys_sublist, sweep_array_snapshot.
Defined.

(** The same world over the store whose entries are its own properties,
    in a browser without [Object.keys]: [_iterKeys] walks the properties
    of the object, all of which are in it. *)
Definition own_before_sweep : World OwnStore :=
  exec clear_expired_setup (mkWorld (mkOwnStore []) 0 false).

Lemma ownStorage_in_reflects : in_reflects_model OwnStore.
Proof. intros k s _. apply ownStorage_in_model. Qed.

Lemma ownStorage_for_in_names (w : World OwnStore) :
  for_in_names w = (own_properties (storage w)).*1.
Proof.
  apply filter_all, Forall_forall. intros k Hk.
  apply bool_decide_eq_true. by left.
Qed.

Lemma sweep_array_for_in : iterated own_before_sweep sweep_array.
Proof.
  right.
  split_and!; [by vm_compute|by vm_compute|apply ownStorage_in_reflects|].
  apply (bool_decide_unpack _). by vm_compute.
Qed.

Lemma clearExpired_sweep_witness :
  (iterated before_sweep sweep_array ∧
   eval clearExpired before_sweep = (sweep sweep_array before_sweep).1 ∧
   exec clearExpired before_sweep = (sweep sweep_array before_sweep).2) ∧
  (iterated own_before_sweep sweep_array ∧
   eval clearExpired own_before_sweep =
     (sweep sweep_array own_before_sweep).1 ∧
   exec clearExpired own_before_sweep =
     (sweep sweep_array own_before_sweep).2).
Proof.
  split.
  - split; [apply sweep_array_snapshot|].
    apply clearExpired_sweep, sweep_array_snapshot.
  - split; [apply sweep_array_for_in|].
    apply (clearExpired_sweep own_before_sweep sweep_array).
    apply sweep_array_for_in.
Defined.

(** Over that store the loop of the fall-back branch sweeps as the
    array loops do, and the test "Clear expired" passes. *)
Example for_in_sweep_values :
  key_snapshot own_before_sweep = None ∧
  eval clearExpired own_before_sweep = ["test"; "test2"] ∧
  eval (keys true) (exec clearExpired own_before_sweep) = ["stay"; "stay2"] ∧
  eval test_clear_expired (mkWorld (mkOwnStore []) 0 false) =
    clear_expired_expected.
Proof. by vm_compute. Qed.

Lemma clearExpired_complete_witness :
  (iterated before_sweep sweep_array ∧
   enumerates sweep_array (st_model (storage before_sweep))) ∧
  expired "test" (exec clearExpired before_sweep) = false.
Proof.
  split; [split; [apply sweep_array_snapshot|apply sweep_array_enumerates]|].
  apply (clearExpired_complete before_sweep sweep_array);
    [apply sweep_array_snapshot|apply sweep_array_enumerates].
Defined.

Lemma clearExpired_sound_witness :
  (iterated before_sweep sweep_array ∧
   "test2" ∈ eval clearExpired before_sweep) ∧
  expired "test2" before_sweep = true ∧
  expiry_key "test2" ∈ sweep_array.
Proof.
  assert ("test2" ∈ eval clearExpired before_sweep) as Hin.
  { apply (bool_decide_unpack _). by vm_compute. }
  split; [split; [apply sweep_array_snapshot|done]|].
  apply (clearExpired_sound before_sweep sweep_array);
    [apply sweep_array_snapshot|done].
Defined.

Lemma clearExpired_model_witness :
  iterated before_sweep sweep_array ∧
  st_model (storage (exec clearExpired before_sweep)) =
  foldr delete (st_model (storage before_sweep))
    (removed (eval clearExpired before_sweep)).
Proof.
  split; [apply sweep_array_snapshot|].
  apply (clearExpired_model _ sweep_array), sweep_array_snapshot.
Defined.

Lemma clearExpired_evicts_witness :
  (iterated before_sweep sweep_array ∧
   "test" ∈ eval clearExpired before_sweep) ∧
  let w' := exec clearExpired before_sweep in
  st_getItem "test" (storage w') = st_absent JSObject ∧
  expiry "test" w' = None.
Proof.
  assert ("test" ∈ eval clearExpired before_sweep) as Hin.
  { apply (bool_decide_unpack _). by vm_compute. }
  split; [split; [apply sweep_array_snapshot|done]|].
  apply (clearExpired_evicts before_sweep sweep_array);
    [apply sweep_array_snapshot|done].
Defined.

Lemma clearExpired_keeps_live_witness :
  (iterated before_sweep sweep_array ∧ flat sweep_array ∧
   record_of "stay" = None ∧ expired "stay" before_sweep = false) ∧
  let w' := exec clearExpired before_sweep in
  st_getItem "stay" (storage w') = st_getItem "stay" (storage before_sweep) ∧
  expiry "stay" w' = expiry "stay" before_sweep.
Proof.
  split; [split_and!; [apply sweep_array_snapshot|apply sweep_array_flat|done..]|].
  apply (clearExpired_keeps_live before_sweep sweep_array);
    [apply sweep_array_snapshot|apply sweep_array_flat|done..].
Defined.

Lemma clearExpired_exact_witness :
  (iterated before_sweep sweep_array ∧ NoDup sweep_array ∧
   flat sweep_array) ∧
  eval clearExpired before_sweep =
  filter (λ key, expired key before_sweep = true) (omap record_of sweep_array).
Proof.
  split; [split_and!; [apply sweep_array_snapshot|apply sweep_array_NoDup
                      |apply sweep_array_flat]|].
  apply clearExpired_exact;
    [apply sweep_array_snapshot|apply sweep_array_NoDup|apply sweep_array_flat].
Defined.

(** The store of the README without [keys()], holding an entry that
    expired 9 seconds ago. *)
Definition bare_world : World BareStore :=
  advance 19000
    (exec (setItem "a" (JString "x") (Num 10)) (mkWorld (mkBareStore []) 0 true)).

Lemma clearExpired_blind_witness :
  (iterated bare_world bareStorage_members ∧
   Forall (λ sk, record_of sk = None) bareStorage_members) ∧
  clearExpired bare_world = ([], bare_world) ∧
  eval (keys true) bare_world = bareStorage_members.
Proof.
  assert (Forall (λ sk, record_of sk = None) bareStorage_members) as Hrec.
  { apply (bool_decide_unpack _). by vm_compute. }
  assert (iterated bare_world bareStorage_members) as Hl by by left.
  split; [by split|]. by apply clearExpired_blind.
Defined.

(** There, the entry is expired, and stays. *)
Example bare_world_expired :
  expired "a" bare_world = true ∧
  expired "a" (exec clearExpired bare_world) = true.
Proof. by vm_compute. Qed.

(** The same store in a browser without [Object.keys]. *)
Definition old_bare_world : World BareStore :=
  mkWorld (storage bare_world) (date bare_world) false.

Lemma clearExpired_for_in_blind_witness :
  (key_snapshot old_bare_world = None ∧
   Forall (λ sk, record_of sk = None) (st_for_in (storage old_bare_world))) ∧
  clearExpired old_bare_world = ([], old_bare_world) ∧
  eval (keys true) old_bare_world = bareStorage_members.
Proof.
  assert (Forall (λ sk, record_of sk = None)
            (st_for_in (storage old_bare_world))) as Hrec.
  { apply (bool_decide_unpack _). by vm_compute. }
  split; [by split|].
  exact (clearExpired_for_in_blind old_bare_world eq_refl Hrec).
Defined.

(** A store in which a key of the user starts with the prefix: the
    record of the key "__expired_storage_ts__a" comes first, then "a" set
    with 5 seconds to live, whose record is that very key; 19 seconds
    later both are expired. *)
Definition nested_world : World JSObject :=
  exec (updateExpiration "__expired_storage_ts__a" (Num 10);;
        setItem "a" (JString "x") (Num 5);;
        set_timestamp 19) browser.

Lemma sweep_loses_expiry_witness :
  (iterated nested_world
     (expiry_key (expiry_key "a") :: ["a"; expiry_key "a"]) ∧
   record_of "a" = None ∧ expired (expiry_key "a") nested_world = true) ∧
  let w' := exec clearExpired nested_world in
  ("a" ∉ eval clearExpired nested_world) ∧
  st_model (storage w') !! "a" = st_model (storage nested_world) !! "a" ∧
  ∀ ms, expired "a" (advance ms w') = false.
Proof.
  assert (iterated nested_world
            (expiry_key (expiry_key "a") :: ["a"; expiry_key "a"])) as Hl
    by by left.
  split; [by split_and!|].
  by apply (sweep_loses_expiry nested_world ["a"; expiry_key "a"] "a").
Defined.

(** There "a" was expired, and is served again after the sweep. *)
Example nested_world_values :
  expired "a" nested_world = true ∧
  eval (getItem "a") nested_world = JNull ∧
  eval clearExpired nested_world = ["__expired_storage_ts__a"] ∧
  eval (getItem "a") (exec clearExpired nested_world) = JString "x".
Proof. by vm_compute. Qed.

(** The values the theorems speak of, at these inputs. *)
Example sweep_values :
  eval (keys false) before_sweep = ["stay"; "stay2"] ∧
  eval (keys true) before_sweep = ["test"; "test2"; "stay"; "stay2"] ∧
  eval clearExpired before_sweep = ["test"; "test2"] ∧
  omap record_of sweep_array = ["test"; "test2"; "stay"] ∧
  storage (exec clearExpired before_sweep) =
    [("stay", JString "woo"); ("__expired_storage_ts__stay", JNumber (Num 25));
     ("stay2", JString "woo2")].
Proof. by vm_compute. Qed.
End witnesses.
