(* ===== verification/JsonItems.v ===== *)
(** * JsonItems: [setJson] and [getJson]

    The two methods that store a value as its JSON text, over any store
    with [Storage.StorageLaws] and any [JSON] with [Js.JsonLaws]: the
    guard of [setJson], the round trip, what [getJson] makes of a key that
    is absent or expired, and the values on which the guard falls short.
    With the [JSON] of [JsonText]: the value that comes back
    ([getJson_setJson_value]), and two lemmas on the adequacy of the
    parser of the model, which say nothing of the class: its fuel never
    makes [getJson] throw ([getJson_any_fuel]), and what it builds has
    no repeated name ([getJson_wf]).  The examples run on the object of
    the test "JSON get / set". *)

From S2P Require Import Prelude Js Dict JsonText JsonParse Storage.
From S2P Require Import ExpiredStorage TestStorage WebStorage TestSuite Expiry.

(** * The methods, as values and worlds *)

Section json_run.
Context {St V : Type} `{!Storage St} `{!Json V}.
Implicit Types (w : World St) (key : string) (val : V).
Implicit Types (expiration raw : JSValue).

(** What [getJson] makes of the value [getItem] returned. *)
Definition decode raw : JsonError + V :=
  if decide (raw = JNull) then inr json_null
  else from_option inr (inl SyntaxError) (JSON_parse (ToString raw)).

Lemma setJson_run key val expiration w :
  setJson key val expiration w =
  if is_undefined val then (inl CannotSetUndefined, w)
  else
    (inr (eval (setItem key (stringified val) expiration) w),
     exec (setItem key (stringified val) expiration) w).
Proof.
  unfold setJson. destruct (is_undefined val); [done|].
  rewrite run_bind, run_ret. by rewrite (run_eval_exec (setItem _ _ _)).
Qed.

Lemma getJson_run key w :
  getJson key w = (decode (eval (getItem key) w), exec (getItem key) w).
Proof.
  unfold getJson, decode. rewrite run_bind, (run_eval_exec (getItem _)).
  cbn [fst snd]. by case_decide.
Qed.
End json_run.

(** * What [setJson] and [getJson] do *)

Section json.
Context {St V : Type} `{StorageLaws St} `{JsonLaws V}.
Implicit Types (w : World St) (key text : string) (val : V).
Implicit Types (expiration : JSValue).

Lemma is_undefined_false val text :
  JSON_stringify val = Some text → is_undefined val = false.
Proof.
  intros Hs. apply not_true_iff_false. intros ->%is_undefined_spec.
  by rewrite stringify_undefined in Hs.
Qed.

Lemma exec_setJson key val expiration w :
  is_undefined val = false →
  exec (setJson key val expiration) w =
  exec (setItem key (stringified val) expiration) w.
Proof. intros Hu. unfold exec at 1. by rewrite setJson_run, Hu. Qed.

(** What [getJson] reads after [setJson], while the entry is live. *)
Lemma getJson_setJson_run key val expiration w :
  is_undefined val = false →
  let w' := exec (setJson key val expiration) w in
  expired key w' = false →
  getJson (V := V) key w' = (decode (st_stored St (stringified val)), w').
Proof.
  intros Hu w' He. rewrite getJson_run. unfold eval, exec.
  rewrite (getItem_live_run _ _ He). cbn [fst snd]. f_equal. f_equal.
  unfold w'. rewrite (exec_setJson _ _ _ _ Hu).
  by rewrite st_getItem_model, lookup_setItem_value.
Qed.

(** [setJson] throws on [undefined], and then changes nothing. *)
Theorem setJson_undefined key expiration w :
  setJson key (json_undefined : V) expiration w = (inl CannotSetUndefined, w).
Proof. rewrite setJson_run. by rewrite (proj2 (is_undefined_spec _)). Qed.

(** A value that has a JSON text is read back by [getJson], over a store
    that keeps text as it is, as long as the entry is not expired: what
    comes back is the value [JSON.parse] makes of the text, which has the
    same text. *)
Theorem getJson_setJson key val text expiration w :
  json_wf val → JSON_stringify val = Some text →
  st_stored St (JString text) = JString text →
  let w' := exec (setJson key val expiration) w in
  expired key w' = false →
  ∃ v' : V, JSON_parse text = Some v' ∧ JSON_stringify v' = Some text ∧
            getJson key w' = (inr v', w').
Proof.
  intros Hwf Hs Hkeep w' He.
  destruct (parse_stringify val text Hwf Hs) as (v' & Hp & _ & Hs').
  exists v'. split_and!; [done..|]. unfold w'.
  rewrite getJson_setJson_run by eauto using is_undefined_false.
  unfold stringified. rewrite Hs. cbn. rewrite Hkeep.
  unfold decode. cbn. by rewrite Hp.
Qed.

(** C30. The guard of [setJson] lets through the values other than
    [undefined] that have no JSON text either, a function for one:
    [undefined] is handed to [setItem], a store that keeps text writes
    "undefined", and [getJson] throws on reading it. *)
Theorem setJson_unserializable key val expiration w :
  is_undefined val = false → JSON_stringify val = None →
  st_stored St JUndefined = JString "undefined" →
  let w' := exec (setJson key val expiration) w in
  expired key w' = false →
  eval (getJson (V := V) key) w' = inl SyntaxError.
Proof.
  intros Hu Hs Htext w' He. unfold eval, w'.
  rewrite getJson_setJson_run by done.
  unfold stringified. rewrite Hs. cbn. rewrite Htext.
  unfold decode. cbn. by rewrite parse_undefined.
Qed.

(** C37. [getJson] of a key that is not stored answers [null] and changes
    nothing, over a store that answers [null] for such a key. *)
Theorem getJson_absent key w :
  st_absent St = JNull →
  st_model (storage w) !! key = None → expired key w = false →
  getJson (V := V) key w = (inr json_null, w).
Proof.
  intros Habs Hk He. rewrite getJson_run. unfold eval, exec.
  rewrite (getItem_live_run _ _ He). cbn [fst snd].
  by rewrite (st_getItem_None _ _ Hk), Habs.
Qed.

(** C31. Over a store that answers [undefined] for a key it does not hold, as
    the one of the README does, [getJson] of such a key throws:
    [undefined] is not [null], and its text is not JSON. *)
Theorem getJson_absent_undefined key w :
  st_absent St = JUndefined →
  st_model (storage w) !! key = None → expired key w = false →
  eval (getJson (V := V) key) w = inl SyntaxError.
Proof.
  intros Habs Hk He. unfold eval. rewrite getJson_run. unfold eval.
  rewrite (getItem_live_run _ _ He). cbn [fst snd].
  rewrite (st_getItem_None _ _ Hk), Habs. unfold decode. cbn.
  by rewrite parse_undefined.
Qed.

(** [getJson] of an expired entry answers [null] and removes it. *)
Theorem getJson_expired key w :
  expired key w = true →
  getJson (V := V) key w = (inr json_null, exec (removeItem key) w).
Proof.
  intros He. rewrite getJson_run. unfold eval, exec.
  by rewrite (getItem_expired_run _ _ He).
Qed.
End json.

(** * With the [JSON] of [JsonText] *)

Section json_text.
Context {St : Type} `{StorageLaws St}.
Implicit Types (w : World St) (key : string) (val v : JsonValue).
Implicit Types (expiration : JSValue).

(** A value that has a text, stored by [setJson] in a store that keeps
    text as it is, is read back by [getJson] as [revive] of the value,
    as long as the entry is not expired: the value itself when it is
    plain, and else the value with [null] for [NaN] and without its
    [undefined] properties. *)
Theorem getJson_setJson_value key val expiration w :
  wf_value val = true → is_Some (stringify val) →
  st_stored St (JString (item_text val)) = JString (item_text val) →
  let w' := exec (setJson key val expiration) w in
  expired key w' = false →
  getJson key w' = (inr (revive val), w') ∧
  (plain val = true → revive val = val).
Proof.
  intros Hwf [text Htext] Hkeep w' He. split; [|apply revive_plain].
  assert (JSON_stringify val = Some (item_text val)) as Hitem
    by (unfold item_text; cbn; by rewrite Htext).
  assert (JSON_parse (item_text val) = Some (revive val)) as Hparse
    by by apply JSON_parse_text_stringify.
  unfold w'. rewrite getJson_setJson_run by (done || by destruct val).
  unfold stringified, decode. rewrite Hitem. cbn [from_option].
  rewrite Hkeep. cbn [ToString]. by rewrite decide_False, Hparse.
Qed.

(** [getJson] answers what the parser reads in the stored text with any
    amount of fuel: when it throws a [SyntaxError] the text is not JSON,
    the parser did not run short. *)
Theorem getJson_any_fuel key w fuel v rest :
  eval (getItem key) w ≠ JNull →
  parse_value fuel (ToString (eval (getItem key) w)) = Some (v, rest) →
  skip_ws rest = "" →
  eval (getJson key) w = inr v.
Proof.
  intros Hraw Hread Hrest.
  assert (JSON_parse (ToString (eval (getItem key) w)) = Some v) as Hparse
    by by apply (JSON_parse_text_complete fuel _ v rest).
  unfold eval at 1. rewrite getJson_run. unfold decode. cbn [fst].
  by rewrite decide_False, Hparse.
Qed.

(** What [getJson] returns is a value of JavaScript, whatever text the
    store held: no object in it has the same name twice. *)
Theorem getJson_wf key w v :
  eval (getJson key) w = inr v → wf_value v = true.
Proof.
  unfold eval at 1. rewrite getJson_run. unfold decode. cbn [fst].
  case_decide; [by intros [= <-]|].
  destruct (JSON_parse _) as [v'|] eqn:Hread; intros [= <-].
  by eapply JSON_parse_text_wf.
Qed.
End json_text.

(** * On the stores of the test suite *)

Section witnesses.

(** The world of "Clear expired" in which the object of the test "JSON
    get / set" is stored for a minute. *)
Definition object_stored : World WebStore :=
  exec (setJson "obj" test_object (Num 60)) web_before_sweep.

Lemma getJson_setJson_value_witness :
  (wf_value test_object = true ∧ is_Some (stringify test_object) ∧
   st_stored WebStore (JString (item_text test_object)) =
     JString (item_text test_object) ∧
   expired "obj" object_stored = false) ∧
  getJson "obj" object_stored = (inr (revive test_object), object_stored) ∧
  (plain test_object = true → revive test_object = test_object).
Proof.
  split; [split_and!; first [by vm_compute|by eexists]|].
  apply (getJson_setJson_value "obj" test_object (Num 60) web_before_sweep);
    first [by vm_compute|by eexists].
Defined.

Lemma getJson_any_fuel_witness :
  (eval (getItem "obj") object_stored ≠ JNull ∧
   parse_value 8 (ToString (eval (getItem "obj") object_stored)) =
     Some (test_object_read, "") ∧
   skip_ws "" = "") ∧
  eval (getJson "obj") object_stored = inr test_object_read.
Proof.
  split; [split_and!; by vm_compute|].
  by apply (getJson_any_fuel "obj" object_stored 8 _ "").
Defined.

Lemma getJson_wf_witness :
  eval (getJson "obj") object_stored = inr test_object_read ∧
  wf_value test_object_read = true.
Proof.
  split; [by vm_compute|]. by apply (getJson_wf "obj" object_stored).
Defined.

(** With the [JSON] of [JsonText], whose laws [setJson_undefined] relies
    on. *)
Lemma setJson_undefined_witness :
  setJson "test" (json_undefined : JsonValue) (Num 60) web_before_sweep =
  (inl CannotSetUndefined, web_before_sweep).
Proof. apply (setJson_undefined (V := JsonValue) "test" (Num 60)). Defined.

Lemma getJson_setJson_witness :
  (json_wf test_object ∧
   JSON_stringify test_object = Some (item_text test_object) ∧
   st_stored WebStore (JString (item_text test_object)) =
     JString (item_text test_object) ∧
   expired "test"
     (exec (setJson "test" test_object (Num 60)) web_before_sweep) = false) ∧
  let w' := exec (setJson "test" test_object (Num 60)) web_before_sweep in
  ∃ v' : JsonValue,
    JSON_parse (item_text test_object) = Some v' ∧
    JSON_stringify v' = Some (item_text test_object) ∧
    getJson "test" w' = (inr v', w').
Proof.
  split; [split_and!; by vm_compute|].
  apply (getJson_setJson "test" test_object _ (Num 60)); by vm_compute.
Defined.

Lemma setJson_unserializable_witness :
  (is_undefined JVFunction = false ∧ JSON_stringify JVFunction = None ∧
   st_stored WebStore JUndefined = JString "undefined" ∧
   expired "f" (exec (setJson "f" JVFunction JUndefined) web_browser) = false) ∧
  eval (getJson (V := JsonValue) "f")
    (exec (setJson "f" JVFunction JUndefined) web_browser) = inl SyntaxError.
Proof.
  split; [split_and!; by vm_compute|].
  apply (setJson_unserializable "f" JVFunction JUndefined); by vm_compute.
Defined.

Lemma getJson_absent_witness :
  (st_absent JSObject = JNull ∧
   st_model (storage before_sweep) !! "nothing" = None ∧
   expired "nothing" before_sweep = false) ∧
  getJson (V := JsonValue) "nothing" before_sweep =
  (inr json_null, before_sweep).
Proof.
  split; [split_and!; by vm_compute|].
  apply (getJson_absent "nothing"); by vm_compute.
Defined.

Lemma getJson_absent_undefined_witness :
  (st_absent ReadmeStore = JUndefined ∧
   st_model (storage readme_browser) !! "nothing" = None ∧
   expired "nothing" readme_browser = false) ∧
  eval (getJson (V := JsonValue) "nothing") readme_browser = inl SyntaxError.
Proof.
  split; [split_and!; by vm_compute|].
  apply (getJson_absent_undefined "nothing"); by vm_compute.
Defined.

Lemma getJson_expired_witness :
  expired "test" web_before_sweep = true ∧
  getJson (V := JsonValue) "test" web_before_sweep =
  (inr json_null, exec (removeItem "test") web_before_sweep).
Proof. split; [by vm_compute|]. by apply getJson_expired. Defined.
End witnesses.
