(* ===== verification/Spec.v ===== *)
(** * Spec: what the class promises, and that it keeps the promise

    The abstract store: for the keys of the user, the value each holds
    and the instant at which each expires.  The two are kept apart, as
    the class keeps them: an entry can have a value and no expiry, and an
    expiry can be left without a value, by [updateExpiration] on a key
    that was never set.  Each method has a specification on the abstract
    store ([spec_setItem], ...), written from the documentation of the
    class.  [abs] reads the abstract store off the backing store, where
    an expiry is the text of a number under a derived key, and the
    lemmas [refines_*] show that each method does to [abs] what its
    specification says, as long as the backing store is well formed
    ([inv]): no key with an expiry record looks like a record itself.
    The methods keep [inv], when the keys they are given do not start
    with the prefix. *)

From Stdlib Require Import FunInd.
From S2P Require Import Prelude Js Dict Storage ExpiredStorage.
From S2P Require Import TestStorage WebStorage TestSuite Expiry Sweep.

(** * The abstract store *)

Record Spec : Type := mkSpec {
  (** the value of each key that holds one *)
  spec_values : gmap string JSValue;
  (** the instant, in seconds, at which each key that expires does *)
  spec_expiries : gmap string Z;
}.

#[export] Instance Spec_eq_dec : EqDecision Spec.
Proof. solve_decision. Defined.

#[export] Instance Spec_empty : Empty Spec := mkSpec ∅ ∅.

Section spec.
Implicit Types (m : Spec) (key : string) (value : JSValue) (t d : Z).
Implicit Types (ttl : option Z).

(** A key is expired from its instant on. *)
Definition spec_expired key t m : bool :=
  from_option (λ t', bool_decide (t' ≤ t)) false (spec_expiries m !! key).

(** [setItem(key, value, ttl)] at instant [t]: with a time to live the
    key expires at [t + ttl]; without, it keeps the expiry it had. *)
Definition spec_setItem key value ttl t m : Spec :=
  mkSpec (<[key := value]> (spec_values m))
    (match ttl with
     | Some d => <[key := t + d]> (spec_expiries m)
     | None => spec_expiries m
     end).

(** [updateExpiration(key, ttl)]: the key expires at [t + ttl], whether
    it holds a value or not. *)
Definition spec_updateExpiration key d t m : Spec :=
  mkSpec (spec_values m) (<[key := t + d]> (spec_expiries m)).

Definition spec_removeItem key m : Spec :=
  mkSpec (delete key (spec_values m)) (delete key (spec_expiries m)).

(** [getItem(key)]: the value, [None] for [null]; an expired key is
    removed. *)
Definition spec_getItem key t m : option JSValue * Spec :=
  if spec_expired key t m then (None, spec_removeItem key m)
  else (spec_values m !! key, m).

Definition spec_getTimeLeft key t m : option Z :=
  (λ t', t' - t) <$> spec_expiries m !! key.

Definition spec_isExpired key t m : bool := spec_expired key t m.

(** [peek(key)]: the value, expired or not, the time left and whether
    the key is expired. *)
Definition spec_peek key t m : PeekResult :=
  mkPeek (default JNull (spec_values m !! key))
    (Num <$> spec_getTimeLeft key t m) (spec_isExpired key t m).

Definition spec_clear m : Spec := ∅.

(** [clearExpired()]: the keys that are not expired stay. *)
Definition spec_clearExpired t m : Spec :=
  mkSpec (filter (λ kv, spec_expired kv.1 t m = false) (spec_values m))
    (filter (λ kv, ¬ kv.2 ≤ t) (spec_expiries m)).

(** The keys [keys(includeExpired)] may list. *)
Definition spec_listed (includeExpired : bool) key t m : Prop :=
  is_Some (spec_values m !! key) ∧
  (includeExpired = false → spec_expired key t m = false).

(** ** What follows from the specification alone *)

Lemma spec_ext m1 m2 :
  (∀ key, spec_values m1 !! key = spec_values m2 !! key) →
  (∀ key, spec_expiries m1 !! key = spec_expiries m2 !! key) →
  m1 = m2.
Proof. destruct m1, m2. cbn. intros ?%map_eq ?%map_eq. by subst. Qed.

Lemma spec_expired_Some key t m t' :
  spec_expiries m !! key = Some t' →
  spec_expired key t m = bool_decide (t' ≤ t).
Proof. unfold spec_expired. by intros ->. Qed.

Lemma spec_expired_None key t m :
  spec_expiries m !! key = None → spec_expired key t m = false.
Proof. unfold spec_expired. by intros ->. Qed.

Lemma spec_expired_ext key t m1 m2 :
  spec_expiries m1 !! key = spec_expiries m2 !! key →
  spec_expired key t m1 = spec_expired key t m2.
Proof. unfold spec_expired. by intros ->. Qed.

(** What is not expired now was not expired before. *)
Lemma spec_expired_mono key t t' m :
  t ≤ t' → spec_expired key t' m = false → spec_expired key t m = false.
Proof.
  unfold spec_expired. destruct (spec_expiries m !! key); [cbn|done].
  rewrite !bool_decide_eq_false. lia.
Qed.

Lemma lookup_spec_clearExpired_value key t m :
  spec_values (spec_clearExpired t m) !! key =
  if spec_expired key t m then None else spec_values m !! key.
Proof.
  cbn. rewrite map_lookup_filter.
  destruct (spec_values m !! key); cbn; [|by destruct spec_expired].
  destruct (spec_expired key t m); [by rewrite option_guard_False|].
  by rewrite option_guard_True.
Qed.

Lemma lookup_spec_clearExpired_expiry key t m :
  spec_expiries (spec_clearExpired t m) !! key =
  if spec_expired key t m then None else spec_expiries m !! key.
Proof.
  cbn. rewrite map_lookup_filter. unfold spec_expired.
  destruct (spec_expiries m !! key) as [t'|]; cbn; [|done].
  case_bool_decide; [by rewrite option_guard_False by auto|].
  by rewrite option_guard_True.
Qed.

(** After a sweep no key is expired. *)
Lemma spec_expired_clearExpired key t m :
  spec_expired key t (spec_clearExpired t m) = false.
Proof.
  destruct (spec_expired key t m) eqn:He.
  - apply spec_expired_None. by rewrite lookup_spec_clearExpired_expiry, He.
  - rewrite <- He. apply spec_expired_ext.
    by rewrite lookup_spec_clearExpired_expiry, He.
Qed.

(** After a sweep every key that holds a value is listed, and they are
    those that were listed without the expired ones before it. *)
Lemma spec_listed_clearExpired includeExpired key t m :
  spec_listed includeExpired key t (spec_clearExpired t m) ↔
  spec_listed false key t m.
Proof.
  unfold spec_listed.
  rewrite lookup_spec_clearExpired_value, spec_expired_clearExpired.
  destruct (spec_expired key t m); [|naive_solver].
  split; [by intros [[] _]|]. intros [_ Hx]. by specialize (Hx eq_refl).
Qed.

(** A sweep right after a sweep finds nothing. *)
Lemma spec_clearExpired_idemp t m :
  spec_clearExpired t (spec_clearExpired t m) = spec_clearExpired t m.
Proof.
  apply spec_ext; intros key.
  - by rewrite lookup_spec_clearExpired_value, spec_expired_clearExpired.
  - by rewrite lookup_spec_clearExpired_expiry, spec_expired_clearExpired.
Qed.
End spec.

(** * From the backing store to the abstract store *)

(** The instant a stored expiry record stands for: what [parseInt] reads
    in it, when it is a number other than 0. *)
Definition expiry_of (v : JSValue) : option Z :=
  match parseInt v with
  | Num e => if decide (e = 0) then None else Some e
  | NaN => None
  end.

Section abs.
Context {St : Type} `{StorageLaws St}.
Implicit Types (w : World St) (key k : string) (value v : JSValue).

(** The key and the instant of an entry of the store that is an expiry
    record. *)
Definition record_entry (kv : string * JSValue) : option (string * Z) :=
  k ← record_of kv.1; t ← expiry_of kv.2; Some (k, t).

(** The values of the keys that are not expiry records, and the
    instants of those that are. *)
Definition abs w : Spec :=
  mkSpec (filter (λ kv, record_of kv.1 = None) (st_model (storage w)))
    (list_to_map (omap record_entry (map_to_list (st_model (storage w))))).

(** No key with an expiry record looks like a record. *)
Definition inv w : Prop :=
  ∀ key, is_Some (st_model (storage w) !! expiry_key key) →
         record_of key = None.

Lemma expiry_expiry_of key w :
  expiry key w =
  expiry_of (default (st_absent St) (st_model (storage w) !! expiry_key key)).
Proof. apply expiry_model. Qed.

Lemma record_entry_Some kv k t :
  record_entry kv = Some (k, t) ↔
  kv.1 = expiry_key k ∧ expiry_of kv.2 = Some t.
Proof.
  unfold record_entry. rewrite <- record_of_Some.
  destruct (record_of kv.1), (expiry_of kv.2); cbn;
    split; (intros [= <- <-] || intros [[= <-] [= <-]] || intros [[=] _]
            || intros [_ [=]] || intros [=]); done.
Qed.

Lemma NoDup_fst_record_entries (l : list (string * JSValue)) :
  NoDup l.*1 → NoDup (omap record_entry l).*1.
Proof.
  induction l as [|kv l IH]; csimpl; [constructor|].
  intros [Hkv Hl]%NoDup_cons.
  destruct (record_entry kv) as [[k t]|] eqn:Hk; csimpl; [|by apply IH].
  constructor; [|by apply IH].
  intros ([k' t'] & Heq & Hin)%list_elem_of_fmap. cbn in Heq. subst k'.
  apply list_elem_of_omap in Hin as (kv' & Hin & Hk').
  apply record_entry_Some in Hk as [Hk _], Hk' as [Hk' _].
  apply Hkv, list_elem_of_fmap. exists kv'. split; [congruence|done].
Qed.

Lemma lookup_abs_value w key :
  record_of key = None →
  spec_values (abs w) !! key = st_model (storage w) !! key.
Proof.
  intros Hk. cbn. rewrite map_lookup_filter.
  destruct (st_model (storage w) !! key); cbn; [|done].
  by rewrite option_guard_True.
Qed.

Lemma lookup_abs_value_record w key :
  spec_values (abs w) !! expiry_key key = None.
Proof.
  cbn. apply map_lookup_filter_None. right. intros v _. cbn.
  by rewrite record_of_expiry_key.
Qed.

(** The abstract store has for a key the expiry the class reads. *)
Lemma lookup_abs_expiry w key : spec_expiries (abs w) !! key = expiry key w.
Proof.
  apply option_eq. intros t. cbn.
  rewrite <- elem_of_list_to_map
    by apply NoDup_fst_record_entries, NoDup_fst_map_to_list.
  rewrite list_elem_of_omap, expiry_expiry_of. split.
  - intros ([sk v] & Hin%elem_of_map_to_list & [Hsk Hv]%record_entry_Some).
    cbn in Hsk, Hv. subst sk. by rewrite Hin.
  - intros Ht.
    destruct (st_model (storage w) !! expiry_key key) as [v|] eqn:Hv.
    + exists (expiry_key key, v).
      split; [by apply elem_of_map_to_list|by apply record_entry_Some].
    + unfold expiry_of in Ht. cbn in Ht. by rewrite st_absent_parseInt in Ht.
Qed.

Lemma spec_expired_abs w key :
  spec_expired key (now w) (abs w) = expired key w.
Proof. unfold spec_expired, expired. by rewrite lookup_abs_expiry. Qed.

(** A key is a record or it is not. *)
Lemma record_of_cases key :
  record_of key = None ∨ ∃ k, key = expiry_key k.
Proof.
  destruct (record_of key) as [k|] eqn:Hk; [right|by left].
  exists k. by apply record_of_Some.
Qed.

(** The abstract store of a world is the one that has the values of its
    keys that are not records and the expiry of each key. *)
Lemma abs_ext w (m : Spec) :
  (∀ key, spec_values m !! expiry_key key = None) →
  (∀ key, record_of key = None →
     spec_values m !! key = st_model (storage w) !! key) →
  (∀ key, spec_expiries m !! key = expiry key w) →
  abs w = m.
Proof.
  intros Hrec Hkey Hexp. apply spec_ext; intros key.
  - destruct (record_of_cases key) as [Hk|[k ->]].
    + by rewrite lookup_abs_value, Hkey.
    + by rewrite lookup_abs_value_record, Hrec.
  - by rewrite lookup_abs_expiry, Hexp.
Qed.

(** A key that is not a record differs from every record. *)
Lemma record_of_None_ne key k : record_of key = None → key ≠ expiry_key k.
Proof. intros Hk ->. by rewrite record_of_expiry_key in Hk. Qed.

(** ** Steps that touch one entry *)

(** The worlds that differ at [key] and at its record only. *)
Definition touches key w w' : Prop :=
  ∀ k, k ≠ key → k ≠ expiry_key key →
       st_model (storage w') !! k = st_model (storage w) !! k.

Lemma touches_setItem key value expiration w :
  touches key w (exec (setItem key value expiration) w).
Proof.
  intros k Hk Hr. rewrite model_setItem. cbn.
  destruct (truthy expiration); by rewrite ?lookup_insert_ne.
Qed.

Lemma touches_updateExpiration key expiration w :
  touches key w (exec (updateExpiration key expiration) w).
Proof. intros k Hk Hr. by rewrite model_updateExpiration, lookup_insert_ne. Qed.

Lemma touches_removeItem key w : touches key w (exec (removeItem key) w).
Proof. intros k Hk Hr. by rewrite model_removeItem, !lookup_delete_ne. Qed.

(** Such a step changes the abstract store at [key] only, and keeps the
    store well formed. *)
Lemma abs_touches w w' key :
  record_of key = None → touches key w w' →
  abs w' =
  mkSpec
    (partial_alter (λ _, st_model (storage w') !! key) key
       (spec_values (abs w)))
    (partial_alter (λ _, expiry key w') key (spec_expiries (abs w))).
Proof.
  intros Hkey Ht. apply abs_ext; cbn [spec_values spec_expiries].
  - intros k. rewrite lookup_partial_alter_ne by by apply record_of_None_ne.
    apply lookup_abs_value_record.
  - intros k Hk. destruct (decide (key = k)) as [<-|Hne].
    { by rewrite lookup_partial_alter_eq. }
    rewrite lookup_partial_alter_ne, lookup_abs_value by done.
    symmetry. apply Ht; [by apply not_eq_sym|by apply record_of_None_ne].
  - intros k. destruct (decide (key = k)) as [<-|Hne].
    { by rewrite lookup_partial_alter_eq. }
    rewrite lookup_partial_alter_ne, lookup_abs_expiry by done.
    apply expiry_ext. symmetry.
    apply Ht; [by apply not_eq_sym, record_of_None_ne|].
    by intros ?%(inj expiry_key).
Qed.

Lemma inv_touches w w' key :
  record_of key = None → touches key w w' → inv w → inv w'.
Proof.
  intros Hkey Ht Hinv k Hrec.
  destruct (decide (k = key)) as [->|Hne]; [done|].
  apply Hinv. rewrite <- Ht; [done| |by intros ?%(inj expiry_key)].
  by apply not_eq_sym, record_of_None_ne.
Qed.
End abs.

(** * Each method implements its specification *)

(** The argument [setItem] is given for a time to live, or for none. *)
Definition expiration_of (ttl : option Z) : JSValue :=
  from_option (λ d, JNumber (Num d)) JUndefined ttl.

(** The time to live is acceptable at instant [t]: it is not 0, and does
    not land the expiry instant on 0. *)
Definition ttl_ok (ttl : option Z) (t : Z) : Prop :=
  ∀ d, ttl = Some d → d ≠ 0 ∧ t + d ≠ 0.

#[export] Instance ttl_ok_dec ttl t : Decision (ttl_ok ttl t).
Proof.
  destruct ttl as [d|]; [|left; by intros ? ?].
  destruct (decide (d ≠ 0 ∧ t + d ≠ 0)) as [Hd|Hd]; [left|right].
  - by intros ? [= <-].
  - intros Hok. by apply Hd, Hok.
Defined.

Section refinement.
Context {St : Type} `{StorageLaws St}.
Implicit Types (w : World St) (key k : string) (value v : JSValue).
Implicit Types (ttl : option Z) (d : Z).

Lemma expiry_setItem key value ttl w :
  ttl_ok ttl (now w) →
  expiry key (exec (setItem key value (expiration_of ttl)) w) =
  match ttl with
  | Some d => Some (now w + d)
  | None => expiry key w
  end.
Proof.
  intros Httl. destruct ttl as [d|]; cbn.
  - destruct (Httl d eq_refl). by rewrite expiry_setItem_Num, decide_False.
  - by apply expiry_ext, lookup_setItem_no_ttl.
Qed.

Lemma expiry_updateExpiration key d w :
  now w + d ≠ 0 →
  expiry key (exec (updateExpiration key (Num d)) w) = Some (now w + d).
Proof.
  intros Hd. rewrite (expiry_written_Num key (now w) d), decide_False; [done..|].
  apply lookup_updateExpiration.
Qed.

(** [setItem] implements [spec_setItem] and keeps the store well
    formed. *)
Lemma refines_setItem key value ttl w :
  inv w → record_of key = None → ttl_ok ttl (now w) →
  let w' := exec (setItem key value (expiration_of ttl)) w in
  abs w' = spec_setItem key (st_stored St value) ttl (now w) (abs w) ∧
  inv w'.
Proof.
  intros Hinv Hkey Httl w'.
  pose proof (touches_setItem key value (expiration_of ttl) w) as Ht.
  split; [|by apply (inv_touches w w' key)].
  rewrite (abs_touches w w' key) by done. unfold w', spec_setItem.
  rewrite lookup_setItem_value, expiry_setItem by done. f_equal.
  destruct ttl; [done|]. rewrite <- lookup_abs_expiry.
  apply partial_alter_self.
Qed.

(** [updateExpiration] implements [spec_updateExpiration], on a key
    that holds a value and on one that does not. *)
Lemma refines_updateExpiration key d w :
  inv w → record_of key = None → now w + d ≠ 0 →
  let w' := exec (updateExpiration key (Num d)) w in
  abs w' = spec_updateExpiration key d (now w) (abs w) ∧ inv w'.
Proof.
  intros Hinv Hkey Hd w'.
  pose proof (touches_updateExpiration key (Num d) w) as Ht.
  split; [|by apply (inv_touches w w' key)].
  rewrite (abs_touches w w' key) by done. unfold w', spec_updateExpiration.
  rewrite expiry_updateExpiration by done. f_equal.
  rewrite model_updateExpiration,
    lookup_insert_ne by by apply not_eq_sym, record_of_None_ne.
  rewrite <- (lookup_abs_value w key) by done. apply partial_alter_self.
Qed.

(** [removeItem] implements [spec_removeItem]. *)
Lemma refines_removeItem key w :
  inv w → record_of key = None →
  let w' := exec (removeItem key) w in
  abs w' = spec_removeItem key (abs w) ∧ inv w'.
Proof.
  intros Hinv Hkey w'. pose proof (touches_removeItem key w) as Ht.
  split; [|by apply (inv_touches w w' key)].
  rewrite (abs_touches w w' key) by done. unfold w'.
  by rewrite lookup_removeItem_value,
    (expiry_absent _ _ (lookup_removeItem_record key w)).
Qed.

(** [getTimeLeft], [isExpired] and [peek] read the abstract store. *)
Lemma refines_getTimeLeft key w :
  getTimeLeft key w = (Num <$> spec_getTimeLeft key (now w) (abs w), w) ∧
  isExpired key w = (spec_isExpired key (now w) (abs w), w).
Proof.
  rewrite getTimeLeft_run, isExpired_run.
  unfold spec_getTimeLeft, spec_isExpired.
  rewrite spec_expired_abs, lookup_abs_expiry. by destruct (expiry key w).
Qed.

Lemma refines_peek key w :
  record_of key = None → st_absent St = JNull →
  peek key w = (spec_peek key (now w) (abs w), w).
Proof.
  intros Hkey Habs. rewrite peek_run.
  unfold spec_peek, spec_getTimeLeft, spec_isExpired.
  rewrite spec_expired_abs, lookup_abs_expiry, lookup_abs_value by done.
  rewrite st_getItem_model, Habs. by destruct (expiry key w).
Qed.

(** [getItem] implements [spec_getItem], over a store that answers
    [null] for a key it does not hold. *)
Lemma refines_getItem key w :
  inv w → record_of key = None → st_absent St = JNull →
  let w' := exec (getItem key) w in
  eval (getItem key) w = default JNull (spec_getItem key (now w) (abs w)).1 ∧
  abs w' = (spec_getItem key (now w) (abs w)).2 ∧ inv w'.
Proof.
  intros Hinv Hkey Habs w'. unfold w', eval, exec, spec_getItem.
  rewrite getItem_run, spec_expired_abs.
  destruct (expired key w); cbn [fst snd].
  - split; [done|]. by apply refines_removeItem.
  - by rewrite lookup_abs_value, st_getItem_model, Habs.
Qed.

(** [clear] implements [spec_clear]. *)
Lemma refines_clear w :
  let w' := exec clear w in abs w' = spec_clear (abs w) ∧ inv w'.
Proof.
  assert (st_model (storage (exec clear w)) = ∅) as Hm.
  { apply st_clear_model. }
  split.
  - change (spec_clear (abs w)) with (mkSpec ∅ ∅).
    apply abs_ext; intros key; cbn [spec_values spec_expiries];
      rewrite ?Hm, lookup_empty; [done..|].
    symmetry. apply expiry_absent. by rewrite Hm.
  - intros key. rewrite Hm, lookup_empty. by intros [].
Qed.
End refinement.

(** ** The sweep *)

Section sweep_refinement.
Context {St : Type} `{StorageLaws St}.
Context (w : World St) (l : list string).
Hypothesis Hl : enumerates l (st_model (storage w)).
Hypothesis Hinv : inv w.
Implicit Types (key k : string).

(** An expired key has an expiry record. *)
Lemma expired_record key :
  expired key w = true → is_Some (st_model (storage w) !! expiry_key key).
Proof.
  intros He. apply not_eq_None_Some. intros Hn. unfold expired in He.
  by rewrite (expiry_absent _ _ Hn) in He.
Qed.

Lemma inv_flat : flat l.
Proof.
  apply Forall_forall. intros sk Hsk.
  destruct (record_of sk) as [k|] eqn:Hk; [cbn|done].
  apply record_of_Some in Hk as ->. by apply Hinv, Hl.
Qed.

(** The sweep returns the keys that are expired. *)
Lemma elem_of_sweep key : key ∈ (sweep l w).1 ↔ expired key w = true.
Proof.
  destruct Hl as [Hnd Hdom].
  rewrite (sweep_exact l w w Hnd); [|intros k; apply flat_record_of, inv_flat|done].
  rewrite list_elem_of_filter, list_elem_of_omap. split; [by intros [? _]|].
  intros He. split; [done|]. exists (expiry_key key).
  split; [by apply Hdom, expired_record|apply record_of_expiry_key].
Qed.

(** What the sweep deletes: the expired keys and their records. *)
Lemma elem_of_removed_sweep k :
  k ∈ removed (sweep l w).1 ↔
  expired k w = true ∨ ∃ key, k = expiry_key key ∧ expired key w = true.
Proof.
  rewrite elem_of_removed, elem_of_sweep.
  by setoid_rewrite elem_of_sweep; naive_solver.
Qed.

Lemma lookup_sweep k :
  st_model (storage (sweep l w).2) !! k =
  if decide (k ∈ removed (sweep l w).1) then None
  else st_model (storage w) !! k.
Proof.
  rewrite sweep_model. case_decide.
  - by apply lookup_foldr_delete.
  - by apply lookup_foldr_delete_not_elem_of.
Qed.

(** An expired key is not a record: it has one. *)
Lemma expired_flat key : expired key w = true → record_of key = None.
Proof. intros He. by apply Hinv, expired_record. Qed.

Lemma lookup_sweep_key key :
  record_of key = None →
  st_model (storage (sweep l w).2) !! key =
  if expired key w then None else st_model (storage w) !! key.
Proof.
  intros Hkey. rewrite lookup_sweep.
  destruct (expired key w) eqn:He.
  - rewrite decide_True; [done|]. apply elem_of_removed_sweep. by left.
  - rewrite decide_False; [done|]. rewrite elem_of_removed_sweep.
    intros [?|(k & -> & _)]; [congruence|].
    by rewrite record_of_expiry_key in Hkey.
Qed.

Lemma lookup_sweep_record key :
  st_model (storage (sweep l w).2) !! expiry_key key =
  if expired key w then None else st_model (storage w) !! expiry_key key.
Proof.
  rewrite lookup_sweep. destruct (expired key w) eqn:He.
  - rewrite decide_True; [done|]. apply elem_of_removed_sweep. eauto.
  - rewrite decide_False; [done|]. rewrite elem_of_removed_sweep.
    intros [Hr|(k & ->%(inj expiry_key) & Hk)]; [|by rewrite Hk in He].
    apply expired_flat in Hr. by rewrite record_of_expiry_key in Hr.
Qed.

Lemma expiry_sweep key :
  expiry key (sweep l w).2 = if expired key w then None else expiry key w.
Proof.
  destruct (expired key w) eqn:He.
  - apply expiry_absent. by rewrite lookup_sweep_record, He.
  - apply expiry_ext. by rewrite lookup_sweep_record, He.
Qed.

(** [clearExpired] implements [spec_clearExpired]: it returns the keys
    that are expired, and leaves the others. *)
Lemma refines_sweep :
  abs (sweep l w).2 = spec_clearExpired (now w) (abs w) ∧
  inv (sweep l w).2 ∧
  ∀ key, key ∈ (sweep l w).1 ↔ spec_expired key (now w) (abs w) = true.
Proof.
  split_and!.
  - apply abs_ext; intros key.
    + rewrite lookup_spec_clearExpired_value, lookup_abs_value_record.
      by destruct (spec_expired _ _ _).
    + intros Hkey.
      by rewrite lookup_spec_clearExpired_value, spec_expired_abs,
        lookup_abs_value, lookup_sweep_key.
    + by rewrite lookup_spec_clearExpired_expiry, spec_expired_abs,
        lookup_abs_expiry, expiry_sweep.
  - intros key. rewrite lookup_sweep_record.
    destruct (expired key w); [by intros []|apply Hinv].
  - intros key. by rewrite elem_of_sweep, spec_expired_abs.
Qed.

(** [keys] lists the keys that hold a value, without the expired ones
    unless asked for them. *)
Lemma refines_keys includeExpired key :
  key ∈ filter (listed includeExpired w) l ↔
  spec_listed includeExpired key (now w) (abs w).
Proof.
  destruct Hl as [_ Hdom].
  rewrite list_elem_of_filter, Hdom. unfold listed, spec_listed.
  rewrite <- record_of_None, spec_expired_abs.
  destruct (record_of_cases key) as [Hkey|[k ->]].
  - rewrite lookup_abs_value by done. destruct includeExpired; naive_solver.
  - rewrite lookup_abs_value_record, record_of_expiry_key.
    split; [by intros [[] _]|by intros [[] _]].
Qed.
End sweep_refinement.
