(* ===== verification/Machine.v ===== *)
(** * Machine: sequences of calls

    The class as a state machine: a [Call] is a call of one method, or time
    passing; [call] runs it on the world and gives its [Result]; [trace]
    runs a sequence of calls.  The abstract machine runs the
    specifications of [Spec] on the abstract store and a clock; a trace
    of it is accepted, [spec_steps], when every result is the one the
    specification allows in the abstract state in which the call is made.
    The theorem [trace_refinement] is that every trace of the class is a
    trace of the abstract machine, and that the backing store stays well
    formed, for calls whose keys do not start with the prefix and whose
    times to live are covered at the instant of the call
    ([calls_ok_at]): any number but 0, negative ones included, that
    does not land the expiry on the instant 0.  Positive times to live
    are covered at every instant ([call_ok], [calls_ok_at_Forall]), and
    the files that build on this one ask for them.  The calls are those
    of every method of the class but the two of JSON:
    [updateExpiration] is among them, on keys that hold a value and on
    keys that do not. *)

From Stdlib Require Import FunInd.
From S2P Require Import Prelude Js Dict Storage ExpiredStorage.
From S2P Require Import TestStorage WebStorage TestSuite Expiry Sweep Spec.

(** * Calls and results *)

Inductive Call : Type :=
  | CSetItem (key : string) (value : JSValue) (ttl : option Z)
  | CGetItem (key : string)
  | CGetTimeLeft (key : string)
  | CIsExpired (key : string)
  | CRemoveItem (key : string)
  | CKeys (includeExpired : bool)
  | CClear
  | CClearExpired
  | CTick (ms : Z)
  | CUpdateExpiration (key : string) (d : Z)
  | CPeek (key : string).

Inductive Result : Type :=
  | RValue (v : JSValue)
  | RTimeLeft (t : option JSNumber)
  | RBool (b : bool)
  | RKeys (l : list string)
  | RUnit
  | RPeek (p : PeekResult).

#[export] Instance Call_eq_dec : EqDecision Call.
Proof. solve_decision. Defined.

#[export] Instance Result_eq_dec : EqDecision Result.
Proof. solve_decision. Defined.

(** The calls the specification covers: keys that do not start with the
    prefix, times to live that are positive, time that does not go
    back. *)
Definition call_ok (c : Call) : Prop :=
  match c with
  | CSetItem key _ ttl => record_of key = None ∧ from_option (λ d, 0 < d) True ttl
  | CUpdateExpiration key d => record_of key = None ∧ 0 < d
  | CGetItem key | CGetTimeLeft key | CIsExpired key | CRemoveItem key
  | CPeek key =>
      record_of key = None
  | CTick ms => 0 ≤ ms
  | CKeys _ | CClear | CClearExpired => True
  end.

#[export] Instance call_ok_dec c : Decision (call_ok c).
Proof. destruct c as [? ? [?|]| | | | | | | | | |]; cbn; apply _. Defined.

(** The calls the specification covers at the instant [t], in seconds.
    A time to live may be negative.  It may not be 0 in [setItem], which
    takes 0 for no time to live, and may not land the expiry on the
    instant 0, which [getTimeLeft] takes for no expiry. *)
Definition call_ok_at (t : Z) (c : Call) : Prop :=
  match c with
  | CSetItem key _ ttl => record_of key = None ∧ ttl_ok ttl t
  | CUpdateExpiration key d => record_of key = None ∧ t + d ≠ 0
  | _ => call_ok c
  end.

#[export] Instance call_ok_at_dec t c : Decision (call_ok_at t c).
Proof. destruct c; cbn; apply _. Defined.

(** The clock after a call, in milliseconds, and the sequences of calls
    the specification covers from the date [date]: each call is covered
    at the instant at which it is made. *)
Definition date_after (c : Call) (date : Z) : Z :=
  match c with CTick ms => date + ms | _ => date end.

Fixpoint calls_ok_at (date : Z) (cs : list Call) : Prop :=
  match cs with
  | [] => True
  | c :: cs =>
      call_ok_at (date `div` 1000) c ∧ calls_ok_at (date_after c date) cs
  end.

#[export] Instance calls_ok_at_dec date cs : Decision (calls_ok_at date cs).
Proof. revert date. induction cs; intros; cbn; apply _. Defined.

(** ** The abstract machine *)

Record AWorld : Type := mkAWorld {
  a_date : Z;
  a_entries : Spec;
}.

Definition a_now (a : AWorld) : Z := a_date a `div` 1000.

Section machine.
Context {St : Type} `{StorageLaws St}.
Implicit Types (w : World St) (c : Call) (r : Result) (a : AWorld).

(** ** The class as a machine *)

Definition call c : State (World St) Result :=
  match c with
  | CSetItem key value ttl =>
      ret ← setItem key value (expiration_of ttl); mret (RValue ret)
  | CGetItem key => ret ← getItem key; mret (RValue ret)
  | CGetTimeLeft key => ret ← getTimeLeft key; mret (RTimeLeft ret)
  | CIsExpired key => ret ← isExpired key; mret (RBool ret)
  | CRemoveItem key => ret ← removeItem key; mret (RValue ret)
  | CKeys includeExpired => ret ← keys includeExpired; mret (RKeys ret)
  | CClear => clear;; mret RUnit
  | CClearExpired => ret ← clearExpired; mret (RKeys ret)
  | CTick ms => modify (advance ms);; mret RUnit
  | CUpdateExpiration key d =>
      ret ← updateExpiration key (Num d); mret (RValue ret)
  | CPeek key => ret ← peek key; mret (RPeek ret)
  end.

Fixpoint trace (cs : list Call) : State (World St) (list (Call * Result)) :=
  match cs with
  | [] => mret []
  | c :: cs => r ← call c; tr ← trace cs; mret ((c, r) :: tr)
  end.

(** ** The specification as a machine *)

Definition spec_step c a : AWorld :=
  match c with
  | CSetItem key value ttl =>
      mkAWorld (a_date a)
        (spec_setItem key (st_stored St value) ttl (a_now a) (a_entries a))
  | CGetItem key =>
      mkAWorld (a_date a) (spec_getItem key (a_now a) (a_entries a)).2
  | CRemoveItem key => mkAWorld (a_date a) (spec_removeItem key (a_entries a))
  | CClear => mkAWorld (a_date a) (spec_clear (a_entries a))
  | CClearExpired =>
      mkAWorld (a_date a) (spec_clearExpired (a_now a) (a_entries a))
  | CTick ms => mkAWorld (a_date a + ms) (a_entries a)
  | CUpdateExpiration key d =>
      mkAWorld (a_date a)
        (spec_updateExpiration key d (a_now a) (a_entries a))
  | CGetTimeLeft _ | CIsExpired _ | CKeys _ | CPeek _ => a
  end.

(** The results the specification allows.  It does not say what
    [setItem], [updateExpiration] and [removeItem] return (the class
    returns what the store does), nor in which order keys are listed. *)
Definition spec_result c a r : Prop :=
  match c, r with
  | CGetItem key, RValue v =>
      v = default JNull (spec_getItem key (a_now a) (a_entries a)).1
  | CGetTimeLeft key, RTimeLeft t =>
      t = Num <$> spec_getTimeLeft key (a_now a) (a_entries a)
  | CIsExpired key, RBool b =>
      b = spec_isExpired key (a_now a) (a_entries a)
  | CPeek key, RPeek p => p = spec_peek key (a_now a) (a_entries a)
  | CKeys includeExpired, RKeys l =>
      ∀ key, key ∈ l ↔ spec_listed includeExpired key (a_now a) (a_entries a)
  | CClearExpired, RKeys l =>
      ∀ key, key ∈ l ↔ spec_expired key (a_now a) (a_entries a) = true
  | CSetItem _ _ _, RValue _ | CRemoveItem _, RValue _
  | CUpdateExpiration _ _, RValue _ => True
  | CClear, RUnit | CTick _, RUnit => True
  | _, _ => False
  end.

(** The traces of the abstract machine. *)
Inductive spec_steps : AWorld → list (Call * Result) → AWorld → Prop :=
  | spec_steps_nil a : spec_steps a [] a
  | spec_steps_cons a c r tr a' :
      spec_result c a r → spec_steps (spec_step c a) tr a' →
      spec_steps a ((c, r) :: tr) a'.

(** ** The relation between the two *)

Definition abs_world w : AWorld := mkAWorld (date w) (abs w).

(** The worlds the class runs in: the store is well formed, for the
    store and for the class, and the clock is past the epoch. *)
Definition good w : Prop := st_wf (storage w) ∧ inv w ∧ 0 ≤ date w.
End machine.

Arguments spec_step St {_ _} c a.
Arguments spec_steps St {_ _} a tr a'.

(** The abstract world after a sequence of calls. *)
Definition spec_run St `{StorageLaws St} (cs : list Call) (a : AWorld)
    : AWorld :=
  foldl (λ a c, spec_step St c a) a cs.

(** A store whose keys the class can list: what [_iterKeys] walks, an
    array or the properties of the storage object, lists the keys of
    the store; and which answers [null] for a key it does not hold. *)
Class ListableStorage (St : Type) `{StorageLaws St} : Prop := {
  st_snapshot_enumerates (w : World St) :
    st_wf (storage w) →
    ∃ l, iterated w l ∧ enumerates l (st_model (storage w));
  st_absent_null : st_absent St = JNull;
}.

#[global] Hint Mode ListableStorage ! - - : typeclass_instances.

#[export] Instance testStorage_listable : ListableStorage JSObject.
Proof.
  split; [|done]. intros w Hwf. exists (testStorage_keys (storage w)).
  split; [by left|]. by apply testStorage_enumerates.
Qed.

#[export] Instance localStorage_listable : ListableStorage WebStore.
Proof.
  split; [|done]. intros w Hwf. exists (localStorage_object_keys (storage w)).
  split; [left|by apply localStorage_enumerates].
  unfold key_snapshot. cbn. destruct (has_Object_keys w); [done|].
  by rewrite localStorage_key_seq.
Qed.

(** The store whose entries are its own properties: [Object.keys] lists
    them, and where there is no [Object.keys] the loop over the
    properties of the object finds them, each of them being in the
    object. *)
#[export] Instance ownStorage_listable : ListableStorage OwnStore.
Proof.
  split; [|done]. intros w Hwf. exists (own_properties (storage w)).*1.
  split; [|rewrite <- testStorage_keys_eq; by apply testStorage_enumerates].
  destruct (has_Object_keys w) eqn:Hkeys.
  - left. unfold key_snapshot. cbn. by rewrite Hkeys.
  - right. rewrite ownStorage_for_in_names.
    split_and!; [|done|apply ownStorage_in_reflects|done].
    unfold key_snapshot. cbn. by rewrite Hkeys.
Qed.

(** * The methods keep the clock and the representation *)

Section keeps.
Context {St : Type} `{StorageLaws St}.
Implicit Types (w : World St) (key : string) (value expiration : JSValue).

(** A method [keeps] the world when it leaves the clock alone and the
    store well formed. *)
Definition keeps {A} (m : State (World St) A) : Prop :=
  ∀ w, date (exec m w) = date w ∧
       (st_wf (storage w) → st_wf (storage (exec m w))).

Lemma keeps_updateExpiration key expiration :
  keeps (updateExpiration key expiration).
Proof.
  intros w. unfold exec. rewrite updateExpiration_run, on_storage_run.
  split; [done|]. apply st_setItem_wf.
Qed.

Lemma keeps_setItem key value expiration :
  keeps (setItem key value expiration).
Proof.
  intros w. unfold exec. rewrite setItem_run. cbn.
  destruct (truthy expiration); [|by split; [|apply st_setItem_wf]].
  destruct (keeps_updateExpiration key expiration
    (set_storage (st_setItem key value (storage w)).2 w)) as [-> Hwf].
  split; [done|]. intros Hw. by apply Hwf, st_setItem_wf.
Qed.

Lemma keeps_removeItem key : keeps (removeItem key).
Proof.
  intros w. unfold exec. rewrite removeItem_run. split; [done|].
  intros Hw. by do 2 apply st_removeItem_wf.
Qed.

Lemma keeps_getItem key : keeps (getItem key).
Proof.
  intros w. unfold exec. rewrite getItem_run.
  destruct (expired key w); [apply keeps_removeItem|done].
Qed.

Lemma keeps_clear : keeps (clear (St := St)).
Proof. intros w. split; [done|]. intros _. apply st_clear_wf. Qed.

Lemma keeps_sweep l w :
  date (sweep l w).2 = date w ∧
  (st_wf (storage w) → st_wf (storage (sweep l w).2)).
Proof.
  sweep_induction l w; [done| |done..].
  destruct (keeps_removeItem k w) as [Hd Hwf], IHp as [-> IHwf]. auto.
Qed.

(** What follows from [keeps] and the refinement of one method. *)
Lemma keeps_good {A} (m : State (World St) A) w :
  keeps m → good w → inv (exec m w) → good (exec m w).
Proof.
  intros Hm (Hwf & _ & Hd) Hinv. destruct (Hm w) as [Hdate Hwf'].
  split_and!; [by apply Hwf'|done|by rewrite Hdate].
Qed.

Lemma keeps_abs_world {A} (m : State (World St) A) w (entries : Spec) :
  keeps m → abs (exec m w) = entries →
  abs_world (exec m w) = mkAWorld (date w) entries.
Proof.
  intros Hm <-. unfold abs_world. by destruct (Hm w) as [-> _].
Qed.
End keeps.

(** * Every call implements its specification *)

Section refinement.
Context {St : Type} `{ListableStorage St}.
Implicit Types (w : World St) (c : Call) (key : string).

(** What a call does to the world. *)
Definition refines c w : Prop :=
  spec_result c (abs_world w) (eval (call c) w) ∧
  abs_world (exec (call c) w) = spec_step St c (abs_world w) ∧
  good (exec (call c) w).

Lemma run_call {A} (m : State (World St) A) (f : A → Result) w :
  (ret ← m; mret (f ret)) w = (f (eval m w), exec m w).
Proof. by rewrite run_bind, (run_eval_exec m). Qed.

Lemma good_ttl_ok w ttl :
  good w → from_option (λ d, 0 < d) True ttl → ttl_ok ttl (now w).
Proof.
  intros (_ & _ & Hd) Httl d ->. cbn in Httl.
  assert (0 ≤ now w) by (apply Z.div_pos; lia). lia.
Qed.

Lemma refines_CSetItem key value ttl w :
  good w → call_ok_at (now w) (CSetItem key value ttl) →
  refines (CSetItem key value ttl) w.
Proof.
  intros Hgood [Hkey Httl]. unfold refines, eval, exec. cbn [call].
  rewrite run_call. cbn [fst snd].
  destruct (refines_setItem key value ttl w) as [Habs Hinv];
    [apply Hgood|done..|].
  split_and!; [done| |].
  - by apply keeps_abs_world; [apply keeps_setItem|].
  - by apply keeps_good; [apply keeps_setItem|..].
Qed.

Lemma refines_CGetItem key w :
  good w → call_ok (CGetItem key) → refines (CGetItem key) w.
Proof.
  intros Hgood Hkey. unfold refines, eval, exec. cbn [call].
  rewrite run_call. cbn [fst snd].
  destruct (refines_getItem key w) as (Hret & Habs & Hinv);
    [apply Hgood|done|apply st_absent_null|].
  split_and!; [done| |].
  - by apply keeps_abs_world; [apply keeps_getItem|].
  - by apply keeps_good; [apply keeps_getItem|..].
Qed.

Lemma refines_CRemoveItem key w :
  good w → call_ok (CRemoveItem key) → refines (CRemoveItem key) w.
Proof.
  intros Hgood Hkey. unfold refines, eval, exec. cbn [call].
  rewrite run_call. cbn [fst snd].
  destruct (refines_removeItem key w) as [Habs Hinv]; [apply Hgood|done|].
  split_and!; [done| |].
  - by apply keeps_abs_world; [apply keeps_removeItem|].
  - by apply keeps_good; [apply keeps_removeItem|..].
Qed.

Lemma refines_CUpdateExpiration key d w :
  good w → call_ok_at (now w) (CUpdateExpiration key d) →
  refines (CUpdateExpiration key d) w.
Proof.
  intros Hgood [Hkey Hd]. unfold refines, eval, exec. cbn [call].
  rewrite run_call. cbn [fst snd].
  destruct (refines_updateExpiration key d w) as [Habs Hinv];
    [apply Hgood|done..|].
  split_and!; [done| |].
  - by apply keeps_abs_world; [apply keeps_updateExpiration|].
  - by apply keeps_good; [apply keeps_updateExpiration|..].
Qed.

Lemma refines_read key w :
  good w → record_of key = None →
  refines (CGetTimeLeft key) w ∧ refines (CIsExpired key) w ∧
  refines (CPeek key) w.
Proof.
  intros Hgood Hkey. unfold refines, eval, exec. cbn [call].
  rewrite !run_call. unfold eval, exec.
  destruct (refines_getTimeLeft key w) as [-> ->].
  rewrite (refines_peek key w Hkey st_absent_null). by split_and!.
Qed.

Lemma refines_CKeys includeExpired w :
  good w → refines (CKeys includeExpired) w.
Proof.
  intros Hgood. unfold refines, eval, exec. cbn [call].
  rewrite run_call. unfold eval, exec.
  destruct (st_snapshot_enumerates w) as (l & Hl & Henum); [apply Hgood|].
  rewrite (keys_iterated _ _ _ Hl). split_and!; [|done..].
  exact (refines_keys w l Henum includeExpired).
Qed.

Lemma refines_CClear w : good w → refines CClear w.
Proof.
  intros Hgood. unfold refines, eval, exec. cbn [call].
  rewrite run_bind, run_ret. cbn [fst snd]. fold (exec clear w).
  destruct (refines_clear w) as [Habs Hinv]. split_and!; [done| |].
  - by apply keeps_abs_world; [apply keeps_clear|].
  - by apply keeps_good; [apply keeps_clear|..].
Qed.

Lemma refines_CClearExpired w : good w → refines CClearExpired w.
Proof.
  intros Hgood. unfold refines, eval, exec. cbn [call].
  rewrite run_call. unfold eval, exec.
  destruct (st_snapshot_enumerates w) as (l & Hl & Henum); [apply Hgood|].
  rewrite (clearExpired_iterated _ _ Hl). cbn [fst snd].
  destruct (refines_sweep w l Henum) as (Habs & Hinv & Hret); [apply Hgood|].
  destruct (keeps_sweep l w) as [Hdate Hwf].
  split_and!; [done| |].
  - unfold abs_world. by rewrite Hdate, Habs.
  - split_and!; [apply Hwf, Hgood|done|rewrite Hdate; apply Hgood].
Qed.

Lemma refines_CTick ms w : good w → 0 ≤ ms → refines (CTick ms) w.
Proof.
  intros (Hwf & Hinv & Hd) Hms. unfold refines, eval, exec. cbn [call].
  rewrite run_bind, run_ret. cbn. split_and!; [done..|].
  split_and!; [done..|cbn; lia].
Qed.

(** Every call that the specification covers, made in a good world,
    returns a result that its specification allows, takes the abstract
    store where the specification says, and leaves the world good. *)
Lemma call_refines_at c w : good w → call_ok_at (now w) c → refines c w.
Proof.
  intros Hgood Hc. destruct c.
  - by apply refines_CSetItem.
  - by apply refines_CGetItem.
  - by apply refines_read.
  - by apply refines_read.
  - by apply refines_CRemoveItem.
  - by apply refines_CKeys.
  - by apply refines_CClear.
  - by apply refines_CClearExpired.
  - by apply refines_CTick.
  - by apply refines_CUpdateExpiration.
  - by apply refines_read.
Qed.

(** Past the epoch, a positive time to live is covered at any instant. *)
Lemma call_ok_at_ok c date : 0 ≤ date → call_ok c → call_ok_at (date `div` 1000) c.
Proof.
  intros Hd Hc. assert (0 ≤ date `div` 1000) by (apply Z.div_pos; lia).
  destruct c as [? ? [d|]| | | | | | | | | |]; cbn in *;
    try done; (split; [apply Hc|]); [intros ? [= <-]|intros ? [=]|]; lia.
Qed.

Lemma calls_ok_at_Forall cs date :
  0 ≤ date → Forall call_ok cs → calls_ok_at date cs.
Proof.
  intros Hd Hcs. revert date Hd.
  induction Hcs as [|c cs Hc _ IH]; intros date Hd; [done|].
  split; [by apply call_ok_at_ok|]. apply IH. destruct c; cbn in *; lia.
Qed.

Lemma call_refines c w : good w → call_ok c → refines c w.
Proof.
  intros Hgood Hc. apply call_refines_at; [done|].
  by apply call_ok_at_ok; [apply Hgood|].
Qed.

(** The clock after a call of the class. *)
Lemma date_call c w : refines c w → date (exec (call c) w) = date_after c (date w).
Proof. intros (_ & Ha%(f_equal a_date) & _). by destruct c. Qed.

(** ** Sequences of calls *)

Lemma trace_cons c cs w :
  trace (c :: cs) w =
  ((c, eval (call c) w) :: eval (trace cs) (exec (call c) w),
   exec (trace cs) (exec (call c) w)).
Proof.
  cbn [trace]. rewrite run_bind, (run_eval_exec (call c)). cbn [fst snd].
  by rewrite run_bind, (run_eval_exec (trace cs)).
Qed.

Lemma trace_refines_at cs w :
  good w → calls_ok_at (date w) cs →
  spec_steps St (abs_world w) (eval (trace cs) w) (spec_run St cs (abs_world w)) ∧
  abs_world (exec (trace cs) w) = spec_run St cs (abs_world w) ∧
  good (exec (trace cs) w).
Proof.
  revert w. induction cs as [|c cs IH]; intros w Hgood Hcs.
  { split_and!; [constructor|done..]. }
  destruct Hcs as [Hc Hcs].
  pose proof (call_refines_at c w Hgood Hc) as Hcall.
  rewrite <- (date_call c w Hcall) in Hcs. destruct Hcall as (Hr & Ha & Hg).
  destruct (IH _ Hg Hcs) as (Hsteps & Habs & Hgood').
  unfold eval, exec. rewrite trace_cons. cbn [fst snd spec_run foldl].
  rewrite <- Ha. split_and!; [|done..]. constructor; [done|].
  by rewrite Ha, <- Ha.
Qed.

Lemma trace_refines cs w :
  good w → Forall call_ok cs →
  spec_steps St (abs_world w) (eval (trace cs) w) (spec_run St cs (abs_world w)) ∧
  abs_world (exec (trace cs) w) = spec_run St cs (abs_world w) ∧
  good (exec (trace cs) w).
Proof.
  intros Hgood Hcs. apply trace_refines_at; [done|].
  by apply calls_ok_at_Forall; [apply Hgood|].
Qed.

(** C1. Every trace of the class is a trace of the abstract machine: each
    result is one the specification allows in the abstract state in which
    the call is made.  The times to live may be positive or negative;
    each call is covered at the instant at which it is made. *)
Theorem trace_refinement cs w :
  good w → calls_ok_at (date w) cs →
  spec_steps St (abs_world w) (eval (trace cs) w)
    (abs_world (exec (trace cs) w)).
Proof.
  intros Hgood Hcs. destruct (trace_refines_at cs w Hgood Hcs) as (? & -> & _).
  done.
Qed.

(** C9. The backing store stays well formed through any sequence of calls:
    no key with an expiry record looks like a record itself, the
    representation invariant of the store holds, and the clock stays
    past the epoch. *)
Theorem trace_invariant cs w :
  good w → calls_ok_at (date w) cs → good (exec (trace cs) w).
Proof. intros Hgood Hcs. by apply trace_refines_at. Qed.

(** ** Through the specification

    What holds of the class because it holds of the specification. *)

Lemma spec_keys includeExpired w key :
  good w →
  key ∈ eval (keys includeExpired) w ↔
  spec_listed includeExpired key (now w) (abs w).
Proof.
  intros Hgood. destruct (refines_CKeys includeExpired w Hgood) as [Hr _].
  unfold eval in Hr. cbn [call] in Hr. rewrite run_call in Hr. apply Hr.
Qed.

Lemma spec_clearExpired_world w :
  good w →
  abs (exec clearExpired w) = spec_clearExpired (now w) (abs w) ∧
  now (exec clearExpired w) = now w ∧ good (exec clearExpired w).
Proof.
  intros Hgood. destruct (refines_CClearExpired w Hgood) as (_ & Ha & Hg).
  unfold exec in Ha, Hg. cbn [call] in Ha, Hg. rewrite run_call in Ha, Hg.
  cbn [snd] in Ha, Hg. pose proof (f_equal a_date Ha) as Hdate.
  pose proof (f_equal a_entries Ha) as Habs.
  cbn [abs_world spec_step a_date a_entries] in Hdate, Habs.
  split_and!; [done| |done]. unfold now. by rewrite Hdate.
Qed.

(** C39. After [clearExpired], [keys(true)] and [keys()] list the same keys:
    those [keys()] listed before the sweep. *)
Theorem keys_after_clearExpired includeExpired w key :
  good w →
  key ∈ eval (keys includeExpired) (exec clearExpired w) ↔
  key ∈ eval (keys false) w.
Proof.
  intros Hgood. destruct (spec_clearExpired_world w Hgood) as (Ha & Hn & Hg).
  rewrite !spec_keys, Ha, Hn by done. apply spec_listed_clearExpired.
Qed.

(** C38. A second sweep right after the first returns nothing and changes
    nothing the specification sees. *)
Theorem clearExpired_twice w :
  good w →
  let w' := exec clearExpired w in
  eval clearExpired w' = [] ∧ abs (exec clearExpired w') = abs w'.
Proof.
  intros Hgood w'. destruct (spec_clearExpired_world w Hgood) as (Ha & Hn & Hg).
  destruct (spec_clearExpired_world w' Hg) as (Ha' & _ & _).
  destruct (refines_CClearExpired w' Hg) as (Hr & _).
  unfold eval in Hr. cbn [call] in Hr. rewrite run_call in Hr.
  cbn [fst spec_result abs_world a_entries] in Hr. fold w' in Ha, Hn.
  split.
  - apply elem_of_nil_inv. intros key Hx%Hr.
    change (a_now _) with (now w') in Hx.
    by rewrite Ha, Hn, spec_expired_clearExpired in Hx.
  - by rewrite Ha', Hn, Ha, spec_clearExpired_idemp.
Qed.
End refinement.

(** * Good worlds to start from *)

Section empty.
Context {St : Type} `{StorageLaws St}.
Implicit Types w : World St.

(** A world whose store is empty is good. *)
Lemma good_empty w :
  st_model (storage w) = ∅ → st_wf (storage w) → 0 ≤ date w → good w.
Proof.
  intros Hm Hwf Hd. split_and!; [done| |done].
  intros key. rewrite Hm, lookup_empty. by intros [].
Qed.
End empty.

(** * On the stores of the test suite *)

(** A session: an entry with 10 seconds to live, one without, and an
    expiration of 3 seconds for a key that was never set; 5 seconds
    pass, the first is read and the second given 100 seconds; 6 more
    seconds pass, the first is expired and still in the store, the
    store is swept, which returns the first key and the one that was
    never set, and listed. *)
Definition session : list Call :=
  [CSetItem "a" (JString "x") (Some 10); CSetItem "b" (JString "y") None;
   CUpdateExpiration "c" 3; CTick 5000; CGetItem "a"; CPeek "a";
   CUpdateExpiration "b" 100; CTick 6000; CIsExpired "a"; CPeek "a";
   CPeek "c"; CKeys true; CClearExpired; CGetItem "a"; CKeys false;
   CGetTimeLeft "b"].

(** Times to live that are not positive, 20 seconds after the epoch: set
    with -5 seconds to live, an entry is expired at once; an expiration
    of 0 seconds makes an entry expire now. *)
Definition past_session : list Call :=
  [CTick 20000; CSetItem "a" (JString "x") (Some (-5)); CPeek "a";
   CSetItem "b" (JString "y") None; CUpdateExpiration "b" 0; CIsExpired "b";
   CKeys true; CGetItem "a"; CClearExpired; CKeys true].

(** The calls of the test "Clear expired", up to the sweep. *)
Definition clear_expired_calls : list Call :=
  [CSetItem "test" (JString "foo") (Some 10);
   CSetItem "test2" (JString "bar") (Some 15);
   CSetItem "stay" (JString "woo") (Some 25);
   CSetItem "stay2" (JString "woo2") None; CTick 19000].

Section witnesses.

Lemma good_web_browser : good web_browser.
Proof. apply good_empty; [done|constructor|done]. Qed.

Lemma good_browser : good browser.
Proof. apply good_empty; [done|constructor|done]. Qed.

Lemma session_ok : Forall call_ok session.
Proof. apply (bool_decide_unpack _). by vm_compute. Qed.

(** The store whose entries are its own properties, empty, in a browser
    without [Object.keys]: [_iterKeys] takes its last branch. *)
Definition own_browser : World OwnStore := mkWorld (mkOwnStore []) 0 false.

Lemma good_own_browser : good own_browser.
Proof. apply good_empty; [done|constructor|done]. Qed.

(** Over web storage, and over the store that [_iterKeys] walks by
    [for ... in]. *)
Lemma trace_refinement_witness :
  ((good web_browser ∧ calls_ok_at (date web_browser) past_session) ∧
   spec_steps WebStore (abs_world web_browser)
     (eval (trace past_session) web_browser)
     (abs_world (exec (trace past_session) web_browser))) ∧
  ((good own_browser ∧ calls_ok_at (date own_browser) session) ∧
   spec_steps OwnStore (abs_world own_browser)
     (eval (trace session) own_browser)
     (abs_world (exec (trace session) own_browser))).
Proof.
  assert (calls_ok_at (date web_browser) past_session) as Hpast.
  { apply (bool_decide_unpack _). by vm_compute. }
  assert (calls_ok_at (date own_browser) session) as Hsession.
  { apply (bool_decide_unpack _). by vm_compute. }
  split.
  - split; [split; [apply good_web_browser|done]|].
    apply trace_refinement; [apply good_web_browser|done].
  - split; [split; [apply good_own_browser|done]|].
    apply trace_refinement; [apply good_own_browser|done].
Defined.

(** The session there: the sweep by [for ... in] clears what the array
    loops clear. *)
Example session_for_in :
  key_snapshot own_browser = None ∧
  eval (trace session) own_browser = eval (trace session) browser.
Proof. by vm_compute. Qed.

Lemma trace_invariant_witness :
  (good browser ∧ calls_ok_at (date browser) past_session) ∧
  good (exec (trace past_session) browser).
Proof.
  assert (calls_ok_at (date browser) past_session) as Hpast.
  { apply (bool_decide_unpack _). by vm_compute. }
  split; [split; [apply good_browser|done]|].
  apply trace_invariant; [apply good_browser|done].
Defined.

(** The world in which the test "Clear expired" sweeps is the one these
    calls leave; it is good, as every world that calls lead to. *)
Lemma good_web_before_sweep : good web_before_sweep.
Proof.
  change web_before_sweep
    with (exec (trace clear_expired_calls) web_browser).
  apply trace_refines; [apply good_web_browser|].
  apply (bool_decide_unpack _). by vm_compute.
Qed.

Lemma keys_after_clearExpired_witness :
  good web_before_sweep ∧
  ("stay" ∈ eval (keys true) (exec clearExpired web_before_sweep) ↔
   "stay" ∈ eval (keys false) web_before_sweep).
Proof.
  split; [apply good_web_before_sweep|].
  apply keys_after_clearExpired, good_web_before_sweep.
Defined.

Lemma clearExpired_twice_witness :
  good web_before_sweep ∧
  let w' := exec clearExpired web_before_sweep in
  eval clearExpired w' = [] ∧ abs (exec clearExpired w') = abs w'.
Proof.
  split; [apply good_web_before_sweep|].
  apply clearExpired_twice, good_web_before_sweep.
Defined.

(** The trace of the session. *)
Example session_trace :
  (eval (trace session) web_browser).*2 =
  [RValue JUndefined; RValue JUndefined; RValue JUndefined; RUnit;
   RValue (JString "x"); RPeek (mkPeek (JString "x") (Some (Num 5)) false);
   RValue JUndefined; RUnit; RBool true;
   RPeek (mkPeek (JString "x") (Some (Num (-1))) true);
   RPeek (mkPeek JNull (Some (Num (-8))) true);
   RKeys ["a"; "b"]; RKeys ["a"; "c"]; RValue JNull; RKeys ["b"];
   RTimeLeft (Some (Num 94))].
Proof. by vm_compute. Qed.

(** The trace of the session with times to live in the past: "a" is
    expired as soon as it is set, with -5 seconds left, "b" from the
    call of [updateExpiration] on; both are listed until one is read
    and the other swept. *)
Example past_session_trace :
  (eval (trace past_session) web_browser).*2 =
  [RUnit; RValue JUndefined;
   RPeek (mkPeek (JString "x") (Some (Num (-5))) true);
   RValue JUndefined; RValue JUndefined; RBool true; RKeys ["a"; "b"];
   RValue JNull; RKeys ["b"]; RKeys []] ∧
  ¬ Forall call_ok past_session.
Proof.
  split; [by vm_compute|]. apply (bool_decide_unpack _). by vm_compute.
Qed.
End witnesses.
