(* ===== verification/Guarantees.v ===== *)
(** * Guarantees: what the class promises over time

    The guarantees of the library over a sequence of calls, proved on
    the abstract machine of [Machine] and carried to the class by its
    refinement.  On the abstract store, a key [holds] a value with an
    expiry instant, is [vacant], or holds a value that [lasts]; the
    lemmas [spec_run_keeps], [spec_run_fades] and [spec_run_lasts] say
    what a sequence of calls that does not write the key leaves of each.
    [holds_served] and [lasts_served] carry them to the class, and the
    theorems say what [getItem] returns after [setItem] and after
    [updateExpiration], whatever is called in between: the value until
    its instant ([served_until_expiry], [updateExpiration_served]),
    [null] from then on ([never_served_expired]), the value for ever
    when there is no instant ([served_for_ever]).  The calls in between
    are those [Machine.calls_ok_at] covers, with times to live of any
    sign; all they are asked is that time does not go back
    ([forward]).  The lemmas [holds_served], [lasts_served] and
    [after_setItem] state the same for positive times to live, for the
    files that build on this one.  A time to live [d : Z] is a whole
    number of seconds, as the numbers of [Js] are: the theorems say
    nothing of a time to live with a fraction. *)

From S2P Require Import Prelude Js Dict Storage ExpiredStorage.
From S2P Require Import TestStorage WebStorage TestSuite Expiry Sweep Spec.
From S2P Require Import Machine.

(** * What the specification guarantees over time *)

(** The calls that write or remove the entry of [key], and those that
    write it. *)
Definition writes (key : string) (c : Call) : Prop :=
  match c with
  | CSetItem k _ _ | CRemoveItem k | CUpdateExpiration k _ => k = key
  | CClear => True
  | _ => False
  end.

Definition sets (key : string) (c : Call) : Prop :=
  match c with
  | CSetItem k _ _ | CUpdateExpiration k _ => k = key
  | _ => False
  end.

#[export] Instance writes_dec key c : Decision (writes key c).
Proof. destruct c; cbn; apply _. Defined.

#[export] Instance sets_dec key c : Decision (sets key c).
Proof. destruct c; cbn; apply _. Defined.

(** Time does not go back: what the guarantees ask of the calls in
    between, whatever their times to live. *)
Definition forward (c : Call) : Prop :=
  match c with
  | CTick ms => 0 ≤ ms
  | _ => True
  end.

Lemma calls_ok_at_forward date cs : calls_ok_at date cs → Forall forward cs.
Proof.
  revert date. induction cs as [|c cs IH]; intros date; [done|].
  intros [Hc Hcs]. constructor; [by destruct c|by eapply IH].
Qed.

Section abstract.
Context {St : Type} `{StorageLaws St}.
Implicit Types (a : AWorld) (c : Call) (cs : list Call) (key : string).
Implicit Types (v : JSValue) (t : Z).

(** The key holds the value [v] and expires at [t]; the key holds no
    value. *)
Definition holds key v t a : Prop :=
  spec_values (a_entries a) !! key = Some v ∧
  spec_expiries (a_entries a) !! key = Some t.

Definition vacant key a : Prop := spec_values (a_entries a) !! key = None.

Lemma holds_expired key v t a :
  holds key v t a →
  spec_expired key (a_now a) (a_entries a) = bool_decide (t ≤ a_now a).
Proof. intros [_ Ht]. by apply spec_expired_Some. Qed.

(** What [getItem] answers for a key that holds a value, and for one
    that holds none. *)
Lemma spec_getItem_holds key v t a :
  holds key v t a →
  default JNull (spec_getItem key (a_now a) (a_entries a)).1 =
  if bool_decide (t ≤ a_now a) then JNull else v.
Proof.
  intros Hh. unfold spec_getItem. rewrite (holds_expired key v t a Hh).
  case_bool_decide; [done|]. cbn. by rewrite (proj1 Hh).
Qed.

Lemma spec_getItem_vacant key a :
  vacant key a →
  default JNull (spec_getItem key (a_now a) (a_entries a)).1 = JNull.
Proof.
  intros Hv. unfold spec_getItem. destruct (spec_expired _ _ _); [done|].
  cbn. by rewrite Hv.
Qed.

Lemma spec_step_date c a : forward c → a_date a ≤ a_date (spec_step St c a).
Proof. destruct c; cbn; lia. Qed.

Lemma spec_run_cons c cs a :
  spec_run St (c :: cs) a = spec_run St cs (spec_step St c a).
Proof. done. Qed.

Lemma spec_run_date cs a :
  Forall forward cs → a_date a ≤ a_date (spec_run St cs a).
Proof.
  intros Hcs. revert a. induction Hcs as [|c cs Hc _ IH]; intros a; [done|].
  rewrite spec_run_cons. etrans; [by apply spec_step_date|apply IH].
Qed.

Lemma a_now_mono a a' : a_date a ≤ a_date a' → a_now a ≤ a_now a'.
Proof. intros Hd. apply Z.div_le_mono; [lia|done]. Qed.

(** The entry a call is about. *)
Definition touched c : option string :=
  match c with
  | CSetItem k _ _ | CGetItem k | CRemoveItem k | CUpdateExpiration k _ =>
      Some k
  | _ => None
  end.

(** A call about another entry, other than [clear] and a sweep, leaves
    the entry of [key] as it is. *)
Lemma spec_step_other c a key :
  touched c ≠ Some key → c ≠ CClear → c ≠ CClearExpired →
  spec_values (a_entries (spec_step St c a)) !! key =
    spec_values (a_entries a) !! key ∧
  spec_expiries (a_entries (spec_step St c a)) !! key =
    spec_expiries (a_entries a) !! key.
Proof.
  intros Hk ? ?.
  destruct c as [k v ttl|k| | |k| | | | |k d|];
    cbn [spec_step a_entries touched] in *; try done;
    assert (k ≠ key) by congruence.
  - unfold spec_setItem. cbn. destruct ttl; by rewrite !lookup_insert_ne.
  - unfold spec_getItem. destruct (spec_expired _ _ _); [cbn|done].
    by rewrite !lookup_delete_ne.
  - cbn. by rewrite !lookup_delete_ne.
  - cbn. by rewrite lookup_insert_ne.
Qed.

(** What a sweep does to one key. *)
Lemma spec_step_clearExpired a key :
  let a' := spec_step St CClearExpired a in
  if spec_expired key (a_now a) (a_entries a)
  then vacant key a' ∧ spec_expiries (a_entries a') !! key = None
  else spec_values (a_entries a') !! key = spec_values (a_entries a) !! key ∧
       spec_expiries (a_entries a') !! key =
         spec_expiries (a_entries a) !! key.
Proof.
  unfold vacant. cbn [spec_step a_entries].
  rewrite lookup_spec_clearExpired_value, lookup_spec_clearExpired_expiry.
  by destruct (spec_expired _ _ _).
Qed.

(** A call that does not write a key leaves its entry as it is, as long
    as the entry is not expired. *)
Lemma spec_step_live c a key :
  ¬ writes key c → spec_expired key (a_now a) (a_entries a) = false →
  spec_values (a_entries (spec_step St c a)) !! key =
    spec_values (a_entries a) !! key ∧
  spec_expiries (a_entries (spec_step St c a)) !! key =
    spec_expiries (a_entries a) !! key.
Proof.
  intros Hc Hx.
  destruct (decide (c = CClearExpired)) as [->|?].
  { pose proof (spec_step_clearExpired a key) as Hs. cbv zeta in Hs.
    by rewrite Hx in Hs. }
  destruct (decide (c = CGetItem key)) as [->|?].
  { cbn [spec_step]. unfold spec_getItem. by rewrite Hx. }
  apply spec_step_other; [|by intros ->|done].
  destruct c; cbn in *; congruence.
Qed.

(** A live entry stays through a call that does not write its key. *)
Lemma spec_step_keeps c a key v t :
  ¬ writes key c → holds key v t a → a_now a < t →
  holds key v t (spec_step St c a).
Proof.
  intros Hc Hh Hlive.
  pose proof (holds_expired key v t a Hh) as Hx.
  rewrite bool_decide_eq_false_2 in Hx by lia.
  destruct (spec_step_live c a key Hc Hx) as [Hv Ht].
  unfold holds. by rewrite Hv, Ht.
Qed.

(** The key holds the value [v] and does not expire. *)
Definition lasts key v a : Prop :=
  spec_values (a_entries a) !! key = Some v ∧
  spec_expiries (a_entries a) !! key = None.

Lemma spec_getItem_lasts key v a :
  lasts key v a →
  default JNull (spec_getItem key (a_now a) (a_entries a)).1 = v.
Proof.
  intros [Hv Ht]. unfold spec_getItem.
  rewrite (spec_expired_None key _ _ Ht). cbn. by rewrite Hv.
Qed.

(** An entry that does not expire stays through a call that does not
    write its key, and through any number of them. *)
Lemma spec_step_lasts c a key v :
  ¬ writes key c → lasts key v a → lasts key v (spec_step St c a).
Proof.
  intros Hc [Hv Ht].
  destruct (spec_step_live c a key Hc) as [Hv' Ht'];
    [by apply spec_expired_None|].
  unfold lasts. by rewrite Hv', Ht'.
Qed.

Lemma spec_run_lasts cs a key v :
  Forall (λ c, ¬ writes key c) cs → lasts key v a →
  lasts key v (spec_run St cs a).
Proof.
  intros Hcs. revert a. induction Hcs as [|c cs Hc _ IH]; intros a Hl; [done|].
  rewrite spec_run_cons. by apply IH, spec_step_lasts.
Qed.

Lemma spec_run_keeps cs a key v t :
  Forall forward cs → Forall (λ c, ¬ writes key c) cs →
  holds key v t a → a_now (spec_run St cs a) < t →
  holds key v t (spec_run St cs a).
Proof.
  intros Hcs. revert a.
  induction Hcs as [|c cs Hc Hcs IH]; intros a Hw Hh Hlive; [done|].
  apply Forall_cons in Hw as [Hwc Hw]. rewrite spec_run_cons in *.
  apply IH; [done| |done]. apply spec_step_keeps; [done..|].
  eapply Z.le_lt_trans; [|done]. apply a_now_mono.
  etrans; [by apply spec_step_date|by apply spec_run_date].
Qed.

(** Through calls that do not set its key, an entry stays or goes; it
    does not change. *)
Lemma spec_step_fades c a key v t :
  ¬ sets key c → vacant key a ∨ holds key v t a →
  vacant key (spec_step St c a) ∨ holds key v t (spec_step St c a).
Proof.
  intros Hc Hh.
  destruct (decide (c = CClear)) as [->|?]; [by left|].
  destruct (decide (c = CClearExpired)) as [->|?].
  { pose proof (spec_step_clearExpired a key) as Hs. cbv zeta in Hs.
    destruct (spec_expired key (a_now a) (a_entries a)); [left; apply Hs|].
    unfold vacant, holds in *. by rewrite (proj1 Hs), (proj2 Hs). }
  destruct (decide (c = CRemoveItem key)) as [->|?].
  { left. apply lookup_delete_eq. }
  destruct (decide (c = CGetItem key)) as [->|?].
  { cbn [spec_step]. unfold spec_getItem.
    destruct (spec_expired _ _ _); [left; apply lookup_delete_eq|].
    by destruct a. }
  destruct (spec_step_other c a key) as [Hv Ht]; [|done..|].
  { destruct c; cbn in *; congruence. }
  unfold vacant, holds. by rewrite Hv, Ht.
Qed.

Lemma spec_run_fades cs a key v t :
  Forall (λ c, ¬ sets key c) cs → vacant key a ∨ holds key v t a →
  vacant key (spec_run St cs a) ∨ holds key v t (spec_run St cs a).
Proof.
  intros Hcs. revert a. induction Hcs as [|c cs Hc _ IH]; intros a He; [done|].
  rewrite spec_run_cons. by apply IH, spec_step_fades.
Qed.
End abstract.

Section guarantees.
Context {St : Type} `{ListableStorage St}.
Implicit Types (w : World St) (cs : list Call) (key : string).
Implicit Types (value : JSValue) (d : Z).

(** The two writes of the class keep a good world good, and do what the
    specification says. *)
Lemma good_now w : good w → 0 ≤ now w.
Proof. intros (_ & _ & Hd). apply Z.div_pos; lia. Qed.

(** [setItem] keeps a good world good and the clock where it is,
    whatever it is given for a time to live. *)
Lemma setItem_good key value expiration w :
  good w → record_of key = None →
  let w1 := exec (setItem key value expiration) w in
  good w1 ∧ date w1 = date w.
Proof.
  intros Hgood Hkey w1.
  destruct (keeps_setItem key value expiration w) as [Hdate _].
  split; [|done]. apply keeps_good; [apply keeps_setItem|done|].
  apply (inv_touches w _ key); [done|apply touches_setItem|apply Hgood].
Qed.

Lemma good_setItem key value ttl w :
  good w → record_of key = None → ttl_ok ttl (now w) →
  let w1 := exec (setItem key value (expiration_of ttl)) w in
  good w1 ∧ date w1 = date w ∧
  abs w1 = spec_setItem key (st_stored St value) ttl (now w) (abs w).
Proof.
  intros Hgood Hkey Hd w1.
  destruct (refines_setItem key value ttl w) as [Habs Hinv]; [apply Hgood|done..|].
  split_and!; [by apply keeps_good; [apply keeps_setItem|..]| |done].
  apply keeps_setItem.
Qed.

Lemma good_updateExpiration key d w :
  good w → record_of key = None → now w + d ≠ 0 →
  let w1 := exec (updateExpiration key (Num d)) w in
  good w1 ∧ date w1 = date w ∧
  abs w1 = spec_updateExpiration key d (now w) (abs w).
Proof.
  intros Hgood Hkey Hd w1.
  destruct (refines_updateExpiration key d w) as [Habs Hinv];
    [apply Hgood|done..|].
  split_and!; [by apply keeps_good; [apply keeps_updateExpiration|..]| |done].
  apply keeps_updateExpiration.
Qed.

(** [setItem] with a time to live of [d] seconds, of either sign. *)
Lemma after_setItem_at key value d w :
  good w → record_of key = None → d ≠ 0 → now w + d ≠ 0 →
  let w1 := exec (setItem key value (Num d)) w in
  good w1 ∧ date w1 = date w ∧
  holds key (st_stored St value) (now w + d) (abs_world w1).
Proof.
  intros Hgood Hkey Hd Hz w1.
  destruct (good_setItem key value (Some d) w) as (Hg1 & Hdate & Habs);
    [done..|by intros ? [= <-]|].
  split_and!; [done..|]. unfold holds, w1. cbn [abs_world a_entries].
  change (JNumber (Num d)) with (expiration_of (Some d)).
  rewrite Habs. split; apply lookup_insert_eq.
Qed.

Lemma after_setItem key value d w :
  good w → record_of key = None → 0 < d →
  let w1 := exec (setItem key value (Num d)) w in
  good w1 ∧ holds key (st_stored St value) (now w + d) (abs_world w1).
Proof.
  intros Hgood Hkey Hd w1.
  destruct (good_ttl_ok w (Some d) Hgood Hd d eq_refl).
  by destruct (after_setItem_at key value d w) as (? & _ & ?).
Qed.

(** [updateExpiration] gives [d] seconds to the value a key holds. *)
Lemma after_updateExpiration key v d w :
  good w → record_of key = None → now w + d ≠ 0 →
  st_model (storage w) !! key = Some v →
  let w1 := exec (updateExpiration key (Num d)) w in
  good w1 ∧ date w1 = date w ∧ holds key v (now w + d) (abs_world w1).
Proof.
  intros Hgood Hkey Hd Hv w1.
  destruct (good_updateExpiration key d w) as (Hg1 & Hdate & Habs); [done..|].
  split_and!; [done..|]. unfold holds, w1. cbn [abs_world a_entries].
  rewrite Habs.
  split; [by rewrite <- Hv, <- (lookup_abs_value w key)|apply lookup_insert_eq].
Qed.

(** A value set without a time to live on a key that [updateExpiration]
    gave [d] seconds, and that holds nothing, has those seconds. *)
Lemma after_updateExpiration_setItem key value d w :
  good w → record_of key = None → now w + d ≠ 0 →
  let w1 := exec (updateExpiration key (Num d)) w in
  let w2 := exec (setItem key value JUndefined) w1 in
  good w2 ∧ date w2 = date w ∧
  holds key (st_stored St value) (now w + d) (abs_world w2).
Proof.
  intros Hgood Hkey Hd w1 w2.
  destruct (good_updateExpiration key d w) as (Hg1 & Hd1 & Ha1); [done..|].
  destruct (good_setItem key value None w1) as (Hg2 & Hd2 & Ha2);
    [done..|by intros ? [=]|].
  split_and!; [done|by rewrite <- Hd1|]. unfold holds, w2.
  cbn [abs_world a_entries]. cbn [expiration_of from_option] in Ha2.
  rewrite Ha2. fold w1 in Ha1.
  cbn [spec_setItem spec_values spec_expiries]. rewrite Ha1.
  split; apply lookup_insert_eq.
Qed.

(** What [getItem] answers in a good world, by the specification. *)
Lemma spec_getItem_good key w :
  good w → record_of key = None →
  eval (getItem key) w =
  default JNull
    (spec_getItem key (a_now (abs_world w)) (a_entries (abs_world w))).1.
Proof.
  intros Hgood Hkey.
  apply (refines_getItem key w); [apply Hgood|done|apply st_absent_null].
Qed.

(** A key that holds [v] until [t] is served until [t], whatever is
    called in between, short of writing it; and not from [t] on, short
    of setting it. *)
Lemma holds_served_at key v t cs w :
  good w → record_of key = None → holds key v t (abs_world w) →
  calls_ok_at (date w) cs →
  let w' := exec (trace cs) w in
  (Forall (λ c, ¬ writes key c) cs → now w' < t →
   eval (getItem key) w' = v) ∧
  (Forall (λ c, ¬ sets key c) cs → t ≤ now w' →
   eval (getItem key) w' = JNull).
Proof.
  intros Hgood Hkey Hh Hcs w'.
  destruct (trace_refines_at cs w Hgood Hcs) as (_ & Ha & Hg').
  apply calls_ok_at_forward in Hcs.
  fold w' in Ha, Hg'. rewrite spec_getItem_good by done.
  change (now w') with (a_now (abs_world w')). rewrite Ha. split.
  - intros Hw Hlive.
    rewrite (spec_getItem_holds key v t) by by apply spec_run_keeps.
    by rewrite bool_decide_eq_false_2 by lia.
  - intros Hs Hdead.
    destruct (spec_run_fades (St := St) cs (abs_world w) key v t Hs)
      as [Hv|Hh'];
      [by right|by apply spec_getItem_vacant|].
    rewrite (spec_getItem_holds key v t) by done.
    by rewrite bool_decide_eq_true_2.
Qed.

Lemma holds_served key v t cs w :
  good w → record_of key = None → holds key v t (abs_world w) →
  Forall call_ok cs →
  let w' := exec (trace cs) w in
  (Forall (λ c, ¬ writes key c) cs → now w' < t →
   eval (getItem key) w' = v) ∧
  (Forall (λ c, ¬ sets key c) cs → t ≤ now w' →
   eval (getItem key) w' = JNull).
Proof.
  intros Hgood Hkey Hh Hcs. apply holds_served_at; [done..|].
  by apply calls_ok_at_Forall; [apply Hgood|].
Qed.

(** Time does not go back through calls the specification covers. *)
Lemma now_trace cs w :
  good w → calls_ok_at (date w) cs → now w ≤ now (exec (trace cs) w).
Proof.
  intros Hgood Hcs.
  destruct (trace_refines_at cs w Hgood Hcs) as (_ & Ha & _).
  change (a_now (abs_world w) ≤ a_now (abs_world (exec (trace cs) w))).
  rewrite Ha. by eapply a_now_mono, spec_run_date, calls_ok_at_forward.
Qed.

(** C2. An entry set with a time to live of [d] seconds is served by
    [getItem] for [d] seconds, whatever is called in between, short of
    writing, removing or clearing it, or updating its expiration.  The
    calls in between may set other entries with any time to live. *)
Theorem served_until_expiry key value d cs w :
  good w → record_of key = None →
  calls_ok_at (date w) cs → Forall (λ c, ¬ writes key c) cs →
  let w' := exec (trace cs) (exec (setItem key value (Num d)) w) in
  now w' < now w + d →
  eval (getItem key) w' = st_stored St value.
Proof.
  intros Hgood Hkey Hcs Hw w' Hlive.
  destruct (setItem_good key value (Num d) w) as [Hg1 Hdate]; [done..|].
  rewrite <- Hdate in Hcs.
  pose proof (now_trace cs _ Hg1 Hcs) as Hn. fold w' in Hn.
  unfold now in Hn at 1. rewrite Hdate in Hn. fold (now w) in Hn.
  pose proof (good_now w Hgood).
  destruct (after_setItem_at key value d w) as (_ & _ & Hh); [done..|lia|lia|].
  by apply (holds_served_at key _ (now w + d) cs _ Hg1 Hkey Hh Hcs).
Qed.

(** C3. Once its [d] seconds are over, an entry is never served again:
    [getItem] answers [null], whatever was called in between, short of
    setting the key anew or updating its expiration.  With a negative
    time to live the seconds are over at once. *)
Theorem never_served_expired key value d cs w :
  good w → record_of key = None → d ≠ 0 → now w + d ≠ 0 →
  calls_ok_at (date w) cs → Forall (λ c, ¬ sets key c) cs →
  let w' := exec (trace cs) (exec (setItem key value (Num d)) w) in
  now w + d ≤ now w' →
  eval (getItem key) w' = JNull.
Proof.
  intros Hgood Hkey Hd Hz Hcs Hs. cbv zeta.
  destruct (after_setItem_at key value d w) as (Hg1 & Hdate & Hh); [done..|].
  rewrite <- Hdate in Hcs.
  by apply (holds_served_at key _ (now w + d) cs _ Hg1 Hkey Hh Hcs).
Qed.

(** A key that holds [v] and does not expire is served, whatever is
    called in between, short of writing it. *)
Lemma lasts_served_at key v cs w :
  good w → record_of key = None → lasts key v (abs_world w) →
  calls_ok_at (date w) cs → Forall (λ c, ¬ writes key c) cs →
  eval (getItem key) (exec (trace cs) w) = v.
Proof.
  intros Hgood Hkey Hl Hcs Hw.
  destruct (trace_refines_at cs w Hgood Hcs) as (_ & Ha & Hg').
  rewrite spec_getItem_good, Ha by done.
  by apply spec_getItem_lasts, spec_run_lasts.
Qed.

Lemma lasts_served key v cs w :
  good w → record_of key = None → lasts key v (abs_world w) →
  Forall call_ok cs → Forall (λ c, ¬ writes key c) cs →
  eval (getItem key) (exec (trace cs) w) = v.
Proof.
  intros Hgood Hkey Hl Hcs. apply lasts_served_at; [done..|].
  by apply calls_ok_at_Forall; [apply Hgood|].
Qed.

(** C6. An entry set without a time to live, under a key that has no
    expiry, is served for ever: [getItem] returns it after any sequence
    of calls and however much time has passed, short of calls that
    write its key. *)
Theorem served_for_ever key value cs w :
  good w → record_of key = None → expiry key w = None →
  calls_ok_at (date w) cs → Forall (λ c, ¬ writes key c) cs →
  eval (getItem key) (exec (trace cs) (exec (setItem key value JUndefined) w))
  = st_stored St value.
Proof.
  intros Hgood Hkey He Hcs Hw.
  destruct (good_setItem key value None w) as (Hg1 & Hdate & Habs);
    [done..|by intros ? [=]|].
  rewrite <- Hdate in Hcs. apply lasts_served_at; [done..| |done|done].
  unfold lasts. cbn [abs_world a_entries expiration_of from_option] in *.
  rewrite Habs. cbn [spec_setItem spec_values spec_expiries].
  by rewrite lookup_insert_eq, lookup_abs_expiry.
Qed.

(** C11. [updateExpiration(key, d)] on a key that holds a value, expired or
    not: the value is served for the [d] seconds that follow, and not
    after them, whatever is called in between. *)
Theorem updateExpiration_served key v d cs w :
  good w → record_of key = None → now w + d ≠ 0 →
  st_model (storage w) !! key = Some v → calls_ok_at (date w) cs →
  let w' := exec (trace cs) (exec (updateExpiration key (Num d)) w) in
  (Forall (λ c, ¬ writes key c) cs → now w' < now w + d →
   eval (getItem key) w' = v) ∧
  (Forall (λ c, ¬ sets key c) cs → now w + d ≤ now w' →
   eval (getItem key) w' = JNull).
Proof.
  intros Hgood Hkey Hd Hv Hcs.
  destruct (after_updateExpiration key v d w) as (Hg1 & Hdate & Hh); [done..|].
  rewrite <- Hdate in Hcs.
  by apply (holds_served_at key v (now w + d) cs _ Hg1 Hkey Hh Hcs).
Qed.

(** C33. [updateExpiration] on a key that holds no value leaves an expiry
    for it: a value set afterwards without a time to live is served for
    what is left of the [d] seconds, and not after them. *)
Theorem updateExpiration_inherited key value d cs w :
  good w → record_of key = None → now w + d ≠ 0 → calls_ok_at (date w) cs →
  let w1 := exec (updateExpiration key (Num d)) w in
  let w' := exec (trace cs) (exec (setItem key value JUndefined) w1) in
  (Forall (λ c, ¬ writes key c) cs → now w' < now w + d →
   eval (getItem key) w' = st_stored St value) ∧
  (Forall (λ c, ¬ sets key c) cs → now w + d ≤ now w' →
   eval (getItem key) w' = JNull).
Proof.
  intros Hgood Hkey Hd Hcs w1.
  destruct (after_updateExpiration_setItem key value d w)
    as (Hg2 & Hdate & Hh); [done..|].
  rewrite <- Hdate in Hcs.
  by apply (holds_served_at key _ (now w + d) cs _ Hg2 Hkey Hh Hcs).
Qed.
End guarantees.

(** * On the stores of the test suite *)

(** Calls that leave the key "k" alone while 5 seconds pass, and while
    10 do. *)
Definition bystanders : list Call :=
  [CTick 5000; CSetItem "other" JNull (Some 1); CTick 999; CClearExpired;
   CGetItem "other"].

Definition late_bystanders : list Call :=
  [CTick 9999; CRemoveItem "other"; CTick 1; CKeys true].

(** Calls that leave the key "k" alone while 5 seconds pass, with times
    to live that are not positive. *)
Definition past_bystanders : list Call :=
  [CTick 5000; CSetItem "other" JNull (Some (-3)); CUpdateExpiration "gone" 0;
   CTick 999; CClearExpired; CGetItem "other"].

Section witnesses.

Lemma served_until_expiry_witness :
  (good web_browser ∧ record_of "k" = None ∧
   calls_ok_at (date web_browser) past_bystanders ∧
   Forall (λ c, ¬ writes "k" c) past_bystanders ∧
   now (exec (trace past_bystanders)
          (exec (setItem "k" (JString "v") (Num 10)) web_browser))
   < now web_browser + 10) ∧
  eval (getItem "k")
    (exec (trace past_bystanders)
       (exec (setItem "k" (JString "v") (Num 10)) web_browser))
  = st_stored WebStore (JString "v").
Proof.
  assert (calls_ok_at (date web_browser) past_bystanders) as Hok.
  { apply (bool_decide_unpack _). by vm_compute. }
  assert (Forall (λ c, ¬ writes "k" c) past_bystanders) as Hw.
  { apply (bool_decide_unpack _). by vm_compute. }
  split; [split_and!; [apply good_web_browser|done..|by vm_compute]|].
  apply (served_until_expiry "k" (JString "v") 10 past_bystanders web_browser);
    [apply good_web_browser|done..|by vm_compute].
Defined.

(** Set with -5 seconds to live, the entry is never served. *)
Lemma never_served_expired_witness :
  (good browser ∧ record_of "k" = None ∧ -5 ≠ 0 ∧ now browser + -5 ≠ 0 ∧
   calls_ok_at (date browser) past_bystanders ∧
   Forall (λ c, ¬ sets "k" c) past_bystanders ∧
   now browser + -5 ≤
   now (exec (trace past_bystanders)
          (exec (setItem "k" (JString "v") (Num (-5))) browser))) ∧
  eval (getItem "k")
    (exec (trace past_bystanders)
       (exec (setItem "k" (JString "v") (Num (-5))) browser))
  = JNull.
Proof.
  assert (calls_ok_at (date browser) past_bystanders) as Hok.
  { apply (bool_decide_unpack _). by vm_compute. }
  assert (Forall (λ c, ¬ sets "k" c) past_bystanders) as Hs.
  { apply (bool_decide_unpack _). by vm_compute. }
  split; [split_and!; [apply good_browser|done..|by vm_compute]|].
  apply (never_served_expired "k" (JString "v") (-5) past_bystanders browser);
    [apply good_browser|done..|by vm_compute].
Defined.

(** A year passes, with a sweep and other entries coming and going. *)
Lemma served_for_ever_witness :
  (good web_browser ∧ record_of "k" = None ∧ expiry "k" web_browser = None ∧
   calls_ok_at (date web_browser) (CTick 31536000000 :: past_bystanders) ∧
   Forall (λ c, ¬ writes "k" c) (CTick 31536000000 :: past_bystanders)) ∧
  eval (getItem "k")
    (exec (trace (CTick 31536000000 :: past_bystanders))
       (exec (setItem "k" (JString "v") JUndefined) web_browser))
  = st_stored WebStore (JString "v").
Proof.
  assert (calls_ok_at (date web_browser)
            (CTick 31536000000 :: past_bystanders)) as Hok.
  { apply (bool_decide_unpack _). by vm_compute. }
  assert (Forall (λ c, ¬ writes "k" c) (CTick 31536000000 :: past_bystanders))
    as Hw.
  { apply (bool_decide_unpack _). by vm_compute. }
  split; [split_and!; [apply good_web_browser|done..]|].
  apply (served_for_ever "k" (JString "v") _ web_browser);
    [apply good_web_browser|done..].
Defined.

(** In the middle of "Clear expired" the key "test" holds "foo", expired
    for 9 seconds: given 10 seconds more, it is served while the
    bystanders run. *)
Lemma updateExpiration_served_witness :
  (good web_before_sweep ∧ record_of "test" = None ∧
   now web_before_sweep + 10 ≠ 0 ∧
   st_model (storage web_before_sweep) !! "test" = Some (JString "foo") ∧
   calls_ok_at (date web_before_sweep) bystanders) ∧
  let w' := exec (trace bystanders)
              (exec (updateExpiration "test" (Num 10)) web_before_sweep) in
  (Forall (λ c, ¬ writes "test" c) bystanders →
   now w' < now web_before_sweep + 10 →
   eval (getItem "test") w' = JString "foo") ∧
  (Forall (λ c, ¬ sets "test" c) bystanders →
   now web_before_sweep + 10 ≤ now w' → eval (getItem "test") w' = JNull).
Proof.
  assert (calls_ok_at (date web_before_sweep) bystanders) as Hok.
  { apply (bool_decide_unpack _). by vm_compute. }
  split; [split_and!; [apply good_web_before_sweep|done..]|].
  apply (updateExpiration_served "test" (JString "foo") 10 bystanders);
    [apply good_web_before_sweep|done..].
Defined.

(** An expiration of 10 seconds for a key that was never set, then a
    value without a time to live: it is gone 10 seconds later. *)
Lemma updateExpiration_inherited_witness :
  (good browser ∧ record_of "k" = None ∧ now browser + 10 ≠ 0 ∧
   calls_ok_at (date browser) late_bystanders) ∧
  let w1 := exec (updateExpiration "k" (Num 10)) browser in
  let w' := exec (trace late_bystanders)
              (exec (setItem "k" (JString "v") JUndefined) w1) in
  (Forall (λ c, ¬ writes "k" c) late_bystanders → now w' < now browser + 10 →
   eval (getItem "k") w' = st_stored JSObject (JString "v")) ∧
  (Forall (λ c, ¬ sets "k" c) late_bystanders → now browser + 10 ≤ now w' →
   eval (getItem "k") w' = JNull).
Proof.
  assert (calls_ok_at (date browser) late_bystanders) as Hok.
  { apply (bool_decide_unpack _). by vm_compute. }
  split; [split_and!; [apply good_browser|done..]|].
  apply (updateExpiration_inherited "k" (JString "v") 10 late_bystanders);
    [apply good_browser|done..].
Defined.

(** What the two say on those calls: the value is read, and is gone. *)
Example updateExpiration_values :
  eval (getItem "test")
    (exec (trace bystanders)
       (exec (updateExpiration "test" (Num 10)) web_before_sweep))
  = JString "foo" ∧
  eval (getItem "k")
    (exec (trace late_bystanders)
       (exec (setItem "k" (JString "v") JUndefined)
          (exec (updateExpiration "k" (Num 10)) browser)))
  = JNull.
Proof. by vm_compute. Qed.
End witnesses.
