(* ===== verification/JsonMachine.v ===== *)
(** * JsonMachine: the JSON methods in sequences of calls

    [setJson] and [getJson] are a layer over [setItem] and [getItem]:
    the first makes a text of its value and hands it to [setItem], the
    second parses what [getItem] returns.  A [JsonCall] is a call of the
    class or of one of the two; [lower] gives the call of the class that
    a call of the layer makes, which is none for [setJson] of
    [undefined].  A sequence of calls of the layer leaves the world that
    the calls it makes leave ([json_trace_lower]); it is therefore a
    trace of the abstract machine of [Machine], with the results of the
    layer ([json_trace_refinement]), and what [Machine] guarantees of
    [getItem] holds of [getJson]: a value stored with a time to live is
    read back until its instant and is [null] from then on, whatever is
    called in between ([getJson_served]). *)

From S2P Require Import Prelude Js Dict JsonText JsonParse Storage.
From S2P Require Import ExpiredStorage TestStorage WebStorage TestSuite.
From S2P Require Import Expiry Sweep JsonItems Spec Machine Guarantees.

(** * Calls of the layer *)

Inductive JsonCall (V : Type) : Type :=
  | Plain (c : Call)
  | CSetJson (key : string) (val : V) (ttl : option Z)
  | CGetJson (key : string).

Inductive JsonResult (V : Type) : Type :=
  | RPlain (r : Result)
  | RSetJson (r : JsonError + JSValue)
  | RGetJson (r : JsonError + V).

Arguments Plain {V} c.
Arguments CSetJson {V} key val ttl.
Arguments CGetJson {V} key.
Arguments RPlain {V} r.
Arguments RSetJson {V} r.
Arguments RGetJson {V} r.

Section layer.
Context {St V : Type} `{StorageLaws St} `{!Json V}.
Implicit Types (w : World St) (c : JsonCall V) (r : JsonResult V).
Implicit Types (cs : list (JsonCall V)) (a : AWorld) (key : string).

Definition json_call c : State (World St) (JsonResult V) :=
  match c with
  | Plain c => ret ← call c; mret (RPlain ret)
  | CSetJson key val ttl =>
      ret ← setJson key val (expiration_of ttl); mret (RSetJson ret)
  | CGetJson key => ret ← getJson key; mret (RGetJson ret)
  end.

Fixpoint json_trace cs
    : State (World St) (list (JsonCall V * JsonResult V)) :=
  match cs with
  | [] => mret []
  | c :: cs => r ← json_call c; tr ← json_trace cs; mret ((c, r) :: tr)
  end.

(** The call of the class that a call of the layer makes: none for
    [setJson] of [undefined], which throws before it calls anything. *)
Definition lower c : option Call :=
  match c with
  | Plain c => Some c
  | CSetJson key val ttl =>
      if is_undefined val then None
      else Some (CSetItem key (stringified val) ttl)
  | CGetJson key => Some (CGetItem key)
  end.

(** The calls the specification covers. *)
Definition json_call_ok c : Prop :=
  match c with
  | Plain c => call_ok c
  | CSetJson key _ ttl => call_ok (CSetItem key JNull ttl)
  | CGetJson key => record_of key = None
  end.

#[export] Instance json_call_ok_dec c : Decision (json_call_ok c).
Proof. destruct c; cbn [json_call_ok]; apply _. Defined.

(** The calls that write or remove the entry of [key], and those that
    write it, by the call of the class they make. *)
Definition json_writes key c : Prop := from_option (writes key) False (lower c).

Definition json_sets key c : Prop := from_option (sets key) False (lower c).

#[export] Instance json_writes_dec key c : Decision (json_writes key c).
Proof. unfold json_writes. destruct (lower c); apply _. Defined.

#[export] Instance json_sets_dec key c : Decision (json_sets key c).
Proof. unfold json_sets. destruct (lower c); apply _. Defined.

(** ** The specification of the layer *)

Definition spec_json_step c a : AWorld :=
  from_option (λ made : Call, spec_step St made a) a (lower c).

(** [setJson] throws on [undefined] and on nothing else; [getJson]
    answers [null] where [getItem] does and else parses the value. *)
Definition spec_json_result c a r : Prop :=
  match c, r with
  | Plain c, RPlain r => spec_result c a r
  | CSetJson _ val _, RSetJson ret =>
      ret = inl CannotSetUndefined ↔ is_undefined val = true
  | CGetJson key, RGetJson ret =>
      ret = decode (default JNull (spec_getItem key (a_now a) (a_entries a)).1)
  | _, _ => False
  end.

Inductive spec_json_steps
    : AWorld → list (JsonCall V * JsonResult V) → AWorld → Prop :=
  | spec_json_steps_nil a : spec_json_steps a [] a
  | spec_json_steps_cons a c r tr a' :
      spec_json_result c a r → spec_json_steps (spec_json_step c a) tr a' →
      spec_json_steps a ((c, r) :: tr) a'.
End layer.

Arguments spec_json_step St {V _ _ _} c a.
Arguments spec_json_steps St {V _ _ _} a tr a'.

(** * The layer adds no state *)

Section lowering.
Context {St V : Type} `{StorageLaws St} `{!Json V}.
Implicit Types (w : World St) (c : JsonCall V) (cs : list (JsonCall V)).
Implicit Types (key : string).

(** The world after a call of the layer is the world after the call it
    makes of the class. *)
Lemma json_call_lower c w :
  exec (json_call c) w =
  from_option (λ made : Call, exec (call made) w) w (lower c).
Proof.
  unfold exec. destruct c as [c|key val ttl|key]; cbn [json_call lower].
  - by rewrite !run_bind.
  - rewrite run_bind, setJson_run.
    destruct (is_undefined val); [done|]. cbn [call from_option].
    by rewrite run_call.
  - cbn [call from_option]. by rewrite run_bind, getJson_run, run_call.
Qed.

Lemma json_trace_cons c cs w :
  json_trace (c :: cs) w =
  ((c, eval (json_call c) w) :: eval (json_trace cs) (exec (json_call c) w),
   exec (json_trace cs) (exec (json_call c) w)).
Proof.
  cbn [json_trace]. rewrite run_bind, (run_eval_exec (json_call c)).
  by rewrite run_bind, (run_eval_exec (json_trace cs)).
Qed.

(** So is the world after a sequence of calls. *)
Lemma json_trace_lower cs w :
  exec (json_trace cs) w = exec (trace (omap lower cs)) w.
Proof.
  revert w. induction cs as [|c cs IH]; intros w; [done|].
  unfold exec at 1. rewrite json_trace_cons. cbn [snd omap list_omap].
  rewrite IH, json_call_lower.
  destruct (lower c) as [made|]; cbn [from_option]; [|done].
  unfold exec at 3.
  by rewrite trace_cons.
Qed.

Lemma lower_ok c (made : Call) :
  json_call_ok c → lower c = Some made → call_ok made.
Proof.
  destruct c as [c|key val ttl|key]; cbn [json_call_ok lower].
  - by intros ? [= <-].
  - destruct (is_undefined val); [done|]. by intros ? [= <-].
  - by intros ? [= <-].
Qed.

Lemma Forall_lower (P : Call → Prop) cs :
  Forall (λ c, from_option P True (lower c)) cs → Forall P (omap lower cs).
Proof.
  induction 1 as [|c cs Hc _ IH]; [done|]. cbn [omap list_omap].
  destruct (lower c); [by constructor|done].
Qed.

Lemma lowered_ok cs : Forall json_call_ok cs → Forall call_ok (omap lower cs).
Proof.
  intros Hcs. apply Forall_lower. eapply Forall_impl; [done|].
  intros c Hc. destruct (lower c) eqn:Hl; [by eapply lower_ok|done].
Qed.

Lemma lowered_not (P : Call → Prop) cs :
  Forall (λ c, ¬ from_option P False (lower c)) cs →
  Forall (λ made, ¬ P made) (omap lower cs).
Proof.
  intros Hcs. apply Forall_lower. eapply Forall_impl; [done|].
  intros c Hc. cbn beta in Hc. by destruct (lower c).
Qed.
End lowering.

(** * Every call of the layer implements its specification *)

Section refinement.
Context {St V : Type} `{ListableStorage St} `{!Json V}.
Implicit Types (w : World St) (c : JsonCall V) (cs : list (JsonCall V)).
Implicit Types (key : string).

Definition json_refines c w : Prop :=
  spec_json_result c (abs_world w) (eval (json_call c) w) ∧
  abs_world (exec (json_call c) w) = spec_json_step St c (abs_world w) ∧
  good (exec (json_call c) w).

Lemma json_call_eval c w :
  eval (json_call c) w =
  match c with
  | Plain c => RPlain (eval (call c) w)
  | CSetJson key val ttl => RSetJson (eval (setJson key val (expiration_of ttl)) w)
  | CGetJson key => RGetJson (decode (eval (getItem key) w))
  end.
Proof.
  unfold eval. destruct c; cbn [json_call]; rewrite run_bind; [done..|].
  by rewrite getJson_run.
Qed.

Lemma refines_CSetJson key val ttl w :
  good w → json_call_ok (CSetJson key val ttl) →
  json_refines (CSetJson key val ttl) w.
Proof.
  intros Hgood Hc. unfold json_refines, spec_json_step.
  rewrite json_call_lower, json_call_eval. unfold eval.
  rewrite setJson_run. cbn [lower spec_json_result].
  destruct (is_undefined val); [done|].
  destruct (call_refines (CSetItem key (stringified val) ttl) w)
    as (_ & Ha & Hg); [done..|].
  by split_and!.
Qed.

Lemma refines_CGetJson key w :
  good w → json_call_ok (CGetJson key : JsonCall V) →
  json_refines (CGetJson key : JsonCall V) w.
Proof.
  intros Hgood Hc. unfold json_refines, spec_json_step.
  rewrite json_call_lower, json_call_eval. cbn [lower spec_json_result].
  destruct (call_refines (CGetItem key) w) as (_ & Ha & Hg); [done..|].
  split_and!; [|done..]. by rewrite spec_getItem_good.
Qed.

Lemma json_call_refines c w : good w → json_call_ok c → json_refines c w.
Proof.
  intros Hgood Hc. destruct c as [c|key val ttl|key].
  - destruct (call_refines c w Hgood Hc) as (Hr & Ha & Hg).
    unfold json_refines. by rewrite json_call_lower, json_call_eval.
  - by apply refines_CSetJson.
  - by apply refines_CGetJson.
Qed.

Lemma json_trace_refines cs w :
  good w → Forall json_call_ok cs →
  spec_json_steps St (abs_world w) (eval (json_trace cs) w)
    (abs_world (exec (json_trace cs) w)) ∧
  good (exec (json_trace cs) w).
Proof.
  revert w. induction cs as [|c cs IH]; intros w Hgood Hcs.
  { split; [constructor|done]. }
  apply Forall_cons in Hcs as [Hc Hcs].
  destruct (json_call_refines c w Hgood Hc) as (Hr & Ha & Hg).
  destruct (IH _ Hg Hcs) as [Hsteps Hgood'].
  unfold eval, exec. rewrite json_trace_cons. cbn [fst snd].
  split; [|done]. constructor; [done|]. by rewrite <- Ha.
Qed.

(** C12. A sequence of calls of the class and of its JSON methods is a trace
    of the abstract machine: [setJson] throws on [undefined] and on nothing
    else, and then changes nothing; [getJson] answers what [JSON.parse]
    makes of the value the abstract store holds, [null] for an entry that
    is absent or expired. *)
Theorem json_trace_refinement cs w :
  good w → Forall json_call_ok cs →
  spec_json_steps St (abs_world w) (eval (json_trace cs) w)
    (abs_world (exec (json_trace cs) w)).
Proof. intros Hgood Hcs. by apply json_trace_refines. Qed.
End refinement.

(** * What the layer guarantees over time *)

Section guarantees.
Context {St V : Type} `{ListableStorage St} `{JsonLaws V}.
Implicit Types (w : World St) (c : JsonCall V) (cs : list (JsonCall V)).
Implicit Types (key text : string) (val : V) (d : Z).

(** After [setJson] with a time to live the key holds the text of the
    value, for that time. *)
Lemma after_setJson key val text d w :
  good w → record_of key = None → 0 < d → JSON_stringify val = Some text →
  let w1 := exec (setJson key val (Num d)) w in
  good w1 ∧ holds key (st_stored St (JString text)) (now w + d) (abs_world w1).
Proof.
  intros Hgood Hkey Hd Hs w1. unfold w1.
  rewrite exec_setJson by by eapply is_undefined_false.
  unfold stringified. rewrite Hs. by apply after_setItem.
Qed.

(** What [getJson] reads of a key that holds a text until [t]: the
    value of the text before [t], [null] from [t] on, whatever is called
    in between. *)
Lemma holds_getJson key text t cs w :
  good w → record_of key = None →
  holds key (JString text) t (abs_world w) → Forall json_call_ok cs →
  let w' := exec (json_trace cs) w in
  (Forall (λ c, ¬ json_writes key c) cs → now w' < t →
   eval (getJson key) w' =
   from_option inr (inl SyntaxError) (JSON_parse text : option V)) ∧
  (Forall (λ c, ¬ json_sets key c) cs → t ≤ now w' →
   eval (getJson (V := V) key) w' = inr json_null).
Proof.
  intros Hgood Hkey Hh Hcs w'. unfold w', eval.
  rewrite json_trace_lower, !getJson_run. cbn [fst].
  destruct (holds_served key (JString text) t (omap lower cs) w)
    as [Hlive Hdead]; [done..|by apply lowered_ok|].
  split.
  - intros Hw Ht. by rewrite Hlive; [|apply lowered_not|].
  - intros Hw Ht. by rewrite Hdead; [|apply lowered_not|].
Qed.

(** C15. A value stored by [setJson] for [d] seconds, in a store that keeps
    text as it is, is read back by [getJson] for [d] seconds, whatever
    is called in between, of the class or of its JSON methods, short of
    writing the key; what comes back is the value [JSON.parse] makes of
    the text, which has the same text.  Once the [d] seconds are over,
    [getJson] answers [null], short of setting the key anew. *)
Theorem getJson_served key val text d cs w :
  good w → record_of key = None → 0 < d →
  json_wf val → JSON_stringify val = Some text →
  st_stored St (JString text) = JString text → Forall json_call_ok cs →
  let w' := exec (json_trace cs) (exec (setJson key val (Num d)) w) in
  (Forall (λ c, ¬ json_writes key c) cs → now w' < now w + d →
   ∃ v' : V, JSON_stringify v' = Some text ∧ json_wf v' ∧
             eval (getJson key) w' = inr v') ∧
  (Forall (λ c, ¬ json_sets key c) cs → now w + d ≤ now w' →
   eval (getJson (V := V) key) w' = inr json_null).
Proof.
  intros Hgood Hkey Hd Hwf Hs Hkeep Hcs.
  destruct (after_setJson key val text d w) as [Hg1 Hh]; [done..|].
  rewrite Hkeep in Hh.
  destruct (holds_getJson key text (now w + d) cs _ Hg1 Hkey Hh Hcs)
    as [Hlive Hdead].
  split; [|done]. intros Hw Ht.
  destruct (parse_stringify val text Hwf Hs) as (v' & Hp & Hwf' & Hs').
  exists v'. split_and!; [done..|]. by rewrite Hlive, Hp.
Qed.
End guarantees.

(** * With the [JSON] of [JsonText] *)

Section json_text.
Context {St : Type} `{ListableStorage St}.
Implicit Types (w : World St) (cs : list (JsonCall JsonValue)).
Implicit Types (key : string) (val : JsonValue) (d : Z).

(** C16. What comes back is [revive] of the value: the value itself when it
    is plain. *)
Theorem getJson_served_value key val d cs w :
  good w → record_of key = None → 0 < d →
  wf_value val = true → is_Some (stringify val) →
  st_stored St (JString (item_text val)) = JString (item_text val) →
  Forall json_call_ok cs → Forall (λ c, ¬ json_writes key c) cs →
  let w' := exec (json_trace cs) (exec (setJson key val (Num d)) w) in
  now w' < now w + d →
  eval (getJson key) w' = inr (revive val) ∧
  (plain val = true → revive val = val).
Proof.
  intros Hgood Hkey Hd Hwf [text Htext] Hkeep Hcs Hw w' Ht. subst w'.
  split; [|apply revive_plain].
  assert (item_text val = text) as Hitem by (unfold item_text; by rewrite Htext).
  rewrite Hitem in Hkeep.
  destruct (after_setJson key val text d w) as [Hg1 Hh]; [done..|].
  rewrite Hkeep in Hh.
  destruct (holds_getJson (V := JsonValue) key text (now w + d) cs _ Hg1 Hkey
    Hh Hcs) as [Hlive _].
  rewrite Hlive by done. cbn [JSON_parse JsonValue_Json].
  by rewrite (JSON_parse_text_stringify val).
Qed.
End json_text.

(** * On the stores of the test suite *)

(** Calls that leave the key "obj" alone while 59 seconds pass: another
    value is stored as JSON and read back, [undefined] is refused, the
    store is swept. *)
Definition json_bystanders : list (JsonCall JsonValue) :=
  [Plain (CTick 30000); CSetJson "other" (JVArray [JVNull]) (Some 5);
   CGetJson "other"; CSetJson "obj" JVUndefined (Some 1);
   Plain (CTick 29000); Plain CClearExpired; CGetJson "other"].

(** The same, and a second more. *)
Definition json_late_bystanders : list (JsonCall JsonValue) :=
  json_bystanders ++ [Plain (CTick 1000); Plain (CKeys true)].

Section witnesses.

Lemma json_bystanders_ok : Forall json_call_ok json_bystanders.
Proof. apply (bool_decide_unpack _). by vm_compute. Qed.

Lemma json_late_bystanders_ok : Forall json_call_ok json_late_bystanders.
Proof. apply (bool_decide_unpack _). by vm_compute. Qed.

Lemma json_trace_refinement_witness :
  (good web_before_sweep ∧
   Forall json_call_ok (CSetJson "obj" test_object (Some 60) :: json_bystanders))
  ∧
  let cs := CSetJson "obj" test_object (Some 60) :: json_bystanders in
  spec_json_steps WebStore (abs_world web_before_sweep)
    (eval (json_trace cs) web_before_sweep)
    (abs_world (exec (json_trace cs) web_before_sweep)).
Proof.
  assert (Forall json_call_ok
    (CSetJson "obj" test_object (Some 60) :: json_bystanders)) as Hok.
  { apply (bool_decide_unpack _). by vm_compute. }
  split; [split; [apply good_web_before_sweep|done]|].
  by apply json_trace_refinement; [apply good_web_before_sweep|].
Defined.

Lemma getJson_served_witness :
  (good web_before_sweep ∧ record_of "obj" = None ∧ 0 < 60 ∧
   json_wf test_object ∧
   JSON_stringify test_object = Some (item_text test_object) ∧
   st_stored WebStore (JString (item_text test_object)) =
     JString (item_text test_object) ∧
   Forall json_call_ok json_late_bystanders) ∧
  let w' := exec (json_trace json_late_bystanders) object_stored in
  (Forall (λ c, ¬ json_writes "obj" c) json_late_bystanders →
   now w' < now web_before_sweep + 60 →
   ∃ v' : JsonValue,
     JSON_stringify v' = Some (item_text test_object) ∧ json_wf v' ∧
     eval (getJson "obj") w' = inr v') ∧
  (Forall (λ c, ¬ json_sets "obj" c) json_late_bystanders →
   now web_before_sweep + 60 ≤ now w' →
   eval (getJson (V := JsonValue) "obj") w' = inr json_null).
Proof.
  split; [split_and!;
    [apply good_web_before_sweep|done..|apply json_late_bystanders_ok]|].
  apply (getJson_served "obj" test_object (item_text test_object) 60
           json_late_bystanders web_before_sweep);
    [apply good_web_before_sweep|done..|apply json_late_bystanders_ok].
Defined.

Lemma getJson_served_value_witness :
  (good web_before_sweep ∧ record_of "obj" = None ∧ 0 < 60 ∧
   wf_value test_object = true ∧ is_Some (stringify test_object) ∧
   st_stored WebStore (JString (item_text test_object)) =
     JString (item_text test_object) ∧
   Forall json_call_ok json_bystanders ∧
   Forall (λ c, ¬ json_writes "obj" c) json_bystanders ∧
   now (exec (json_trace json_bystanders) object_stored)
   < now web_before_sweep + 60) ∧
  eval (getJson "obj") (exec (json_trace json_bystanders) object_stored)
  = inr (revive test_object) ∧
  (plain test_object = true → revive test_object = test_object).
Proof.
  assert (Forall (λ c, ¬ json_writes "obj" c) json_bystanders) as Hw.
  { apply (bool_decide_unpack _). by vm_compute. }
  assert (now (exec (json_trace json_bystanders) object_stored)
          < now web_before_sweep + 60) as Ht by by vm_compute.
  split; [split_and!; [apply good_web_before_sweep|done|done|done|by eexists
                      |done|apply json_bystanders_ok|done|done]|].
  apply (getJson_served_value "obj" test_object 60 json_bystanders
           web_before_sweep);
    [apply good_web_before_sweep|done|done|done|by eexists|done
    |apply json_bystanders_ok|done|done].
Defined.

(** What [getJson] answers after each of the two sequences. *)
Example getJson_served_values :
  eval (getJson "obj") (exec (json_trace json_bystanders) object_stored)
  = inr test_object_read ∧
  eval (getJson (V := JsonValue) "obj")
    (exec (json_trace json_late_bystanders) object_stored)
  = inr JVNull ∧
  (eval (json_trace json_bystanders) object_stored).*2 =
  [RPlain RUnit; RSetJson (inr JUndefined);
   RGetJson (inr (JVArray [JVNull])); RSetJson (inl CannotSetUndefined);
   RPlain RUnit; RPlain (RKeys ["test"; "test2"; "stay"; "other"]);
   RGetJson (inr JVNull)].
Proof. by vm_compute. Qed.
End witnesses.
