(* ===== verification/Raw.v ===== *)
(** * Raw: the store used beside the class

    The class keeps nothing of its own: an entry is what the store
    holds under its key and under the key of its expiry record, and the
    store is open to the page that made it.  This file runs the calls of
    the class together with calls made to the store directly,
    [this._storage.setItem], [removeItem] and [getItem] ([RawCall]), and
    gives them a specification on the abstract store of [Spec]:

    - a value written directly under a key of the user is an entry of
      the class, with the expiry the key had; a value removed directly
      leaves its expiry behind;
    - a write under the key of an expiry record sets the instant at
      which the entry expires, to what [parseInt] reads in the value,
      and takes the expiry away when it reads no number; removing the
      record takes the expiry away.

    [raw_trace_refinement]: a sequence of calls of the class and of
    direct calls is a trace of that specification, and keeps the store
    well formed, as long as no key with an expiry record looks like a
    record itself.  So the persisted layout is an interface: an entry
    whose record is removed by hand lives for ever
    ([record_removed_lives]), and a number written by hand under the
    key of a record is the expiry [updateExpiration] would have set
    ([Guarantees.updateExpiration_served]). *)

From S2P Require Import Prelude Js Dict Storage ExpiredStorage.
From S2P Require Import TestStorage WebStorage TestSuite Expiry Sweep.
From S2P Require Import Spec Machine Guarantees.

(** * Calls of the class and of the store *)

Inductive RawCall : Type :=
  | ViaClass (c : Call)
  | RawSetItem (k : string) (v : JSValue)
  | RawRemoveItem (k : string)
  | RawGetItem (k : string).

Inductive RawResult : Type :=
  | RClass (r : Result)
  | RRaw (v : JSValue).

#[export] Instance RawCall_eq_dec : EqDecision RawCall.
Proof. solve_decision. Defined.

#[export] Instance RawResult_eq_dec : EqDecision RawResult.
Proof. solve_decision. Defined.

(** The keys a direct write may use: those that are not records, and
    the records of those. *)
Definition proper (k : string) : Prop :=
  match record_of k with
  | None => True
  | Some key => record_of key = None
  end.

#[export] Instance proper_dec k : Decision (proper k).
Proof. unfold proper. destruct (record_of k); apply _. Defined.

(** The calls the specification covers; a direct read is of a key of the
    user. *)
Definition raw_call_ok (c : RawCall) : Prop :=
  match c with
  | ViaClass c => call_ok c
  | RawSetItem k _ | RawRemoveItem k => proper k
  | RawGetItem k => record_of k = None
  end.

#[export] Instance raw_call_ok_dec c : Decision (raw_call_ok c).
Proof. destruct c; cbn [raw_call_ok]; apply _. Defined.

(** ** The specification of the direct calls *)

Section spec.
Implicit Types (m : Spec) (k : string) (v : JSValue).

Definition spec_raw_setItem k v m : Spec :=
  match record_of k with
  | None => mkSpec (<[k := v]> (spec_values m)) (spec_expiries m)
  | Some key =>
      mkSpec (spec_values m)
        (partial_alter (λ _, expiry_of v) key (spec_expiries m))
  end.

Definition spec_raw_removeItem k m : Spec :=
  match record_of k with
  | None => mkSpec (delete k (spec_values m)) (spec_expiries m)
  | Some key => mkSpec (spec_values m) (delete key (spec_expiries m))
  end.
End spec.

Section machine.
Context {St : Type} `{StorageLaws St}.
Implicit Types (w : World St) (c : RawCall) (r : RawResult) (a : AWorld).
Implicit Types (cs : list RawCall).

Definition raw_call c : State (World St) RawResult :=
  match c with
  | ViaClass c => ret ← call c; mret (RClass ret)
  | RawSetItem k v => ret ← storage_setItem k v; mret (RRaw ret)
  | RawRemoveItem k => ret ← storage_removeItem k; mret (RRaw ret)
  | RawGetItem k => ret ← storage_getItem k; mret (RRaw ret)
  end.

Fixpoint raw_trace cs : State (World St) (list (RawCall * RawResult)) :=
  match cs with
  | [] => mret []
  | c :: cs => r ← raw_call c; tr ← raw_trace cs; mret ((c, r) :: tr)
  end.

Definition spec_raw_step c a : AWorld :=
  match c with
  | ViaClass c => spec_step St c a
  | RawSetItem k v =>
      mkAWorld (a_date a) (spec_raw_setItem k (st_stored St v) (a_entries a))
  | RawRemoveItem k => mkAWorld (a_date a) (spec_raw_removeItem k (a_entries a))
  | RawGetItem _ => a
  end.

(** A direct read answers the value the key holds, expired or not, and
    what the store answers for a key it does not hold. *)
Definition spec_raw_result c a r : Prop :=
  match c, r with
  | ViaClass c, RClass r => spec_result c a r
  | RawGetItem k, RRaw v =>
      v = default (st_absent St) (spec_values (a_entries a) !! k)
  | RawSetItem _ _, RRaw _ | RawRemoveItem _, RRaw _ => True
  | _, _ => False
  end.

Inductive spec_raw_steps
    : AWorld → list (RawCall * RawResult) → AWorld → Prop :=
  | spec_raw_steps_nil a : spec_raw_steps a [] a
  | spec_raw_steps_cons a c r tr a' :
      spec_raw_result c a r → spec_raw_steps (spec_raw_step c a) tr a' →
      spec_raw_steps a ((c, r) :: tr) a'.
End machine.

Arguments spec_raw_step St {_ _} c a.
Arguments spec_raw_steps St {_ _} a tr a'.

(** * What a direct call does *)

Section direct.
Context {St : Type} `{StorageLaws St}.
Implicit Types (w : World St) (k key : string) (v : JSValue).

Lemma model_raw_setItem k v w :
  st_model (storage (exec (storage_setItem k v) w)) =
  <[k := st_stored St v]> (st_model (storage w)).
Proof.
  unfold exec, storage_setItem. rewrite on_storage_run. apply st_setItem_model.
Qed.

Lemma model_raw_removeItem k w :
  st_model (storage (exec (storage_removeItem k) w)) =
  delete k (st_model (storage w)).
Proof.
  unfold exec, storage_removeItem. rewrite on_storage_run.
  apply st_removeItem_model.
Qed.

Lemma keeps_raw_setItem k v : keeps (storage_setItem (St := St) k v).
Proof.
  intros w. unfold exec, storage_setItem. rewrite on_storage_run.
  split; [done|]. apply st_setItem_wf.
Qed.

Lemma keeps_raw_removeItem k : keeps (storage_removeItem (St := St) k).
Proof.
  intros w. unfold exec, storage_removeItem. rewrite on_storage_run.
  split; [done|]. apply st_removeItem_wf.
Qed.

(** A write that [touches] an entry, by what it leaves under the key
    and under its record. *)
Lemma abs_written w w' key (value : option JSValue) (t : option Z) :
  record_of key = None → touches key w w' →
  st_model (storage w') !! key = value → expiry key w' = t →
  abs w' =
  mkSpec (partial_alter (λ _, value) key (spec_values (abs w)))
    (partial_alter (λ _, t) key (spec_expiries (abs w))).
Proof. intros Hkey Ht <- <-. by apply abs_touches. Qed.

(** Under a key of the user. *)
Lemma refines_raw_setItem k v w :
  inv w → record_of k = None →
  let w' := exec (storage_setItem k v) w in
  abs w' = spec_raw_setItem k (st_stored St v) (abs w) ∧ inv w'.
Proof.
  intros Hinv Hk w'. unfold spec_raw_setItem. rewrite Hk.
  assert (touches k w w') as Ht.
  { intros k' ? ?. unfold w'. by rewrite model_raw_setItem, lookup_insert_ne. }
  split; [|by apply (inv_touches w w' k)].
  rewrite (abs_written w w' k (Some (st_stored St v)) (expiry k w));
    [|done|done|unfold w'; by rewrite model_raw_setItem, lookup_insert_eq|].
  - f_equal. rewrite <- lookup_abs_expiry. apply partial_alter_self.
  - apply expiry_ext. unfold w'. rewrite model_raw_setItem.
    apply lookup_insert_ne. by apply record_of_None_ne.
Qed.

Lemma refines_raw_removeItem k w :
  inv w → record_of k = None →
  let w' := exec (storage_removeItem k) w in
  abs w' = spec_raw_removeItem k (abs w) ∧ inv w'.
Proof.
  intros Hinv Hk w'. unfold spec_raw_removeItem. rewrite Hk.
  assert (touches k w w') as Ht.
  { intros k' ? ?. unfold w'. by rewrite model_raw_removeItem, lookup_delete_ne. }
  split; [|by apply (inv_touches w w' k)].
  rewrite (abs_written w w' k None (expiry k w));
    [|done|done|unfold w'; by rewrite model_raw_removeItem, lookup_delete_eq|].
  - f_equal. rewrite <- lookup_abs_expiry. apply partial_alter_self.
  - apply expiry_ext. unfold w'. rewrite model_raw_removeItem.
    apply lookup_delete_ne. by apply record_of_None_ne.
Qed.

(** Under the key of an expiry record. *)
Lemma refines_raw_setItem_record key v w :
  inv w → record_of key = None →
  let w' := exec (storage_setItem (expiry_key key) v) w in
  abs w' = spec_raw_setItem (expiry_key key) (st_stored St v) (abs w) ∧ inv w'.
Proof.
  intros Hinv Hkey w'. unfold spec_raw_setItem.
  rewrite record_of_expiry_key.
  assert (touches key w w') as Ht.
  { intros k' ? ?. unfold w'. by rewrite model_raw_setItem, lookup_insert_ne. }
  split; [|by apply (inv_touches w w' key)].
  rewrite (abs_written w w' key (st_model (storage w) !! key)
             (expiry_of (st_stored St v))); [|done|done| |].
  - f_equal. rewrite <- (lookup_abs_value w key) by done.
    apply partial_alter_self.
  - unfold w'. rewrite model_raw_setItem.
    apply lookup_insert_ne, not_eq_sym. by apply record_of_None_ne.
  - rewrite expiry_expiry_of. unfold w'.
    by rewrite model_raw_setItem, lookup_insert_eq.
Qed.

Lemma refines_raw_removeItem_record key w :
  inv w → record_of key = None →
  let w' := exec (storage_removeItem (expiry_key key)) w in
  abs w' = spec_raw_removeItem (expiry_key key) (abs w) ∧ inv w'.
Proof.
  intros Hinv Hkey w'. unfold spec_raw_removeItem.
  rewrite record_of_expiry_key.
  assert (touches key w w') as Ht.
  { intros k' ? ?. unfold w'. by rewrite model_raw_removeItem, lookup_delete_ne. }
  split; [|by apply (inv_touches w w' key)].
  rewrite (abs_written w w' key (st_model (storage w) !! key) None);
    [|done|done| |].
  - f_equal. rewrite <- (lookup_abs_value w key) by done.
    apply partial_alter_self.
  - unfold w'. rewrite model_raw_removeItem.
    apply lookup_delete_ne, not_eq_sym. by apply record_of_None_ne.
  - apply expiry_absent. unfold w'.
    by rewrite model_raw_removeItem, lookup_delete_eq.
Qed.

(** A key is a key of the user or the record of one. *)
Lemma proper_cases k :
  proper k → record_of k = None ∨ ∃ key, k = expiry_key key ∧ record_of key = None.
Proof.
  unfold proper. destruct (record_of k) as [key|] eqn:Hk; [|by left].
  apply record_of_Some in Hk. right. eauto.
Qed.
End direct.

(** * Every call implements its specification *)

Section refinement.
Context {St : Type} `{ListableStorage St}.
Implicit Types (w : World St) (c : RawCall) (cs : list RawCall).
Implicit Types (k key : string) (v : JSValue).

Definition raw_refines c w : Prop :=
  spec_raw_result (St := St) c (abs_world w) (eval (raw_call c) w) ∧
  abs_world (exec (raw_call c) w) = spec_raw_step St c (abs_world w) ∧
  good (exec (raw_call c) w).

Lemma raw_call_run {A} (m : State (World St) A) (f : A → RawResult) w :
  (ret ← m; mret (f ret)) w = (f (eval m w), exec m w).
Proof. by rewrite run_bind, (run_eval_exec m). Qed.

(** A direct write that implements its specification refines it. *)
Lemma raw_write_refines (m : State (World St) JSValue) (entries : Spec) w :
  good w → keeps m → abs (exec m w) = entries → inv (exec m w) →
  abs_world (exec m w) = mkAWorld (date w) entries ∧ good (exec m w).
Proof.
  intros Hgood Hm Habs Hinv.
  split; [by apply keeps_abs_world|by apply keeps_good].
Qed.

Lemma refines_RawSetItem k v w :
  good w → proper k → raw_refines (RawSetItem k v) w.
Proof.
  intros Hgood Hk. unfold raw_refines, eval, exec. cbn [raw_call].
  rewrite raw_call_run. cbn [fst snd spec_raw_result spec_raw_step].
  split; [done|].
  destruct (proper_cases k Hk) as [Hu|(key & -> & Hkey)].
  - destruct (refines_raw_setItem k v w) as [Ha Hi]; [apply Hgood|done|].
    by apply raw_write_refines; [|apply keeps_raw_setItem|..].
  - destruct (refines_raw_setItem_record key v w) as [Ha Hi];
      [apply Hgood|done|].
    by apply raw_write_refines; [|apply keeps_raw_setItem|..].
Qed.

Lemma refines_RawRemoveItem k w :
  good w → proper k → raw_refines (RawRemoveItem k) w.
Proof.
  intros Hgood Hk. unfold raw_refines, eval, exec. cbn [raw_call].
  rewrite raw_call_run. cbn [fst snd spec_raw_result spec_raw_step].
  split; [done|].
  destruct (proper_cases k Hk) as [Hu|(key & -> & Hkey)].
  - destruct (refines_raw_removeItem k w) as [Ha Hi]; [apply Hgood|done|].
    by apply raw_write_refines; [|apply keeps_raw_removeItem|..].
  - destruct (refines_raw_removeItem_record key w) as [Ha Hi];
      [apply Hgood|done|].
    by apply raw_write_refines; [|apply keeps_raw_removeItem|..].
Qed.

Lemma refines_RawGetItem k w :
  good w → record_of k = None → raw_refines (RawGetItem k) w.
Proof.
  intros Hgood Hk. unfold raw_refines, eval, exec. cbn [raw_call].
  rewrite raw_call_run. cbn [fst snd spec_raw_result spec_raw_step].
  split_and!; [|done..]. cbn [abs_world a_entries].
  rewrite lookup_abs_value by done. apply st_getItem_model.
Qed.

Lemma raw_call_refines c w : good w → raw_call_ok c → raw_refines c w.
Proof.
  intros Hgood Hc. destruct c as [c|k v|k|k]; cbn [raw_call_ok] in Hc.
  - destruct (call_refines c w Hgood Hc) as (Hr & Ha & Hg).
    unfold raw_refines, eval, exec. cbn [raw_call].
    by rewrite raw_call_run.
  - by apply refines_RawSetItem.
  - by apply refines_RawRemoveItem.
  - by apply refines_RawGetItem.
Qed.

Lemma raw_trace_cons c cs w :
  raw_trace (c :: cs) w =
  ((c, eval (raw_call c) w) :: eval (raw_trace cs) (exec (raw_call c) w),
   exec (raw_trace cs) (exec (raw_call c) w)).
Proof.
  cbn [raw_trace]. rewrite run_bind, (run_eval_exec (raw_call c)).
  by rewrite run_bind, (run_eval_exec (raw_trace cs)).
Qed.

Lemma raw_trace_refines cs w :
  good w → Forall raw_call_ok cs →
  spec_raw_steps St (abs_world w) (eval (raw_trace cs) w)
    (abs_world (exec (raw_trace cs) w)) ∧
  good (exec (raw_trace cs) w).
Proof.
  revert w. induction cs as [|c cs IH]; intros w Hgood Hcs.
  { split; [constructor|done]. }
  apply Forall_cons in Hcs as [Hc Hcs].
  destruct (raw_call_refines c w Hgood Hc) as (Hr & Ha & Hg).
  destruct (IH _ Hg Hcs) as [Hsteps Hgood'].
  unfold eval, exec. rewrite raw_trace_cons. cbn [fst snd].
  split; [|done]. constructor; [done|]. by rewrite <- Ha.
Qed.

(** C13. A sequence of calls of the class and of direct calls to the store,
    on the keys of the user and on their expiry records, is a trace of
    the specification: a value written or removed directly is an entry
    written or removed, its expiry left as it was; an expiry record
    written directly sets the expiry of its entry to the number
    [parseInt] reads in it, if any; and the store stays well formed. *)
Theorem raw_trace_refinement cs w :
  good w → Forall raw_call_ok cs →
  spec_raw_steps St (abs_world w) (eval (raw_trace cs) w)
    (abs_world (exec (raw_trace cs) w)) ∧
  good (exec (raw_trace cs) w).
Proof. apply raw_trace_refines. Qed.

(** ** The persisted layout as an interface *)

(** The world after one direct call. *)
Lemma after_raw c w :
  good w → raw_call_ok c →
  good (exec (raw_call c) w) ∧
  abs (exec (raw_call c) w) = a_entries (spec_raw_step St c (abs_world w)).
Proof.
  intros Hgood Hc. destruct (raw_call_refines c w Hgood Hc) as (_ & Ha & Hg).
  split; [done|]. by rewrite <- Ha.
Qed.

Lemma exec_raw_setItem k v w :
  exec (raw_call (RawSetItem k v)) w = exec (storage_setItem k v) w.
Proof. unfold exec. cbn [raw_call]. by rewrite raw_call_run. Qed.

Lemma exec_raw_removeItem k w :
  exec (raw_call (RawRemoveItem k)) w = exec (storage_removeItem k) w.
Proof. unfold exec. cbn [raw_call]. by rewrite raw_call_run. Qed.

Lemma expiry_of_Num t : t ≠ 0 → expiry_of (st_stored St (JNumber (Num t))) = Some t.
Proof.
  intros Ht. unfold expiry_of.
  by rewrite st_stored_parseInt, parseInt_number, decide_False.
Qed.

(** An entry whose expiry record is removed by hand lives for ever:
    [getItem] returns it after any sequence of calls and however much
    time has passed, short of calls that write its key. *)
Theorem record_removed_lives key (value : JSValue) d (cs : list Call) w :
  good w → record_of key = None → 0 < d →
  Forall call_ok cs → Forall (λ made : Call, ¬ writes key made) cs →
  let w1 := exec (storage_removeItem (expiry_key key))
              (exec (setItem key value (Num d)) w) in
  eval (getItem key) (exec (trace cs) w1) = st_stored St value.
Proof.
  intros Hgood Hkey Hd Hcs Hw w1.
  destruct (after_setItem key value d w) as [Hg [Hv _]]; [done..|].
  destruct (after_raw (RawRemoveItem (expiry_key key)) _ Hg) as [Hg1 Ha].
  { cbn. unfold proper. by rewrite record_of_expiry_key. }
  rewrite exec_raw_removeItem in Hg1, Ha. fold w1 in Hg1, Ha.
  apply lasts_served; [done..| |done|done].
  unfold lasts. cbn [abs_world a_entries]. rewrite Ha.
  cbn [spec_raw_step a_entries]. unfold spec_raw_removeItem.
  rewrite record_of_expiry_key. cbn [spec_values spec_expiries].
  split; [done|apply lookup_delete_eq].
Qed.
End refinement.

(** * On the stores of the test suite *)

(** A session in which the page uses the store beside the class: it
    writes "a" through the class for 10 seconds and "b" directly,
    pushes the expiry of "a" to the instant 100 by hand, removes "b"
    directly, and reads both after 50 seconds. *)
Definition raw_session : list RawCall :=
  [ViaClass (CSetItem "a" (JString "x") (Some 10));
   RawSetItem "b" (JString "y");
   RawSetItem "__expired_storage_ts__a" (JNumber (Num 100));
   ViaClass (CGetTimeLeft "a"); ViaClass (CTick 50000);
   RawGetItem "b"; RawRemoveItem "b"; ViaClass (CGetItem "a");
   ViaClass (CGetItem "b"); ViaClass (CKeys true);
   RawRemoveItem "__expired_storage_ts__a"; ViaClass (CTick 100000);
   ViaClass (CGetItem "a")].

Section witnesses.

Lemma raw_session_ok : Forall raw_call_ok raw_session.
Proof. apply (bool_decide_unpack _). by vm_compute. Qed.

Lemma raw_trace_refinement_witness :
  (good web_browser ∧ Forall raw_call_ok raw_session) ∧
  spec_raw_steps WebStore (abs_world web_browser)
    (eval (raw_trace raw_session) web_browser)
    (abs_world (exec (raw_trace raw_session) web_browser)) ∧
  good (exec (raw_trace raw_session) web_browser).
Proof.
  split; [split; [apply good_web_browser|apply raw_session_ok]|].
  apply raw_trace_refinement; [apply good_web_browser|apply raw_session_ok].
Defined.

Lemma record_removed_lives_witness :
  (good web_browser ∧ record_of "k" = None ∧ 0 < 10 ∧
   Forall call_ok late_bystanders ∧
   Forall (λ c, ¬ writes "k" c) late_bystanders) ∧
  eval (getItem "k")
    (exec (trace late_bystanders)
       (exec (storage_removeItem (expiry_key "k"))
          (exec (setItem "k" (JString "v") (Num 10)) web_browser)))
  = st_stored WebStore (JString "v").
Proof.
  assert (Forall call_ok late_bystanders) as Hok.
  { apply (bool_decide_unpack _). by vm_compute. }
  assert (Forall (λ c, ¬ writes "k" c) late_bystanders) as Hw.
  { apply (bool_decide_unpack _). by vm_compute. }
  split; [split_and!; [apply good_web_browser|done..]|].
  apply (record_removed_lives "k" (JString "v") 10 late_bystanders
           web_browser); [apply good_web_browser|done..].
Defined.

(** The results of the session: the time left of "a" is what the record
    written by hand says; "b" is read and removed directly; once its
    record is removed "a" is served long after the instant 100. *)
Example raw_session_trace :
  (eval (raw_trace raw_session) web_browser).*2 =
  [RClass (RValue JUndefined); RRaw JUndefined; RRaw JUndefined;
   RClass (RTimeLeft (Some (Num 100))); RClass RUnit; RRaw (JString "y");
   RRaw JUndefined; RClass (RValue (JString "x")); RClass (RValue JNull);
   RClass (RKeys ["a"]); RRaw JUndefined; RClass RUnit;
   RClass (RValue (JString "x"))].
Proof. by vm_compute. Qed.
End witnesses.
