(* ===== verification/Observe.v ===== *)
(** * Observe: worlds that read alike, and stores that serve alike

    The class keeps nothing of its own: what a method answers depends on
    what the backing store reads and on the clock.  The first part makes
    this a setoid.  Two worlds over one kind of store are equivalent
    ([≡]) when their stores stand for the same finite map and their
    clocks show the same time, whatever the representation (the order in
    which a dictionary holds its properties) and whatever the browser
    ([Object.keys] or none).  Every method of the class is a morphism:
    it answers alike in equivalent worlds and leaves them equivalent
    ([Proper] instances, so that [rewrite] works with [≡]); [keys] and
    [clearExpired], which walk the store in its order, answer with the
    same keys in some order.

    The second part compares two kinds of store, such as web storage and
    the dictionary of the tests, which the test suite runs the same
    tests on.  They do not hold the same map (web storage keeps an
    expiry instant as text, the dictionary as a number), but they can
    stand for the same abstract store ([Spec.abs]), and then
    [store_independence] shows that a sequence of calls is answered
    alike on both, through the refinement of [Machine]: the
    specification is deterministic but for the order of keys. *)

From S2P Require Import Prelude Js Dict Storage ExpiredStorage.
From S2P Require Import TestStorage WebStorage TestSuite Expiry Sweep.
From S2P Require Import Spec Machine.

(** * Worlds that read alike *)

Section alike.
Context {St : Type} `{StorageLaws St}.
Implicit Types (w : World St) (key k : string).
Implicit Types (value expiration : JSValue).

#[export] Instance world_equiv : Equiv (World St) := λ w1 w2,
  st_model (storage w1) = st_model (storage w2) ∧ date w1 = date w2.

#[export] Instance world_equivalence : Equivalence (≡@{World St}).
Proof.
  split; [done|by intros w1 w2 [? ?]|].
  intros w1 w2 w3 [? ?] [? ?]. split; congruence.
Qed.

(** A method serves equivalent worlds alike: its results are related by
    [R] and the worlds it leaves are equivalent. *)
Abbreviation serves_alike R m := (Proper ((≡) ==> prod_relation R (≡)) m)
  (only parsing).

(** ** What the class reads *)

#[export] Instance now_proper : Proper ((≡) ==> (=)) (now (St := St)).
Proof. intros w1 w2 [_ Hd]. unfold now. by rewrite Hd. Qed.

Lemma st_getItem_alike key w1 w2 :
  w1 ≡ w2 → st_getItem key (storage w1) = st_getItem key (storage w2).
Proof. intros [Hm _]. by rewrite !st_getItem_model, Hm. Qed.

#[export] Instance expiry_proper key : Proper ((≡) ==> (=)) (expiry key).
Proof. intros w1 w2 [Hm _]. apply expiry_ext. by rewrite Hm. Qed.

#[export] Instance expired_proper key : Proper ((≡) ==> (=)) (expired key).
Proof.
  intros w1 w2 Hw. unfold expired.
  by rewrite (expiry_proper key _ _ Hw), (now_proper _ _ Hw).
Qed.

#[export] Instance advance_proper ms : Proper ((≡) ==> (≡)) (advance ms).
Proof. intros w1 w2 [Hm Hd]. split; cbn; congruence. Qed.

(** ** The methods that write *)

#[export] Instance updateExpiration_proper key expiration :
  Proper ((≡) ==> (≡)) (exec (updateExpiration key expiration)).
Proof.
  intros w1 w2 Hw. split.
  - by rewrite !model_updateExpiration, (proj1 Hw), (now_proper _ _ Hw).
  - rewrite !(proj1 (keeps_updateExpiration _ _ _)). apply Hw.
Qed.

#[export] Instance setItem_proper key value expiration :
  Proper ((≡) ==> (≡)) (exec (setItem key value expiration)).
Proof.
  intros w1 w2 Hw. split.
  - by rewrite !model_setItem, (proj1 Hw), (now_proper _ _ Hw).
  - rewrite !(proj1 (keeps_setItem _ _ _ _)). apply Hw.
Qed.

#[export] Instance removeItem_proper key :
  Proper ((≡) ==> (≡)) (exec (removeItem key)).
Proof.
  intros w1 w2 Hw. split.
  - by rewrite !model_removeItem, (proj1 Hw).
  - rewrite !(proj1 (keeps_removeItem _ _)). apply Hw.
Qed.

#[export] Instance clear_proper : Proper ((≡) ==> (≡)) (exec (clear (St := St))).
Proof.
  intros w1 w2 Hw. split; [|apply Hw].
  unfold exec. rewrite !clear_run. cbn. by rewrite !st_clear_model.
Qed.

(** ** The methods that read *)

#[export] Instance getTimeLeft_alike key : serves_alike (=) (getTimeLeft key).
Proof.
  intros w1 w2 Hw. rewrite !getTimeLeft_run. split; [cbn|done].
  by rewrite (expiry_proper key _ _ Hw), (now_proper _ _ Hw).
Qed.

#[export] Instance isExpired_alike key : serves_alike (=) (isExpired key).
Proof.
  intros w1 w2 Hw. rewrite !isExpired_run. split; [cbn|done].
  by apply expired_proper.
Qed.

#[export] Instance peek_alike key : serves_alike (=) (peek key).
Proof.
  intros w1 w2 Hw. rewrite !peek_run. split; [cbn|done].
  by rewrite (st_getItem_alike key _ _ Hw), (expiry_proper key _ _ Hw),
    (now_proper _ _ Hw), (expired_proper key _ _ Hw).
Qed.

#[export] Instance getItem_alike key : serves_alike (=) (getItem key).
Proof.
  intros w1 w2 Hw. rewrite !getItem_run, (expired_proper key _ _ Hw).
  destruct (expired key w2); split; cbn;
    [done|by apply removeItem_proper|by apply st_getItem_alike|done].
Qed.

(** What a method that serves alike returns, and the world it leaves. *)
#[export] Instance eval_proper {A} (R : relation A) (m : State (World St) A) :
  serves_alike R m → Proper ((≡) ==> R) (eval m).
Proof. intros Hm w1 w2 Hw. apply (Hm w1 w2 Hw). Qed.

#[export] Instance exec_proper {A} (R : relation A) (m : State (World St) A) :
  serves_alike R m → Proper ((≡) ==> (≡)) (exec m).
Proof. intros Hm w1 w2 Hw. apply (Hm w1 w2 Hw). Qed.

(** The abstract store of equivalent worlds is the same. *)
Lemma equiv_abs_world w1 w2 : w1 ≡ w2 → abs_world w1 = abs_world w2.
Proof.
  intros Hw. unfold abs_world. rewrite (proj2 Hw). f_equal.
  apply abs_ext; [apply lookup_abs_value_record|..]; intros key.
  - intros Hkey. by rewrite lookup_abs_value, (proj1 Hw).
  - by rewrite lookup_abs_expiry, (expiry_proper key _ _ Hw).
Qed.
End alike.

(** * The methods that walk the store *)

(** Two arrays that enumerate one map hold the same keys. *)
Lemma enumerates_Permutation l1 l2 (m : gmap string JSValue) :
  enumerates l1 m → enumerates l2 m → l1 ≡ₚ l2.
Proof.
  intros [Hn1 H1] [Hn2 H2]. apply NoDup_Permutation; [done..|].
  intros k. by rewrite H1, H2.
Qed.

(** An array without repetition has no two records of one item. *)
Lemma NoDup_omap_record_of l : NoDup l → NoDup (omap record_of l).
Proof.
  induction 1 as [|sk l Hsk Hl IH]; csimpl; [constructor|].
  destruct (record_of sk) as [k|] eqn:Hk; [|done]. constructor; [|done].
  rewrite list_elem_of_omap. intros (sk' & Hin & Hk').
  apply record_of_Some in Hk, Hk'. congruence.
Qed.

Section walks.
Context {St : Type} `{ListableStorage St}.
Implicit Types (w : World St) (key k : string).

(** [keys] lists no key twice. *)
Lemma keys_NoDup includeExpired w :
  st_wf (storage w) → NoDup (eval (keys includeExpired) w).
Proof.
  intros Hwf. destruct (st_snapshot_enumerates w Hwf) as (l & Hl & Hnd & _).
  unfold eval. rewrite (keys_iterated _ _ _ Hl). by apply NoDup_filter.
Qed.

(** [keys] in equivalent worlds: the same keys, in the order of each
    store. *)
Lemma keys_alike includeExpired w1 w2 :
  st_wf (storage w1) → st_wf (storage w2) → w1 ≡ w2 →
  eval (keys includeExpired) w1 ≡ₚ eval (keys includeExpired) w2.
Proof.
  intros Hwf1 Hwf2 Hw.
  destruct (st_snapshot_enumerates w1 Hwf1) as (l1 & Hl1 & He1).
  destruct (st_snapshot_enumerates w2 Hwf2) as (l2 & Hl2 & He2).
  unfold eval. rewrite (keys_iterated _ _ _ Hl1), (keys_iterated _ _ _ Hl2).
  cbn. rewrite (proj1 Hw) in He1.
  rewrite (enumerates_Permutation _ _ _ He1 He2).
  erewrite list_filter_iff; [done|]. intros k. unfold listed.
  by rewrite (expired_proper k _ _ Hw).
Qed.

(** What [clearExpired] returns in a good world: the items of the
    records of the array that are expired. *)
Lemma clearExpired_good w l :
  good w → iterated w l → enumerates l (st_model (storage w)) →
  clearExpired w = sweep l w ∧
  (sweep l w).1 = filter (λ key, expired key w = true) (omap record_of l).
Proof.
  intros (_ & Hinv & _) Hl Henum. split; [by apply clearExpired_iterated|].
  apply sweep_exact; [apply Henum| |done].
  intros key. by apply flat_record_of, (inv_flat w).
Qed.

(** [clearExpired] returns no key twice. *)
Lemma clearExpired_NoDup w : good w → NoDup (eval clearExpired w).
Proof.
  intros Hgood.
  destruct (st_snapshot_enumerates w) as (l & Hl & Henum); [apply Hgood|].
  destruct (clearExpired_good w l) as [Hrun Hret]; [done..|].
  unfold eval. rewrite Hrun, Hret.
  apply NoDup_filter, NoDup_omap_record_of, Henum.
Qed.

(** [clearExpired] in equivalent worlds: the same keys come back, in the
    order of each store, and the worlds stay equivalent. *)
Lemma clearExpired_alike w1 w2 :
  good w1 → good w2 → w1 ≡ w2 →
  eval clearExpired w1 ≡ₚ eval clearExpired w2 ∧
  exec clearExpired w1 ≡ exec clearExpired w2.
Proof.
  intros Hg1 Hg2 Hw.
  destruct (st_snapshot_enumerates w1) as (l1 & Hl1 & He1); [apply Hg1|].
  destruct (st_snapshot_enumerates w2) as (l2 & Hl2 & He2); [apply Hg2|].
  destruct (clearExpired_good w1 l1) as [Hrun1 Hret1]; [done..|].
  destruct (clearExpired_good w2 l2) as [Hrun2 Hret2]; [done..|].
  assert (l1 ≡ₚ l2) as Hl.
  { rewrite (proj1 Hw) in He1. by eapply enumerates_Permutation. }
  assert ((sweep l1 w1).1 ≡ₚ (sweep l2 w2).1) as Hret.
  { rewrite Hret1, Hret2, Hl. erewrite list_filter_iff; [done|].
    intros k. by rewrite (expired_proper k _ _ Hw). }
  unfold eval, exec. rewrite Hrun1, Hrun2. split; [done|]. split.
  - apply map_eq. intros k. rewrite !lookup_sweep, (proj1 Hw).
    apply decide_ext. unfold removed. by rewrite Hret.
  - rewrite !(proj1 (keeps_sweep _ _)). apply Hw.
Qed.
End walks.

(** * Stores that serve alike *)

(** A store whose [setItem] and [removeItem] return nothing, as those of
    web storage and of the dictionaries of the repository do: the class
    hands on what they return. *)
Class VoidStorage (St : Type) `{Storage St} : Prop := {
  st_setItem_undefined k v (s : St) : (st_setItem k v s).1 = JUndefined;
  st_removeItem_undefined k (s : St) : (st_removeItem k s).1 = JUndefined;
}.

#[global] Hint Mode VoidStorage ! - : typeclass_instances.

#[export] Instance testStorage_void : VoidStorage JSObject.
Proof. by split. Qed.

#[export] Instance readmeStorage_void : VoidStorage ReadmeStore.
Proof. by split. Qed.

#[export] Instance bareStorage_void : VoidStorage BareStore.
Proof. by split. Qed.

#[export] Instance ownStorage_void : VoidStorage OwnStore.
Proof. by split. Qed.

#[export] Instance localStorage_void : VoidStorage WebStore.
Proof. by split. Qed.

(** Two results are the same when they are equal, or list the same keys
    in some order. *)
Definition same_result (r1 r2 : Result) : Prop :=
  match r1, r2 with
  | RKeys l1, RKeys l2 => l1 ≡ₚ l2
  | _, _ => r1 = r2
  end.

#[export] Instance same_result_refl : Reflexive same_result.
Proof. intros []; cbn; reflexivity. Qed.

(** Two traces are the same when they are of the same calls with the
    same results. *)
Definition same_trace (tr1 tr2 : list (Call * Result)) : Prop :=
  Forall2 (λ s1 s2, s1.1 = s2.1 ∧ same_result s1.2 s2.2) tr1 tr2.

(** ** The specification is deterministic

    It leaves open what [setItem] and [removeItem] return and in which
    order keys are listed, and nothing else. *)

Definition spec_same (c : Call) (r1 r2 : Result) : Prop :=
  match c, r1, r2 with
  | (CSetItem _ _ _ | CRemoveItem _ | CUpdateExpiration _ _),
    RValue _, RValue _ => True
  | (CKeys _ | CClearExpired), RKeys l1, RKeys l2 => ∀ k, k ∈ l1 ↔ k ∈ l2
  | _, _, _ => r1 = r2
  end.

Lemma spec_result_deterministic c a r1 r2 :
  spec_result c a r1 → spec_result c a r2 → spec_same c r1 r2.
Proof.
  destruct c, r1, r2; cbn; try done; try congruence.
  - intros H1 H2 k. by rewrite H1, H2.
  - intros H1 H2 k. by rewrite H1, H2.
Qed.

(** Two traces of the abstract machine from one state, of the same
    calls, end in the same state with the same results: by induction on
    the first, inverting the second. *)
Lemma spec_steps_deterministic St `{StorageLaws St} a tr1 tr2 a1 a2 :
  spec_steps St a tr1 a1 → spec_steps St a tr2 a2 → tr1.*1 = tr2.*1 →
  a1 = a2 ∧
  Forall2 (λ s1 s2, s1.1 = s2.1 ∧ spec_same s1.1 s1.2 s2.2) tr1 tr2.
Proof.
  intros Hs1. revert tr2.
  induction Hs1 as [a|a c r1 tr1 a1 Hr1 Hs1 IH]; intros tr2 Hs2 Hcs;
    inversion Hs2 as [|? c2 r2 tr2' ? Hr2 Hs2']; simplify_eq/=.
  { by split; [|constructor]. }
  destruct (IH _ Hs2') as [-> Htr]; [done|]. split; [done|].
  constructor; [|done]. split; [done|]. cbn.
  by eapply spec_result_deterministic.
Qed.

(** What a call returns over a store that returns nothing: a result the
    specification allows, nothing where the specification leaves it to
    the store, and no key twice. *)
Definition result_of (c : Call) (a : AWorld) (r : Result) : Prop :=
  spec_result c a r ∧
  match c, r with
  | (CSetItem _ _ _ | CRemoveItem _ | CUpdateExpiration _ _), RValue v =>
      v = JUndefined
  | (CKeys _ | CClearExpired), RKeys l => NoDup l
  | _, _ => True
  end.

(** That leaves one result, but for the order of keys. *)
Lemma result_of_same c a r1 r2 :
  result_of c a r1 → result_of c a r2 → same_result r1 r2.
Proof.
  intros [Hr1 Hx1] [Hr2 Hx2].
  destruct c, r1, r2; cbn in *; try done; try congruence.
  - apply NoDup_Permutation; [done..|]. intros k. by rewrite Hr1, Hr2.
  - apply NoDup_Permutation; [done..|]. intros k. by rewrite Hr1, Hr2.
Qed.

Section results.
Context {St : Type} `{ListableStorage St} `{!VoidStorage St}.
Implicit Types (w : World St) (c : Call) (a : AWorld).

Lemma setItem_undefined key value expiration w :
  eval (setItem key value expiration) w = JUndefined.
Proof. unfold eval. rewrite setItem_run. apply st_setItem_undefined. Qed.

Lemma removeItem_undefined key w : eval (removeItem key) w = JUndefined.
Proof. unfold eval. rewrite removeItem_run. apply st_removeItem_undefined. Qed.

Lemma updateExpiration_undefined key expiration w :
  eval (updateExpiration key expiration) w = JUndefined.
Proof.
  unfold eval. rewrite updateExpiration_run, on_storage_run.
  apply st_setItem_undefined.
Qed.

Lemma call_result_of c w :
  good w → call_ok c → result_of c (abs_world w) (eval (call c) w).
Proof.
  intros Hgood Hc. split; [by apply call_refines|].
  destruct c; unfold eval; cbn [call]; rewrite ?run_call; cbn [fst]; try done.
  - apply setItem_undefined.
  - apply removeItem_undefined.
  - apply keys_NoDup, Hgood.
  - by apply clearExpired_NoDup.
  - apply updateExpiration_undefined.
Qed.
End results.

Section independence.
Context {St1 St2 : Type}.
Context `{ListableStorage St1, !VoidStorage St1}.
Context `{ListableStorage St2, !VoidStorage St2}.
Implicit Types (c : Call) (cs : list Call).

(** A call stores alike on the two stores when the value it writes
    reads the same from both: a string, on web storage and on a
    dictionary. *)
Definition stored_alike c : Prop :=
  match c with
  | CSetItem _ value _ => st_stored St1 value = st_stored St2 value
  | _ => True
  end.

#[export] Instance stored_alike_dec c : Decision (stored_alike c).
Proof. destruct c; cbn; apply _. Defined.

Lemma spec_step_alike c a :
  stored_alike c → spec_step St1 c a = spec_step St2 c a.
Proof. destruct c; cbn; [by intros ->|done..]. Qed.

Lemma call_independent c (w1 : World St1) (w2 : World St2) :
  good w1 → good w2 → abs_world w1 = abs_world w2 →
  call_ok c → stored_alike c →
  same_result (eval (call c) w1) (eval (call c) w2) ∧
  abs_world (exec (call c) w1) = abs_world (exec (call c) w2).
Proof.
  intros Hg1 Hg2 Ha Hc Hs. split.
  - apply (result_of_same c (abs_world w1)); [by apply call_result_of|].
    rewrite Ha. by apply call_result_of.
  - destruct (call_refines c w1 Hg1 Hc) as (_ & -> & _).
    destruct (call_refines c w2 Hg2 Hc) as (_ & -> & _).
    rewrite Ha. by apply spec_step_alike.
Qed.

Lemma trace_independent cs (w1 : World St1) (w2 : World St2) :
  good w1 → good w2 → abs_world w1 = abs_world w2 →
  Forall call_ok cs → Forall stored_alike cs →
  same_trace (eval (trace cs) w1) (eval (trace cs) w2) ∧
  abs_world (exec (trace cs) w1) = abs_world (exec (trace cs) w2).
Proof.
  revert w1 w2. induction cs as [|c cs IH]; intros w1 w2 Hg1 Hg2 Ha Hcs Hss.
  { split; [constructor|done]. }
  apply Forall_cons in Hcs as [Hc Hcs]. apply Forall_cons in Hss as [Hs Hss].
  destruct (call_independent c w1 w2) as [Hr Ha']; [done..|].
  destruct (IH (exec (call c) w1) (exec (call c) w2)) as [Htr Hend];
    [by apply call_refines|by apply call_refines|done..|].
  unfold eval, exec. rewrite !trace_cons. cbn [fst snd].
  split; [by constructor|done].
Qed.

(** C14. The class serves alike over two stores that stand for the same
    abstract store: a sequence of calls that the specification covers,
    writing values that read the same from both, returns the same
    results on both, keys in the order of each store, and leaves them
    standing for the same abstract store. *)
Theorem store_independence cs (w1 : World St1) (w2 : World St2) :
  good w1 → good w2 → abs_world w1 = abs_world w2 →
  Forall call_ok cs → Forall stored_alike cs →
  same_trace (eval (trace cs) w1) (eval (trace cs) w2) ∧
  abs_world (exec (trace cs) w1) = abs_world (exec (trace cs) w2).
Proof. apply trace_independent. Qed.
End independence.

Arguments stored_alike St1 St2 {_ _ _ _} c.

(** Over one kind of store, equivalent worlds are served alike: neither
    the order in which a dictionary holds its properties nor the way the
    class lists them shows in what a sequence of calls returns, but for
    the order of the keys listed. *)
Theorem representation_independence {St} `{ListableStorage St, !VoidStorage St}
    cs (w1 w2 : World St) :
  good w1 → good w2 → w1 ≡ w2 → Forall call_ok cs →
  same_trace (eval (trace cs) w1) (eval (trace cs) w2) ∧
  abs_world (exec (trace cs) w1) = abs_world (exec (trace cs) w2).
Proof.
  intros Hg1 Hg2 Hw Hcs.
  apply trace_independent; [done..|by apply equiv_abs_world|done|].
  apply Forall_forall. by intros [].
Qed.

(** * On the stores of the test suite *)

(** Two dictionaries that hold the same two entries, written in one
    order and in the other. *)
Definition ab : World JSObject :=
  exec (trace [CSetItem "a" (JString "x") (Some 10);
               CSetItem "b" (JString "y") None]) browser.

Definition ba : World JSObject :=
  exec (trace [CSetItem "b" (JString "y") None;
               CSetItem "a" (JString "x") (Some 10)]) browser.

Section witnesses.

Lemma good_ab : good ab ∧ good ba.
Proof.
  split; (apply trace_refines; [apply good_browser|]);
    apply (bool_decide_unpack _); by vm_compute.
Qed.

Lemma ab_ba : ab ≡ ba.
Proof. split; [|done]. apply (bool_decide_unpack _). by vm_compute. Qed.

(** The two are not the same world, and the class lists their keys in
    the order of each. *)
Example ab_ba_keys :
  ab ≠ ba ∧
  eval (keys true) ab = ["a"; "b"] ∧ eval (keys true) ba = ["b"; "a"].
Proof. split; [|by vm_compute]. by intros [=]. Qed.

(** What is read does not tell them apart: [rewrite] takes one for the
    other under a method. *)
Example ab_ba_getItem key : eval (getItem key) ab = eval (getItem key) ba.
Proof. by rewrite ab_ba. Qed.

Lemma session_stored_alike : Forall (stored_alike WebStore JSObject) session.
Proof. apply (bool_decide_unpack _). by vm_compute. Qed.

Lemma web_browser_abs : abs_world web_browser = abs_world browser.
Proof. by vm_compute. Qed.

Lemma store_independence_witness :
  (good web_browser ∧ good browser ∧
   abs_world web_browser = abs_world browser ∧
   Forall call_ok session ∧ Forall (stored_alike WebStore JSObject) session) ∧
  same_trace (eval (trace session) web_browser) (eval (trace session) browser) ∧
  abs_world (exec (trace session) web_browser) =
  abs_world (exec (trace session) browser).
Proof.
  split.
  - split_and!; [apply good_web_browser|apply good_browser|
      apply web_browser_abs|apply session_ok|apply session_stored_alike].
  - apply store_independence; [apply good_web_browser|apply good_browser|
      apply web_browser_abs|apply session_ok|apply session_stored_alike].
Defined.

Lemma representation_independence_witness :
  (good ab ∧ good ba ∧ ab ≡ ba ∧ Forall call_ok session) ∧
  same_trace (eval (trace session) ab) (eval (trace session) ba) ∧
  abs_world (exec (trace session) ab) = abs_world (exec (trace session) ba).
Proof.
  split.
  - split_and!; [apply good_ab|apply good_ab|apply ab_ba|apply session_ok].
  - apply representation_independence;
      [apply good_ab|apply good_ab|apply ab_ba|apply session_ok].
Defined.
End witnesses.
