(* ===== verification/Readme.v ===== *)
(** * Readme: the examples of the README, and what it says of them

    src/README.md walks through the class with one example per method:
    an item set for 60 seconds and one set without expiration, then
    [getItem], [getTimeLeft], [isExpired], [keys], [updateExpiration],
    [clearExpired] and [clear].  The examples are computations here,
    and the sentences that come with them are theorems over any store
    that satisfies [Storage.StorageLaws]: the first item lives for 60
    seconds, the second for ever, [updateExpiration] gives 100 seconds
    from the current time and leaves the content alone.  The walk is
    then run over [localStorage], the default, and over the custom
    storage class the README ends with. *)

From S2P Require Import Prelude Js Dict Storage ExpiredStorage.
From S2P Require Import TestStorage WebStorage TestSuite Expiry Sweep.
From S2P Require Import Spec Machine.

Section readme.
Context {St : Type} `{StorageLaws St}.
Implicit Types (w : World St) (ms : Z).

(** ** Basics *)

(** [expiredStorage.setItem("test", "foobar", 60)], then
    [expiredStorage.setItem("no_expire", "this will live forever")]. *)
Definition readme_set : State (World St) unit :=
  setItem "test" (JString "foobar") (Num 60);;
  setItem "no_expire" (JString "this will live forever") JUndefined;;
  mret tt.

(** [var item = expiredStorage.getItem("test")] *)
Definition readme_get : State (World St) JSValue := getItem "test".

(** ** Extended API *)

Definition readme_extended (includeExpired : bool)
    : State (World St) (option JSNumber * bool * list string) :=
  timeLeft ← getTimeLeft "test";
  isExpired ← isExpired "test";
  keys ← keys includeExpired;
  mret (timeLeft, isExpired, keys).

(** [expiredStorage.updateExpiration("test", 100)] *)
Definition readme_update : State (World St) JSValue :=
  updateExpiration "test" (Num 100).

(** ** Clear items *)

Definition readme_clear : State (World St) (list string) :=
  expiredKeys ← clearExpired;
  clear;;
  mret expiredKeys.

(** The examples one after the other, [ms] milliseconds passing after
    the items are set. *)
Definition readme_usage ms (includeExpired : bool)
    : State (World St)
        (option JSNumber * bool * list string * JSValue * list string) :=
  readme_set;;
  modify (advance ms);;
  extended ← readme_extended includeExpired;
  item ← readme_get;
  readme_update;;
  expiredKeys ← readme_clear;
  mret (extended, item, expiredKeys).

(** * What the README says of them *)

Lemma readme_set_run w :
  exec readme_set w =
  exec (setItem "no_expire" (JString "this will live forever") JUndefined)
    (exec (setItem "test" (JString "foobar") (Num 60)) w).
Proof.
  unfold readme_set, exec. rewrite !run_bind.
  by destruct (setItem "no_expire" _ _ _).
Qed.

Lemma readme_set_date w : date (exec readme_set w) = date w.
Proof. by rewrite readme_set_run, !(proj1 (keeps_setItem _ _ _ _)). Qed.

(** The two writes leave the store with the two values, the first with
    its expiry instant and the second with the expiry it had. *)
Lemma readme_set_test w :
  0 ≤ date w →
  st_model (storage (exec readme_set w)) !! "test" =
    Some (st_stored St (JString "foobar")) ∧
  expiry "test" (exec readme_set w) = Some (now w + 60).
Proof.
  intros Hd. assert (0 ≤ now w) by (apply Z.div_pos; lia).
  rewrite readme_set_run. split.
  - rewrite model_setItem. cbn. rewrite lookup_insert_ne by done.
    apply lookup_setItem_value.
  - rewrite (expiry_ext _ _ (exec (setItem "test" (JString "foobar") (Num 60)) w)).
    + rewrite expiry_setItem_Num by done. by rewrite decide_False by lia.
    + rewrite model_setItem. cbn. by rewrite lookup_insert_ne.
Qed.

Lemma readme_set_no_expire w :
  st_model (storage (exec readme_set w)) !! "no_expire" =
    Some (st_stored St (JString "this will live forever")) ∧
  expiry "no_expire" (exec readme_set w) = expiry "no_expire" w.
Proof.
  rewrite readme_set_run. split; [apply lookup_setItem_value|].
  etrans; [by apply expiry_ext, lookup_setItem_no_ttl|].
  apply expiry_ext. rewrite model_setItem. cbn.
  by rewrite !lookup_insert_ne.
Qed.

(** "This item will live for 60 seconds": [getItem] returns it until 60
    seconds have passed, and [null] from then on. *)
Theorem readme_test_lives ms w :
  0 ≤ date w →
  eval readme_get (advance ms (exec readme_set w)) =
  if bool_decide (now w + 60 ≤ (date w + ms) `div` 1000) then JNull
  else st_stored St (JString "foobar").
Proof.
  intros Hd. destruct (readme_set_test w Hd) as [Hv He].
  unfold eval, readme_get. rewrite getItem_run. unfold expired.
  assert (now (advance ms (exec readme_set w)) = (date w + ms) `div` 1000)
    as Hnow by (unfold now; cbn; by rewrite readme_set_date).
  rewrite expiry_advance, He, Hnow.
  case_bool_decide; [done|]. cbn. by rewrite st_getItem_model, Hv.
Qed.

(** "This will live forever": an item set without expiration is
    returned by [getItem] whatever time has passed, when its key had no
    expiry record left from an earlier life. *)
Theorem readme_no_expire_lives ms w :
  expiry "no_expire" w = None →
  let w' := advance ms (exec readme_set w) in
  getItem "no_expire" w' =
  (st_stored St (JString "this will live forever"), w').
Proof.
  intros Hw w'. destruct (readme_set_no_expire w) as [Hv He].
  rewrite getItem_run. unfold expired, w'. rewrite expiry_advance, He, Hw.
  cbn. by rewrite st_getItem_model, Hv.
Qed.

(** "Update expiration time to be 100 seconds from current time",
    "without changing its content": whatever the expiry was, and
    whether or not the item was expired. *)
Theorem readme_update_expiration w :
  0 ≤ date w →
  let w' := exec readme_update w in
  eval (getTimeLeft "test") w' = Some (Num 100) ∧
  st_getItem "test" (storage w') = st_getItem "test" (storage w).
Proof.
  intros Hd w'. assert (0 ≤ now w) by (apply Z.div_pos; lia).
  unfold eval, w', readme_update. split.
  - rewrite getTimeLeft_run, now_updateExpiration. cbn.
    rewrite (expiry_written_Num "test" (now w) 100)
      by apply lookup_updateExpiration.
    rewrite decide_False by lia. cbn. do 2 f_equal. lia.
  - rewrite !st_getItem_model, model_updateExpiration.
    by rewrite lookup_insert_ne.
Qed.
End readme.

(** * The walk over the two stores of the README *)

(** The custom storage class the README ends with, empty. *)
Definition readme_world : World ReadmeStore :=
  mkWorld (mkReadmeStore []) 0 true.

(** Half a minute after the items are set, and a minute after: the
    second time [getItem] has removed the item, [updateExpiration]
    leaves a record for it, and there is nothing for [clearExpired] to
    return. *)
Example readme_on_localStorage :
  eval (readme_usage 30000 true) web_browser =
    (Some (Num 30), false, ["test"; "no_expire"], JString "foobar", []) ∧
  eval (readme_usage 60000 true) web_browser =
    (Some (Num 0), true, ["test"; "no_expire"], JNull, []) ∧
  eval (readme_usage 60000 false) web_browser =
    (Some (Num 0), true, ["no_expire"], JNull, []).
Proof. by vm_compute. Qed.

Example readme_on_custom_storage :
  eval (readme_usage 30000 true) readme_world =
    eval (readme_usage 30000 true) web_browser ∧
  eval (readme_usage 60000 false) readme_world =
    eval (readme_usage 60000 false) web_browser.
Proof. by vm_compute. Qed.

(** An item set without expiration does not live for ever when its key
    has an expiry record from an earlier life: the record is not
    reset. *)
Example readme_no_expire_dies :
  let w := advance 2000
    (exec (setItem "no_expire" (JString "old") (Num 1)) web_browser) in
  eval (getItem "no_expire") (exec readme_set w) = JNull.
Proof. by vm_compute. Qed.

Lemma readme_test_lives_witness :
  0 ≤ date web_browser ∧
  eval readme_get (advance 59999 (exec readme_set web_browser)) =
  if bool_decide (now web_browser + 60 ≤ (date web_browser + 59999) `div` 1000)
  then JNull else st_stored WebStore (JString "foobar").
Proof. split; [done|]. by apply readme_test_lives. Defined.

Lemma readme_no_expire_lives_witness :
  expiry "no_expire" readme_world = None ∧
  let w' := advance 86400000 (exec readme_set readme_world) in
  getItem "no_expire" w' =
  (st_stored ReadmeStore (JString "this will live forever"), w').
Proof. split; [done|]. by apply readme_no_expire_lives. Defined.

Lemma readme_update_expiration_witness :
  0 ≤ date web_browser ∧
  let w' := exec readme_update web_browser in
  eval (getTimeLeft "test") w' = Some (Num 100) ∧
  st_getItem "test" (storage w') = st_getItem "test" (storage web_browser).
Proof. split; [done|]. by apply readme_update_expiration. Defined.
