(* ===== verification/Steps.v ===== *)
(** * Steps: the methods as sequences of calls to the store

    A method of [ExpiredStorage] is a short program over the requests it
    makes of its environment: [this._storage.getItem], [setItem],
    [removeItem] and [clear], [(new Date).getTime()], and the ways
    [_iterKeys] finds to list the keys ([this._storage.keys()],
    [Object.keys(this._storage)], [this._storage.length] with
    [this._storage.key(i)], [for ... in]).  The methods of
    [ExpiredStorage.v] run these requests against the store at once.
    Here each method is a [Script]: the requests it makes in the order
    the source makes them, each with what is done with the answer.  A
    script can be run in one go ([run]), which gives the method of
    [ExpiredStorage.v] ([script_run]); it can be run over a store that
    throws ([Throwing]) and one request at a time, with the requests of
    another page in between ([Tabs]).

    [asks_only] says which requests a script can make: the methods that
    read make no request that writes ([reads_only]), and [setItem],
    [updateExpiration] and [setJson] are the only ones to ask the store
    to set anything ([never_sets]). *)

From S2P Require Import Prelude Loops Js Storage ExpiredStorage.

(** * Requests and scripts *)

Inductive Request : Type :=
  | StorageGetItem (key : string)
  | StorageSetItem (key : string) (value : JSValue)
  | StorageRemoveItem (key : string)
  | StorageClear
  | DateGetTime
  (** [this._storage.keys()], when [keys] is a function *)
  | StorageKeys
  (** [Object.keys(this._storage)], when there is an [Object.keys] *)
  | ObjectKeys
  (** [this._storage.length], when it is defined and [key] is a
      function *)
  | StorageLength
  | StorageKey (i : nat)
  (** the property names [for (storageKey in this._storage)] starts
      with, and whether one is still there at its turn *)
  | StorageForIn
  | StorageIn (key : string).

#[export] Instance Request_eq_dec : EqDecision Request.
Proof. solve_decision. Defined.

(** What a request is answered with. *)
Definition Answer (r : Request) : Type :=
  match r with
  | StorageGetItem _ | StorageSetItem _ _ | StorageRemoveItem _ => JSValue
  | StorageClear => unit
  | DateGetTime => Z
  | StorageKeys | ObjectKeys => option (list string)
  | StorageLength => option nat
  | StorageKey _ => string
  | StorageForIn => list string
  | StorageIn _ => bool
  end.

(** The requests that leave the store as it is, and those that ask it
    to set nothing: all but [setItem]. *)
Definition reads (r : Request) : bool :=
  match r with
  | StorageSetItem _ _ | StorageRemoveItem _ | StorageClear => false
  | _ => true
  end.

Definition sets_not (r : Request) : bool :=
  match r with
  | StorageSetItem _ _ => false
  | _ => true
  end.

(** A script is finished, with the value it returns, or asks a request
    and goes on with the answer. *)
Inductive Script (A : Type) : Type :=
  | Finished (a : A)
  | Asks (r : Request) (k : Answer r → Script A).
Arguments Finished {A} a.
Arguments Asks {A} r k.

Fixpoint script_bind {A B} (m : Script A) (f : A → Script B) : Script B :=
  match m with
  | Finished a => f a
  | Asks r k => Asks r (λ a, script_bind (k a) f)
  end.

#[export] Instance script_ret : MRet Script := @Finished.
#[export] Instance script_mbind : MBind Script := λ A B f m, script_bind m f.

Definition ask (r : Request) : Script (Answer r) := Asks r Finished.

(** The scripts all the requests of which are [allowed]. *)
Fixpoint asks_only {A} (allowed : Request → bool) (m : Script A) : Prop :=
  match m with
  | Finished _ => True
  | Asks r k => allowed r ∧ ∀ a, asks_only allowed (k a)
  end.

Abbreviation reads_only := (asks_only reads).
Abbreviation never_sets := (asks_only sets_not).

(** * The methods *)

Definition getTimestamp_script : Script Z :=
  ms ← ask DateGetTime; mret (ms `div` 1000).

Definition updateExpiration_script (key : string) (expiration : JSValue)
    : Script JSValue :=
  ts ← getTimestamp_script;
  ask (StorageSetItem (_expiration_key_prefix +:+ key)
         (add_to_timestamp ts expiration)).

Definition setItem_script (key : string) (value expiration : JSValue)
    : Script JSValue :=
  ret ← ask (StorageSetItem key value);
  (when truthy expiration do updateExpiration_script key expiration);;
  mret ret.

Definition getTimeLeft_script (key : string) : Script (option JSNumber) :=
  raw ← ask (StorageGetItem (_expiration_key_prefix +:+ key));
  let expireTime := parseInt raw in
  if number_truthy expireTime && negb (isNaN expireTime) then
    ts ← getTimestamp_script; mret (Some (number_sub expireTime ts))
  else mret None.

Definition isExpired_script (key : string) : Script bool :=
  timeLeft ← getTimeLeft_script key;
  mret (bool_decide (timeLeft ≠ None) && le_zero timeLeft).

Definition removeItem_script (key : string) : Script JSValue :=
  ret ← ask (StorageRemoveItem key);
  ask (StorageRemoveItem (_expiration_key_prefix +:+ key));;
  mret ret.

Definition getItem_script (key : string) : Script JSValue :=
  expired ← isExpired_script key;
  if expired : bool then removeItem_script key;; mret JNull
  else ask (StorageGetItem key).

Definition peek_script (key : string) : Script PeekResult :=
  value ← ask (StorageGetItem key);
  timeLeft ← getTimeLeft_script key;
  mret (mkPeek value timeLeft
          (bool_decide (timeLeft ≠ None) && le_zero timeLeft)).

Definition clear_script : Script unit := ask StorageClear.

(** [for (var i = 0; i < keys.length; ++i) callback(keys[i])], the
    callback updating its closure variable [a]: [keys] is an array of
    the method, which no request changes, and the loop is the fold over
    it ([Loops.for_loop_for_each]). *)
Fixpoint for_each_script {A B} (callback : B → A → Script A)
    (keys : list B) (a : A) : Script A :=
  match keys with
  | [] => mret a
  | k :: keys => a' ← callback k a; for_each_script callback keys a'
  end.

(** [for (; i < len; ++i) keys.push(this._storage.key(i))], with [n]
    for [len - i]. *)
Fixpoint collect_keys_script (n i : nat) (keys : list string)
    : Script (list string) :=
  match n with
  | O => mret keys
  | S n =>
      k ← ask (StorageKey i); collect_keys_script n (S i) (keys ++ [k])
  end.

Definition for_in_script {A} (callback : string → A → Script A) (a : A)
    : Script A :=
  names ← ask StorageForIn;
  for_each_script (λ k a,
    present ← ask (StorageIn k);
    if present : bool then callback k a else mret a) names a.

Definition _iterKeys_script {A} (callback : string → A → Script A) (a : A)
    : Script A :=
  keys ← ask StorageKeys;
  match keys with
  | Some keys => for_each_script callback keys a
  | None =>
      keys ← ask ObjectKeys;
      match keys with
      | Some keys => for_each_script callback keys a
      | None =>
          len ← ask StorageLength;
          match len with
          | Some len =>
              keys ← collect_keys_script len 0 [];
              for_each_script callback keys a
          | None => for_in_script callback a
          end
      end
  end.

Definition keys_callback_script (includeExpired : bool) (storageKey : string)
    (ret : list string) : Script (list string) :=
  if bool_decide (indexOf storageKey _expiration_key_prefix ≠ 0) then
    if includeExpired then mret (ret ++ [storageKey])
    else
      expired ← isExpired_script storageKey;
      if negb expired then mret (ret ++ [storageKey]) else mret ret
  else mret ret.

Definition keys_script (includeExpired : bool) : Script (list string) :=
  _iterKeys_script (keys_callback_script includeExpired) [].

Definition clearExpired_callback_script (storageKey : string)
    (ret : list string) : Script (list string) :=
  if bool_decide (indexOf storageKey _expiration_key_prefix = 0) then
    let itemKey :=
      substr storageKey (String.length _expiration_key_prefix) in
    expired ← isExpired_script itemKey;
    if expired : bool then
      removeItem_script itemKey;; mret (ret ++ [itemKey])
    else mret ret
  else mret ret.

Definition clearExpired_script : Script (list string) :=
  timestamp ← getTimestamp_script;
  _iterKeys_script clearExpired_callback_script [].

Definition setJson_script `{!Json V} (key : string) (val : V)
    (expiration : JSValue) : Script (JsonError + JSValue) :=
  if is_undefined val then mret (inl CannotSetUndefined)
  else
    ret ← setItem_script key (stringified val) expiration;
    mret (inr ret).

Definition getJson_script `{!Json V} (key : string)
    : Script (JsonError + V) :=
  val ← getItem_script key;
  if decide (val = JNull) then mret (inr json_null)
  else mret (from_option inr (inl SyntaxError) (JSON_parse (ToString val))).

(** * Running a script *)

Section run.
Context {St : Type} `{!Storage St}.
Implicit Types (w : World St) (r : Request).

(** The answer to a request, and the world after it. *)
Definition perform r : State (World St) (Answer r) :=
  match r return State (World St) (Answer r) with
  | StorageGetItem key => storage_getItem key
  | StorageSetItem key value => storage_setItem key value
  | StorageRemoveItem key => storage_removeItem key
  | StorageClear => storage_clear
  | DateGetTime => gets date
  | StorageKeys =>
      gets (λ w : World St, (λ keys_fn, keys_fn (storage w)) <$> st_keys)
  | ObjectKeys =>
      gets (λ w : World St, if has_Object_keys w then Some (st_object_keys (storage w))
                 else None)
  | StorageLength =>
      gets (λ w : World St, match st_length, st_key (St := St) with
                 | Some length_fn, Some key_fn =>
                     Some (length_fn (storage w))
                 | _, _ => None
                 end)
  | StorageKey i =>
      gets (λ w : World St, match st_key with
                 | Some key_fn => key_fn (storage w) i
                 | None => EmptyString
                 end)
  | StorageForIn => gets (λ w : World St, st_for_in (storage w))
  | StorageIn key => gets (λ w : World St, st_in key (storage w))
  end.

Fixpoint run {A} (m : Script A) : State (World St) A :=
  match m with
  | Finished a => mret a
  | Asks r k => a ← perform r; run (k a)
  end.

(** One request of a script. *)
Definition step {A} (m : Script A) w : Script A * World St :=
  match m with
  | Finished a => (Finished a, w)
  | Asks r k => let a := perform r w in (k a.1, a.2)
  end.

(** The requests a script has left to make from a world. *)
Fixpoint requests {A} (m : Script A) w : nat :=
  match m with
  | Finished _ => 0
  | Asks r k => let a := perform r w in S (requests (k a.1) a.2)
  end.

(** ** The laws of [run] *)

Lemma run_asks {A} r (k : Answer r → Script A) w :
  run (Asks r k) w = run (k (perform r w).1) (perform r w).2.
Proof. cbn [run]. by rewrite run_bind. Qed.

Lemma run_ask r w : run (ask r) w = perform r w.
Proof. unfold ask. rewrite run_asks. by destruct (perform r w). Qed.

Lemma run_script_bind {A B} (m : Script A) (f : A → Script B) w :
  run (m ≫= f) w = run (f (run m w).1) (run m w).2.
Proof.
  revert w. induction m as [a|r k IH]; intros w; [done|].
  change (Asks r k ≫= f) with (Asks r (λ a, k a ≫= f)).
  by rewrite !run_asks, IH.
Qed.

(** A request that reads leaves the world as it is, and so does a
    script that only reads, request by request and as a whole. *)
Lemma perform_read r w : reads r → (perform r w).2 = w.
Proof. by destruct r. Qed.

Lemma step_reads_only {A} (m : Script A) w :
  reads_only m → (step m w).2 = w ∧ reads_only (step m w).1.
Proof.
  destruct m as [a|r k]; [done|]. intros [Hr Hk]. cbn.
  split; [by apply perform_read|apply Hk].
Qed.

Lemma run_reads_only {A} (m : Script A) w :
  reads_only m → (run m w).2 = w.
Proof.
  revert w. induction m as [a|r k IH]; intros w; [done|].
  intros [Hr Hk]. rewrite run_asks, IH by done. by apply perform_read.
Qed.

(** ** Requests one at a time *)

(** Every script finishes: after the requests it has left it is
    finished, with the value and in the world [run] gives. *)
Lemma step_requests {A} (m : Script A) w :
  Nat.iter (requests m w) (λ mw, step mw.1 mw.2) (m, w) =
  (Finished (run m w).1, (run m w).2).
Proof.
  revert w. induction m as [a|r k IH]; intros w; [done|].
  cbn [requests]. rewrite Nat.iter_succ_r, run_asks. apply IH.
Qed.

(** And it stays finished: any number of steps that is enough gives
    the same. *)
Lemma step_enough {A} n (m : Script A) w :
  (requests m w ≤ n)%nat →
  Nat.iter n (λ mw, step mw.1 mw.2) (m, w) =
  (Finished (run m w).1, (run m w).2).
Proof.
  intros Hn. replace n with ((n - requests m w) + requests m w)%nat by lia.
  rewrite Nat.iter_add, step_requests.
  induction (n - requests m w)%nat as [|d IH]; [done|].
  by rewrite Nat.iter_succ, IH.
Qed.
End run.

(** * The requests a script makes *)

Section asks_only.
Context {A B : Type}.
Implicit Types (allowed : Request → bool).

Lemma asks_only_ask allowed r : allowed r → asks_only allowed (ask r).
Proof. by split. Qed.

Lemma asks_only_bind allowed (m : Script A) (f : A → Script B) :
  asks_only allowed m → (∀ a, asks_only allowed (f a)) →
  asks_only allowed (m ≫= f).
Proof.
  intros Hm Hf. induction m as [a|r k IH]; [apply Hf|].
  destruct Hm as [Hr Hk]. split; [done|]. intros a. by apply IH.
Qed.

Lemma asks_only_mono allowed allowed' (m : Script A) :
  (∀ r, allowed r → allowed' r) →
  asks_only allowed m → asks_only allowed' m.
Proof.
  intros Hr. induction m as [a|r k IH]; [done|].
  intros [??]. split; auto.
Qed.
End asks_only.

Lemma asks_only_for_each {A B} allowed (cb : B → A → Script A) keys a :
  (∀ k a, asks_only allowed (cb k a)) →
  asks_only allowed (for_each_script cb keys a).
Proof.
  intros Hcb. revert a. induction keys as [|k keys IH]; intros a; [done|].
  by apply asks_only_bind.
Qed.

(** A script that only reads asks the store to set nothing. *)
Lemma reads_only_never_sets {A} (m : Script A) :
  reads_only m → never_sets m.
Proof. apply asks_only_mono. by intros []. Qed.

Create HintDb script discriminated.
#[export] Hint Resolve reads_only_never_sets : script.

(** The requests of a script built from requests, the scripts of the
    hint database [script], [≫=], [if] and [match]. *)
Ltac asks_only :=
  repeat match goal with
  | |- asks_only _ (Finished _) => exact I
  | |- asks_only _ (mret _) => exact I
  | |- asks_only _ (ask _) => by apply asks_only_ask
  | |- asks_only _ (_ ≫= _) => apply asks_only_bind; [|intros ?]
  | |- asks_only _ (for_each_script _ _ _) =>
      apply asks_only_for_each; intros ? ?
  | |- asks_only _ (if ?c then _ else _) => destruct c
  | |- asks_only _ (match ?c with _ => _ end) => destruct c
  | |- asks_only _ (let x := _ in _) => cbv zeta
  | |- asks_only _ _ => by auto with script
  end.

(** One [bind] of a script that is run, and the request it starts with. *)
Ltac script_bind := rewrite run_script_bind; cbv beta.

Ltac script_ask :=
  rewrite run_script_bind; cbv beta;
  match goal with
  | |- context [@run ?St ?H ?A (ask ?r) ?w] =>
      let E := fresh in
      assert (@run St H A (ask r) w = perform r w) as E
        by apply (run_ask r w);
      rewrite E; clear E; cbn [perform gets fst snd]
  end.

(** * The scripts are the methods *)

Section methods.
Context {St : Type} `{!Storage St}.
Implicit Types (w : World St) (key : string) (value expiration : JSValue).

Lemma run_getTimestamp w : run getTimestamp_script w = getTimestamp w.
Proof. done. Qed.

Lemma run_storage_getItem key w :
  run (A := JSValue) (ask (StorageGetItem key)) w = storage_getItem key w.
Proof. apply (run_ask (StorageGetItem key)). Qed.

Lemma run_storage_setItem key value w :
  run (A := JSValue) (ask (StorageSetItem key value)) w =
  storage_setItem key value w.
Proof. apply (run_ask (StorageSetItem key value)). Qed.

Lemma run_storage_removeItem key w :
  run (A := JSValue) (ask (StorageRemoveItem key)) w =
  storage_removeItem key w.
Proof. apply (run_ask (StorageRemoveItem key)). Qed.

Lemma run_updateExpiration key expiration w :
  run (updateExpiration_script key expiration) w =
  updateExpiration key expiration w.
Proof.
  unfold updateExpiration_script. script_bind.
  by rewrite run_getTimestamp, run_storage_setItem.
Qed.

Lemma run_setItem key value expiration w :
  run (setItem_script key value expiration) w =
  setItem key value expiration w.
Proof.
  unfold setItem_script, setItem. script_bind.
  rewrite run_storage_setItem, run_bind. script_bind.
  rewrite run_bind. destruct (truthy expiration); [|done]. script_bind.
  by rewrite run_updateExpiration, run_bind.
Qed.

Lemma run_getTimeLeft key w :
  run (getTimeLeft_script key) w = getTimeLeft key w.
Proof.
  unfold getTimeLeft_script, getTimeLeft. script_bind.
  rewrite run_storage_getItem, run_bind. by destruct (_ && _).
Qed.

Lemma run_isExpired key w : run (isExpired_script key) w = isExpired key w.
Proof.
  unfold isExpired_script, isExpired. script_bind.
  by rewrite run_getTimeLeft, run_bind.
Qed.

Lemma run_removeItem key w :
  run (removeItem_script key) w = removeItem key w.
Proof.
  unfold removeItem_script, removeItem. script_bind.
  rewrite run_storage_removeItem, run_bind. script_bind.
  by rewrite run_storage_removeItem, run_bind.
Qed.

Lemma run_getItem key w : run (getItem_script key) w = getItem key w.
Proof.
  unfold getItem_script, getItem. script_bind.
  rewrite run_isExpired, run_bind.
  destruct (isExpired key w).1; [|apply run_storage_getItem]. script_bind.
  by rewrite run_removeItem, run_bind.
Qed.

Lemma run_peek key w : run (peek_script key) w = peek key w.
Proof.
  unfold peek_script, peek. script_bind.
  rewrite run_storage_getItem, run_bind. script_bind.
  by rewrite run_getTimeLeft, run_bind.
Qed.

(** ** The loops *)

Section loops.
Context {A : Type} (cb : string → A → Script A).
Context (callback : string → A → State (World St) A).
Context (Hcb : ∀ k a w, run (cb k a) w = callback k a w).

Lemma run_for_each keys a w :
  run (for_each_script cb keys a) w = for_each callback keys a w.
Proof.
  revert a w. induction keys as [|k keys IH]; intros a w; [done|].
  cbn [for_each_script for_each]. script_bind.
  by rewrite run_bind, Hcb, IH.
Qed.

Lemma run_for_in a w : run (for_in_script cb a) w = for_in callback a w.
Proof.
  unfold for_in_script, for_in. script_ask. rewrite run_bind. cbn [gets fst snd].
  generalize (st_for_in (storage w)). intros names. revert a w.
  induction names as [|k names IH]; intros a w; [done|].
  cbn [for_each_script for_each]. script_bind. rewrite run_bind.
  script_ask. rewrite run_bind. cbn [gets fst snd].
  destruct (st_in k (storage w)); [by rewrite Hcb, IH|apply IH].
Qed.

Lemma run_collect_keys key_fn n i keys w :
  st_key = Some key_fn →
  run (collect_keys_script n i keys) w =
  (keys ++ (key_fn (storage w) <$> seq i n), w).
Proof.
  intros Hkey. revert i keys.
  induction n as [|n IH]; intros i keys; cbn [collect_keys_script seq fmap
    list_fmap].
  { by rewrite app_nil_r. }
  script_ask. by rewrite Hkey, IH, <- app_assoc.
Qed.

Lemma run__iterKeys a w :
  run (_iterKeys_script cb a) w = _iterKeys callback a w.
Proof.
  unfold _iterKeys_script, _iterKeys. script_ask.
  destruct st_keys as [keys_fn|]; cbn [fmap option_fmap option_map].
  { by rewrite run_bind, for_loop_run, run_for_each. }
  script_ask. rewrite run_bind. cbn [gets fst snd].
  destruct (has_Object_keys w).
  { by rewrite run_bind, for_loop_run, run_for_each. }
  script_ask. destruct st_length as [length_fn|]; [|apply run_for_in].
  destruct st_key as [key_fn|] eqn:Hkey; [|apply run_for_in].
  script_bind. rewrite (run_collect_keys key_fn) by done. cbn [fst snd app].
  rewrite run_bind. cbn [gets fst snd].
  by rewrite for_loop_run, run_for_each, collect_keys_run.
Qed.
End loops.

Lemma run_keys_callback includeExpired k ret w :
  run (keys_callback_script includeExpired k ret) w =
  keys_callback includeExpired k ret w.
Proof.
  unfold keys_callback_script, keys_callback.
  case_bool_decide; [|done]. destruct includeExpired; [done|]. script_bind.
  rewrite run_isExpired, run_bind. by destruct (negb _).
Qed.

Lemma run_keys includeExpired w :
  run (keys_script includeExpired) w = keys includeExpired w.
Proof. apply run__iterKeys. intros. apply run_keys_callback. Qed.

Lemma run_clearExpired_callback k ret w :
  run (clearExpired_callback_script k ret) w = clearExpired_callback k ret w.
Proof.
  unfold clearExpired_callback_script, clearExpired_callback.
  case_bool_decide; [|done]. cbv zeta. script_bind.
  rewrite run_isExpired, run_bind. destruct (isExpired _ w).1; [|done].
  script_bind. by rewrite run_removeItem, run_bind.
Qed.

Lemma run_clearExpired w : run clearExpired_script w = clearExpired w.
Proof.
  unfold clearExpired_script, clearExpired. script_bind.
  rewrite run_getTimestamp, run_bind.
  apply run__iterKeys. intros. apply run_clearExpired_callback.
Qed.

Lemma run_setJson `{!Json V} key (val : V) expiration w :
  run (setJson_script key val expiration) w = setJson key val expiration w.
Proof.
  unfold setJson_script, setJson. destruct (is_undefined val); [done|].
  script_bind. by rewrite run_setItem, run_bind.
Qed.

Lemma run_getJson `{!Json V} key w :
  run (getJson_script (V := V) key) w = getJson key w.
Proof.
  unfold getJson_script, getJson. script_bind.
  rewrite run_getItem, run_bind. by case_decide.
Qed.

(** Each script, run in one go, is the method of [ExpiredStorage.v]: it
    returns the same and leaves the same world. *)
Theorem script_run `{!Json V} key value expiration includeExpired (val : V) w :
  run getTimestamp_script w = getTimestamp w ∧
  run (setItem_script key value expiration) w =
    setItem key value expiration w ∧
  run (updateExpiration_script key expiration) w =
    updateExpiration key expiration w ∧
  run (getItem_script key) w = getItem key w ∧
  run (getTimeLeft_script key) w = getTimeLeft key w ∧
  run (isExpired_script key) w = isExpired key w ∧
  run (peek_script key) w = peek key w ∧
  run (removeItem_script key) w = removeItem key w ∧
  run clear_script w = clear w ∧
  run (keys_script includeExpired) w = keys includeExpired w ∧
  run clearExpired_script w = clearExpired w ∧
  run (setJson_script key val expiration) w =
    setJson key val expiration w ∧
  run (getJson_script (V := V) key) w = getJson key w.
Proof.
  split_and!; auto using run_setItem, run_updateExpiration, run_getItem,
    run_getTimeLeft, run_isExpired, run_peek, run_removeItem, run_keys,
    run_clearExpired, run_setJson, run_getJson.
Qed.
End methods.

(** * Which methods write *)

Section requests.
Implicit Types (key : string) (value expiration : JSValue).

Lemma reads_only_getTimestamp : reads_only getTimestamp_script.
Proof. unfold getTimestamp_script. asks_only. Qed.
#[local] Hint Resolve reads_only_getTimestamp : script.

Lemma reads_only_getTimeLeft key : reads_only (getTimeLeft_script key).
Proof. unfold getTimeLeft_script. asks_only. Qed.
#[local] Hint Resolve reads_only_getTimeLeft : script.

Lemma reads_only_isExpired key : reads_only (isExpired_script key).
Proof. unfold isExpired_script. asks_only. Qed.
#[local] Hint Resolve reads_only_isExpired : script.

Lemma reads_only_peek key : reads_only (peek_script key).
Proof. unfold peek_script. asks_only. Qed.

Lemma reads_only_collect_keys n i keys :
  reads_only (collect_keys_script n i keys).
Proof.
  revert i keys. induction n as [|n IH]; intros i keys; [done|].
  cbn [collect_keys_script]. asks_only.
Qed.
#[local] Hint Resolve reads_only_collect_keys : script.

(** [_iterKeys] asks what its callback asks, and to read. *)
Lemma asks_only__iterKeys {A} (allowed : Request → bool)
    (cb : string → A → Script A) a :
  (∀ r, reads r → allowed r) →
  (∀ k a, asks_only allowed (cb k a)) →
  asks_only allowed (_iterKeys_script cb a).
Proof.
  intros Hr Hcb.
  assert (∀ n i keys, asks_only allowed (collect_keys_script n i keys))
    by (intros; eapply asks_only_mono, reads_only_collect_keys; done).
  unfold _iterKeys_script, for_in_script.
  repeat first
    [ apply asks_only_bind; [|intros ?]
    | apply asks_only_for_each; intros ? ?
    | apply asks_only_ask, Hr; done
    | done
    | match goal with |- asks_only _ (match ?c with _ => _ end) =>
        destruct c end ].
Qed.

Lemma reads_only_keys includeExpired : reads_only (keys_script includeExpired).
Proof.
  apply asks_only__iterKeys; [done|]. intros k ret.
  unfold keys_callback_script. asks_only.
Qed.

Lemma never_sets_removeItem key : never_sets (removeItem_script key).
Proof. unfold removeItem_script. asks_only. Qed.
#[local] Hint Resolve never_sets_removeItem : script.

Lemma never_sets_getItem key : never_sets (getItem_script key).
Proof. unfold getItem_script. asks_only. Qed.
#[local] Hint Resolve never_sets_getItem : script.

Lemma never_sets_clearExpired : never_sets clearExpired_script.
Proof.
  unfold clearExpired_script. asks_only.
  apply asks_only__iterKeys; [by intros []|]. intros k ret.
  unfold clearExpired_callback_script. asks_only.
Qed.

Lemma never_sets_getJson `{!Json V} key :
  never_sets (getJson_script (V := V) key).
Proof. unfold getJson_script. asks_only. Qed.
End requests.

#[export] Hint Resolve reads_only_getTimestamp reads_only_getTimeLeft
  reads_only_isExpired reads_only_peek reads_only_keys never_sets_removeItem
  never_sets_getItem never_sets_clearExpired never_sets_getJson : script.
