(* ===== verification/Cost.v ===== *)
(** * Cost: the requests a method makes of the store

    Every method is a finite computation: its script makes a number of
    requests of the store and of the clock that [Steps.requests] counts,
    and is finished after them ([Steps.step_requests]).  This file
    bounds the count.  The methods of one entry make a fixed number of
    requests, four at most ([entry_requests]).  [keys] and
    [clearExpired] walk the keys of the store once: the number of their
    requests is linear in the number of names walked, [walk_length],
    on each of the four branches of [_iterKeys], the probes for the way
    to list the keys and the calls of [key(i)] included
    ([keys_requests], [clearExpired_requests]). *)

From S2P Require Import Prelude Loops Js Dict Storage ExpiredStorage Steps.
From S2P Require Import TestStorage WebStorage TestSuite Expiry Sweep.

Section cost.
Context {St : Type} `{!Storage St}.
Implicit Types (w : World St) (key : string) (n b : nat).

(** The names [_iterKeys] walks: the array of its first three branches,
    or the properties [for ... in] starts with. *)
Definition walk_length w : nat :=
  match key_snapshot w with
  | Some l => length l
  | None => length (st_for_in (storage w))
  end.

(** ** Scripts *)

Lemma requests_bind {A B} (m : Script A) (f : A → Script B) w :
  requests (m ≫= f) w =
  (requests m w + requests (f (run m w).1) (run m w).2)%nat.
Proof.
  revert w. induction m as [a|r k IH]; intros w; [done|].
  change (Asks r k ≫= f) with (Asks r (λ a, k a ≫= f)).
  cbn [requests]. by rewrite IH, run_asks.
Qed.

Lemma requests_ask r (w : World St) : requests (ask r) w = 1%nat.
Proof. done. Qed.

(** A script that makes at most [b] requests, whatever the world. *)
Definition at_most {A} (b : nat) (m : Script A) : Prop :=
  ∀ w : World St, (requests m w ≤ b)%nat.

Lemma at_most_ret {A} (a : A) b : at_most b (mret a).
Proof. intros w. cbn. lia. Qed.

Lemma at_most_ask r b : (1 ≤ b)%nat → at_most b (ask r).
Proof. intros Hb w. by rewrite requests_ask. Qed.

Lemma at_most_bind {A B} b1 b2 b (m : Script A) (f : A → Script B) :
  at_most b1 m → (∀ a, at_most b2 (f a)) → (b1 + b2 ≤ b)%nat →
  at_most b (m ≫= f).
Proof.
  intros Hm Hf Hb w. rewrite requests_bind.
  pose proof (Hm w). pose proof (Hf (run m w).1 (run m w).2). lia.
Qed.

(** One request. *)
Ltac one_request := intros ?; cbn [requests ask]; lia.

(** The first request of a script that starts with one. *)
Ltac first_request :=
  cbn [mbind script_mbind script_bind ask requests]; rewrite ?run_asks;
  cbn [perform gets fst snd].

Lemma at_most_mono {A} b b' (m : Script A) :
  at_most b m → (b ≤ b')%nat → at_most b' m.
Proof. intros Hm Hb w. pose proof (Hm w). lia. Qed.

(** ** The methods of one entry *)

Lemma getTimestamp_requests : at_most 1 getTimestamp_script.
Proof. intros w. by cbn. Qed.

Lemma getTimeLeft_requests key : at_most 2 (getTimeLeft_script key).
Proof.
  unfold getTimeLeft_script.
  apply (at_most_bind 1 1); [one_request| |done]. intros raw.
  cbv zeta. destruct (_ && _); [|apply at_most_ret].
  apply (at_most_bind 1 0);
    [apply getTimestamp_requests|intros; apply at_most_ret|done].
Qed.

Lemma isExpired_requests key : at_most 2 (isExpired_script key).
Proof.
  apply (at_most_bind 2 0);
    [apply getTimeLeft_requests|intros; apply at_most_ret|done].
Qed.

Lemma removeItem_requests key : at_most 2 (removeItem_script key).
Proof. intros w. by cbn. Qed.

Lemma getItem_requests key : at_most 4 (getItem_script key).
Proof.
  apply (at_most_bind 2 2); [apply isExpired_requests| |done].
  intros [|]; [|one_request].
  apply (at_most_bind 2 0);
    [apply removeItem_requests|intros; apply at_most_ret|done].
Qed.

Lemma peek_requests key : at_most 3 (peek_script key).
Proof.
  apply (at_most_bind 1 2); [one_request| |done]. intros value.
  apply (at_most_bind 2 0);
    [apply getTimeLeft_requests|intros; apply at_most_ret|done].
Qed.

Lemma updateExpiration_requests key expiration :
  at_most 2 (updateExpiration_script key expiration).
Proof. intros w. by cbn. Qed.

Lemma setItem_requests key value expiration :
  at_most 3 (setItem_script key value expiration).
Proof.
  apply (at_most_bind 1 2); [one_request| |done]. intros ret.
  apply (at_most_bind 2 0); [|intros; apply at_most_ret|done].
  destruct (truthy expiration); [|apply at_most_ret].
  apply (at_most_bind 2 0);
    [apply updateExpiration_requests|intros; apply at_most_ret|done].
Qed.

(** The methods of one entry make four requests at most: two for a
    time left, two for a removal, three for a write. *)
Theorem entry_requests key value expiration w :
  (requests (setItem_script key value expiration) w ≤ 3)%nat ∧
  (requests (updateExpiration_script key expiration) w ≤ 2)%nat ∧
  (requests (getItem_script key) w ≤ 4)%nat ∧
  (requests (peek_script key) w ≤ 3)%nat ∧
  (requests (getTimeLeft_script key) w ≤ 2)%nat ∧
  (requests (isExpired_script key) w ≤ 2)%nat ∧
  (requests (removeItem_script key) w ≤ 2)%nat ∧
  (requests clear_script w ≤ 1)%nat.
Proof.
  split_and!;
    first [apply setItem_requests|apply updateExpiration_requests
          |apply getItem_requests|apply peek_requests
          |apply getTimeLeft_requests|apply isExpired_requests
          |apply removeItem_requests|by cbn].
Qed.

(** ** The loops *)

Lemma for_each_requests {A B} b (cb : B → A → Script A) keys a w :
  (∀ k a, at_most b (cb k a)) →
  (requests (for_each_script cb keys a) w ≤ b * length keys)%nat.
Proof.
  intros Hcb. revert a w. induction keys as [|k keys IH]; intros a w.
  { cbn. lia. }
  cbn [for_each_script length]. rewrite requests_bind.
  pose proof (Hcb k a w). pose proof (IH (run (cb k a) w).1 (run (cb k a) w).2).
  lia.
Qed.

(** The loop over [key(i)] makes one request for each index, collects
    as many keys, and leaves the world as it is. *)
Lemma collect_keys_requests n i keys w :
  requests (collect_keys_script n i keys) w = n ∧
  length (run (collect_keys_script n i keys) w).1 = (length keys + n)%nat ∧
  (run (collect_keys_script n i keys) w).2 = w.
Proof.
  revert i keys. induction n as [|n IH]; intros i keys.
  { cbn. split_and!; [done|lia|done]. }
  cbn [collect_keys_script]. first_request.
  destruct (IH (S i) (keys ++ [match st_key with
                                | Some key_fn => key_fn (storage w) i
                                | None => EmptyString
                                end])) as (-> & -> & ->).
  rewrite length_app. cbn. split_and!; [done|lia|done].
Qed.

(** [for ... in] asks for the names and, at each, whether it is still
    there. *)
Lemma for_in_requests {A} b (cb : string → A → Script A) a w :
  (∀ k a, at_most b (cb k a)) →
  (requests (for_in_script cb a) w
   ≤ 1 + (1 + b) * length (st_for_in (storage w)))%nat.
Proof.
  intros Hcb. unfold for_in_script. first_request.
  apply le_n_S, (for_each_requests (1 + b)).
  intros k a' w'. cbn [requests]. apply le_n_S.
  match goal with |- context [if ?c then _ else _] => destruct c end;
    [apply Hcb|cbn; lia].
Qed.

(** [_iterKeys]: three probes at most for the way to list the keys,
    one request for each key where they are asked for one by one, and
    the requests of the callback at each name. *)
Lemma _iterKeys_requests {A} b (cb : string → A → Script A) a w :
  (∀ k a, at_most b (cb k a)) →
  (requests (_iterKeys_script cb a) w ≤ 4 + (1 + b) * walk_length w)%nat.
Proof.
  intros Hcb. unfold _iterKeys_script, walk_length, key_snapshot.
  first_request.
  destruct (@st_keys St _) as [keys_fn|]; cbn [fmap option_fmap option_map].
  { pose proof (for_each_requests b cb (keys_fn (storage w)) a w Hcb). lia. }
  first_request.
  destruct (has_Object_keys w).
  { pose proof (for_each_requests b cb (st_object_keys (storage w)) a w Hcb).
    lia. }
  first_request.
  destruct (@st_length St _) as [length_fn|], (@st_key St _) as [key_fn|] eqn:Hkey.
  2-4: pose proof (for_in_requests b cb a w Hcb); lia.
  rewrite requests_bind.
  destruct (collect_keys_requests (length_fn (storage w)) 0 [] w)
    as (-> & Hlen & ->).
  pose proof (for_each_requests b cb
    (run (collect_keys_script (length_fn (storage w)) 0 []) w).1 a w Hcb).
  rewrite length_fmap, length_seq. cbn [length] in Hlen. lia.
Qed.

(** ** [keys] and [clearExpired] *)

Lemma keys_callback_requests includeExpired k ret :
  at_most 2 (keys_callback_script includeExpired k ret).
Proof.
  unfold keys_callback_script.
  case_bool_decide; [|apply at_most_ret].
  destruct includeExpired; [apply at_most_ret|].
  apply (at_most_bind 2 0); [apply isExpired_requests| |done].
  intros [|]; apply at_most_ret.
Qed.

Lemma clearExpired_callback_requests k ret :
  at_most 4 (clearExpired_callback_script k ret).
Proof.
  unfold clearExpired_callback_script.
  case_bool_decide; [|apply at_most_ret]. cbv zeta.
  apply (at_most_bind 2 2); [apply isExpired_requests| |done].
  intros [|]; [|apply at_most_ret].
  apply (at_most_bind 2 0);
    [apply removeItem_requests|intros; apply at_most_ret|done].
Qed.

(** [keys] makes at most three requests for each name it walks, and
    four more: it is linear in the size of the store, expiry records
    included. *)
Theorem keys_requests includeExpired w :
  (requests (keys_script includeExpired) w ≤ 4 + 3 * walk_length w)%nat.
Proof.
  etrans; [apply (_iterKeys_requests 2), keys_callback_requests|lia].
Qed.

(** [clearExpired] makes at most five requests for each name it walks,
    and five more, whatever it finds expired: a sweep is linear in the
    size of the store, and is finished after that many requests. *)
Theorem clearExpired_requests w :
  (requests clearExpired_script w ≤ 5 + 5 * walk_length w)%nat.
Proof.
  unfold clearExpired_script. rewrite requests_bind.
  pose proof (_iterKeys_requests 4 clearExpired_callback_script [] w
                clearExpired_callback_requests).
  pose proof (getTimestamp_requests w).
  change (run getTimestamp_script w).2 with w. lia.
Qed.

(** C25. A sweep made one request at a time is finished after that many
    requests, with the keys [clearExpired] returns and the world it
    leaves, and stays so. *)
Theorem clearExpired_finishes w n :
  (5 + 5 * walk_length w ≤ n)%nat →
  Nat.iter n (λ mw, step mw.1 mw.2) (clearExpired_script, w) =
  (Finished (eval clearExpired w), exec clearExpired w).
Proof.
  intros Hn. rewrite step_enough, run_clearExpired; [done|].
  etrans; [apply clearExpired_requests|done].
Qed.
End cost.

(** * On the stores of the test suite *)

(** In the middle of "Clear expired" the store holds four values and
    three expiry records: seven names.  Over web storage the sweep asks
    for the time, probes twice for the keys, reads the three records
    with the time at each, and removes two entries: 13 requests.  Over
    the custom store, whose [keys()] answers the first probe, 12. *)
Example clearExpired_requests_examples :
  walk_length web_before_sweep = 7%nat ∧
  requests clearExpired_script web_before_sweep = 13%nat ∧
  requests (keys_script false) web_before_sweep = 9%nat ∧
  requests clearExpired_script before_sweep = 12%nat ∧
  requests (keys_script false) before_sweep = 8%nat.
Proof. by vm_compute. Qed.

(** Forty requests are enough for the sweep of the test suite over web
    storage. *)
Lemma clearExpired_finishes_witness :
  (5 + 5 * walk_length web_before_sweep ≤ 40)%nat ∧
  Nat.iter 40 (λ mw, step mw.1 mw.2) (clearExpired_script, web_before_sweep) =
  (Finished (eval clearExpired web_before_sweep),
   exec clearExpired web_before_sweep).
Proof.
  split; [vm_compute; lia|apply clearExpired_finishes; vm_compute; lia].
Defined.
