(* ===== verification/Throwing.v ===== *)
(** * Throwing: the class over a store whose [setItem] can throw

    [setItem] of web storage throws a [QuotaExceededError] when the
    storage area is full, and a custom storage class may throw for
    reasons of its own.  The class catches nothing: [setItem] calls
    [this._storage.setItem] for the value and then, through
    [updateExpiration], for the expiry record, and an exception of either
    call leaves through [setItem].  The rest of the development takes
    [setItem] of the store for total; this file runs the scripts of
    [Steps] over a store that throws ([run_throwing]): a script returns a
    value or what was thrown, with the world at the throw.  It shows

    - that a script which returns has done what [Steps.run] does, so
      that the theorems on the total methods hold of every call that
      returns, and that the methods that never call [setItem], a sweep
      among them, never throw ([only_setItem_throws]);
    - that a call of [setItem] which throws has written nothing, or has
      written the value and not the expiry record: an item asked to live
      for a time that then lives for ever, or takes the expiry of an
      earlier item under its key.

    The quota of web storage is one such store: the room an area has is
    counted in code units of its keys and values. *)

From S2P Require Import Prelude Js Dict Storage ExpiredStorage Steps.
From S2P Require Import TestStorage WebStorage TestSuite Expiry.

(** * Computations that can throw *)

(** A computation over a state [Σ] that returns an [A] or throws an
    [E]; the state is the one at the [throw]. *)
Definition Throws (E Σ A : Type) : Type := Σ → (E + A) * Σ.

(** A computation that never throws. *)
Definition total {E Σ A} (m : State Σ A) : Throws E Σ A :=
  λ s, (inr (m s).1, (m s).2).

Section throwing.
Context {St E : Type} `{StorageLaws St}.

(** What [setItem] of the store throws, if anything, for a key and a
    value in a state of the store. *)
Context (thrown : string → JSValue → St → option E).
Implicit Types (w : World St) (key : string) (value expiration : JSValue).
Implicit Types (e : E) (r : Request).

(** What a request throws: [getItem], [removeItem] and [clear] never
    do. *)
Definition request_thrown r w : option E :=
  match r with
  | StorageSetItem key value => thrown key value (storage w)
  | _ => None
  end.

(** A script run until it is finished or a request throws. *)
Fixpoint run_throwing {A} (m : Script A) w : (E + A) * World St :=
  match m with
  | Finished a => (inr a, w)
  | Asks r k =>
      match request_thrown r w with
      | Some e => (inl e, w)
      | None => let a := perform r w in run_throwing (k a.1) a.2
      end
  end.

Definition updateExpiration_throwing key expiration
    : Throws E (World St) JSValue :=
  run_throwing (updateExpiration_script key expiration).

Definition setItem_throwing key value expiration
    : Throws E (World St) JSValue :=
  run_throwing (setItem_script key value expiration).

(** [setJson] throws its own error on [undefined], and else what
    [setItem] throws. *)
Definition setJson_throwing `{!Json V} key (val : V) expiration
    : Throws (JsonError + E) (World St) JSValue :=
  λ w, if is_undefined val then (inl (inl CannotSetUndefined), w)
       else
         match setItem_throwing key (stringified val) expiration w with
         | (inl e, w') => (inl (inr e), w')
         | (inr ret, w') => (inr ret, w')
         end.

(** * Any script *)

Lemma run_throwing_bind {A B} (m : Script A) (f : A → Script B) w :
  run_throwing (m ≫= f) w =
  match run_throwing m w with
  | (inl e, w') => (inl e, w')
  | (inr a, w') => run_throwing (f a) w'
  end.
Proof.
  revert w. induction m as [a|r k IH]; intros w; [done|].
  change (Asks r k ≫= f) with (Asks r (λ a, k a ≫= f)). cbn [run_throwing].
  destruct (request_thrown r w); [done|]. apply IH.
Qed.

(** A script that returns has done what [run] does. *)
Lemma run_throwing_inr {A} (m : Script A) w a w' :
  run_throwing m w = (inr a, w') → run m w = (a, w').
Proof.
  revert w. induction m as [b|r k IH]; intros w; cbn [run_throwing].
  { by intros [= <- <-]. }
  destruct (request_thrown r w); [done|]. rewrite run_asks. apply IH.
Qed.

(** Over a store that throws nothing [run_throwing] is [run]. *)
Lemma run_throwing_total {A} (m : Script A) w :
  (∀ k v s, thrown k v s = None) → run_throwing m w = total (run m) w.
Proof.
  intros Hnone. revert w. induction m as [b|r k IH]; intros w; [done|].
  cbn [run_throwing]. unfold total. rewrite run_asks, IH.
  by destruct r; cbn; rewrite ?Hnone.
Qed.

(** A script that asks the store to set nothing never throws: it is the
    method it is the script of. *)
Lemma run_throwing_never_sets {A} (m : Script A) w :
  never_sets m → run_throwing m w = total (run m) w.
Proof.
  revert w. induction m as [b|r k IH]; intros w; [done|].
  intros [Hr Hk]. cbn [run_throwing]. unfold total.
  rewrite run_asks, IH by done. by destruct r.
Qed.

Lemma never_sets_total {A} (m : Script A) (method : State (World St) A) w :
  never_sets m → (∀ w, run m w = method w) →
  run_throwing m w = total method w.
Proof.
  intros Hm Hrun. rewrite run_throwing_never_sets by done.
  unfold total. by rewrite Hrun.
Qed.

(** * What a call of [setItem] does *)

(** The world after the value is written, before the expiry record
    is. *)
Definition value_written key value w : World St :=
  exec (storage_setItem key value) w.

(** What the write of the expiry record throws, if anything. *)
Definition record_thrown key value expiration w : option E :=
  if truthy expiration then
    thrown (expiry_key key) (add_to_timestamp (now w) expiration)
      (storage (value_written key value w))
  else None.

Lemma updateExpiration_throwing_run key expiration w :
  updateExpiration_throwing key expiration w =
  match thrown (expiry_key key) (add_to_timestamp (now w) expiration)
          (storage w) with
  | Some e => (inl e, w)
  | None => (inr (eval (updateExpiration key expiration) w),
             exec (updateExpiration key expiration) w)
  end.
Proof.
  unfold updateExpiration_throwing. cbn.
  fold (expiry_key key) (now w). by destruct (thrown _ _ _).
Qed.

Lemma value_written_storage key value w :
  value_written key value w =
  set_storage (st_setItem key value (storage w)).2 w.
Proof.
  unfold value_written, exec, storage_setItem. by rewrite on_storage_run.
Qed.

Lemma value_written_now key value w : now (value_written key value w) = now w.
Proof. by rewrite value_written_storage. Qed.

(** The three ways a call of [setItem] ends: the write of the value
    throws and nothing is written; the write of the expiry record
    throws and the value is written; nothing throws and the call is the
    one of [ExpiredStorage.setItem]. *)
Lemma setItem_throwing_run key value expiration w :
  setItem_throwing key value expiration w =
  match thrown key value (storage w) with
  | Some e => (inl e, w)
  | None =>
      match record_thrown key value expiration w with
      | Some e => (inl e, value_written key value w)
      | None => (inr (eval (setItem key value expiration) w),
                 exec (setItem key value expiration) w)
      end
  end.
Proof.
  unfold setItem_throwing, setItem_script. cbn [mbind script_mbind
    script_bind ask run_throwing request_thrown].
  destruct (thrown key value (storage w)) as [e|]; [done|].
  change (perform (StorageSetItem key value) w).2
    with (value_written key value w).
  assert ((perform (StorageSetItem key value) w).1 =
          (st_setItem key value (storage w)).1) as ->
    by (cbn; unfold storage_setItem; by rewrite on_storage_run).
  unfold record_thrown, eval, exec. rewrite setItem_run. cbn [fst snd].
  rewrite <- value_written_storage.
  destruct (truthy expiration); [|done].
  pose proof (updateExpiration_throwing_run key expiration
                (value_written key value w)) as Hrecord.
  unfold updateExpiration_throwing in Hrecord.
  rewrite !run_throwing_bind, Hrecord, value_written_now. clear Hrecord.
  by destruct (thrown (expiry_key key) (add_to_timestamp (now w) expiration)
                 (storage (value_written key value w))).
Qed.

(** The value written and nothing else is [setItem] without a time to
    live. *)
Lemma value_written_setItem key value w :
  value_written key value w = exec (setItem key value JUndefined) w.
Proof. unfold exec. by rewrite setItem_run, value_written_storage. Qed.

Lemma setItem_throwing_inr key value expiration w ret w' :
  setItem_throwing key value expiration w = (inr ret, w') →
  setItem key value expiration w = (ret, w').
Proof. intros Hr%run_throwing_inr. by rewrite <- run_setItem. Qed.

(** A call that returns is the call of [ExpiredStorage.setItem]: it
    returns the same and leaves the same world. *)
Theorem setItem_throwing_returns key value expiration w ret w' :
  setItem_throwing key value expiration w = (inr ret, w') →
  setItem key value expiration w = (ret, w').
Proof. apply setItem_throwing_inr. Qed.

(** So is a call of [setJson] that returns, and one that throws the
    error of [setJson] itself. *)
Theorem setJson_throwing_returns `{!Json V} key (val : V) expiration w res w' :
  setJson_throwing key val expiration w = (res, w') →
  match res with
  | inr ret => setJson key val expiration w = (inr ret, w')
  | inl (inl e) => setJson key val expiration w = (inl e, w')
  | inl (inr e) => is_undefined val = false ∧
      setItem_throwing key (stringified val) expiration w = (inl e, w')
  end.
Proof.
  unfold setJson_throwing, setJson.
  destruct (is_undefined val); [by intros [= <- <-]|].
  destruct (setItem_throwing _ _ _ _) as [[e|ret] w1] eqn:Hset;
    intros [= <- <-]; [done|].
  apply setItem_throwing_inr in Hset. by rewrite run_bind, Hset.
Qed.

(** Over a store that never throws the two are one. *)
Theorem setItem_throwing_total key value expiration w :
  (∀ k v s, thrown k v s = None) →
  setItem_throwing key value expiration w =
  total (setItem key value expiration) w.
Proof.
  intros Hnone. rewrite setItem_throwing_run, Hnone.
  unfold record_thrown. rewrite Hnone. by destruct (truthy expiration).
Qed.

(** A call that throws has written nothing, or the value and not the
    expiry record: the world is the one [setItem] without a time to
    live would have left. *)
Theorem setItem_throwing_throws key value expiration w e w' :
  setItem_throwing key value expiration w = (inl e, w') →
  thrown key value (storage w) = Some e ∧ w' = w ∨
  thrown key value (storage w) = None ∧
  record_thrown key value expiration w = Some e ∧
  w' = exec (setItem key value JUndefined) w.
Proof.
  rewrite setItem_throwing_run, <- value_written_setItem.
  destruct (thrown _ _ _) as [e1|]; [left; by simplify_eq|].
  destruct (record_thrown _ _ _ _) as [e2|]; [right; by simplify_eq|done].
Qed.

(** When the write of the expiry record throws, the item is in the
    store with the expiry its key had: none, if it had none, whatever
    the time to live asked for. *)
Lemma setItem_torn key value expiration w e :
  thrown key value (storage w) = None →
  record_thrown key value expiration w = Some e →
  let r := setItem_throwing key value expiration w in
  r.1 = inl e ∧ st_getItem key (storage r.2) = st_stored St value ∧
  expiry key r.2 = expiry key w.
Proof.
  intros Hv Hr. cbv zeta. rewrite setItem_throwing_run, Hv, Hr. cbn [fst snd].
  rewrite value_written_setItem. split_and!; [done| |].
  - by rewrite st_getItem_model, lookup_setItem_value.
  - by apply expiry_ext, lookup_setItem_no_ttl.
Qed.

(** Such an item, under a key that had no expiry, is served for ever. *)
Theorem setItem_torn_lives key value expiration w e ms :
  thrown key value (storage w) = None →
  record_thrown key value expiration w = Some e →
  expiry key w = None →
  let w' := (setItem_throwing key value expiration w).2 in
  eval (getItem key) (advance ms w') = st_stored St value.
Proof.
  intros Hv Hr Hw w'.
  destruct (setItem_torn key value expiration w e Hv Hr) as (_ & Hval & He).
  unfold eval, w'. rewrite getItem_run. unfold expired.
  by rewrite expiry_advance, He, Hw.
Qed.

(** Whatever [setItem] of the store throws, the methods that do not
    call it never throw what the store throws: [getItem], [removeItem],
    [getTimeLeft], [isExpired], [peek], [keys], [clearExpired], [clear]
    and [getJson] are the methods of [ExpiredStorage.v].  A sweep is
    never cut short by a full store. *)
Theorem only_setItem_throws `{!Json V} key includeExpired w :
  run_throwing (getItem_script key) w = total (getItem key) w ∧
  run_throwing (removeItem_script key) w = total (removeItem key) w ∧
  run_throwing (getTimeLeft_script key) w = total (getTimeLeft key) w ∧
  run_throwing (isExpired_script key) w = total (isExpired key) w ∧
  run_throwing (peek_script key) w = total (peek key) w ∧
  run_throwing (keys_script includeExpired) w =
    total (keys includeExpired) w ∧
  run_throwing clearExpired_script w = total clearExpired w ∧
  run_throwing clear_script w = total clear w ∧
  run_throwing (getJson_script (V := V) key) w = total (getJson key) w.
Proof.
  split_and!; apply never_sets_total;
    auto using run_getItem, run_removeItem, run_getTimeLeft, run_isExpired,
      run_peek, run_keys, run_clearExpired, run_getJson with script.
  by split.
Qed.
End throwing.

(** * The quota of web storage *)

(** What [setItem] of web storage throws. *)
Inductive DOMException : Type :=
  | QuotaExceededError.

(** The room the entries of a storage area take: the code units of
    their keys and values. *)
Definition used (items : list (string * string)) : nat :=
  sum_list ((λ kv, String.length kv.1 + String.length kv.2)%nat <$> items).

(** [setItem] throws when the area would take more than the quota with
    the new value. *)
Definition quota_thrown (quota : nat) (key : string) (value : JSValue)
    (s : WebStore) : option DOMException :=
  if decide (used (web_items (localStorage_setItem key value s).2) ≤ quota)%nat
  then None else Some QuotaExceededError.

(** The item of the README in an empty area takes 10 code units, and
    38 with its expiry record.  With room for 40 the call returns; with
    room for 30 it throws and leaves the item without expiry; with room
    for 5 it throws and leaves nothing. *)
Example setItem_quota :
  let call quota :=
    setItem_throwing (quota_thrown quota) "test" (JString "foobar") (Num 60)
      web_browser in
  call 40%nat = total (setItem "test" (JString "foobar") (Num 60)) web_browser ∧
  call 30%nat =
    (inl QuotaExceededError,
     exec (setItem "test" (JString "foobar") JUndefined) web_browser) ∧
  call 5%nat = (inl QuotaExceededError, web_browser).
Proof. by vm_compute. Qed.

(** The call that throws on the expiry record. *)
Definition torn : (DOMException + JSValue) * World WebStore :=
  setItem_throwing (quota_thrown 30) "test" (JString "foobar") (Num 60)
    web_browser.

Section witnesses.

Lemma setItem_throwing_returns_witness :
  setItem_throwing (quota_thrown 40) "test" (JString "foobar") (Num 60)
    web_browser =
  (inr JUndefined,
   exec (setItem "test" (JString "foobar") (Num 60)) web_browser) ∧
  setItem "test" (JString "foobar") (Num 60) web_browser =
  (JUndefined, exec (setItem "test" (JString "foobar") (Num 60)) web_browser).
Proof.
  split; [by vm_compute|].
  by apply (setItem_throwing_returns (quota_thrown 40)).
Defined.

Lemma setItem_throwing_throws_witness :
  setItem_throwing (quota_thrown 30) "test" (JString "foobar") (Num 60)
    web_browser = (inl QuotaExceededError, torn.2) ∧
  (quota_thrown 30 "test" (JString "foobar") (storage web_browser)
     = Some QuotaExceededError ∧ torn.2 = web_browser ∨
   quota_thrown 30 "test" (JString "foobar") (storage web_browser) = None ∧
   record_thrown (quota_thrown 30) "test" (JString "foobar") (Num 60)
     web_browser = Some QuotaExceededError ∧
   torn.2 = exec (setItem "test" (JString "foobar") JUndefined) web_browser).
Proof.
  split; [by vm_compute|].
  by apply (setItem_throwing_throws (quota_thrown 30) _ _ (Num 60)).
Defined.

Lemma setItem_torn_lives_witness :
  (quota_thrown 30 "test" (JString "foobar") (storage web_browser) = None ∧
   record_thrown (quota_thrown 30) "test" (JString "foobar") (Num 60)
     web_browser = Some QuotaExceededError ∧
   expiry "test" web_browser = None) ∧
  eval (getItem "test") (advance 86400000 torn.2) =
  st_stored WebStore (JString "foobar").
Proof.
  split; [by vm_compute|].
  by apply (setItem_torn_lives (quota_thrown 30) _ _ (Num 60) _
              QuotaExceededError).
Defined.
End witnesses.
