(* ===== verification/Caught.v ===== *)
(** * Caught: sequences of calls over a store that throws

    The class catches nothing of what [setItem] of the store throws:
    the exception leaves through the method, and the caller that
    catches it goes on with a store in which the call was made in
    part.  This file runs the sequences of calls of [Machine] over a
    store that throws, as [Throwing] runs one script: each call is the
    script of its method ([call_script]), run until it returns or
    throws ([call_throwing]); the caller catches and goes on with the
    next call ([trace_caught]).

    What a call has done when it throws is what another call would
    have done had it returned ([made]): nothing, or, for [setItem] with
    a time to live, [setItem] without one.  A sequence of calls with
    its exceptions caught therefore leaves the world of a sequence of
    calls that all return ([effective], [trace_caught_effective]), so
    that

    - the store stays well formed, whatever throws ([caught_invariant]);
    - the sequence is a trace of the abstract machine in which a call
      may fail, [setItem] leaving the value without its expiry
      ([caught_refinement]);
    - an entry is served until its instant and not after, whatever
      throws in the calls on the other keys ([served_despite_throws]). *)

From S2P Require Import Prelude Js Dict Storage ExpiredStorage.
From S2P Require Import TestStorage WebStorage TestSuite Expiry Sweep.
From S2P Require Import Spec Machine Guarantees Steps Throwing.

(** * Calls over a store that throws *)

(** The script of a call: the script of its method, and the result made
    of what it returns.  Time passes without a request. *)
Definition call_script (c : Call) : Script Result :=
  match c with
  | CSetItem key value ttl =>
      ret ← setItem_script key value (expiration_of ttl); mret (RValue ret)
  | CGetItem key => ret ← getItem_script key; mret (RValue ret)
  | CGetTimeLeft key => ret ← getTimeLeft_script key; mret (RTimeLeft ret)
  | CIsExpired key => ret ← isExpired_script key; mret (RBool ret)
  | CRemoveItem key => ret ← removeItem_script key; mret (RValue ret)
  | CKeys includeExpired => ret ← keys_script includeExpired; mret (RKeys ret)
  | CClear => clear_script;; mret RUnit
  | CClearExpired => ret ← clearExpired_script; mret (RKeys ret)
  | CTick _ => mret RUnit
  | CUpdateExpiration key d =>
      ret ← updateExpiration_script key (Num d); mret (RValue ret)
  | CPeek key => ret ← peek_script key; mret (RPeek ret)
  end.

Section caught.
Context {St E : Type} `{StorageLaws St}.
Context (thrown : string → JSValue → St → option E).
Implicit Types (w : World St) (c : Call) (cs : list Call) (key : string).
Implicit Types (e : E).

(** A call run until it returns or throws. *)
Definition call_throwing c : Throws E (World St) Result :=
  match c with
  | CTick ms => total (call c)
  | _ => run_throwing thrown (call_script c)
  end.

(** A sequence of calls, the caller catching what a call throws and
    going on with the next. *)
Fixpoint trace_caught cs w : list (Call * (E + Result)) * World St :=
  match cs with
  | [] => ([], w)
  | c :: cs =>
      let r := call_throwing c w in
      let tr := trace_caught cs r.2 in
      ((c, r.1) :: tr.1, tr.2)
  end.

(** The call that was made, in effect: the call itself when it
    returns; when [setItem] throws on the expiry record, [setItem]
    without a time to live; none when a call throws on its first
    write. *)
Definition made c w : option Call :=
  match c with
  | CSetItem key value ttl =>
      match thrown key value (storage w) with
      | Some _ => None
      | None =>
          match record_thrown thrown key value (expiration_of ttl) w with
          | Some _ => Some (CSetItem key value None)
          | None => Some c
          end
      end
  | CUpdateExpiration key d =>
      match thrown (expiry_key key) (add_to_timestamp (now w) (JNumber (Num d)))
              (storage w) with
      | Some _ => None
      | None => Some c
      end
  | _ => Some c
  end.

(** The calls that were made, in effect, by a sequence of calls. *)
Fixpoint effective cs w : list Call :=
  match cs with
  | [] => []
  | c :: cs => option_list (made c w) ++ effective cs (call_throwing c w).2
  end.

(** ** The specification of a call that throws

    Only [setItem] and [updateExpiration] throw.  A call that throws
    leaves the abstract store as it was, or, for [setItem] with a time
    to live, with the value written and the expiry the key had. *)
Definition spec_throws c (a a' : AWorld) : Prop :=
  match c with
  | CSetItem key value ttl =>
      a' = a ∨ is_Some ttl ∧ a' = spec_step St (CSetItem key value None) a
  | CUpdateExpiration _ _ => a' = a
  | _ => False
  end.

Inductive spec_caught_steps
    : AWorld → list (Call * (E + Result)) → AWorld → Prop :=
  | spec_caught_nil a : spec_caught_steps a [] a
  | spec_caught_returns a c r tr a' :
      spec_result c a r → spec_caught_steps (spec_step St c a) tr a' →
      spec_caught_steps a ((c, inr r) :: tr) a'
  | spec_caught_throws a c e tr a1 a' :
      spec_throws c a a1 → spec_caught_steps a1 tr a' →
      spec_caught_steps a ((c, inl e) :: tr) a'.

(** ** What a call does *)

(** The script of a call, run to its end, is the call. *)
Lemma run_call_script c w :
  (∀ ms, c ≠ CTick ms) → run (call_script c) w = call c w.
Proof.
  intros Htick. destruct c; try by destruct (Htick ms).
  all: cbn [call_script call]; rewrite run_script_bind, run_call.
  all: by rewrite 1?run_setItem, 1?run_getItem, 1?run_getTimeLeft,
    1?run_isExpired, 1?run_removeItem, 1?run_keys, 1?run_clearExpired,
    1?run_updateExpiration, 1?run_peek.
Qed.

(** The calls that ask the store to set nothing never throw. *)
Lemma call_throwing_total c w :
  never_sets (call_script c) → call_throwing c w = total (call c) w.
Proof.
  intros Hc. destruct c; try done;
    (apply never_sets_total; [done|intros w'; by apply run_call_script]).
Qed.

Lemma never_sets_call_script c :
  (∀ key, ¬ sets key c) → never_sets (call_script c).
Proof.
  intros Hc. destruct c; cbn [call_script];
    try (by destruct (Hc key)); asks_only.
Qed.

(** What a call of [setItem] and one of [updateExpiration] do, by what
    their scripts do. *)
Lemma call_throwing_setItem key value ttl w :
  call_throwing (CSetItem key value ttl) w =
  match setItem_throwing thrown key value (expiration_of ttl) w with
  | (inl e, w') => (inl e, w')
  | (inr ret, w') => (inr (RValue ret), w')
  end.
Proof.
  cbn [call_throwing call_script]. rewrite run_throwing_bind.
  unfold setItem_throwing. by destruct (run_throwing _ _ _) as [[?|?] ?].
Qed.

Lemma call_throwing_updateExpiration key d w :
  call_throwing (CUpdateExpiration key d) w =
  match updateExpiration_throwing thrown key (Num d) w with
  | (inl e, w') => (inl e, w')
  | (inr ret, w') => (inr (RValue ret), w')
  end.
Proof.
  cbn [call_throwing call_script]. rewrite run_throwing_bind.
  unfold updateExpiration_throwing.
  by destruct (run_throwing _ _ _) as [[?|?] ?].
Qed.

(** The three ways a call ends. *)
Inductive call_outcome c w : (E + Result) * World St → Prop :=
  | call_returned :
      made c w = Some c →
      call_outcome c w (inr (eval (call c) w), exec (call c) w)
  | call_threw e :
      (∃ key, sets key c) → made c w = None → call_outcome c w (inl e, w)
  | call_threw_between e key value ttl :
      c = CSetItem key value ttl → is_Some ttl →
      made c w = Some (CSetItem key value None) →
      call_outcome c w (inl e, exec (call (CSetItem key value None)) w).

Lemma call_returns c w ret w' :
  made c w = Some c → call c w = (ret, w') → call_outcome c w (inr ret, w').
Proof.
  intros Hm Hc.
  replace ret with (eval (call c) w) by (unfold eval; by rewrite Hc).
  replace w' with (exec (call c) w) by (unfold exec; by rewrite Hc).
  by apply call_returned.
Qed.

Lemma exec_call_setItem key value ttl w :
  exec (call (CSetItem key value ttl)) w =
  exec (setItem key value (expiration_of ttl)) w.
Proof. unfold exec. cbn [call]. by rewrite run_call. Qed.

Lemma setItem_outcome key value ttl w :
  call_outcome (CSetItem key value ttl) w
    (call_throwing (CSetItem key value ttl) w).
Proof.
  rewrite call_throwing_setItem, setItem_throwing_run.
  destruct (thrown key value (storage w)) as [e|] eqn:Hv.
  { apply call_threw; [by exists key|]. cbn [made]. by rewrite Hv. }
  destruct (record_thrown _ _ _ _ _) as [e|] eqn:Hr.
  - rewrite value_written_setItem.
    change JUndefined with (expiration_of None).
    rewrite <- exec_call_setItem.
    apply (call_threw_between _ _ e key value ttl); [done| |].
    + destruct ttl; [done|]. unfold record_thrown in Hr. by cbn in Hr.
    + cbn [made]. by rewrite Hv, Hr.
  - apply call_returns; [|cbn [call]; by rewrite run_call].
    cbn [made]. by rewrite Hv, Hr.
Qed.

Lemma updateExpiration_outcome key d w :
  call_outcome (CUpdateExpiration key d) w
    (call_throwing (CUpdateExpiration key d) w).
Proof.
  rewrite call_throwing_updateExpiration, updateExpiration_throwing_run.
  destruct (thrown _ _ _) as [e|] eqn:Hr.
  { apply call_threw; [by exists key|]. cbn [made]. by rewrite Hr. }
  apply call_returns; [|cbn [call]; by rewrite run_call].
  cbn [made]. by rewrite Hr.
Qed.

Lemma call_throwing_outcome c w : call_outcome c w (call_throwing c w).
Proof.
  destruct c;
    first [apply setItem_outcome|apply updateExpiration_outcome|idtac];
    rewrite call_throwing_total
      by (apply never_sets_call_script; by intros ? []);
    by apply call_returned.
Qed.

(** The world after a call is the world after the call made. *)
Lemma call_throwing_made c w :
  (call_throwing c w).2 =
  from_option (λ made : Call, exec (call made) w) w (made c w).
Proof. by destruct (call_throwing_outcome c w) as [->|? ? ->|? ? ? ? ? ? ->]. Qed.

Lemma exec_trace_cons c cs w :
  exec (trace (c :: cs)) w = exec (trace cs) (exec (call c) w).
Proof. unfold exec at 1. by rewrite trace_cons. Qed.

Lemma trace_app cs1 cs2 w :
  exec (trace (cs1 ++ cs2)) w = exec (trace cs2) (exec (trace cs1) w).
Proof.
  revert w. induction cs1 as [|c cs1 IH]; intros w; [done|].
  rewrite <- app_comm_cons, !exec_trace_cons. apply IH.
Qed.

(** The world after a sequence of calls, whatever they threw, is the
    world after the calls made, which all return. *)
Lemma trace_caught_effective cs w :
  (trace_caught cs w).2 = exec (trace (effective cs w)) w.
Proof.
  revert w. induction cs as [|c cs IH]; intros w; [done|].
  cbn [trace_caught effective snd]. rewrite IH, trace_app, call_throwing_made.
  destruct (made c w) as [made_c|]; [|done].
  by rewrite (exec_trace_cons made_c []).
Qed.

(** The call made is the call, or [setItem] without its time to live. *)
Lemma made_cases c w (made_c : Call) :
  made c w = Some made_c →
  made_c = c ∨
  ∃ key value ttl, c = CSetItem key value ttl ∧ made_c = CSetItem key value None.
Proof.
  destruct c; cbn [made]; try (intros [= <-]; by left).
  - destruct (thrown _ _ _); [done|].
    destruct (record_thrown _ _ _ _ _); intros [= <-]; [right; eauto|by left].
  - destruct (thrown _ _ _); [done|]. intros [= <-]. by left.
Qed.

(** What holds of the calls and is kept when [setItem] loses its time to
    live holds of the calls made. *)
Lemma effective_Forall (P : Call → Prop) cs w :
  (∀ key value ttl, P (CSetItem key value ttl) → P (CSetItem key value None)) →
  Forall P cs → Forall P (effective cs w).
Proof.
  intros HP Hcs. revert w.
  induction Hcs as [|c cs Hc _ IH]; intros w; [done|].
  cbn [effective]. apply Forall_app. split; [|apply IH].
  destruct (made c w) as [made_c|] eqn:Hm; [|done].
  apply Forall_singleton.
  destruct (made_cases c w made_c Hm) as [->|(key & value & ttl & -> & ->)];
    eauto.
Qed.
End caught.

Arguments spec_caught_steps St {E _ _} a tr a'.

(** * What holds whatever throws *)

Section safety.
Context {St E : Type} `{ListableStorage St}.
Context (thrown : string → JSValue → St → option E).
Implicit Types (w : World St) (c : Call) (cs : list Call) (key : string).
Implicit Types (value : JSValue) (d : Z).

Lemma effective_ok cs w :
  Forall call_ok cs → Forall call_ok (effective thrown cs w).
Proof. apply effective_Forall. by intros key value ttl [? _]. Qed.

(** A call keeps the world good and does what the specification says of
    a call that returns, or of one that throws. *)
Lemma call_caught c w :
  good w → call_ok c →
  let r := call_throwing thrown c w in
  good r.2 ∧
  match r.1 with
  | inr ret =>
      spec_result c (abs_world w) ret ∧
      abs_world r.2 = spec_step St c (abs_world w)
  | inl e => spec_throws (St := St) c (abs_world w) (abs_world r.2)
  end.
Proof.
  intros Hgood Hc r. unfold r.
  destruct (call_throwing_outcome thrown c w)
    as [_|e [key Hs] _|e key value ttl -> Httl _]; cbn [fst snd].
  - by destruct (call_refines c w Hgood Hc) as (? & ? & ?).
  - split; [done|]. destruct c; try done. by left.
  - destruct (call_refines (CSetItem key value None) w Hgood) as (_ & Ha & Hg);
      [by destruct Hc|].
    split; [done|]. by right.
Qed.

Lemma trace_caught_refines cs w :
  good w → Forall call_ok cs →
  spec_caught_steps St (abs_world w) (trace_caught thrown cs w).1
    (abs_world (trace_caught thrown cs w).2) ∧
  good (trace_caught thrown cs w).2.
Proof.
  revert w. induction cs as [|c cs IH]; intros w Hgood Hcs.
  { split; [constructor|done]. }
  apply Forall_cons in Hcs as [Hc Hcs]. cbn [trace_caught fst snd].
  destruct (call_caught c w Hgood Hc) as [Hg Hr].
  destruct (IH _ Hg Hcs) as [Hsteps Hgood'].
  split; [|done]. destruct (call_throwing thrown c w).1 as [e|ret].
  - by econstructor.
  - destruct Hr as [Hr Ha]. constructor; [done|]. by rewrite <- Ha.
Qed.

(** The store stays well formed through any sequence of calls, whatever
    they throw: an exception leaves no expiry record under a key that
    looks like a record, and breaks nothing of the store. *)
Theorem caught_invariant cs w :
  good w → Forall call_ok cs → good (trace_caught thrown cs w).2.
Proof. intros Hgood Hcs. by apply trace_caught_refines. Qed.

(** C10. A sequence of calls over a store that throws, its exceptions caught,
    is a trace of the abstract machine in which a call may fail: only
    [setItem] and [updateExpiration] throw; a call that throws leaves
    the abstract store as it was, or, for [setItem] with a time to
    live, holding the value with the expiry its key had; a call that
    returns does what the specification says. *)
Theorem caught_refinement cs w :
  good w → Forall call_ok cs →
  spec_caught_steps St (abs_world w) (trace_caught thrown cs w).1
    (abs_world (trace_caught thrown cs w).2).
Proof. intros Hgood Hcs. by apply trace_caught_refines. Qed.

(** C19. An entry set for [d] seconds is served for [d] seconds and not
    after, whatever is called in between and whatever throws, short of
    calls that write its key. *)
Theorem served_despite_throws key value d cs w :
  good w → record_of key = None → 0 < d → Forall call_ok cs →
  let w' := (trace_caught thrown cs (exec (setItem key value (Num d)) w)).2 in
  (Forall (λ c, ¬ writes key c) cs → now w' < now w + d →
   eval (getItem key) w' = st_stored St value) ∧
  (Forall (λ c, ¬ sets key c) cs → now w + d ≤ now w' →
   eval (getItem key) w' = JNull).
Proof.
  intros Hgood Hkey Hd Hcs w'. unfold w'. rewrite trace_caught_effective.
  destruct (after_setItem key value d w) as [Hg1 Hh]; [done..|].
  destruct (holds_served key _ (now w + d) (effective thrown cs
    (exec (setItem key value (Num d)) w)) _ Hg1 Hkey Hh) as [Hlive Hdead];
    [by apply effective_ok|].
  split; intros Hw; [apply Hlive|apply Hdead]; by apply effective_Forall.
Qed.
End safety.

(** * On web storage with a quota *)

(** An area with room for 40 code units, in which "k" is set for 10
    seconds and takes 27 with its expiry record.  A value of 20 code
    units does not fit, and [setItem] throws on it; "b" fits and its
    expiry record does not, and [setItem] throws on the record; 5
    seconds pass, "b" is read, the area is swept and listed. *)
Definition full_calls : list Call :=
  [CSetItem "big" (JString "aaaaaaaaaaaaaaaaaaaa") None;
   CSetItem "b" (JString "y") (Some 5); CTick 5000; CGetItem "b";
   CUpdateExpiration "b" 5; CClearExpired; CGetItem "k"; CKeys true].

(** The same, and 5 seconds more. *)
Definition late_full_calls : list Call :=
  full_calls ++ [CTick 5000; CGetItem "b"].

Definition k_set : World WebStore :=
  exec (setItem "k" (JString "v") (Num 10)) web_browser.

Section witnesses.

Lemma full_calls_ok : Forall call_ok (CSetItem "k" (JString "v") (Some 10) :: late_full_calls).
Proof. apply (bool_decide_unpack _). by vm_compute. Qed.

Lemma caught_invariant_witness :
  (good web_browser ∧
   Forall call_ok (CSetItem "k" (JString "v") (Some 10) :: late_full_calls)) ∧
  good (trace_caught (quota_thrown 40)
          (CSetItem "k" (JString "v") (Some 10) :: late_full_calls)
          web_browser).2.
Proof.
  split; [split; [apply good_web_browser|apply full_calls_ok]|].
  apply caught_invariant; [apply good_web_browser|apply full_calls_ok].
Defined.

Lemma caught_refinement_witness :
  (good web_browser ∧
   Forall call_ok (CSetItem "k" (JString "v") (Some 10) :: late_full_calls)) ∧
  let cs := CSetItem "k" (JString "v") (Some 10) :: late_full_calls in
  spec_caught_steps WebStore (abs_world web_browser)
    (trace_caught (quota_thrown 40) cs web_browser).1
    (abs_world (trace_caught (quota_thrown 40) cs web_browser).2).
Proof.
  split; [split; [apply good_web_browser|apply full_calls_ok]|].
  apply caught_refinement; [apply good_web_browser|apply full_calls_ok].
Defined.

Lemma served_despite_throws_witness :
  (good web_browser ∧ record_of "k" = None ∧ 0 < 10 ∧
   Forall call_ok late_full_calls) ∧
  let w' := (trace_caught (quota_thrown 40) late_full_calls k_set).2 in
  (Forall (λ c, ¬ writes "k" c) late_full_calls →
   now w' < now web_browser + 10 →
   eval (getItem "k") w' = st_stored WebStore (JString "v")) ∧
  (Forall (λ c, ¬ sets "k" c) late_full_calls →
   now web_browser + 10 ≤ now w' → eval (getItem "k") w' = JNull).
Proof.
  assert (Forall call_ok late_full_calls) as Hok
    by by eapply Forall_cons_1, full_calls_ok.
  split; [split_and!; [apply good_web_browser|done..]|].
  apply (served_despite_throws (quota_thrown 40) "k" (JString "v") 10
           late_full_calls web_browser);
    [apply good_web_browser|done..].
Defined.

(** What the calls return and throw, and what is read of "k" after
    them. *)
Example full_calls_trace :
  (trace_caught (quota_thrown 40) full_calls k_set).1.*2 =
  [inl QuotaExceededError; inl QuotaExceededError; inr RUnit;
   inr (RValue (JString "y")); inl QuotaExceededError; inr (RKeys []);
   inr (RValue (JString "v")); inr (RKeys ["k"; "b"])] ∧
  effective (quota_thrown 40) full_calls k_set =
  [CSetItem "b" (JString "y") None; CTick 5000; CGetItem "b"; CClearExpired;
   CGetItem "k"; CKeys true] ∧
  eval (getItem "k") (trace_caught (quota_thrown 40) late_full_calls k_set).2
  = JNull.
Proof. by vm_compute. Qed.
End witnesses.
