(* ===== verification/Tabs.v ===== *)
(** * Tabs: two pages over one storage area

    [localStorage] is shared by the pages of one origin, and the class
    keeps an entry in two places of it, the value and the expiry record.
    A method makes its requests to the store one after the other, and
    the requests of another page can come in between: the store gives no
    transaction.  [interleave] runs the scripts of two pages ([Steps])
    by a schedule that says which page makes the next request.

    - A page that only reads ([getTimeLeft], [isExpired], [peek]) does
      not disturb the other, whatever the schedule
      ([interleave_reads_only]).
    - A schedule that lets one page finish before the other starts is
      two calls of the methods, one after the other
      ([interleave_serial]).
    - Two scripts whose requests are on different keys do not see each
      other, whatever the schedule ([interleave_alone],
      [interleave_apart]): a frame lemma of the interleaving, which
      says nothing of the class until the methods are shown to keep to
      the keys of their entry ([within_setItem], [within_getItem],
      ...).  Two [setItem] on two keys then leave both entries as each
      call alone does ([setItem_apart]), and [Apart] has the same for
      any calls of the methods of an entry.
    - On one key they do.  [getItem] reads the expiry record and then
      removes the entry: a [setItem] of the other page in between is
      lost, value and record ([getItem_setItem_race]), which no order
      of the two calls gives; [clearExpired] has the same window at
      each record it finds expired ([clearExpired_setItem_race]).
    - Two [setItem] on one key can leave the value of one with the
      expiry of the other ([setItem_setItem_race]).

    A store whose [setItem] and [removeItem] return nothing
    ([Observe.VoidStorage]) is assumed where answers are compared. *)

From S2P Require Import Prelude Js Dict Storage ExpiredStorage Steps.
From S2P Require Import TestStorage WebStorage TestSuite Expiry Observe.

(** Which page makes the next request. *)
Inductive Page : Type :=
  | PageA
  | PageB.

#[export] Instance Page_eq_dec : EqDecision Page.
Proof. solve_decision. Defined.

Section tabs.
Context {St : Type} `{StorageLaws St}.
Implicit Types (w : World St) (key : string) (value expiration : JSValue).
Implicit Types (schedule : list Page).

(** The scripts of the two pages and the world, after the requests of a
    schedule.  A page that is finished lets its turn pass. *)
Fixpoint interleave {A B} schedule (p : Script A) (q : Script B) w
    : Script A * Script B * World St :=
  match schedule with
  | [] => (p, q, w)
  | PageA :: schedule =>
      let r := step p w in interleave schedule r.1 q r.2
  | PageB :: schedule =>
      let r := step q w in interleave schedule p r.1 r.2
  end.

(** The requests of one page alone. *)
Definition alone {A} (n : nat) (m : Script A) w : Script A * World St :=
  Nat.iter n (λ mw, step mw.1 mw.2) (m, w).

(** ** Schedules *)

Lemma interleave_app {A B} s1 s2 (p : Script A) (q : Script B) w :
  interleave (s1 ++ s2) p q w =
  let r := interleave s1 p q w in interleave s2 r.1.1 r.1.2 r.2.
Proof.
  revert p q w. induction s1 as [|[] s1 IH]; intros p q w; [done|..];
    cbn [interleave app]; apply IH.
Qed.

Lemma alone_S {A} n (m : Script A) w :
  alone (S n) m w = alone n (step m w).1 (step m w).2.
Proof.
  unfold alone. rewrite Nat.iter_succ_r. cbv beta. cbn [fst snd].
  by destruct (step m w).
Qed.

Lemma interleave_PageA {A B} n (p : Script A) (q : Script B) w :
  interleave (replicate n PageA) p q w = ((alone n p w).1, q, (alone n p w).2).
Proof.
  revert p w. induction n as [|n IH]; intros p w; [done|].
  cbn [replicate interleave]. by rewrite IH, alone_S.
Qed.

Lemma interleave_PageB {A B} n (p : Script A) (q : Script B) w :
  interleave (replicate n PageB) p q w = (p, (alone n q w).1, (alone n q w).2).
Proof.
  revert q w. induction n as [|n IH]; intros q w; [done|].
  cbn [replicate interleave]. by rewrite IH, alone_S.
Qed.

(** A page left alone for the requests it has left finishes as [run]
    says. *)
Lemma alone_requests {A} (m : Script A) w :
  alone (requests m w) m w = (Finished (run m w).1, (run m w).2).
Proof. apply step_requests. Qed.

Lemma interleave_PageA_run {A B} n (p : Script A) (q : Script B) w :
  requests p w = n →
  interleave (replicate n PageA) p q w =
  (Finished (run p w).1, q, (run p w).2).
Proof. intros <-. by rewrite interleave_PageA, alone_requests. Qed.

Lemma interleave_PageB_run {A B} n (p : Script A) (q : Script B) w :
  requests q w = n →
  interleave (replicate n PageB) p q w =
  (p, Finished (run q w).1, (run q w).2).
Proof. intros <-. by rewrite interleave_PageB, alone_requests. Qed.

(** One page and then the other: the two scripts run one after the
    other. *)
Lemma interleave_serial {A B} (p : Script A) (q : Script B) w :
  let w' := (run p w).2 in
  interleave (replicate (requests p w) PageA ++
              replicate (requests q w') PageB) p q w =
  (Finished (run p w).1, Finished (run q w').1, (run q w').2).
Proof.
  cbv zeta. rewrite interleave_app, interleave_PageA, alone_requests.
  cbn [fst snd]. by rewrite interleave_PageB, alone_requests.
Qed.

(** ** A page that reads *)

(** A page that only reads does not show in what the other page does
    and leaves: the other page and the world are as if it had made its
    requests alone. *)
Theorem interleave_reads_only {A B} schedule (p : Script A) (q : Script B) w :
  reads_only p →
  let r := interleave schedule p q w in
  (r.1.2, r.2) = alone (length (filter (PageB =.) schedule)) q w.
Proof.
  revert p q w. induction schedule as [|[] s IH]; intros p q w Hp; [done|..];
    cbn [interleave].
  - destruct (step_reads_only p w Hp) as [-> Hp'].
    rewrite filter_cons_False by done. by apply IH.
  - rewrite filter_cons_True by done. cbn [length]. rewrite alone_S.
    by apply IH.
Qed.

(** ** [getItem] against [setItem] *)

(** What the expiry record of an expired entry reads as. *)
Lemma expired_record_number key w :
  expired key w = true →
  ∃ e, parseInt (st_getItem (expiry_key key) (storage w)) = Num e ∧
       e ≠ 0 ∧ e ≤ now w.
Proof.
  unfold expired, expiry. destruct (parseInt _) as [e|]; [|done].
  case_decide; [done|]. intros He%bool_decide_eq_true. by exists e.
Qed.

(** After two requests, the expiry record and the clock, [getItem] of
    an expired entry has made up its mind: what it has left to do is to
    remove the entry. *)
Lemma getItem_decides key w :
  expired key w = true →
  alone 2 (getItem_script key) w =
  (removeItem_script key ≫= λ _, mret JNull, w).
Proof.
  intros (e & He & Hne & Hle)%expired_record_number.
  unfold alone. cbn. fold (expiry_key key). rewrite He. cbn.
  rewrite (proj2 (Z.eqb_neq e 0)) by done. cbn. fold (now w).
  by rewrite (proj2 (Z.leb_le (e - now w) 0)) by lia.
Qed.

(** The schedule of the race: the first page reads the expiry record
    and the clock, the second makes the three requests of its
    [setItem], the first makes the two of its [removeItem]. *)
Definition race : list Page :=
  [PageA; PageA; PageB; PageB; PageB; PageA; PageA].

Lemma requests_setItem key value expiration w :
  truthy expiration = true →
  requests (setItem_script key value expiration) w = 3%nat.
Proof. intros Ht. cbn. by rewrite Ht. Qed.

Lemma requests_removeItem {A} key (a : A) w :
  requests (removeItem_script key ≫= λ _, mret a) w = 2%nat.
Proof. done. Qed.

(** The world the race leaves: the one [removeItem] leaves after
    [setItem]. *)
Lemma race_run key value expiration w :
  expired key w = true → truthy expiration = true →
  interleave race (getItem_script key)
    (setItem_script key value expiration) w =
  (Finished JNull, Finished (eval (setItem key value expiration) w),
   exec (removeItem key) (exec (setItem key value expiration) w)).
Proof.
  intros Hx Ht.
  change race with (replicate 2 PageA ++ replicate 3 PageB ++ replicate 2 PageA).
  rewrite interleave_app, interleave_PageA, getItem_decides by done.
  cbn [fst snd]. rewrite interleave_app.
  rewrite interleave_PageB_run by (by apply requests_setItem).
  cbn [fst snd]. rewrite interleave_PageA_run by done.
  by rewrite run_setItem, run_script_bind, run_removeItem.
Qed.

(** A live entry is left alone by [getItem]. *)
Lemma getItem_after_setItem key value ttl w :
  0 ≤ date w → 0 < ttl →
  let w' := exec (setItem key value (Num ttl)) w in
  exec (getItem key) w' = w'.
Proof.
  intros Hd Httl w'. assert (0 ≤ now w) by (apply Z.div_pos; lia).
  unfold exec. rewrite getItem_live_run; [done|].
  unfold expired, w'. rewrite expiry_setItem_Num, now_setItem by lia.
  rewrite decide_False by lia. apply bool_decide_eq_false. lia.
Qed.

(** C21. [getItem] of one page finds the entry expired; [setItem] of the
    other writes it anew, value and expiry record, and returns;
    [getItem] removes what it meant to remove.  The entry just written
    is gone, which neither order of the two calls gives: after both,
    the store holds the value. *)
Theorem getItem_setItem_race key value ttl w :
  expired key w = true → 0 ≤ date w → 0 < ttl →
  let raced :=
    interleave race (getItem_script key)
      (setItem_script key value (Num ttl)) w in
  let get_set := exec (setItem key value (Num ttl)) (exec (getItem key) w) in
  let set_get := exec (getItem key) (exec (setItem key value (Num ttl)) w) in
  (raced.1.1 = Finished JNull ∧ ∃ ret, raced.1.2 = Finished ret) ∧
  st_model (storage raced.2) !! key = None ∧
  st_model (storage get_set) !! key = Some (st_stored St value) ∧
  st_model (storage set_get) !! key = Some (st_stored St value).
Proof.
  intros Hx Hd Httl. cbv zeta.
  rewrite race_run by (done || by rewrite truthy_Num, bool_decide_eq_true_2 by lia).
  cbn [fst snd]. split_and!; [done|by eexists| | |].
  - apply lookup_removeItem_value.
  - apply lookup_setItem_value.
  - rewrite getItem_after_setItem by done. apply lookup_setItem_value.
Qed.

(** ** [setItem] against [setItem] *)

(** The second page writes between the value and the expiry record of
    the first. *)
Definition overtaken : list Page :=
  [PageA; PageB; PageB; PageB; PageA; PageA].

(** After its first request [setItem] has written the value; what it
    has left to do is to write the expiry record. *)
Lemma setItem_writes key value expiration w :
  truthy expiration = true →
  alone 1 (setItem_script key value expiration) w =
  (updateExpiration_script key expiration ≫=
     λ _, mret (eval (storage_setItem key value) w),
   exec (storage_setItem key value) w).
Proof. intros Ht. unfold alone. cbn. by rewrite Ht. Qed.

Lemma requests_updateExpiration {A} key expiration (a : A) w :
  requests (updateExpiration_script key expiration ≫= λ _, mret a) w = 2%nat.
Proof. done. Qed.

Lemma overtaken_run key a b ea eb w :
  truthy ea = true → truthy eb = true →
  (interleave overtaken (setItem_script key a ea)
     (setItem_script key b eb) w).2 =
  exec (updateExpiration key ea)
    (exec (setItem key b eb) (exec (storage_setItem key a) w)).
Proof.
  intros Ha Hb.
  change overtaken with
    (replicate 1 PageA ++ replicate 3 PageB ++ replicate 2 PageA).
  rewrite interleave_app, interleave_PageA, setItem_writes by done.
  cbn [fst snd]. rewrite interleave_app.
  rewrite interleave_PageB_run by (by apply requests_setItem).
  cbn [fst snd]. rewrite interleave_PageA_run by done. cbn [snd].
  by rewrite run_setItem, run_script_bind, run_updateExpiration.
Qed.

(** C40. Two pages set one key, each with its time to live: the store can
    end with the value of the second and the expiry of the first. *)
Theorem setItem_setItem_race key a b ta tb w :
  ta ≠ 0 → tb ≠ 0 → now w + ta ≠ 0 →
  let raced :=
    (interleave overtaken (setItem_script key a (Num ta))
       (setItem_script key b (Num tb)) w).2 in
  st_model (storage raced) !! key = Some (st_stored St b) ∧
  expiry key raced = Some (now w + ta).
Proof.
  intros Ha Hb Hsum. cbv zeta.
  rewrite overtaken_run by (by rewrite truthy_Num, bool_decide_eq_true_2).
  split.
  - rewrite model_updateExpiration.
    rewrite lookup_insert_ne by apply expiry_key_ne.
    apply lookup_setItem_value.
  - rewrite (expiry_written_Num key (now w) ta), decide_False; [done..|].
    rewrite model_updateExpiration, lookup_insert_eq, now_setItem.
    do 3 f_equal. unfold exec, storage_setItem. by rewrite on_storage_run.
Qed.
End tabs.

(** * Pages on different keys *)

(** What goes wrong above goes wrong on one key.  Two pages whose
    requests are on different keys do not see each other, whatever the
    schedule: each makes the requests of its turns with the answers it
    would have had alone, and leaves its keys as it would have alone. *)

Section apart.
Context {St : Type} `{StorageLaws St} `{!VoidStorage St}.
Implicit Types (w : World St) (K : string → bool) (r : Request).
Implicit Types (schedule : list Page).

(** The requests on the keys of [K], and the clock. *)
Definition within K r : bool :=
  match r with
  | StorageGetItem k | StorageSetItem k _ | StorageRemoveItem k => K k
  | DateGetTime => true
  | _ => false
  end.

(** The keys of an entry: of its value and of its expiry record. *)
Definition entry (key : string) (k : string) : bool :=
  bool_decide (k = key ∨ k = expiry_key key).

(** Two worlds that read alike on the keys of [K]. *)
Definition agree K w1 w2 : Prop :=
  date w1 = date w2 ∧
  ∀ k, K k → st_model (storage w1) !! k = st_model (storage w2) !! k.

#[export] Instance agree_equivalence K : Equivalence (agree K).
Proof.
  split.
  - by intros w.
  - intros w1 w2 [Hd Hm]. split; [done|]. intros k Hk. by rewrite Hm.
  - intros w1 w2 w3 [Hd1 Hm1] [Hd2 Hm2]. split; [congruence|].
    intros k Hk. by rewrite Hm1, Hm2.
Qed.

(** What a write does to the model and to the clock. *)
Lemma perform_model r w :
  within (λ _, true) r →
  date (perform r w).2 = date w ∧
  st_model (storage (perform r w).2) =
  match r with
  | StorageSetItem k v => <[k := st_stored St v]> (st_model (storage w))
  | StorageRemoveItem k => delete k (st_model (storage w))
  | _ => st_model (storage w)
  end.
Proof.
  destruct r as [k|k v|k| | | | | | | |]; try done; intros _; cbn [perform];
    unfold storage_setItem, storage_removeItem; rewrite on_storage_run;
    cbn [fst snd]; (split; [done|]).
  - apply st_setItem_model.
  - apply st_removeItem_model.
Qed.

(** A request on the keys of [K] is answered alike in two worlds that
    agree on [K], and leaves them agreeing. *)
Lemma perform_within K r w1 w2 :
  within K r → agree K w1 w2 →
  (perform r w1).1 = (perform r w2).1 ∧
  agree K (perform r w1).2 (perform r w2).2.
Proof.
  intros Hr [Hd Hm].
  assert (within (λ _, true) r) as Hany by by destruct r.
  destruct (perform_model r w1 Hany) as [Hd1 Hm1].
  destruct (perform_model r w2 Hany) as [Hd2 Hm2].
  split.
  - destruct r as [k|k v|k| | | | | | | |]; try done; cbn [perform].
    + unfold storage_getItem. cbn. by rewrite !st_getItem_model, Hm.
    + unfold storage_setItem. rewrite !on_storage_run. cbn [fst].
      by rewrite !st_setItem_undefined.
    + unfold storage_removeItem. rewrite !on_storage_run. cbn [fst].
      by rewrite !st_removeItem_undefined.
  - split; [congruence|]. intros k Hk. rewrite Hm1, Hm2.
    destruct r as [k'|k' v|k'| | | | | | | |]; try done; auto.
    + destruct (decide (k' = k)) as [->|];
        [by rewrite !lookup_insert_eq|rewrite !lookup_insert_ne by done; auto].
    + destruct (decide (k' = k)) as [->|];
        [by rewrite !lookup_delete_eq|rewrite !lookup_delete_ne by done; auto].
Qed.

(** A request on other keys leaves the keys of [K] as they are. *)
Lemma perform_outside K K' r w :
  (∀ k, K k → K' k → False) → within K' r → agree K (perform r w).2 w.
Proof.
  intros Hapart Hr.
  assert (within (λ _, true) r) as Hany by by destruct r.
  destruct (perform_model r w Hany) as [Hd Hm].
  split; [done|]. intros k Hk. rewrite Hm.
  destruct r as [k'|k' v|k'| | | | | | | |]; try done.
  - apply lookup_insert_ne. intros ->. eauto.
  - apply lookup_delete_ne. intros ->. eauto.
Qed.

Lemma step_within {A} K (m : Script A) w1 w2 :
  asks_only (within K) m → agree K w1 w2 →
  (step m w1).1 = (step m w2).1 ∧ agree K (step m w1).2 (step m w2).2 ∧
  asks_only (within K) (step m w1).1.
Proof.
  destruct m as [a|r k]; [done|]. intros [Hr Hk] Hw. cbn [step fst snd].
  destruct (perform_within K r w1 w2 Hr Hw) as [-> ?]. auto.
Qed.

Lemma step_outside {A} K K' (m : Script A) w :
  (∀ k, K k → K' k → False) → asks_only (within K') m →
  agree K (step m w).2 w.
Proof.
  destruct m as [a|r k]; [done|]. intros Hapart [Hr Hk].
  by apply (perform_outside K K').
Qed.

(** The two pages along a schedule, each against the world it would
    have alone. *)
Lemma interleave_alone {A B} K1 K2 schedule (p : Script A) (q : Script B)
    w wa wb :
  (∀ k, K1 k → K2 k → False) →
  asks_only (within K1) p → asks_only (within K2) q →
  agree K1 w wa → agree K2 w wb →
  let r := interleave schedule p q w in
  let a := alone (length (filter (PageA =.) schedule)) p wa in
  let b := alone (length (filter (PageB =.) schedule)) q wb in
  r.1.1 = a.1 ∧ r.1.2 = b.1 ∧ agree K1 r.2 a.2 ∧ agree K2 r.2 b.2.
Proof.
  intros Hapart. revert p q w wa wb.
  induction schedule as [|[] s IH]; intros p q w wa wb Hp Hq Ha Hb;
    [done|..]; cbn [interleave].
  - rewrite (filter_cons_True (PageA =.)), (filter_cons_False (PageB =.))
      by done.
    cbn [length]. rewrite alone_S.
    destruct (step_within K1 p w wa Hp Ha) as (Hs & Hw & Hp').
    rewrite <- Hs. apply IH; [done..|].
    etrans; [|done].
    apply (step_outside K2 K1); [intros k ??; by apply (Hapart k)|done].
  - rewrite (filter_cons_True (PageB =.)), (filter_cons_False (PageA =.))
      by done.
    cbn [length]. rewrite alone_S.
    destruct (step_within K2 q w wb Hq Hb) as (Hs & Hw & Hq').
    rewrite <- Hs. apply IH; [done..| |done].
    etrans; [|done]. by apply (step_outside K1 K2).
Qed.

(** Two pages on different keys, by any schedule: what each page has
    left to do is what it would have left alone after the requests of
    its turns, and its keys read as they would then. *)
Theorem interleave_apart {A B} K1 K2 schedule (p : Script A) (q : Script B) w :
  (∀ k, K1 k → K2 k → False) →
  asks_only (within K1) p → asks_only (within K2) q →
  let r := interleave schedule p q w in
  let a := alone (length (filter (PageA =.) schedule)) p w in
  let b := alone (length (filter (PageB =.) schedule)) q w in
  r.1.1 = a.1 ∧ r.1.2 = b.1 ∧ agree K1 r.2 a.2 ∧ agree K2 r.2 b.2.
Proof. intros. by apply interleave_alone. Qed.

(** ** What agreeing on an entry gives *)

Lemma agree_expiry key w1 w2 :
  agree (entry key) w1 w2 → expiry key w1 = expiry key w2.
Proof.
  intros [_ Hm]. unfold expiry. rewrite !st_getItem_model, Hm; [done|].
  apply bool_decide_pack. by right.
Qed.

Lemma agree_getItem key w1 w2 :
  agree (entry key) w1 w2 →
  eval (getItem key) w1 = eval (getItem key) w2.
Proof.
  intros Hw. pose proof (agree_expiry _ _ _ Hw) as He. destruct Hw as [Hd Hm].
  unfold eval. rewrite !getItem_run. unfold expired, now. rewrite He, Hd.
  destruct (match expiry key w2 with Some _ => _ | None => _ end); [done|].
  cbn. rewrite !st_getItem_model, Hm; [done|]. apply bool_decide_pack. by left.
Qed.

(** ** The entry methods keep to their entry *)

Lemma within_entry_value key r :
  within (λ k, bool_decide (k = key)) r → within (entry key) r.
Proof.
  destruct r; try done; cbn; intros ->%bool_decide_unpack;
    apply bool_decide_pack; by left.
Qed.

Lemma entry_value key : entry key key.
Proof. apply bool_decide_pack. by left. Qed.

Lemma entry_record key : entry key (_expiration_key_prefix +:+ key).
Proof. apply bool_decide_pack. by right. Qed.

(** The requests of a script on an entry, the scripts of the entry
    methods unfolded. *)
Ltac within_entry :=
  unfold getItem_script, peek_script, isExpired_script, getTimeLeft_script,
    setItem_script, removeItem_script, updateExpiration_script,
    getTimestamp_script;
  repeat first
    [ exact I
    | apply asks_only_ask; first [exact I|apply entry_value|apply entry_record]
    | apply asks_only_bind; [|intros ?]
    | match goal with
      | |- asks_only _ (if ?c then _ else _) => destruct c
      | |- asks_only _ (let x := _ in _) => cbv zeta
      end ].

Lemma within_setItem key value expiration :
  asks_only (within (entry key)) (setItem_script key value expiration).
Proof. within_entry. Qed.

Lemma within_updateExpiration key expiration :
  asks_only (within (entry key)) (updateExpiration_script key expiration).
Proof. within_entry. Qed.

Lemma within_removeItem key :
  asks_only (within (entry key)) (removeItem_script key).
Proof. within_entry. Qed.

Lemma within_getItem key :
  asks_only (within (entry key)) (getItem_script key).
Proof. within_entry. Qed.

Lemma within_peek key : asks_only (within (entry key)) (peek_script key).
Proof. within_entry. Qed.

Lemma within_getTimeLeft key :
  asks_only (within (entry key)) (getTimeLeft_script key).
Proof. within_entry. Qed.

Lemma within_isExpired key :
  asks_only (within (entry key)) (isExpired_script key).
Proof. within_entry. Qed.

(** Worlds that agree on keys agree on fewer. *)
Lemma agree_mono K K' w1 w2 :
  (∀ k, K' k → K k) → agree K w1 w2 → agree K' w1 w2.
Proof. intros HK [Hd Hm]. split; [done|]. intros k Hk. apply Hm, HK, Hk. Qed.

Lemma within_mono K K' r : (∀ k, K k → K' k) → within K r → within K' r.
Proof. intros HK. destruct r; try done; apply HK. Qed.

(** Two keys neither of which is the other or its expiry record have
    no key of their entries in common. *)
Lemma entry_apart key1 key2 :
  key1 ≠ key2 → key1 ≠ expiry_key key2 → key2 ≠ expiry_key key1 →
  ∀ k, entry key1 k → entry key2 k → False.
Proof.
  intros Hne H12 H21 k [->| ->]%bool_decide_unpack [?|Heq]%bool_decide_unpack;
    try done. by apply (inj expiry_key) in Heq.
Qed.

(** ** Two [setItem] on two keys *)

(** A page that has had the turns for its requests is finished. *)
Lemma alone_enough {A} n (m : Script A) w :
  (requests m w ≤ n)%nat →
  alone n m w = (Finished (run m w).1, (run m w).2).
Proof. apply step_enough. Qed.

Lemma requests_setItem_le key value expiration w :
  (requests (setItem_script key value expiration) w ≤ 3)%nat.
Proof. cbn. destruct (truthy expiration); cbn; lia. Qed.

(** Two pages set two keys, in any order of their requests that lets
    both finish: both calls return, and each entry is as its [setItem]
    alone leaves it, value and expiry. *)
Theorem setItem_apart key1 key2 v1 v2 e1 e2 schedule w :
  key1 ≠ key2 → key1 ≠ expiry_key key2 → key2 ≠ expiry_key key1 →
  (3 ≤ length (filter (PageA =.) schedule))%nat →
  (3 ≤ length (filter (PageB =.) schedule))%nat →
  let r :=
    interleave schedule (setItem_script key1 v1 e1)
      (setItem_script key2 v2 e2) w in
  let w1 := exec (setItem key1 v1 e1) w in
  let w2 := exec (setItem key2 v2 e2) w in
  r.1 = (Finished (eval (setItem key1 v1 e1) w),
         Finished (eval (setItem key2 v2 e2) w)) ∧
  (eval (getItem key1) r.2 = eval (getItem key1) w1 ∧
   expiry key1 r.2 = expiry key1 w1) ∧
  (eval (getItem key2) r.2 = eval (getItem key2) w2 ∧
   expiry key2 r.2 = expiry key2 w2).
Proof.
  intros Hne H12 H21 Ha Hb. cbv zeta.
  destruct (interleave_alone (entry key1) (entry key2) schedule
    (setItem_script key1 v1 e1) (setItem_script key2 v2 e2) w w w)
    as (Hp & Hq & Hw1 & Hw2);
    [by apply entry_apart|apply within_setItem..|done|done|].
  rewrite alone_enough in Hp, Hw1
    by (etrans; [apply requests_setItem_le|done]).
  rewrite alone_enough in Hq, Hw2
    by (etrans; [apply requests_setItem_le|done]).
  rewrite run_setItem in Hp, Hq, Hw1, Hw2.
  split_and!; [by apply injective_projections
    |by apply agree_getItem|by apply agree_expiry
    |by apply agree_getItem|by apply agree_expiry].
Qed.
End apart.

(** * Two pages over web storage *)

(** The world of the test "Clear expired" at its sweep: "test" has been
    expired for nine seconds. *)
Section witnesses.

Example race_values :
  let raced :=
    interleave race (getItem_script "test")
      (setItem_script "test" (JString "fresh") (Num 60)) web_before_sweep in
  raced.1 = (Finished JNull, Finished JUndefined) ∧
  eval (getItem "test") raced.2 = JNull ∧
  eval (keys true) raced.2 = ["test2"; "stay"; "stay2"].
Proof. by vm_compute. Qed.

(** The sweep has the same window, once for each expiry record: after
    five requests (the clock, the two ways to list the keys that web
    storage answers, the expiry record of "test" and the clock again)
    [clearExpired] has found "test" expired.  The other page sets "test"
    anew; the sweep removes it and reports it as expired.  One after
    the other, in either order, the two calls leave "test" in the
    store. *)
Example clearExpired_setItem_race :
  let fresh := setItem_script "test" (JString "fresh") (Num 60) in
  let raced :=
    interleave (replicate 5 PageA ++ replicate 3 PageB ++ replicate 8 PageA)
      clearExpired_script fresh web_before_sweep in
  requests clearExpired_script web_before_sweep = 13%nat ∧
  raced.1 = (Finished ["test"; "test2"], Finished JUndefined) ∧
  eval (keys true) raced.2 = ["stay"; "stay2"] ∧
  eval (keys true) (exec (run fresh) (exec clearExpired web_before_sweep)) =
    ["stay"; "stay2"; "test"] ∧
  eval (keys true) (exec clearExpired (exec (run fresh) web_before_sweep)) =
    ["test"; "stay"; "stay2"].
Proof. by vm_compute. Qed.

(** [peek] of one page among the three requests of [setItem] of the
    other. *)
Lemma interleave_reads_only_witness :
  reads_only (peek_script "test") ∧
  let r :=
    interleave [PageA; PageB; PageA; PageB; PageA; PageB] (peek_script "test")
      (setItem_script "test" (JString "fresh") (Num 60)) web_before_sweep in
  (r.1.2, r.2) =
  alone (length (filter (PageB =.)
                   [PageA; PageB; PageA; PageB; PageA; PageB]))
    (setItem_script "test" (JString "fresh") (Num 60)) web_before_sweep.
Proof.
  split; [apply reads_only_peek|].
  apply (interleave_reads_only _ (peek_script "test")), reads_only_peek.
Defined.

(** [getItem] of the expired "test" by one page and [setItem] of "test2"
    by the other, turn by turn. *)
Lemma interleave_apart_witness :
  ((∀ k, entry "test" k → entry "test2" k → False) ∧
   asks_only (within (entry "test")) (getItem_script "test") ∧
   asks_only (within (entry "test2"))
     (setItem_script "test2" (JString "fresh") (Num 60))) ∧
  let schedule := [PageA; PageB; PageA; PageB; PageA; PageB; PageA] in
  let r :=
    interleave schedule (getItem_script "test")
      (setItem_script "test2" (JString "fresh") (Num 60)) web_before_sweep in
  let a :=
    alone (length (filter (PageA =.) schedule)) (getItem_script "test")
      web_before_sweep in
  let b :=
    alone (length (filter (PageB =.) schedule))
      (setItem_script "test2" (JString "fresh") (Num 60)) web_before_sweep in
  r.1.1 = a.1 ∧ r.1.2 = b.1 ∧
  agree (entry "test") r.2 a.2 ∧ agree (entry "test2") r.2 b.2.
Proof.
  assert (∀ k, entry "test" k → entry "test2" k → False) as Hapart
    by by apply entry_apart.
  split; [split_and!; [done|apply within_getItem|apply within_setItem]|].
  apply (interleave_apart (entry "test") (entry "test2"));
    [done|apply within_getItem|apply within_setItem].
Defined.

Lemma setItem_apart_witness :
  (("a" : string) ≠ "b" ∧ "a" ≠ expiry_key "b" ∧ "b" ≠ expiry_key "a" ∧
   (3 ≤ length (filter (PageA =.)
                  [PageA; PageB; PageB; PageA; PageA; PageB]))%nat ∧
   (3 ≤ length (filter (PageB =.)
                  [PageA; PageB; PageB; PageA; PageA; PageB]))%nat) ∧
  let r :=
    interleave [PageA; PageB; PageB; PageA; PageA; PageB]
      (setItem_script "a" (JString "one") (Num 10))
      (setItem_script "b" (JString "two") (Num 20)) web_browser in
  let w1 := exec (setItem "a" (JString "one") (Num 10)) web_browser in
  let w2 := exec (setItem "b" (JString "two") (Num 20)) web_browser in
  r.1 = (Finished (eval (setItem "a" (JString "one") (Num 10)) web_browser),
         Finished (eval (setItem "b" (JString "two") (Num 20)) web_browser)) ∧
  (eval (getItem "a") r.2 = eval (getItem "a") w1 ∧
   expiry "a" r.2 = expiry "a" w1) ∧
  (eval (getItem "b") r.2 = eval (getItem "b") w2 ∧
   expiry "b" r.2 = expiry "b" w2).
Proof.
  split; [by vm_compute|].
  by apply (setItem_apart "a" "b" (JString "one") (JString "two")
              (Num 10) (Num 20)); vm_compute.
Defined.

Lemma getItem_setItem_race_witness :
  (expired "test" web_before_sweep = true ∧ 0 ≤ date web_before_sweep ∧
   0 < 60) ∧
  let raced :=
    interleave race (getItem_script "test")
      (setItem_script "test" (JString "fresh") (Num 60)) web_before_sweep in
  let get_set :=
    exec (setItem "test" (JString "fresh") (Num 60))
      (exec (getItem "test") web_before_sweep) in
  let set_get :=
    exec (getItem "test")
      (exec (setItem "test" (JString "fresh") (Num 60)) web_before_sweep) in
  (raced.1.1 = Finished JNull ∧ ∃ ret, raced.1.2 = Finished ret) ∧
  st_model (storage raced.2) !! "test" = None ∧
  st_model (storage get_set) !! "test" =
    Some (st_stored WebStore (JString "fresh")) ∧
  st_model (storage set_get) !! "test" =
    Some (st_stored WebStore (JString "fresh")).
Proof.
  split; [by vm_compute|].
  by apply (getItem_setItem_race "test" (JString "fresh") 60).
Defined.

Lemma setItem_setItem_race_witness :
  ((10 : Z) ≠ 0 ∧ (1000 : Z) ≠ 0 ∧ now web_browser + 10 ≠ 0) ∧
  let raced :=
    (interleave overtaken (setItem_script "k" (JString "a") (Num 10))
       (setItem_script "k" (JString "b") (Num 1000)) web_browser).2 in
  st_model (storage raced) !! "k" =
    Some (st_stored WebStore (JString "b")) ∧
  expiry "k" raced = Some (now web_browser + 10).
Proof.
  split; [by vm_compute|].
  by apply (setItem_setItem_race "k" (JString "a") (JString "b") 10 1000).
Defined.
End witnesses.
