(* ===== verification/Shared.v ===== *)
(** * Shared: the store stays well formed under two pages

    Two pages that call the class on the same storage area can lose an
    entry to each other ([Tabs]); they cannot break the store.  A
    request is [tidy] when it writes under a key that is not an expiry
    record, or under the expiry record of such a key.  The requests of
    every method, called with a key that does not start with the
    prefix, are ([tidy_call_script]), and a tidy request keeps the
    world [good], the invariant under which the class implements its
    specification ([perform_good]).  So whatever the two pages call,
    and in whatever order their requests reach the store, the world
    is good when they are done, and at every request in between
    ([interleave_good]): what [Machine] proves of the calls that follow
    holds of them, whatever raced before. *)

From S2P Require Import Prelude Js Dict Storage ExpiredStorage.
From S2P Require Import TestStorage WebStorage TestSuite Expiry Sweep.
From S2P Require Import Spec Machine Steps Throwing Caught Observe Tabs.

(** The requests that keep values and expiry records apart. *)
Definition tidy (r : Request) : bool :=
  match r with
  | StorageSetItem k _ =>
      match record_of k with
      | None => true
      | Some key => bool_decide (record_of key = None)
      end
  | _ => true
  end.

(** The calls of a page, one after the other. *)
Fixpoint calls_script (cs : list Call) : Script (list Result) :=
  match cs with
  | [] => mret []
  | c :: cs => r ← call_script c; rs ← calls_script cs; mret (r :: rs)
  end.

Section shared.
Context {St : Type} `{StorageLaws St}.
Implicit Types (w : World St) (r : Request) (key : string).
Implicit Types (schedule : list Page).

(** ** One request *)

Lemma perform_date r w : date (perform r w).2 = date w.
Proof.
  destruct r; try done; cbn [perform];
    unfold storage_setItem, storage_removeItem, storage_clear;
    by rewrite ?on_storage_run.
Qed.

Lemma perform_wf r w : st_wf (storage w) → st_wf (storage (perform r w).2).
Proof.
  intros Hwf. destruct r; try done; cbn [perform];
    unfold storage_setItem, storage_removeItem, storage_clear;
    rewrite ?on_storage_run; cbn [snd set_storage storage].
  - by apply st_setItem_wf.
  - by apply st_removeItem_wf.
  - apply st_clear_wf.
Qed.

Lemma perform_inv r w : inv w → tidy r → inv (perform r w).2.
Proof.
  intros Hinv Hr key. destruct r as [k|k v|k| | | | | | | |];
    try apply Hinv; cbn [perform];
    unfold storage_setItem, storage_removeItem, storage_clear;
    rewrite ?on_storage_run; cbn [snd set_storage storage].
  - rewrite st_setItem_model.
    destruct (decide (k = expiry_key key)) as [->|Hk];
      [|rewrite lookup_insert_ne by done; apply Hinv].
    intros _. cbn [tidy] in Hr. rewrite record_of_expiry_key in Hr.
    by apply bool_decide_unpack in Hr.
  - rewrite st_removeItem_model. intros [v [_ Hv]%lookup_delete_Some].
    by apply Hinv.
  - change (is_Some (st_model (st_clear (storage w)) !! expiry_key key) →
            record_of key = None).
    rewrite st_clear_model, lookup_empty. by intros [].
Qed.

(** A tidy request keeps the world good. *)
Lemma perform_good r w : good w → tidy r → good (perform r w).2.
Proof.
  intros (Hwf & Hinv & Hd) Hr. split_and!.
  - by apply perform_wf.
  - by apply perform_inv.
  - by rewrite perform_date.
Qed.

(** ** Scripts and schedules *)

Lemma step_good {A} (m : Script A) w :
  good w → asks_only tidy m →
  good (step m w).2 ∧ asks_only tidy (step m w).1.
Proof.
  destruct m as [a|r k]; [done|]. intros Hgood [Hr Hk]. cbn [step fst snd].
  split; [by apply perform_good|apply Hk].
Qed.

Lemma run_good {A} (m : Script A) w :
  good w → asks_only tidy m → good (run m w).2.
Proof.
  revert w. induction m as [a|r k IH]; intros w Hgood; [done|].
  intros [Hr Hk]. rewrite run_asks. apply IH; [by apply perform_good|done].
Qed.

Lemma interleave_tidy {A B} schedule (p : Script A) (q : Script B) w :
  good w → asks_only tidy p → asks_only tidy q →
  let r := interleave schedule p q w in
  good r.2 ∧ asks_only tidy r.1.1 ∧ asks_only tidy r.1.2.
Proof.
  revert p q w. induction schedule as [|[] s IH]; intros p q w Hgood Hp Hq;
    [done|..]; cbn [interleave].
  - destruct (step_good p w Hgood Hp) as [Hg Hp']. by apply IH.
  - destruct (step_good q w Hgood Hq) as [Hg Hq']. by apply IH.
Qed.
End shared.

(** * The methods are tidy *)

Lemma tidy_never_sets {A} (m : Script A) : never_sets m → asks_only tidy m.
Proof. apply asks_only_mono. by intros []. Qed.

Lemma tidy_updateExpiration key expiration :
  record_of key = None →
  asks_only tidy (updateExpiration_script key expiration).
Proof.
  intros Hkey. unfold updateExpiration_script.
  apply asks_only_bind; [by apply tidy_never_sets; auto with script|].
  intros ts. apply asks_only_ask. cbn [tidy]. fold (expiry_key key).
  rewrite record_of_expiry_key. by apply bool_decide_pack.
Qed.

Lemma tidy_setItem key value expiration :
  record_of key = None →
  asks_only tidy (setItem_script key value expiration).
Proof.
  intros Hkey. unfold setItem_script.
  apply asks_only_bind; [apply asks_only_ask; cbn [tidy]; by rewrite Hkey|].
  intros ret. apply asks_only_bind; [|done].
  destruct (truthy expiration); [by apply tidy_updateExpiration|done].
Qed.

(** The requests of a call on a key that does not start with the prefix
    are tidy, and so are those of a sequence of such calls. *)
Lemma tidy_call_script c : call_ok c → asks_only tidy (call_script c).
Proof.
  intros Hc.
  destruct c as [key value ttl| | | | | | | | |key d|];
    try (apply tidy_never_sets, never_sets_call_script; by intros ? []);
    destruct Hc as [Hkey _]; cbn [call_script];
    (apply asks_only_bind; [|done]).
  - by apply tidy_setItem.
  - by apply tidy_updateExpiration.
Qed.

Lemma tidy_calls_script cs :
  Forall call_ok cs → asks_only tidy (calls_script cs).
Proof.
  induction 1 as [|c cs Hc _ IH]; [done|]. cbn [calls_script].
  apply asks_only_bind; [by apply tidy_call_script|]. intros r.
  by apply asks_only_bind.
Qed.

(** * Two pages *)

Section pages.
Context {St : Type} `{StorageLaws St}.
Implicit Types (w : World St) (cs : list Call) (schedule : list Page).

(** C17. Two pages call the class on one storage area, each its sequence of
    calls, their requests reaching the store in the order of any
    schedule: the world is good after any number of their requests.
    Entries may be lost to a race; the store is never left in a state
    in which the class no longer implements its specification. *)
Theorem interleave_good schedule cs1 cs2 w :
  good w → Forall call_ok cs1 → Forall call_ok cs2 →
  good (interleave schedule (calls_script cs1) (calls_script cs2) w).2.
Proof.
  intros Hgood H1 H2.
  by apply interleave_tidy; [|apply tidy_calls_script..].
Qed.
End pages.

(** * On web storage *)

(** In the middle of "Clear expired", where "test" is expired: one page
    reads "test", which evicts it, and sweeps; the other sets it anew
    and gives it 5 seconds more. *)
Definition page_a : list Call := [CGetItem "test"; CClearExpired].

Definition page_b : list Call :=
  [CSetItem "test" (JString "new") (Some 30); CUpdateExpiration "test" 5].

(** Page A reads the expiry of "test"; page B makes its two calls; page
    A goes on. *)
Definition a_b_a : list Page :=
  replicate 2 PageA ++ replicate 5 PageB ++ replicate 40 PageA.

Section witnesses.

Lemma interleave_good_witness :
  (good web_before_sweep ∧ Forall call_ok page_a ∧ Forall call_ok page_b) ∧
  good (interleave a_b_a (calls_script page_a) (calls_script page_b)
          web_before_sweep).2.
Proof.
  assert (Forall call_ok page_a ∧ Forall call_ok page_b) as [Ha Hb].
  { split; apply (bool_decide_unpack _); by vm_compute. }
  split; [split_and!; [apply good_web_before_sweep|done..]|].
  by apply interleave_good; [apply good_web_before_sweep|..].
Defined.

(** Both pages are done, the calls of page B returned, and nothing is
    left of what it wrote: the entry is lost, the store is good. *)
Example a_b_a_lost :
  let r := interleave a_b_a (calls_script page_a) (calls_script page_b)
             web_before_sweep in
  r.1.1 = Finished [RValue JNull; RKeys ["test2"]] ∧
  r.1.2 = Finished [RValue JUndefined; RValue JUndefined] ∧
  eval (keys true) r.2 = ["stay"; "stay2"].
Proof. by vm_compute. Qed.
End witnesses.
