(* ===== verification/Walk.v ===== *)
(** * Walk: the keys asked for one by one

    Where the store has neither [keys()] nor [Object.keys], [_iterKeys]
    reads [this._storage.length] and then [this._storage.key(i)] for
    each [i] below it.  A storage area answers [key(i)] with [null]
    when [i] is not below its length; in the model a key is a string,
    [Steps.perform] gives the empty string there, and the callbacks of
    [keys] and [clearExpired], which call [storageKey.indexOf], would
    throw a [TypeError] on [null].

    This file shows that the difference cannot be seen in a method that
    runs alone: every [key(i)] a method asks for is [in_range] at the
    moment it is asked ([methods_in_range]), on every store and from
    every world, so that neither the empty string of the model nor the
    [null] of a storage area is ever read.  Between two pages it
    depends on the browser: where the keys are [listed] in one request,
    by [keys()] or by [Object.keys], no schedule takes a request out of
    range ([pages_in_range]); where they are asked for one by one,
    another page can remove an entry between the read of [length] and
    that of [key(i)], and [key_out_of_range] is such a schedule. *)

From S2P Require Import Prelude Loops Js Dict Storage ExpiredStorage Steps.
From S2P Require Import TestStorage WebStorage TestSuite Expiry Sweep Spec.
From S2P Require Import Machine Throwing Caught Observe Tabs.

Section walk.
Context {St : Type} `{!Storage St}.
Implicit Types (w : World St) (r : Request) (key : string).

(** The request has the answer the model gives it: [key(i)] is asked
    below the length of the store. *)
Definition in_range r w : bool :=
  match r with
  | StorageKey i =>
      match st_length with
      | Some length_fn => bool_decide (i < length_fn (storage w))%nat
      | None => false
      end
  | _ => true
  end.

(** Every request the script makes from the world [w] is in range when
    it is made. *)
Fixpoint all_in_range {A} (m : Script A) w : Prop :=
  match m with
  | Finished _ => True
  | Asks r k =>
      in_range r w ∧ all_in_range (k (perform r w).1) (perform r w).2
  end.

(** The requests of the methods of one entry: none lists the keys. *)
Definition of_entry r : bool :=
  match r with
  | StorageGetItem _ | StorageSetItem _ _ | StorageRemoveItem _
  | StorageClear | DateGetTime => true
  | _ => false
  end.

(** The requests that do not ask for a key by its index. *)
Definition no_key r : bool :=
  match r with StorageKey _ => false | _ => true end.

(** ** Scripts *)

Lemma all_in_range_bind {A B} (m : Script A) (f : A → Script B) w :
  all_in_range m w → all_in_range (f (run m w).1) (run m w).2 →
  all_in_range (m ≫= f) w.
Proof.
  revert w. induction m as [a|r k IH]; intros w Hm Hf; [done|].
  destruct Hm as [Hr Hk]. rewrite run_asks in Hf.
  split; [done|]. by apply IH.
Qed.

Lemma no_key_in_range {A} (m : Script A) w :
  asks_only no_key m → all_in_range m w.
Proof.
  revert w. induction m as [a|r k IH]; intros w; [done|]. intros [Hr Hk].
  split; [by destruct r|]. apply IH, Hk.
Qed.

Lemma of_entry_no_key {A} (m : Script A) :
  asks_only of_entry m → asks_only no_key m.
Proof. apply asks_only_mono. by intros []. Qed.

(** ** The loop over [key(i)] *)

(** The loop asks for the keys from [i] to [i + n]: they are in range
    when the store is that long, and the loop leaves the world as it
    is. *)
Lemma collect_keys_in_range length_fn n i keys w :
  st_length = Some length_fn → (i + n ≤ length_fn (storage w))%nat →
  all_in_range (collect_keys_script n i keys) w.
Proof.
  intros Hlen. revert i keys. induction n as [|n IH]; intros i keys Hn; [done|].
  cbn [collect_keys_script mbind script_mbind script_bind ask all_in_range].
  cbn [perform gets fst snd in_range]. rewrite Hlen.
  split; [apply bool_decide_pack; lia|]. apply IH. lia.
Qed.

Lemma collect_keys_world n i keys w :
  (run (collect_keys_script n i keys) w).2 = w.
Proof.
  revert i keys. induction n as [|n IH]; intros i keys; [done|].
  cbn [collect_keys_script mbind script_mbind script_bind ask].
  rewrite run_asks. cbn [perform gets fst snd]. apply IH.
Qed.

(** [_iterKeys] asks for no key out of range, whichever way it lists
    the keys, when its callback asks for none by its index. *)
Lemma _iterKeys_in_range {A} (cb : string → A → Script A) a w :
  (∀ k a, asks_only no_key (cb k a)) →
  all_in_range (_iterKeys_script cb a) w.
Proof.
  intros Hcb.
  assert (∀ keys a w, all_in_range (for_each_script cb keys a) w) as Heach.
  { intros. by apply no_key_in_range, asks_only_for_each. }
  unfold _iterKeys_script.
  cbn [mbind script_mbind script_bind ask all_in_range perform gets fst snd].
  split; [done|]. destruct (@st_keys St _) as [keys_fn|]; [apply Heach|].
  cbn [fmap option_fmap option_map script_bind all_in_range perform gets
       fst snd].
  split; [done|]. destruct (has_Object_keys w); [apply Heach|].
  cbn [script_bind all_in_range perform gets fst snd]. split; [done|].
  destruct (@st_length St _) as [length_fn|] eqn:Hlen,
    (@st_key St _) as [key_fn|].
  - apply (all_in_range_bind (collect_keys_script _ _ _));
      [by apply (collect_keys_in_range length_fn)|].
    rewrite collect_keys_world. apply Heach.
  - apply no_key_in_range. unfold for_in_script. asks_only.
  - apply no_key_in_range. unfold for_in_script. asks_only.
  - apply no_key_in_range. unfold for_in_script. asks_only.
Qed.

(** ** The methods *)

Lemma of_entry_getTimestamp : asks_only of_entry getTimestamp_script.
Proof. unfold getTimestamp_script. asks_only. Qed.
#[local] Hint Resolve of_entry_getTimestamp : script.

Lemma of_entry_getTimeLeft key : asks_only of_entry (getTimeLeft_script key).
Proof. unfold getTimeLeft_script. asks_only. Qed.
#[local] Hint Resolve of_entry_getTimeLeft : script.

Lemma of_entry_isExpired key : asks_only of_entry (isExpired_script key).
Proof. unfold isExpired_script. asks_only. Qed.
#[local] Hint Resolve of_entry_isExpired : script.

Lemma of_entry_removeItem key : asks_only of_entry (removeItem_script key).
Proof. unfold removeItem_script. asks_only. Qed.
#[local] Hint Resolve of_entry_removeItem : script.

Lemma of_entry_updateExpiration key expiration :
  asks_only of_entry (updateExpiration_script key expiration).
Proof. unfold updateExpiration_script. asks_only. Qed.
#[local] Hint Resolve of_entry_updateExpiration : script.

(** The methods of one entry list no keys. *)
Lemma of_entry_call c :
  (∀ includeExpired, c ≠ CKeys includeExpired) → c ≠ CClearExpired →
  asks_only of_entry (call_script c).
Proof.
  intros Hkeys Hsweep.
  destruct c; try done; try (by destruct (Hkeys includeExpired));
    unfold call_script, setItem_script, getItem_script, peek_script,
      clear_script; asks_only.
Qed.

(** The callbacks of [keys] and [clearExpired] are made of them. *)
Lemma no_key_keys_callback includeExpired k ret :
  asks_only no_key (keys_callback_script includeExpired k ret).
Proof. apply of_entry_no_key. unfold keys_callback_script. asks_only. Qed.

Lemma no_key_clearExpired_callback k ret :
  asks_only no_key (clearExpired_callback_script k ret).
Proof.
  apply of_entry_no_key. unfold clearExpired_callback_script. asks_only.
Qed.

Lemma keys_in_range includeExpired w :
  all_in_range (keys_script includeExpired) w.
Proof. apply _iterKeys_in_range, no_key_keys_callback. Qed.

Lemma clearExpired_in_range w : all_in_range clearExpired_script w.
Proof.
  unfold clearExpired_script.
  apply (all_in_range_bind getTimestamp_script);
    [apply no_key_in_range, of_entry_no_key, of_entry_getTimestamp|].
  apply _iterKeys_in_range, no_key_clearExpired_callback.
Qed.

(** C22. Run alone, no method asks the store for a key beyond its length:
    every [key(i)] of [_iterKeys] names a key of the store, so that
    [storageKey.indexOf] never meets [null], whatever the store holds
    and whichever way it lists its keys. *)
Theorem methods_in_range c w : all_in_range (call_script c) w.
Proof.
  destruct (decide (∃ b, c = CKeys b)) as [[b ->]|Hkeys].
  { apply (all_in_range_bind (keys_script b)); [apply keys_in_range|done]. }
  destruct (decide (c = CClearExpired)) as [->|Hsweep].
  { by apply (all_in_range_bind clearExpired_script);
      [apply clearExpired_in_range|]. }
  apply no_key_in_range, of_entry_no_key, of_entry_call; [|done].
  intros b ->. apply Hkeys. by exists b.
Qed.
End walk.

(** * Two pages *)

Section pages.
Context {St : Type} `{!Storage St}.
Implicit Types (w : World St) (r : Request) (schedule : list Page).

(** The request a page makes next is in range, and so is every request
    the two pages make by a schedule. *)
Definition next_in_range {A} (m : Script A) w : bool :=
  match m with
  | Finished _ => true
  | Asks r _ => in_range r w
  end.

Fixpoint interleave_in_range {A B} schedule (p : Script A) (q : Script B) w
    : Prop :=
  match schedule with
  | [] => True
  | PageA :: schedule =>
      next_in_range p w ∧
      let r := step p w in interleave_in_range schedule r.1 q r.2
  | PageB :: schedule =>
      next_in_range q w ∧
      let r := step q w in interleave_in_range schedule p r.1 r.2
  end.

(** The keys are listed in one request: the store has [keys()], or the
    browser [Object.keys]. *)
Definition listed w : Prop := is_Some (@st_keys St _) ∨ has_Object_keys w.

(** The scripts that ask for no key by its index in a world where the
    keys are listed, whatever the store answers. *)
Fixpoint immune {A} (m : Script A) : Prop :=
  match m with
  | Finished _ => True
  | Asks r k => no_key r ∧ ∀ w, listed w → immune (k (perform r w).1)
  end.

Lemma perform_listed r w : listed w → listed (perform r w).2.
Proof.
  intros [Hkeys|Hobj]; [by left|right]. destruct r; try done;
    cbn [perform]; unfold storage_setItem, storage_removeItem, storage_clear;
    by rewrite ?on_storage_run.
Qed.

Lemma no_key_immune {A} (m : Script A) : asks_only no_key m → immune m.
Proof.
  induction m as [a|r k IH]; [done|]. intros [Hr Hk].
  split; [done|]. intros w _. apply IH, Hk.
Qed.

Lemma immune_bind {A B} (m : Script A) (f : A → Script B) :
  immune m → (∀ a, immune (f a)) → immune (m ≫= f).
Proof.
  intros Hm Hf. induction m as [a|r k IH]; [apply Hf|].
  destruct Hm as [Hr Hk]. split; [done|]. intros w Hw. by apply IH, Hk.
Qed.

(** [_iterKeys] is immune: where the keys are listed it takes one of its
    first two branches. *)
Lemma _iterKeys_immune {A} (cb : string → A → Script A) a :
  (∀ k a, asks_only no_key (cb k a)) → immune (_iterKeys_script cb a).
Proof.
  intros Hcb.
  assert (∀ keys a, immune (for_each_script cb keys a)) as Heach.
  { intros. by apply no_key_immune, asks_only_for_each. }
  unfold _iterKeys_script.
  cbn [mbind script_mbind script_bind ask immune perform gets fst snd].
  split; [done|]. intros w _.
  destruct (@st_keys St _) as [keys_fn|] eqn:Hkeys; [apply Heach|].
  cbn [fmap option_fmap option_map script_bind immune perform gets fst snd].
  split; [done|]. unfold listed. rewrite Hkeys. intros w' [[? [=]]|Hobj'].
  destruct (has_Object_keys w'); [apply Heach|by destruct Hobj'].
Qed.

Lemma step_immune {A} (m : Script A) w :
  listed w → immune m →
  next_in_range m w ∧ listed (step m w).2 ∧ immune (step m w).1.
Proof.
  destruct m as [a|r k]; [done|]. intros Hw [Hr Hk]. cbn [step fst snd].
  split_and!; [by destruct r|by apply perform_listed|by apply Hk].
Qed.

(** Where the keys are listed in one request, no schedule takes a
    request of two immune pages out of range. *)
Lemma interleave_immune {A B} schedule (p : Script A) (q : Script B) w :
  listed w → immune p → immune q → interleave_in_range schedule p q w.
Proof.
  revert p q w. induction schedule as [|[] s IH]; intros p q w Hw Hp Hq;
    [done|..]; cbn [interleave_in_range].
  - destruct (step_immune p w Hw Hp) as (Hr & Hw' & Hp'). by split; [|apply IH].
  - destruct (step_immune q w Hw Hq) as (Hr & Hw' & Hq'). by split; [|apply IH].
Qed.

(** Every method is immune. *)
Lemma call_immune c : immune (call_script c).
Proof.
  destruct (decide (∃ b, c = CKeys b)) as [[b ->]|Hkeys].
  { apply immune_bind; [|done].
    apply _iterKeys_immune, no_key_keys_callback. }
  destruct (decide (c = CClearExpired)) as [->|Hsweep].
  { apply immune_bind; [|done]. unfold clearExpired_script.
    apply immune_bind;
      [apply no_key_immune, of_entry_no_key, of_entry_getTimestamp|].
    intros _. apply _iterKeys_immune, no_key_clearExpired_callback. }
  apply no_key_immune, of_entry_no_key, of_entry_call; [|done].
  intros b ->. apply Hkeys. by exists b.
Qed.

(** C23. In a browser that has [Object.keys], or over a store that has
    [keys()], two pages can call any methods in any order of their
    requests: no [key(i)] is asked out of range. *)
Theorem pages_in_range schedule c1 c2 w :
  listed w → interleave_in_range schedule (call_script c1) (call_script c2) w.
Proof. intros Hw. apply interleave_immune; [done|apply call_immune..]. Qed.
End pages.

(** * On the stores of the test suite *)

(** An old browser, without [Object.keys], whose storage area holds one
    entry.  Page B removes it while page A lists the keys: A has read
    the length, 1, when B removes the entry, and asks for [key(0)] of a
    store that is empty. *)
Definition one_entry : World WebStore :=
  exec (setItem "a" (JString "x") JUndefined) old_web_browser.

Definition overtaken_walk : list Page := [PageA; PageA; PageA; PageB; PageB].

(** The request a script makes next. *)
Definition next_request {A} (m : Script A) : option Request :=
  match m with
  | Finished _ => None
  | Asks r _ => Some r
  end.

Lemma pages_in_range_witness :
  listed web_before_sweep ∧
  interleave_in_range (overtaken_walk ++ overtaken_walk)
    (call_script (CKeys false)) (call_script (CRemoveItem "test"))
    web_before_sweep.
Proof. split; [by right|]. apply pages_in_range. by right. Defined.

(** Alone, [keys] stays in range there; overtaken, it asks for
    [key(0)] when the store has no key left.  The model then reads the
    empty string and lists it as a key, where a storage area answers
    [null] and the callback throws. *)
Example key_out_of_range :
  let r := interleave overtaken_walk (keys_script false)
             (removeItem_script "a") one_entry in
  all_in_range (keys_script false) one_entry ∧
  ¬ listed one_entry ∧
  next_request r.1.1 = Some (StorageKey 0) ∧
  localStorage_length (storage r.2) = 0%nat ∧
  next_in_range r.1.1 r.2 = false ∧
  ¬ interleave_in_range (overtaken_walk ++ [PageA]) (keys_script false)
      (removeItem_script "a") one_entry ∧
  (run r.1.1 r.2).1 = [""].
Proof.
  split; [apply keys_in_range|]. split; [by intros [[? [=]]|[]]|].
  split_and!; [by vm_compute..| |by vm_compute].
  cbn. by intros (_ & _ & _ & _ & _ & [] & _).
Qed.
