(* ===== verification/Serial.v ===== *)
(** * Serial: two pages, one call at a time

    [Tabs] lets the requests of two pages reach the store in any order,
    and entries are lost to races.  Where each call is made without
    interruption, as under the storage mutex of the HTML standard, the
    calls of the two pages are one sequence of calls: [serial] is the
    schedule that lets each call make all its requests in turn, and
    [serial_run] shows that the pages then get the results, and leave
    the world, of that sequence run by [Machine.trace].  So the
    refinement of [Machine] applies: what the two pages see is a trace
    of the abstract machine ([serial_refinement]).

    The scripts of the pages are followed through the schedule by
    [continues], which says of a script that it makes the requests of
    another and goes on from its result: no equation between
    continuations is needed. *)

From S2P Require Import Prelude Js Dict Storage ExpiredStorage.
From S2P Require Import TestStorage WebStorage TestSuite Expiry Sweep.
From S2P Require Import Spec Machine Steps Throwing Caught Observe Tabs Shared.

(** The script [p] makes the requests of [m] and goes on as [F] from its
    result. *)
Fixpoint continues {A B} (p : Script B) (m : Script A) (F : A → Script B)
    : Prop :=
  match m with
  | Finished a => p = F a
  | Asks r k => ∃ k', p = Asks r k' ∧ ∀ a, continues (k' a) (k a) F
  end.

(** The calls of a page among calls tagged with the page that makes
    them, and the results of a page among the results of all. *)
Definition calls_of (P : Page) (tcs : list (Page * Call)) : list Call :=
  (filter (λ pc, pc.1 = P) tcs).*2.

Fixpoint pick (P : Page) (tags : list Page) (rs : list Result)
    : list Result :=
  match tags, rs with
  | Q :: tags, r :: rs =>
      (if decide (Q = P) then [r] else []) ++ pick P tags rs
  | _, _ => []
  end.

(** The calls a page makes: any but the passing of time, which is not a
    call. *)
Definition page_call_ok (c : Call) : Prop :=
  call_ok c ∧ ∀ ms, c ≠ CTick ms.

#[export] Instance page_call_ok_dec c : Decision (page_call_ok c).
Proof.
  destruct (decide (call_ok c)) as [Hc|Hc]; [|right; by intros [? _]].
  destruct c; try (left; by split);
    right; intros [_ Ht]; by eapply Ht.
Defined.

Section serial.
Context {St : Type} `{ListableStorage St}.
Implicit Types (w : World St) (c : Call) (tcs : list (Page * Call)).

(** The schedule of the requests of a sequence of tagged calls, each
    made without interruption. *)
Fixpoint serial tcs w : list Page :=
  match tcs with
  | [] => []
  | (P, c) :: tcs =>
      replicate (requests (call_script c) w) P ++
      serial tcs (run (call_script c) w).2
  end.

(** ** Scripts that continue scripts *)

Lemma continues_refl {A} (m : Script A) : continues m m Finished.
Proof. induction m as [a|r k IH]; [done|]. by exists k. Qed.

Lemma continues_snoc {A B} (p : Script B) (m : Script (list A)) a
    (K : list A → Script B) :
  continues p (m ≫= λ l, mret (a :: l)) K →
  continues p m (λ l, K (a :: l)).
Proof.
  revert p. induction m as [l|r k IH]; intros p; [done|].
  intros (k' & -> & Hk). exists k'. split; [done|]. intros x. apply IH, Hk.
Qed.

(** Left alone for the requests of [m], a script that continues
    [m ≫= G] has made them and continues [G] of the result. *)
Lemma alone_continues {A B C} (p : Script C) (m : Script A)
    (G : A → Script B) (K : B → Script C) w :
  continues p (m ≫= G) K →
  (alone (requests m w) p w).2 = (run m w).2 ∧
  continues (alone (requests m w) p w).1 (G (run m w).1) K.
Proof.
  revert p w. induction m as [a|r k IH]; intros p w Hp; [done|].
  destruct Hp as (k' & -> & Hk). cbn [requests]. rewrite alone_S, run_asks.
  apply IH, Hk.
Qed.

(** ** The schedule of calls made one at a time *)

Lemma serial_run tcs w {A B} (pA : Script A) (pB : Script B) KA KB :
  Forall (λ pc, page_call_ok pc.2) tcs →
  continues pA (calls_script (calls_of PageA tcs)) KA →
  continues pB (calls_script (calls_of PageB tcs)) KB →
  let results := (eval (trace tcs.*2) w).*2 in
  interleave (serial tcs w) pA pB w =
  (KA (pick PageA tcs.*1 results), KB (pick PageB tcs.*1 results),
   exec (trace tcs.*2) w).
Proof.
  intros Hok. revert w pA pB KA KB.
  induction Hok as [|[P c] tcs [_ Hc] _ IH]; intros w pA pB KA KB HA HB.
  { cbn in HA, HB. by subst. }
  cbn [serial fmap list_fmap fst snd]. unfold eval, exec.
  rewrite trace_cons, interleave_app. cbn [fst snd fmap list_fmap pick].
  destruct P; unfold calls_of in HA, HB; cbn [filter list_filter] in HA, HB.
  - rewrite decide_True in HA by done. rewrite decide_False in HB by done.
    cbn [fmap list_fmap snd calls_script] in HA.
    destruct (alone_continues pA _ _ KA w HA) as [Hw Hp%continues_snoc].
    rewrite interleave_PageA, Hw. cbn [fst snd].
    rewrite decide_True, decide_False by done.
    rewrite (IH _ _ pB _ KB Hp HB). by rewrite (run_call_script c w Hc).
  - rewrite decide_False in HA by done. rewrite decide_True in HB by done.
    cbn [fmap list_fmap snd calls_script] in HB.
    destruct (alone_continues pB _ _ KB w HB) as [Hw Hp%continues_snoc].
    rewrite interleave_PageB, Hw. cbn [fst snd].
    rewrite decide_False, decide_True by done.
    rewrite (IH _ pA _ KA _ HA Hp). by rewrite (run_call_script c w Hc).
Qed.

(** C18. Two pages whose calls are made one at a time, in the order of
    [tcs]: each page gets the results of its calls in the sequence of
    all the calls, which is a trace of the abstract machine, and the
    world stays good. *)
Theorem serial_refinement tcs w :
  good w → Forall (λ pc, page_call_ok pc.2) tcs →
  let r := interleave (serial tcs w) (calls_script (calls_of PageA tcs))
             (calls_script (calls_of PageB tcs)) w in
  let results := (eval (trace tcs.*2) w).*2 in
  r.1.1 = Finished (pick PageA tcs.*1 results) ∧
  r.1.2 = Finished (pick PageB tcs.*1 results) ∧
  spec_steps St (abs_world w) (eval (trace tcs.*2) w) (abs_world r.2) ∧
  good r.2.
Proof.
  intros Hgood Hok r results. unfold r.
  rewrite (serial_run tcs w _ _ Finished Finished Hok)
    by apply continues_refl.
  assert (Forall call_ok tcs.*2) as Hcs.
  { apply Forall_fmap. eapply Forall_impl; [done|]. by intros ? [? _]. }
  destruct (trace_refines tcs.*2 w Hgood Hcs) as (Hs & Ha & Hg).
  cbn [fst snd]. rewrite Ha. by split_and!.
Qed.
End serial.

(** * On web storage *)

(** The calls of the two pages of [Shared], with a read at the end, in
    the middle of "Clear expired" where "test" is expired: page A reads
    "test", page B sets it anew and gives it 5 seconds more, page A
    sweeps, page B reads. *)
Definition taken_in_turn : list (Page * Call) :=
  [(PageA, CGetItem "test");
   (PageB, CSetItem "test" (JString "new") (Some 30));
   (PageB, CUpdateExpiration "test" 5); (PageA, CClearExpired);
   (PageB, CGetItem "test")].

Lemma serial_refinement_witness :
  (good web_before_sweep ∧ Forall (λ pc, page_call_ok pc.2) taken_in_turn) ∧
  let r := interleave (serial taken_in_turn web_before_sweep)
             (calls_script (calls_of PageA taken_in_turn))
             (calls_script (calls_of PageB taken_in_turn)) web_before_sweep in
  let results := (eval (trace taken_in_turn.*2) web_before_sweep).*2 in
  r.1.1 = Finished (pick PageA taken_in_turn.*1 results) ∧
  r.1.2 = Finished (pick PageB taken_in_turn.*1 results) ∧
  spec_steps WebStore (abs_world web_before_sweep)
    (eval (trace taken_in_turn.*2) web_before_sweep) (abs_world r.2) ∧
  good r.2.
Proof.
  assert (Forall (λ pc, page_call_ok pc.2) taken_in_turn) as Hok.
  { apply (bool_decide_unpack _). by vm_compute. }
  split; [split; [apply good_web_before_sweep|done]|].
  apply serial_refinement; [apply good_web_before_sweep|done].
Defined.

(** One call at a time, nothing is lost: the entry page B sets is
    there after the sweep of page A, which removes "test2" alone.  By
    the schedule [Shared.a_b_a], where page B makes its calls between
    the requests of the first call of page A, the same calls lose
    it. *)
Example taken_in_turn_kept :
  let r := interleave (serial taken_in_turn web_before_sweep)
             (calls_script (calls_of PageA taken_in_turn))
             (calls_script (calls_of PageB taken_in_turn)) web_before_sweep in
  length (serial taken_in_turn web_before_sweep) = 23%nat ∧
  r.1.1 = Finished [RValue JNull; RKeys ["test2"]] ∧
  r.1.2 =
    Finished [RValue JUndefined; RValue JUndefined; RValue (JString "new")].
Proof. by vm_compute. Qed.
