(* ===== verification/Apart.v ===== *)
(** * Apart: two pages that call the class on different entries

    [Tabs] shows what two pages lose to each other on one key.  Here
    each page makes a sequence of calls of the methods of one entry
    ([setItem], [getItem], [getTimeLeft], [isExpired], [removeItem],
    [updateExpiration], [peek]), on keys of its own: no key of one page
    is a key of the other, or the expiry record of one.  Every such
    method asks the store for the value and the expiry record of its
    key and for nothing else ([within_call_script]), so the pages do
    not see each other, whatever the order in which their requests
    reach the store: each page gets the results the class gives it
    alone, and its entries are left as its calls alone leave them
    ([calls_apart]).  The methods that walk the store ([keys],
    [clearExpired]) and [clear] are not calls on an entry, and
    [Tabs.clearExpired_setItem_race] shows why. *)

From S2P Require Import Prelude Js Dict Storage ExpiredStorage.
From S2P Require Import TestStorage WebStorage TestSuite Expiry Sweep.
From S2P Require Import Spec Machine Steps Cost Throwing Caught Observe.
From S2P Require Import Tabs Shared.

(** The entry a call is on: none for the calls that walk the store or
    clear it, and for the passing of time. *)
Definition call_key (c : Call) : option string :=
  match c with
  | CSetItem key _ _ | CGetItem key | CGetTimeLeft key | CIsExpired key
  | CRemoveItem key | CUpdateExpiration key _ | CPeek key => Some key
  | CKeys _ | CClear | CClearExpired | CTick _ => None
  end.

(** The calls on the entries of [keys]. *)
Definition on_entries (keys : list string) (c : Call) : Prop :=
  match call_key c with Some key => key ∈ keys | None => False end.

#[export] Instance on_entries_dec keys c : Decision (on_entries keys c).
Proof. unfold on_entries. destruct (call_key c); apply _. Defined.

(** The storage keys of the entries of [keys]: the keys and their
    expiry records. *)
Definition entries (keys : list string) (k : string) : bool :=
  bool_decide (Exists (λ key, entry key k) keys).

(** Two lists of keys are apart when no key of one is a key of the
    other, or the expiry record of one. *)
Definition apart (keys1 keys2 : list string) : Prop :=
  Forall (λ key1, Forall (λ key2,
    key1 ≠ key2 ∧ key1 ≠ expiry_key key2 ∧ key2 ≠ expiry_key key1) keys2) keys1.

#[export] Instance apart_dec keys1 keys2 : Decision (apart keys1 keys2).
Proof. unfold apart. apply _. Defined.

Lemma entry_entries keys key k : key ∈ keys → entry key k → entries keys k.
Proof.
  intros Hkey Hk. apply bool_decide_pack, Exists_exists. by exists key.
Qed.

Lemma entries_apart keys1 keys2 :
  apart keys1 keys2 → ∀ k, entries keys1 k → entries keys2 k → False.
Proof.
  unfold apart. rewrite Forall_forall. intros Hapart k.
  intros (key1 & H1 & Hk1)%bool_decide_unpack%Exists_exists.
  intros (key2 & H2 & Hk2)%bool_decide_unpack%Exists_exists.
  specialize (Hapart key1 H1). rewrite Forall_forall in Hapart.
  destruct (Hapart key2 H2) as (? & ? & ?).
  by apply (entry_apart key1 key2) with k.
Qed.

(** The calls of a sequence that are calls of the class: all but the
    passing of time. *)
Lemma on_entries_no_tick keys c : on_entries keys c → ∀ ms, c ≠ CTick ms.
Proof. by intros Hc ms ->. Qed.

Section scripts.
Context {St : Type} `{ListableStorage St}.
Implicit Types (w : World St) (c : Call) (cs : list Call).

(** The script of a sequence of calls, run to its end, is the sequence
    of the calls. *)
Lemma run_calls_script cs w :
  Forall (λ c, ∀ ms, c ≠ CTick ms) cs →
  run (calls_script cs) w = ((eval (trace cs) w).*2, exec (trace cs) w).
Proof.
  intros Hcs. revert w. induction Hcs as [|c cs Hc _ IH]; intros w; [done|].
  cbn [calls_script]. rewrite run_script_bind, (run_call_script c w Hc).
  rewrite run_script_bind, IH. unfold eval, exec. by rewrite trace_cons.
Qed.

(** A call on an entry makes four requests at most. *)
Lemma call_requests c :
  is_Some (call_key c) → at_most (St:=St) 4 (call_script c).
Proof.
  intros [key Hc]. destruct c; try done; cbn [call_script];
    (eapply (at_most_bind 4 0); [|intros; apply at_most_ret|done]);
    (eapply at_most_mono; [|shelve]);
    first [apply setItem_requests|apply getItem_requests
          |apply getTimeLeft_requests|apply isExpired_requests
          |apply removeItem_requests|apply updateExpiration_requests
          |apply peek_requests].
  Unshelve. all: lia.
Qed.

Lemma calls_requests keys cs :
  Forall (on_entries keys) cs →
  at_most (St:=St) (4 * length cs) (calls_script cs).
Proof.
  induction 1 as [|c cs Hc _ IH]; [apply at_most_ret|]. cbn [calls_script].
  apply (at_most_bind 4 (4 * length cs)); [| |cbn [length]; lia].
  - apply call_requests. unfold on_entries in Hc. by destruct (call_key c).
  - intros r. by apply (at_most_bind (4 * length cs) 0);
      [|intros; apply at_most_ret|lia].
Qed.
End scripts.

(** * The requests of a call on an entry *)

(** A call on an entry of [keys] asks for the keys of that entry alone,
    and for the clock. *)
Lemma within_call_script keys c :
  on_entries keys c → asks_only (within (entries keys)) (call_script c).
Proof.
  unfold on_entries. destruct (call_key c) as [key|] eqn:Hc; [|done].
  intros Hkey. apply (asks_only_mono (within (entry key))).
  { intros r. apply within_mono. intros k. by apply entry_entries. }
  destruct c; cbn [call_key] in Hc; simplify_eq; cbn [call_script];
    (apply asks_only_bind; [|done]);
    auto using within_setItem, within_getItem, within_getTimeLeft,
      within_isExpired, within_removeItem, within_updateExpiration,
      within_peek.
Qed.

Lemma within_calls_script keys cs :
  Forall (on_entries keys) cs →
  asks_only (within (entries keys)) (calls_script cs).
Proof.
  induction 1 as [|c cs Hc _ IH]; [done|]. cbn [calls_script].
  apply asks_only_bind; [by apply within_call_script|]. intros r.
  by apply asks_only_bind.
Qed.

(** * Two pages on entries of their own *)

Section pages.
Context {St : Type} `{ListableStorage St} `{!VoidStorage St}.
Implicit Types (w : World St) (cs : list Call) (schedule : list Page).
Implicit Types keys : list string.

(** What a page that had its turns finds, against what it would have
    alone. *)
Lemma calls_alone keys cs n w :
  Forall (on_entries keys) cs → (4 * length cs ≤ n)%nat →
  alone n (calls_script cs) w =
  (Finished (eval (trace cs) w).*2, exec (trace cs) w).
Proof.
  intros Hcs Hn. rewrite alone_enough
    by (etrans; [by eapply calls_requests|done]).
  rewrite run_calls_script; [done|].
  eapply Forall_impl; [done|]. apply on_entries_no_tick.
Qed.

(** Worlds that agree on the entries of [keys] serve the same values
    for them, with the same expiry. *)
Lemma agree_entries keys w1 w2 key :
  agree (entries keys) w1 w2 → key ∈ keys →
  eval (getItem key) w1 = eval (getItem key) w2 ∧
  expiry key w1 = expiry key w2.
Proof.
  intros Hw Hkey.
  assert (agree (entry key) w1 w2) as Hentry.
  { eapply agree_mono; [|done]. intros k. by apply entry_entries. }
  split; [by apply agree_getItem|by apply agree_expiry].
Qed.

(** C24. Two pages call the methods of the class on entries of their own,
    page A the calls [cs1] on the keys of [keys1] and page B the calls
    [cs2] on those of [keys2], their requests reaching the store in the
    order of any schedule that gives both the turns to finish (four
    requests a call).  Each page gets the results its calls have
    alone, and each entry is served afterwards, value and expiry, as
    the calls of its page alone leave it: nothing a page does on its
    keys is seen or undone by the other. *)
Theorem calls_apart keys1 keys2 cs1 cs2 schedule w :
  apart keys1 keys2 →
  Forall (on_entries keys1) cs1 → Forall (on_entries keys2) cs2 →
  (4 * length cs1 ≤ length (filter (PageA =.) schedule))%nat →
  (4 * length cs2 ≤ length (filter (PageB =.) schedule))%nat →
  let r := interleave schedule (calls_script cs1) (calls_script cs2) w in
  let w1 := exec (trace cs1) w in
  let w2 := exec (trace cs2) w in
  r.1 = (Finished (eval (trace cs1) w).*2,
         Finished (eval (trace cs2) w).*2) ∧
  (∀ key, key ∈ keys1 →
     eval (getItem key) r.2 = eval (getItem key) w1 ∧
     expiry key r.2 = expiry key w1) ∧
  (∀ key, key ∈ keys2 →
     eval (getItem key) r.2 = eval (getItem key) w2 ∧
     expiry key r.2 = expiry key w2).
Proof.
  intros Hapart Hcs1 Hcs2 Ha Hb. cbv zeta.
  destruct (interleave_alone (entries keys1) (entries keys2) schedule
    (calls_script cs1) (calls_script cs2) w w w)
    as (Hp & Hq & Hw1 & Hw2);
    [by apply entries_apart|by apply within_calls_script..|done|done|].
  rewrite (calls_alone keys1) in Hp, Hw1 by done.
  rewrite (calls_alone keys2) in Hq, Hw2 by done.
  split_and!; [by apply injective_projections|intros key Hkey..];
    by eapply agree_entries.
Qed.
End pages.

(** * On web storage *)

(** Page A sets "a", reads "c" and gives "a" five seconds; page B sets
    "b" and removes it, and sets "d" for ever.  Their requests reach
    the store in turn, then those that page A has left. *)
Definition calls_a : list Call :=
  [CSetItem "a" (JString "one") (Some 10); CGetItem "c";
   CUpdateExpiration "a" 5].

Definition calls_b : list Call :=
  [CSetItem "b" (JString "two") (Some 20); CRemoveItem "b";
   CSetItem "d" (JString "four") None].

Definition in_turn : list Page :=
  concat (replicate 12 [PageA; PageB]).

Section witnesses.

Lemma calls_apart_witness :
  (apart ["a"; "c"] ["b"; "d"] ∧
   Forall (on_entries ["a"; "c"]) calls_a ∧
   Forall (on_entries ["b"; "d"]) calls_b ∧
   (4 * length calls_a ≤ length (filter (PageA =.) in_turn))%nat ∧
   (4 * length calls_b ≤ length (filter (PageB =.) in_turn))%nat) ∧
  let r := interleave in_turn (calls_script calls_a) (calls_script calls_b)
             web_browser in
  let w1 := exec (trace calls_a) web_browser in
  let w2 := exec (trace calls_b) web_browser in
  r.1 = (Finished (eval (trace calls_a) web_browser).*2,
         Finished (eval (trace calls_b) web_browser).*2) ∧
  (∀ key, key ∈ ["a"; "c"] →
     eval (getItem key) r.2 = eval (getItem key) w1 ∧
     expiry key r.2 = expiry key w1) ∧
  (∀ key, key ∈ ["b"; "d"] →
     eval (getItem key) r.2 = eval (getItem key) w2 ∧
     expiry key r.2 = expiry key w2).
Proof.
  assert (apart ["a"; "c"] ["b"; "d"]) as Hapart
    by (apply (bool_decide_unpack _); by vm_compute).
  assert (Forall (on_entries ["a"; "c"]) calls_a) as Ha
    by (apply (bool_decide_unpack _); by vm_compute).
  assert (Forall (on_entries ["b"; "d"]) calls_b) as Hb
    by (apply (bool_decide_unpack _); by vm_compute).
  split; [split_and!; [done..|vm_compute; lia|vm_compute; lia]|].
  apply calls_apart; [done..|vm_compute; lia|vm_compute; lia].
Defined.

(** What the two pages get and leave: the results of their calls, "a"
    with the time to live page A gave it last, "d" with none, and "b"
    gone. *)
Example in_turn_values :
  let r := interleave in_turn (calls_script calls_a) (calls_script calls_b)
             web_browser in
  r.1.1 = Finished [RValue JUndefined; RValue JNull; RValue JUndefined] ∧
  r.1.2 = Finished [RValue JUndefined; RValue JUndefined; RValue JUndefined] ∧
  eval (getItem "a") r.2 = JString "one" ∧
  expiry "a" r.2 = Some (now web_browser + 5) ∧
  eval (getItem "b") r.2 = JNull ∧
  eval (getItem "d") r.2 = JString "four" ∧ expiry "d" r.2 = None.
Proof. by vm_compute. Qed.
End witnesses.
