(* ===== verification/Wrapper.v ===== *)
(** * Wrapper: how the class reaches its clients

    The end of src/dist/expired_storage.js: the class is given its three
    api params and handed to whichever module system the script finds,
    the first of: an AMD loader ([define] with [define.amd]), CommonJS
    with a [module] object, CommonJS with [exports] alone, the object
    the script was run with ([root], the window of a browser).  The
    environment [Env] holds what the tests of the wrapper look at and
    what its assignments change; [load] is the script run once in it.

    Modelled from the source but for the module systems themselves: what
    an AMD loader does with the factory it is handed, and that the
    object a CommonJS loader hands to the clients of a module is the one
    [exports] was bound to when the module started. *)

From S2P Require Import Prelude.

(** ** The class object *)

(** The constructor as a value, with the three params the wrapper adds to
    it. *)
Record ClassObject : Type := mkClass {
  version : string;
  author : string;
  gitUrl : string;
}.

#[export] Instance ClassObject_eq_dec : EqDecision ClassObject.
Proof. solve_decision. Defined.

Definition ExpiredStorage_class : ClassObject := {|
  version := "1.0.2";
  author := "Ronen Ness";
  gitUrl := "https://github.com/RonenNess/ExpiredStorage";
|}.

(** ** The environment *)

(** The values the wrapper meets: [undefined], an object that is not the
    class, a class. *)
Inductive Value : Type :=
  | VUndefined
  | VObject
  | VClass (c : ClassObject).

#[export] Instance Value_eq_dec : EqDecision Value.
Proof. solve_decision. Defined.

Definition value_truthy (v : Value) : bool :=
  match v with VUndefined => false | VObject | VClass _ => true end.

(** [typeof v === "object"]; a class is a function. *)
Definition typeof_object (v : Value) : bool :=
  match v with VObject => true | VUndefined | VClass _ => false end.

Record Env : Type := mkEnv {
  (** [define]: [None] when it is not a function, else whether
      [define.amd] is truthy *)
  env_define : option bool;
  (** what the factories handed to [define] return, latest first *)
  env_defined : list ClassObject;
  (** [module.exports], [None] when [module] is not an object *)
  env_module : option Value;
  (** what the identifier [exports] is bound to *)
  env_exports : Value;
  (** the object the loader of a module without [module] will hand to
      its clients *)
  env_loader_exports : Value;
  (** [root.ExpiredStorage], [None] when [root], the [this] of the
      script, is undefined *)
  env_root : option Value;
}.

#[export] Instance Env_eq_dec : EqDecision Env.
Proof. solve_decision. Defined.

(** The four tests, in the order of the source. *)
Definition has_amd (e : Env) : bool := default false (env_define e).

Definition has_module (e : Env) : bool :=
  from_option value_truthy false (env_module e).

Definition has_exports (e : Env) : bool :=
  typeof_object (env_exports e) && value_truthy (env_exports e).

Definition has_root (e : Env) : bool :=
  from_option (λ v, negb (value_truthy v)) false (env_root e).

(** The branch taken. *)
Inductive ModuleSystem : Type :=
  | AMD
  | CommonJS
  | CommonJSExports
  | Root
  | NoSystem.

#[export] Instance ModuleSystem_eq_dec : EqDecision ModuleSystem.
Proof. solve_decision. Defined.

Definition module_system (e : Env) : ModuleSystem :=
  if has_amd e then AMD
  else if has_module e then CommonJS
  else if has_exports e then CommonJSExports
  else if has_root e then Root
  else NoSystem.

(** ** The script *)

(** The [if ... else if] chain that registers the class [c]. *)
Definition register (c : ClassObject) (e : Env) : Env :=
  if has_amd e then
    mkEnv (env_define e) (c :: env_defined e) (env_module e)
      (env_exports e) (env_loader_exports e) (env_root e)
  else if has_module e then
    mkEnv (env_define e) (env_defined e) (Some (VClass c))
      (env_exports e) (env_loader_exports e) (env_root e)
  else if has_exports e then
    mkEnv (env_define e) (env_defined e) (env_module e)
      (VClass c) (env_loader_exports e) (env_root e)
  else if has_root e then
    mkEnv (env_define e) (env_defined e) (env_module e)
      (env_exports e) (env_loader_exports e) (Some (VClass c))
  else e.

(** The script run once: it registers the class and returns it. *)
Definition load : State Env ClassObject :=
  modify (register ExpiredStorage_class);; mret ExpiredStorage_class.

(** What a client of the module system [ms] obtains. *)
Definition obtained (ms : ModuleSystem) (e : Env) : Value :=
  match ms with
  | AMD => from_option VClass VUndefined (head (env_defined e))
  | CommonJS => default VUndefined (env_module e)
  | CommonJSExports => env_loader_exports e
  | Root => default VUndefined (env_root e)
  | NoSystem => VUndefined
  end.

(** The environments of the repository: the page of the tests, where the
    script is run by a [script] element of a browser without a module
    loader, and node. *)
Definition browser_page : Env :=
  mkEnv None [] None VUndefined VUndefined (Some VUndefined).

Definition node_module : Env :=
  mkEnv None [] (Some VObject) VObject VObject (Some VObject).

(** A CommonJS loader that gives the module [exports] and no [module]. *)
Definition exports_only : Env :=
  mkEnv None [] None VObject VObject (Some VObject).

(** * What the script does *)

Lemma load_run e :
  load e = (ExpiredStorage_class, register ExpiredStorage_class e).
Proof. done. Qed.

Lemma exec_load e : exec load e = register ExpiredStorage_class e.
Proof. done. Qed.

(** The tests of the wrapper, from the branch taken. *)
Lemma module_system_tests e :
  match module_system e with
  | AMD => has_amd e = true
  | CommonJS => has_amd e = false ∧ has_module e = true
  | CommonJSExports =>
      has_amd e = false ∧ has_module e = false ∧ has_exports e = true
  | Root =>
      has_amd e = false ∧ has_module e = false ∧ has_exports e = false ∧
      has_root e = true
  | NoSystem =>
      has_amd e = false ∧ has_module e = false ∧ has_exports e = false ∧
      has_root e = false
  end.
Proof.
  unfold module_system.
  by destruct (has_amd e), (has_module e), (has_exports e), (has_root e).
Qed.

(** The script returns the class with its three params, whatever the
    environment. *)
Theorem load_returns e :
  eval load e = mkClass "1.0.2" "Ronen Ness"
                  "https://github.com/RonenNess/ExpiredStorage".
Proof. done. Qed.

(** The class goes to the first module system found, and to that one
    only: the others are left as they were. *)
Theorem load_registers e :
  let e' := exec load e in
  match module_system e with
  | AMD =>
      env_defined e' = ExpiredStorage_class :: env_defined e ∧
      env_module e' = env_module e ∧ env_exports e' = env_exports e ∧
      env_root e' = env_root e
  | CommonJS =>
      env_module e' = Some (VClass ExpiredStorage_class) ∧
      env_defined e' = env_defined e ∧ env_exports e' = env_exports e ∧
      env_root e' = env_root e
  | CommonJSExports =>
      env_exports e' = VClass ExpiredStorage_class ∧
      env_defined e' = env_defined e ∧ env_module e' = env_module e ∧
      env_root e' = env_root e
  | Root =>
      env_root e' = Some (VClass ExpiredStorage_class) ∧
      env_defined e' = env_defined e ∧ env_module e' = env_module e ∧
      env_exports e' = env_exports e
  | NoSystem => e' = e
  end.
Proof.
  rewrite exec_load. unfold module_system, register.
  by destruct (has_amd e), (has_module e), (has_exports e), (has_root e).
Qed.

(** With AMD, with a [module] object and in a page, the client obtains
    the class. *)
Theorem load_obtained e :
  module_system e ≠ CommonJSExports → module_system e ≠ NoSystem →
  obtained (module_system e) (exec load e) = VClass ExpiredStorage_class.
Proof.
  rewrite exec_load. unfold module_system, register.
  by destruct (has_amd e), (has_module e), (has_exports e), (has_root e).
Qed.

(** C28. With [exports] alone the assignment rebinds the identifier: the
    object the loader hands to the clients is the one it was, and the
    class is not in it. *)
Theorem load_exports_lost e :
  module_system e = CommonJSExports →
  obtained CommonJSExports (exec load e) = obtained CommonJSExports e ∧
  env_exports (exec load e) = VClass ExpiredStorage_class.
Proof.
  intros Hms. pose proof (module_system_tests e) as Ht.
  rewrite Hms in Ht. destruct Ht as (Ha & Hm & Hx).
  rewrite exec_load. unfold register. by rewrite Ha, Hm, Hx.
Qed.

(** A class, or anything truthy, already under [root.ExpiredStorage]
    stays: the script run again changes nothing in a page. *)
Theorem load_twice e :
  module_system e = Root → exec load (exec load e) = exec load e.
Proof.
  intros Hms. pose proof (module_system_tests e) as Ht.
  rewrite Hms in Ht. destruct Ht as (Ha & Hm & Hx & Hr).
  rewrite !exec_load. unfold register at 2. rewrite Ha, Hm, Hx, Hr.
  unfold register, has_amd, has_module, has_exports, has_root in *. cbn.
  by rewrite Ha, Hm, Hx, Hr.
Qed.

(** ** In the environments of the repository *)

Lemma load_obtained_witness :
  (module_system browser_page ≠ CommonJSExports ∧
   module_system browser_page ≠ NoSystem) ∧
  obtained (module_system browser_page) (exec load browser_page) =
  VClass ExpiredStorage_class.
Proof. split; [done|]. by apply load_obtained. Defined.

Lemma load_exports_lost_witness :
  module_system exports_only = CommonJSExports ∧
  obtained CommonJSExports (exec load exports_only) =
    obtained CommonJSExports exports_only ∧
  env_exports (exec load exports_only) = VClass ExpiredStorage_class.
Proof. split; [done|]. by apply load_exports_lost. Defined.

Lemma load_twice_witness :
  module_system browser_page = Root ∧
  exec load (exec load browser_page) = exec load browser_page.
Proof. split; [done|]. by apply load_twice. Defined.

(** In the page of the tests the class ends under [window.ExpiredStorage];
    in node under [module.exports]; with [exports] alone the client gets
    the empty object. *)
Example load_examples :
  env_root (exec load browser_page) = Some (VClass ExpiredStorage_class) ∧
  obtained CommonJS (exec load node_module) = VClass ExpiredStorage_class ∧
  obtained CommonJSExports (exec load exports_only) = VObject.
Proof. done. Qed.
